(* ===== verification/_CoqProject ===== *)
-Q . S2P
Prelude.v
Intset.v
UtilNum.v
Glob.v
Ziplist.v
ZiplistFacts.v
ZiplistOps.v
ZiplistRun.v
ZiplistPos.v
Dict.v
Siphash.v
DictFacts.v
DictLive.v
DictIter.v
DictScan.v
Crc.v
Rand48.v
Endian.v
Lzf.v
Effects.v
Quicklist.v
QuicklistHeap.v
QuicklistFacts.v
QuicklistOps.v
QuicklistEdit.v
QuicklistDup.v
QuicklistInner.v
QuicklistInsert.v
QuicklistRange.v
QuicklistIter.v
QuicklistRun.v
Sds.v
SdsArgs.v
Object.v
Rio.v
Proto.v
ProtoSafe.v
ProtoFacts.v
Rdb.v
RdbLoad.v
Dump.v
Js.v
FilesApp.v
AppTrace.v
AppSystem.v
AppMemory.v
AppFiles.v
AppUpload.v
AppSession.v
