(* ===== verification/Prelude.v ===== *)
(** * A verification of the files manager and of the Redis server it ships

    The repository holds a small HTTP application in JavaScript (controllers/,
    routes/, utils/, worker.js, server.js under src/) that keeps users and files
    in MongoDB, sessions in Redis and the bytes of uploads on disk, and the C
    sources of the Redis 6.0.10 server (src/redis-6.0.10/src).  The development
    models the whole application and those parts of the server that a session
    token passes through or that its data rests on: the request parser, the
    strings and objects, the hash table of the keyspace, the packed and
    linked lists and integer sets, the number, glob and argument routines, the checksums and the
    compressor, the byte streams and the string layer of the snapshot format,
    DUMP and RESTORE.

    ** Conventions

    A C integer is a [Z] kept at its width: the conversions C performs are
    written out with [uwrap] and [swrap] ([u32], [s64], ...).  A block of memory
    is a list of bytes; [rd], [mread] and [mwrite] are [None] outside the block,
    so a routine proved to return [Some] makes no access out of bounds.
    Routines that thread a state use the monad of [Effects]: [Done] is a
    result, [Abort] a stop of the server by assertion, panic or exit, [Undef]
    an access to memory that is not there, a signed overflow that matters, or
    fuel that ran out.  Memory returned by the allocator has arbitrary contents
    (a function [fill]); allocation succeeds, as zmalloc stops the server
    otherwise, except where the code asks for a size from its input (loading a
    snapshot), where the limit is a parameter.

    Loops that are not structural take fuel, chosen from the state: bytes left
    for parsers and scanners ([Glob], [SdsArgs], [Lzf], [Proto]) and for walks
    along a packed list ([Ziplist]), nodes on the heap for walks along a linked
    one ([Quicklist]), buckets left for rehashing and iterating
    ([Dict], [DictIter]), bytes to transfer for the streams ([Rio]).  Each
    theorem about such a routine says that it returns, so the fuel is proved to
    be enough; the loops of the code without a bound of their own
    ([dictGetRandomKey] draws until a bucket is not empty) take the stream of
    random numbers and a number of draws as arguments.

    ** The application

    [Js] models what the application uses of JavaScript and of Node: strings of
    UTF-16 code units, values, truthiness, conversions, [split], [parseInt],
    [path.join].  Digests, base64 and the mime type are operations of the class
    [Runtime].  [FilesApp] translates controllers/AppController.js,
    AuthController.js, UsersController.js, FilesController.js, utils/redis.js,
    utils/db.js, routes/index.js and worker.js: a handler is a tree of service
    calls, with [return] and [throw] as completions.
    [AppTrace] is about every sequence of replies, so every behaviour of the
    services: each request is answered exactly once ([requests_answered]), the
    effects of the routes for users happen only after the token and its user
    were found ([sessions_required]), the data route streams public files only
    ([getFile_public]).  [AppSystem] runs requests and jobs concurrently, with
    an interleaving point at every service call; the services are a class
    [Services] with their documented behaviour in the class [Documented].  Over
    all reachable states [AppFiles] shows what nobody can reach because owners
    are stored and looked up with different types ([files_unreachable]),
    [AppUpload] that what was answered as uploaded stays ([uploads_kept]).
    [AppSession] is the life of a session when no service fails
    ([session_roundtrip]) and what the login makes of a colon in a password
    ([colon_cuts_password]).  [AppMemory] implements the services in memory,
    which discharges [Documented] and runs the examples.

    ** The server

    - [Proto] is the input side of networking.c: [readQueryFromClient],
      [processInputBuffer], the multi-bulk and the inline parser and the reset
      between commands; the execution of a command is a parameter, and may
      free the client.  [ProtoFacts] shows that a stream of requests runs in
      order however it is cut into reads, [ProtoSafe] that no input makes an
      assertion fail, leaves a buffer or touches a freed client, as long as the
      limit on bulk lengths stays two below the largest number.
    - [Sds] and [SdsArgs] are sds.h and sds.c: the five header layouts in one
      block, refined to byte lists for every sequence of operations; splitting,
      joining, quoting and the parsing of quoted arguments as round trips.
    - [Object] is the string part of object.c with the clocks of evict.c:
      reference counts over a heap where freeing removes the object, and the
      encodings.
    - [Dict] is dict.c with two tables and incremental rehashing; [Siphash] its
      hash function and the key callbacks, which satisfy the class the table
      asks for.  [DictFacts] refines a finite map for every sequence of
      operations, [DictLive] bounds the operations a rehashing can outlast,
      [DictIter] treats iterators and sampling, [DictScan] the reverse binary
      cursor of SCAN across resizes.
    - [Ziplist] is ziplist.c: entries in one block, each with the length of the
      one before it in one or five bytes.  [ZiplistFacts] describes the block
      and the cascade of growing length fields, [ZiplistOps] insertion,
      deletion and merging, [ZiplistRun] refines lists of strings for every
      sequence of operations but merges with an empty list, walked in both
      directions, below the 4 GB the header can count, and shows that those
      merges lose the tail.
      [ZiplistPos] is what a client of the packed lists uses.
    - [Quicklist] is quicklist.c: a doubly linked list of ziplists whose inner
      nodes are compressed, with the nodes on a heap where freeing removes
      them.  [QuicklistHeap] is a row of nodes on the heap with linking and
      unlinking, [QuicklistFacts] the compression of nodes over [Lzf] and the
      depth at the ends, [QuicklistOps] and [QuicklistEdit] pushing, popping and
      appending, [QuicklistDup] the copy.  For depth 0, the default,
      [QuicklistInner] is access by index, replacement and merging,
      [QuicklistInsert] insertion with the splitting of nodes, [QuicklistRange]
      the deletion of ranges, [QuicklistIter] iterators.  [QuicklistRun] refines
      lists of strings for sequences of operations whose insertions count from
      the front and whose deleted ranges start there or count from the end, and
      shows where the code departs from lists: an example of a compressed head,
      and in general the ranges that are miscounted.
    - [Intset] is intset.c, refined to finite sets of integers.  [UtilNum] and
      [Glob] are the number conversions and the glob matcher of util.c.
      [Endian] is endianconv.c, [Rand48] is rand.c.
    - [Crc] is crc16.c, crc64.c, crcspeed.c and the hash slots of cluster.c:
      the table-driven routines equal the bit-by-bit ones, and a slot is that of
      the hash tag.  [Lzf] is the
      compressor: round trip, and safety of decompression on any input.
    - [Rio] is rio.h and rio.c with the in-memory back end; a back end is an
      instance of [RioIO], what clients rely on are the classes [RioReader] and
      [RioWriter].  [Rdb] is the string layer of rdb.c over [Rio], [Lzf],
      [UtilNum] and [Object]; [RdbLoad] gives the grammar of the format, the
      round trip and what loading does on arbitrary bytes.  [Dump] is the
      payload of DUMP and RESTORE in cluster.c over [Rdb] and [Crc]: round trip
      and detection of damage.

    Refinement theorems quantify over programs, that is lists of operations of
    the component, so that they cover every interleaving of its operations.

    ** Not modelled

    Redis: the event loop, sockets, TLS, threads and files are system calls.
    Replies, the command table and the handlers (t_*.c, db.c, acl.c, multi.c,
    pubsub.c, blocked.c, scripting.c, module.c) work on the whole server state;
    the execution of a command is a parameter of [Proto].  Listpacks,
    radix trees, skip lists, HyperLogLog, geohashes and the digests are data
    structures of other value types than the ones the application uses; of
    ziplist.c only the printing of a list is left out.  Replication, cluster
    and sentinel are network protocols between processes; the snapshot and append-only files beyond the string layer are
    files and child processes.  Of dict.c the defragmentation callback of
    [dictScan] and the statistics are left out; of sds.c the printf family; of
    object.c the memory accounting and the types other than strings; of rio.c
    the back ends on files and sockets.

    The application: the packages it imports (express, mongodb, redis, bull,
    image-thumbnail, uuid, sha1, mime-types) are services with documented
    behaviour, the check scripts main.js and main1.js and the Python upload
    script only print and send.

    ** This file

    Shared vocabulary: machine integers at their width, little-endian byte
    strings, byte buffers with bounds-checked access, tactics, hint databases
    and the lemmas on lists the components use. *)

From stdpp Require Export base tactics numbers list option.
From stdpp Require Export gmap sorting strings.
From Stdlib Require Export ZArith Lia.

#[export] Set Default Goal Selector "!".
#[export] Set Default Proof Using "Type".

Create HintDb redis.
Create Rewrite HintDb redis_len.

Declare Scope redis_scope.
Delimit Scope redis_scope with redis.

(** Reduce a bind of the option monad whose first step is known. *)
Tactic Notation "bsimpl" := cbn [mbind option_bind mret option_ret].
Tactic Notation "bsimpl" "in" hyp(H) := cbn [mbind option_bind mret option_ret] in H.

(** ** Machine integers *)

#[local] Open Scope Z_scope.

(** Conversion to an unsigned integer of [w] bits. *)
Definition uwrap (w x : Z) : Z := x mod 2 ^ w.

(** Conversion to a signed (two's complement) integer of [w] bits. *)
Definition swrap (w x : Z) : Z := (x + 2 ^ (w - 1)) mod 2 ^ w - 2 ^ (w - 1).

Abbreviation u8 := (uwrap 8).
Abbreviation u16 := (uwrap 16).
Abbreviation u32 := (uwrap 32).
Abbreviation u64 := (uwrap 64).
Abbreviation s8 := (swrap 8).
Abbreviation s16 := (swrap 16).
Abbreviation s32 := (swrap 32).
Abbreviation s64 := (swrap 64).

(** The value ranges of the fixed-width types. *)
Definition in_u (w x : Z) : Prop := 0 <= x < 2 ^ w.
Definition in_s (w x : Z) : Prop := - 2 ^ (w - 1) <= x < 2 ^ (w - 1).

Abbreviation INT16_MIN := (-32768).
Abbreviation INT16_MAX := 32767.
Abbreviation INT32_MIN := (-2147483648).
Abbreviation INT32_MAX := 2147483647.
Abbreviation INT64_MIN := (-9223372036854775808).
Abbreviation INT64_MAX := 9223372036854775807.
Abbreviation LLONG_MIN := (-9223372036854775808).
Abbreviation LLONG_MAX := 9223372036854775807.
Abbreviation ULLONG_MAX := 18446744073709551615.

(** [mlia] is [lia] with the closed powers in the goal and the hypotheses
    evaluated. *)
Ltac is_Zlit v := lazymatch v with Z0 => idtac | Zpos _ => idtac end.
Ltac eval_pow :=
  repeat match goal with
  | |- context [Z.pow ?b ?n] =>
      let v := eval vm_compute in (Z.pow b n) in is_Zlit v; change (Z.pow b n) with v
  | H : context [Z.pow ?b ?n] |- _ =>
      let v := eval vm_compute in (Z.pow b n) in is_Zlit v; change (Z.pow b n) with v in H
  end.
Ltac mlia := unfold in_u, in_s in *; eval_pow; lia.

(** [lia] with division and modulo by constants. *)
Ltac dlia := Z.to_euclidean_division_equations; lia.

Lemma uwrap_range w x : 0 <= w -> in_u w (uwrap w x).
Proof. intros. apply Z.mod_pos_bound. lia. Qed.

Lemma uwrap_small w x : in_u w x -> uwrap w x = x.
Proof. apply Z.mod_small. Qed.

Lemma swrap_range w x : 0 < w -> in_s w (swrap w x).
Proof.
  intros Hw. unfold in_s, swrap.
  pose proof (Z.mod_pos_bound (x + 2 ^ (w - 1)) (2 ^ w) ltac:(lia)) as Hm.
  assert (2 ^ w = 2 * 2 ^ (w - 1)) by (rewrite <- Z.pow_succ_r by lia; f_equal; lia).
  lia.
Qed.

Lemma swrap_small w x : 0 < w -> in_s w x -> swrap w x = x.
Proof.
  unfold in_s, swrap. intros Hw Hx.
  assert (2 ^ w = 2 * 2 ^ (w - 1)) by (rewrite <- Z.pow_succ_r by lia; f_equal; lia).
  rewrite Z.mod_small; lia.
Qed.

Lemma swrap_mod w x : 0 < w -> swrap w (x mod 2 ^ w) = swrap w x.
Proof. intros. unfold swrap. by rewrite Zplus_mod_idemp_l. Qed.

Lemma swrap_uwrap w x : 0 < w -> swrap w (uwrap w x) = swrap w x.
Proof. apply swrap_mod. Qed.

Lemma uwrap_swrap w x : 0 < w -> uwrap w (swrap w x) = uwrap w x.
Proof.
  intros. unfold swrap, uwrap. rewrite Zminus_mod_idemp_l. f_equal. lia.
Qed.

#[export] Hint Resolve uwrap_range swrap_range : redis.

(** ** Little-endian byte strings *)

Definition is_byte (b : Z) : Prop := 0 <= b < 256.
#[export] Instance is_byte_dec b : Decision (is_byte b).
Proof. unfold is_byte. apply _. Defined.

(** The [n] low bytes of [z], least significant first. *)
Fixpoint le_encode (n : nat) (z : Z) : list Z :=
  match n with
  | O => []
  | S n => z mod 256 :: le_encode n (z / 256)
  end.

Fixpoint le_decode (bs : list Z) : Z :=
  match bs with
  | [] => 0
  | b :: bs => b + 256 * le_decode bs
  end.

Lemma length_le_encode n z : length (le_encode n z) = n.
Proof. revert z. induction n; intros; simpl; auto. Qed.

Lemma le_encode_bytes n z : Forall is_byte (le_encode n z).
Proof.
  revert z. induction n; intros; simpl; constructor; auto.
  apply Z.mod_pos_bound. lia.
Qed.

Lemma le_decode_encode n z :
  le_decode (le_encode n z) = z mod 2 ^ (8 * Z.of_nat n).
Proof.
  revert z. induction n as [|n IH]; intros z; simpl.
  - by rewrite Z.mod_1_r.
  - rewrite IH.
    replace (2 ^ (8 * Z.of_nat (S n))) with (256 * 2 ^ (8 * Z.of_nat n))
      by (change 256 with (2 ^ 8); rewrite <- Z.pow_add_r by lia; f_equal; lia).
    rewrite Z.rem_mul_r by lia. lia.
Qed.

Lemma le_decode_range bs :
  Forall is_byte bs -> 0 <= le_decode bs < 2 ^ (8 * Z.of_nat (length bs)).
Proof.
  induction 1 as [|b bs Hb Hbs IH]; simpl; [lia|].
  replace (2 ^ (8 * Z.of_nat (S (length bs)))) with (256 * 2 ^ (8 * Z.of_nat (length bs)))
    by (change 256 with (2 ^ 8); rewrite <- Z.pow_add_r by lia; f_equal; lia).
  unfold is_byte in Hb. lia.
Qed.

Lemma le_encode_decode bs :
  Forall is_byte bs -> le_encode (length bs) (le_decode bs) = bs.
Proof.
  induction 1 as [|b bs Hb Hbs IH]; simpl; [done|]. unfold is_byte in Hb.
  rewrite Z.mul_comm, Z.mod_add, Z.div_add, Z.mod_small, Z.div_small by lia.
  by rewrite Z.add_0_l, IH.
Qed.

(** ** Bits *)

Lemma testbit_above z n i : 0 <= z < 2 ^ n -> n <= i -> Z.testbit z i = false.
Proof.
  intros Hz Hi. destruct (Z.eq_dec z 0) as [->|Hne]; [apply Z.bits_0|].
  apply Z.bits_above_log2; [lia|]. apply Z.log2_lt_pow2; [lia|].
  eapply Z.lt_le_trans; [apply Hz|]. apply Z.pow_le_mono_r; lia.
Qed.

Lemma land_shift_disjoint a b n : 0 <= n -> 0 <= a < 2 ^ n -> Z.land a (Z.shiftl b n) = 0.
Proof.
  intros Hn Ha. apply Z.bits_inj'. intros i Hi. rewrite Z.land_spec, Z.bits_0.
  destruct (Z.lt_ge_cases i n).
  - rewrite Z.shiftl_spec_low by lia. apply andb_false_r.
  - by rewrite (testbit_above a n) by lia.
Qed.

(** Disjoint bit fields add up. *)
Lemma lor_shift_add a b n : 0 <= n -> 0 <= a < 2 ^ n -> Z.lor a (Z.shiftl b n) = a + b * 2 ^ n.
Proof.
  intros Hn Ha. pose proof (land_shift_disjoint a b n Hn Ha) as Hd.
  rewrite <- Z.lxor_lor, <- Z.add_nocarry_lxor by done. by rewrite Z.shiftl_mul_pow2.
Qed.

(** Bitwise operations stay within a width. *)
Lemma bits_range n z : 0 <= n -> 0 <= z -> (forall i, n <= i -> Z.testbit z i = false) -> 0 <= z < 2 ^ n.
Proof.
  intros Hn Hz Hb. split; [done|]. destruct (Z.eq_dec z 0) as [->|Hne]; [by apply Z.pow_pos_nonneg|].
  apply Z.log2_lt_pow2; [lia|]. apply Z.nle_gt. intros Hle.
  specialize (Hb _ Hle). rewrite Z.bit_log2 in Hb by lia. done.
Qed.

Lemma lxor_range n a b : 0 <= n -> 0 <= a < 2 ^ n -> 0 <= b < 2 ^ n -> 0 <= Z.lxor a b < 2 ^ n.
Proof.
  intros Hn Ha Hb. apply bits_range; [done|apply Z.lxor_nonneg; lia|].
  intros i Hi. by rewrite Z.lxor_spec, (testbit_above a n), (testbit_above b n).
Qed.

Lemma lor_range n a b : 0 <= n -> 0 <= a < 2 ^ n -> 0 <= b < 2 ^ n -> 0 <= Z.lor a b < 2 ^ n.
Proof.
  intros Hn Ha Hb. apply bits_range; [done|apply Z.lor_nonneg; lia|].
  intros i Hi. by rewrite Z.lor_spec, (testbit_above a n), (testbit_above b n).
Qed.

Lemma land_range n a b : 0 <= n -> 0 <= b < 2 ^ n -> 0 <= Z.land a b < 2 ^ n.
Proof.
  intros Hn Hb. apply bits_range; [done|apply Z.land_nonneg; lia|].
  intros i Hi. rewrite Z.land_spec, (testbit_above b n) by done. apply andb_false_r.
Qed.

Lemma shiftr_range n a k : 0 <= k -> 0 <= a < 2 ^ n -> 0 <= Z.shiftr a k < 2 ^ n.
Proof.
  intros Hk Ha. rewrite Z.shiftr_div_pow2 by done. pose proof (Z.pow_pos_nonneg 2 k).
  split; [apply Z.div_pos; lia|]. eapply Z.le_lt_trans; [|apply Ha]. apply Z.div_le_upper_bound; nia.
Qed.

Lemma uwrap_testbit n z i : 0 <= i < n -> Z.testbit (uwrap n z) i = Z.testbit z i.
Proof. intros Hi. unfold uwrap. apply Z.mod_pow2_bits_low. lia. Qed.

Lemma uwrap_testbit_high n z i : 0 <= n <= i -> Z.testbit (uwrap n z) i = false.
Proof. intros Hi. unfold uwrap. by apply Z.mod_pow2_bits_high. Qed.

Lemma uwrap_lxor n a b : 0 <= n -> uwrap n (Z.lxor a b) = Z.lxor (uwrap n a) (uwrap n b).
Proof.
  intros Hn. apply Z.bits_inj'. intros i Hi. rewrite Z.lxor_spec.
  destruct (Z.lt_ge_cases i n); [by rewrite !uwrap_testbit, Z.lxor_spec by lia|by rewrite !uwrap_testbit_high by lia].
Qed.

(** A word is the exclusive or of its low [n] bits and the rest. *)
Lemma lxor_split z n : 0 <= n -> z = Z.lxor (Z.land z (Z.ones n)) (Z.shiftl (Z.shiftr z n) n).
Proof.
  intros Hn. apply Z.bits_inj'. intros i Hi. rewrite Z.lxor_spec, Z.land_spec, Z.shiftl_spec by lia.
  destruct (Z.lt_ge_cases i n).
  - rewrite Z.ones_spec_low, (Z.testbit_neg_r _ (i - n)) by lia. by rewrite andb_true_r, xorb_false_r.
  - rewrite Z.ones_spec_high, Z.shiftr_spec by lia. rewrite andb_false_r, xorb_false_l. f_equal. lia.
Qed.

(** Properties of the bytes, checked one by one. *)
Lemma forall_byte (P : Z -> bool) :
  forallb (fun n => P (Z.of_nat n)) (seq 0 256) = true -> forall b, is_byte b -> P b = true.
Proof.
  intros Hall b Hb. unfold is_byte in Hb. rewrite forallb_forall in Hall. specialize (Hall (Z.to_nat b)).
  rewrite Z2Nat.id in Hall by lia. apply Hall, in_seq. lia.
Qed.

#[export] Hint Resolve le_encode_bytes : redis.
#[export] Hint Rewrite length_le_encode @length_app @length_take @length_drop
  @length_fmap @length_replicate : redis_len.

(** ** Byte buffers *)

(** [mread b off n]: the [n] bytes at offset [off], or [None] when the access
    is not inside the block. *)
Definition mread (b : list Z) (off : Z) (n : nat) : option (list Z) :=
  if bool_decide (0 <= off /\ off + Z.of_nat n <= Z.of_nat (length b))
  then Some (take n (drop (Z.to_nat off) b)) else None.

(** [b[i]], one byte. *)
Definition rd (b : list Z) (i : Z) : option Z := if i <? 0 then None else b !! Z.to_nat i.

Definition mwrite (b : list Z) (off : Z) (bs : list Z) : option (list Z) :=
  if bool_decide (0 <= off /\ off + Z.of_nat (length bs) <= Z.of_nat (length b))
  then Some (take (Z.to_nat off) b ++ bs ++ drop (Z.to_nat off + length bs) b)
  else None.

(** [memmove(b+dst, b+src, n)]. *)
Definition mmove (b : list Z) (dst src : Z) (n : nat) : option (list Z) :=
  bs ← mread b src n; mwrite b dst bs.

(** [zrealloc] to [n] bytes: the common prefix is kept and the bytes past the
    old size are indeterminate, here the values of an arbitrary [fill]. *)
Definition mresize (fill : nat -> Z) (b : list Z) (n : nat) : list Z :=
  take n b ++ (fill <$> seq (length b) (n - length b)).

Lemma length_mresize fill b n : length (mresize fill b n) = n.
Proof.
  unfold mresize. rewrite length_app, length_take, length_fmap, length_seq. lia.
Qed.

Lemma rd_Some m i : 0 <= i < Z.of_nat (length m) -> exists b, rd m i = Some b /\ m !! Z.to_nat i = Some b.
Proof.
  intros Hi. unfold rd. rewrite (proj2 (Z.ltb_ge _ _)) by lia.
  destruct (lookup_lt_is_Some_2 m (Z.to_nat i)) as [b Hb]; [lia|]. eauto.
Qed.

Lemma rd_byte m i : Forall is_byte m -> 0 <= i < Z.of_nat (length m) -> exists b, rd m i = Some b /\ is_byte b.
Proof.
  intros Hm Hi. destruct (rd_Some m i Hi) as (b & -> & Hb). exists b. split; [done|].
  by eapply Forall_lookup_1.
Qed.

Lemma mread_Some b off n :
  0 <= off -> off + Z.of_nat n <= Z.of_nat (length b) ->
  mread b off n = Some (take n (drop (Z.to_nat off) b)).
Proof. intros. unfold mread. by rewrite bool_decide_eq_true_2. Qed.

Lemma mwrite_Some b off bs :
  0 <= off -> off + Z.of_nat (length bs) <= Z.of_nat (length b) ->
  mwrite b off bs =
    Some (take (Z.to_nat off) b ++ bs ++ drop (Z.to_nat off + length bs) b).
Proof. intros. unfold mwrite. by rewrite bool_decide_eq_true_2. Qed.

Lemma mread_app_r l1 l2 l3 : mread (l1 ++ l2 ++ l3) (Z.of_nat (length l1)) (length l2) = Some l2.
Proof.
  rewrite mread_Some by (rewrite ?length_app; lia). rewrite Nat2Z.id, drop_app_length, take_app_length. done.
Qed.

Lemma mread_mid l1 l2 l3 off n :
  off = Z.of_nat (length l1) -> n = length l2 -> mread (l1 ++ l2 ++ l3) off n = Some l2.
Proof. intros -> ->. apply mread_app_r. Qed.

Lemma mwrite_mid l1 l2 l3 off bs :
  off = Z.of_nat (length l1) -> length bs = length l2 ->
  mwrite (l1 ++ l2 ++ l3) off bs = Some (l1 ++ bs ++ l3).
Proof.
  intros -> Hl. rewrite mwrite_Some by (rewrite ?length_app; lia).
  by rewrite Nat2Z.id, take_app_length, Hl, <- drop_drop, drop_app_length, drop_app_length.
Qed.

Lemma mwrite_at l1 x l3 off y : off = Z.of_nat (length l1) -> mwrite (l1 ++ x :: l3) off [y] = Some (l1 ++ y :: l3).
Proof. intros. by apply (mwrite_mid l1 [x] l3). Qed.

Lemma mread_head l2 l3 off n : off = 0 -> n = length l2 -> mread (l2 ++ l3) off n = Some l2.
Proof. intros -> ->. apply (mread_app_r []). Qed.

Lemma mwrite_head l2 l3 off bs : off = 0 -> length bs = length l2 -> mwrite (l2 ++ l3) off bs = Some (bs ++ l3).
Proof. intros -> ?. by apply (mwrite_mid []). Qed.

Lemma mwrite_length b off bs b' : mwrite b off bs = Some b' -> length b' = length b.
Proof.
  unfold mwrite. case_bool_decide; intros [= <-].
  rewrite !length_app, length_take, length_drop. lia.
Qed.

#[export] Hint Rewrite length_mresize : redis_len.

(** Element-wise reading is enough to compare buffers. *)
Lemma mread_lookup b off n bs i :
  mread b off n = Some bs -> (i < n)%nat -> b !! (Z.to_nat off + i)%nat = bs !! i.
Proof.
  unfold mread. case_bool_decide; intros [= <-] Hi.
  by rewrite lookup_take_lt, lookup_drop by lia.
Qed.

Lemma mwrite_lookup b off bs b' i :
  mwrite b off bs = Some b' ->
  b' !! i = if bool_decide (Z.to_nat off <= i < Z.to_nat off + length bs)%nat
            then bs !! (i - Z.to_nat off)%nat else b !! i.
Proof.
  unfold mwrite. case_bool_decide as Hr; intros [= <-].
  case_bool_decide as Hi.
  - rewrite lookup_app_r by (rewrite length_take; lia).
    rewrite length_take_le by lia. by rewrite lookup_app_l by lia.
  - destruct (decide (i < Z.to_nat off)%nat).
    + rewrite lookup_app_l by (rewrite length_take; lia). by rewrite lookup_take_lt by lia.
    + rewrite lookup_app_r by (rewrite length_take; lia).
      rewrite length_take_le by lia.
      rewrite lookup_app_r by lia. rewrite lookup_drop. f_equal. lia.
Qed.

Lemma mread_mwrite_same b off bs b' :
  mwrite b off bs = Some b' -> mread b' off (length bs) = Some bs.
Proof.
  intros Hw. pose proof (mwrite_length _ _ _ _ Hw) as Hl.
  unfold mwrite in Hw. case_bool_decide as Hr; [|done]. injection Hw as <-.
  rewrite mread_Some by lia. f_equal.
  rewrite drop_app_length' by (rewrite length_take; lia).
  by rewrite take_app_length.
Qed.

Lemma mread_mwrite_other b off bs b' off' n :
  mwrite b off bs = Some b' ->
  off' + Z.of_nat n <= off \/ off + Z.of_nat (length bs) <= off' ->
  mread b' off' n = mread b off' n.
Proof.
  intros Hw Hd. pose proof (mwrite_length _ _ _ _ Hw) as Hl.
  assert (0 <= off) by (unfold mwrite in Hw; case_bool_decide; [lia|done]).
  unfold mread. rewrite Hl. case_bool_decide as Hb; [|done]. f_equal.
  apply list_eq. intros i. destruct (decide (i < n)%nat).
  - rewrite !lookup_take_lt, !lookup_drop by lia.
    rewrite (mwrite_lookup _ _ _ _ _ Hw). rewrite bool_decide_eq_false_2; [done|lia].
  - by rewrite !lookup_take_ge by lia.
Qed.

(** ** Arrays of fixed-size elements in a buffer *)

(** A buffer that is the concatenation of chunks of [k] bytes is an array;
    the lemmas below turn buffer accesses at multiples of [k] into list
    operations on the chunks. *)
Definition chunked (k : nat) (cs : list (list Z)) : Prop :=
  Forall (fun c => length c = k) cs.

Lemma length_concat_chunked k cs :
  chunked k cs -> length (concat cs) = (length cs * k)%nat.
Proof. induction 1; simpl; rewrite ?length_app; lia. Qed.

Lemma take_concat_chunked k cs i :
  chunked k cs -> take (i * k) (concat cs) = concat (take i cs).
Proof.
  intros H. revert i. induction H as [|c cs Hc Hcs IH]; intros i; simpl.
  - by rewrite !take_nil.
  - destruct i as [|i]; simpl; [done|].
    rewrite take_app_ge by lia. rewrite <- IH. do 2 f_equal. lia.
Qed.

Lemma drop_concat_chunked k cs i :
  chunked k cs -> drop (i * k) (concat cs) = concat (drop i cs).
Proof.
  intros H. revert i. induction H as [|c cs Hc Hcs IH]; intros i; simpl.
  - by rewrite !drop_nil.
  - destruct i as [|i]; simpl; [done|].
    rewrite drop_app_ge by lia. rewrite <- IH. f_equal. lia.
Qed.

Lemma chunked_take k cs i : chunked k cs -> chunked k (take i cs).
Proof. apply Forall_take. Qed.
Lemma chunked_drop k cs i : chunked k cs -> chunked k (drop i cs).
Proof. apply Forall_drop. Qed.
Lemma chunked_app k cs ds : chunked k cs -> chunked k ds -> chunked k (cs ++ ds).
Proof. intros. by apply Forall_app_2. Qed.
#[export] Hint Resolve chunked_take chunked_drop chunked_app : redis.

Lemma mread_chunks k cs i n :
  chunked k cs -> (i + n <= length cs)%nat ->
  mread (concat cs) (Z.of_nat i * Z.of_nat k) (n * k) = Some (concat (take n (drop i cs))).
Proof.
  intros Hk Hi. rewrite mread_Some by (rewrite ?(length_concat_chunked k) by done; nia).
  replace (Z.to_nat (Z.of_nat i * Z.of_nat k)) with (i * k)%nat by lia.
  rewrite (drop_concat_chunked k) by done. rewrite take_concat_chunked; auto with redis.
Qed.

Lemma mread_chunk k cs i c :
  chunked k cs -> cs !! i = Some c ->
  mread (concat cs) (Z.of_nat i * Z.of_nat k) k = Some c.
Proof.
  intros Hk Hc. pose proof (lookup_lt_Some _ _ _ Hc).
  replace k with (1 * k)%nat at 2 by lia. rewrite mread_chunks by (done || lia).
  erewrite drop_S by done. simpl. by rewrite app_nil_r.
Qed.

Lemma mwrite_chunks k cs i ds :
  chunked k cs -> chunked k ds -> (i + length ds <= length cs)%nat ->
  mwrite (concat cs) (Z.of_nat i * Z.of_nat k) (concat ds) =
    Some (concat (take i cs ++ ds ++ drop (i + length ds) cs)).
Proof.
  intros Hk Hd Hi.
  assert (length (concat ds) = (length ds * k)%nat) as Hld by by apply length_concat_chunked.
  assert (length (concat cs) = (length cs * k)%nat) as Hlc by by apply length_concat_chunked.
  rewrite mwrite_Some by (rewrite ?Hld, ?Hlc; nia).
  rewrite Hld. replace (Z.to_nat (Z.of_nat i * Z.of_nat k)) with (i * k)%nat by lia.
  replace (i * k + length ds * k)%nat with ((i + length ds) * k)%nat by lia.
  by rewrite take_concat_chunked, drop_concat_chunked, !concat_app by done.
Qed.

Lemma mwrite_chunk k cs i c :
  chunked k cs -> length c = k -> (i < length cs)%nat ->
  mwrite (concat cs) (Z.of_nat i * Z.of_nat k) c = Some (concat (<[i := c]> cs)).
Proof.
  intros Hk Hc Hi. pose proof (mwrite_chunks k cs i [c]) as Hw. simpl in Hw.
  rewrite app_nil_r in Hw. rewrite Hw; [|done|by repeat constructor|lia].
  do 2 f_equal. rewrite insert_take_drop by done. simpl. do 3 f_equal. lia.
Qed.

Lemma mmove_chunks k cs d s n :
  chunked k cs -> (s + n <= length cs)%nat -> (d + n <= length cs)%nat ->
  mmove (concat cs) (Z.of_nat d * Z.of_nat k) (Z.of_nat s * Z.of_nat k) (n * k) =
    Some (concat (take d cs ++ take n (drop s cs) ++ drop (d + n) cs)).
Proof.
  intros Hk Hs Hd. unfold mmove. rewrite mread_chunks by done. simpl.
  assert (length (take n (drop s cs)) = n) as Hn by (rewrite length_take, length_drop; lia).
  rewrite mwrite_chunks; [by rewrite Hn|done|auto with redis|lia].
Qed.

(** A buffer is determined by what is read at its element positions. *)
Lemma concat_of_mread k n b f :
  length b = (n * k)%nat ->
  (forall i, (i < n)%nat -> mread b (Z.of_nat i * Z.of_nat k) k = Some (f i)) ->
  b = concat (f <$> seq 0 n).
Proof.
  revert b f. induction n as [|n IH]; intros b f Hl Hr; simpl.
  { by destruct b. }
  rewrite <- (take_drop k b) at 1. f_equal.
  - specialize (Hr 0%nat ltac:(lia)). rewrite mread_Some in Hr by (simpl in *; lia).
    simpl in Hr. by injection Hr.
  - rewrite <- fmap_S_seq. rewrite <- list_fmap_compose. apply IH.
    { rewrite length_drop. lia. }
    intros i Hi. specialize (Hr (S i) ltac:(lia)).
    rewrite mread_Some in Hr |- * by (rewrite ?length_drop; nia).
    rewrite drop_drop.
    replace (Z.to_nat (Z.of_nat (S i) * Z.of_nat k))
      with (k + Z.to_nat (Z.of_nat i * Z.of_nat k))%nat in Hr by nia.
    done.
Qed.

Lemma mresize_grow_chunk fill k cs :
  chunked k cs ->
  exists c, length c = k /\
    mresize fill (concat cs) ((length cs + 1) * k) = concat (cs ++ [c]).
Proof.
  intros Hk. assert (length (concat cs) = (length cs * k)%nat) as Hl by by apply length_concat_chunked.
  exists (fill <$> seq (length cs * k) k). split; [by rewrite length_fmap, length_seq|].
  unfold mresize. rewrite concat_app, take_ge by lia. simpl. rewrite app_nil_r, Hl.
  do 3 f_equal. lia.
Qed.

Lemma mresize_shrink_chunks fill k cs n :
  chunked k cs -> (n <= length cs)%nat ->
  mresize fill (concat cs) (n * k) = concat (take n cs).
Proof.
  intros Hk Hn. assert (length (concat cs) = (length cs * k)%nat) as Hl by by apply length_concat_chunked.
  unfold mresize. rewrite (take_concat_chunked k) by done.
  replace (n * k - length (concat cs))%nat with 0%nat by nia. simpl. by rewrite app_nil_r.
Qed.

(** A read depends only on the prefix of the block it lies in. *)
Lemma mread_prefix m b off n :
  off + Z.of_nat n <= Z.of_nat m -> (m <= length b)%nat ->
  mread b off n = mread (take m b) off n.
Proof.
  intros Hm Hl. unfold mread. rewrite length_take, Nat.min_l by done.
  destruct (decide (0 <= off)).
  - rewrite !bool_decide_eq_true_2 by lia. f_equal.
    rewrite skipn_firstn_comm, take_take. f_equal. lia.
  - by rewrite !bool_decide_eq_false_2 by lia.
Qed.

Lemma take_mwrite b off bs b' n :
  mwrite b off bs = Some b' -> Z.of_nat n <= off -> take n b' = take n b.
Proof.
  unfold mwrite. case_bool_decide as Hr; intros [= <-] Hn.
  rewrite take_app_le by (rewrite length_take; lia). rewrite take_take. f_equal. lia.
Qed.

(** ** Lists *)

Lemma fmap_lookup_total_seq {A B} `{Inhabited A} (g : A -> B) (l : list A) :
  (fun i => g (l !!! i)) <$> seq 0 (length l) = g <$> l.
Proof.
  apply list_eq. intros i. rewrite !list_lookup_fmap.
  destruct (decide (i < length l)%nat) as [Hi|Hi].
  - rewrite lookup_seq_lt by done. simpl. by rewrite (list_lookup_lookup_total_lt l i).
  - rewrite lookup_seq_ge by lia. rewrite (lookup_ge_None_2 l) by lia. done.
Qed.

(** Shifting the tail of an array one cell to the right and storing in the
    freed cell is insertion. *)
Lemma insert_shift {A} (l : list A) (c x : A) pos :
  (pos <= length l)%nat ->
  <[pos := x]> (take (pos + 1) (l ++ [c]) ++ take (length l - pos) (drop pos (l ++ [c]))
     ++ drop (pos + 1 + (length l - pos)) (l ++ [c])) = take pos l ++ x :: drop pos l.
Proof.
  intros Hp. rewrite (drop_ge (l ++ [c]) (pos + 1 + _)) by (rewrite length_app; simpl; lia).
  rewrite app_nil_r, drop_app_le by done.
  rewrite (take_app_le (drop pos l)) by (rewrite length_drop; lia).
  rewrite (take_ge (drop _ _)) by (rewrite length_drop; lia).
  rewrite insert_app_l by (rewrite length_take, length_app; simpl; lia).
  replace (x :: drop pos l) with ([x] ++ drop pos l) by done. rewrite app_assoc. f_equal.
  destruct (lookup_lt_is_Some_2 (l ++ [c]) pos) as [y Hy]; [rewrite length_app; simpl; lia|].
  rewrite Nat.add_1_r. erewrite take_S_r by done.
  rewrite insert_app_r_alt by (rewrite length_take; lia).
  rewrite length_take, length_app, Nat.min_l by (simpl; lia). rewrite Nat.sub_diag.
  simpl. by rewrite take_app_le.
Qed.
