(* ===== verification/Intset.v ===== *)
(** Model of [intset.c]: the sorted array of integers behind small sets.

    The blob is kept as the C code keeps it: an encoding (2, 4 or 8 bytes per
    element), a length, and a byte array.  Every element access goes through
    the bounds-checked buffer operations of the prelude, so a result [Some _]
    means that no byte outside the allocation was touched.  The main theorems
    say that add, remove and find implement a finite set of integers. *)

From S2P Require Import Prelude.

#[local] Open Scope Z_scope.

Module Intset.

Definition INTSET_ENC_INT16 : Z := 2.
Definition INTSET_ENC_INT32 : Z := 4.
Definition INTSET_ENC_INT64 : Z := 8.

Record intset := mkIntset { encoding : Z; ilength : Z; contents : list Z }.

Definition set_encoding (iset : intset) (e : Z) : intset := mkIntset e (ilength iset) (contents iset).
Definition set_length (iset : intset) (l : Z) : intset := mkIntset (encoding iset) l (contents iset).
Definition set_contents (iset : intset) (c : list Z) : intset := mkIntset (encoding iset) (ilength iset) c.

Definition _intsetValueEncoding (v : Z) : Z :=
  if (v <? INT32_MIN) || (v >? INT32_MAX) then INTSET_ENC_INT64
  else if (v <? INT16_MIN) || (v >? INT16_MAX) then INTSET_ENC_INT32
  else INTSET_ENC_INT16.

Definition _intsetGetEncoded (iset : intset) (pos enc : Z) : option Z :=
  if enc =? INTSET_ENC_INT64 then
    bs ← mread (contents iset) (pos * 8) 8; Some (s64 (le_decode bs))
  else if enc =? INTSET_ENC_INT32 then
    bs ← mread (contents iset) (pos * 4) 4; Some (s32 (le_decode bs))
  else
    bs ← mread (contents iset) (pos * 2) 2; Some (s16 (le_decode bs)).

Definition _intsetGet (iset : intset) (pos : Z) : option Z :=
  _intsetGetEncoded iset pos (u8 (encoding iset)).

Definition _intsetSet (iset : intset) (pos value : Z) : option intset :=
  c ← (if encoding iset =? INTSET_ENC_INT64 then
         mwrite (contents iset) (pos * 8) (le_encode 8 value)
       else if encoding iset =? INTSET_ENC_INT32 then
         mwrite (contents iset) (pos * 4) (le_encode 4 value)
       else
         mwrite (contents iset) (pos * 2) (le_encode 2 value));
  Some (set_contents iset c).

Definition intsetNew : intset := mkIntset INTSET_ENC_INT16 0 [].

(** The loop of [intsetSearch]; it returns the final [min], [mid] and [cur].
    The fuel bounds the number of iterations. *)
Fixpoint intsetSearch_loop (fuel : nat) (iset : intset) (value min max mid cur : Z)
  : option (Z * Z * Z) :=
  match fuel with
  | O => None
  | S fuel =>
      if max >=? min then
        let mid := s32 (Z.shiftr (u32 (u32 min + u32 max)) 1) in
        cur ← _intsetGet iset mid;
        if value >? cur then intsetSearch_loop fuel iset value (mid + 1) max mid cur
        else if value <? cur then intsetSearch_loop fuel iset value min (mid - 1) mid cur
        else Some (min, mid, cur)
      else Some (min, mid, cur)
  end.

(** The result is the return value and [*pos]. *)
Definition intsetSearch (iset : intset) (value : Z) : option (bool * Z) :=
  let max := s32 (ilength iset - 1) in
  if ilength iset =? 0 then Some (false, 0)
  else
    last ← _intsetGet iset max;
    if value >? last then Some (false, ilength iset)
    else
      first ← _intsetGet iset 0;
      if value <? first then Some (false, 0)
      else
        '(min, mid, cur) ← intsetSearch_loop (S (Z.to_nat (ilength iset))) iset value 0 max (-1) (-1);
        if value =? cur then Some (true, u32 mid) else Some (false, u32 min).

Section realloc.
(** The bytes [zrealloc] leaves in the grown part of a block. *)
Context (fill : nat -> Z).

Definition intsetResize (iset : intset) (len : Z) : intset :=
  let size := u32 (len * encoding iset) in
  set_contents iset (mresize fill (contents iset) (Z.to_nat size)).

(** [while(length--) _intsetSet(is,length+prepend,_intsetGetEncoded(is,length,curenc));] *)
Fixpoint intsetUpgrade_loop (length : nat) (iset : intset) (prepend curenc : Z) : option intset :=
  match length with
  | O => Some iset
  | S length =>
      v ← _intsetGetEncoded iset (Z.of_nat length) curenc;
      iset ← _intsetSet iset (Z.of_nat length + prepend) v;
      intsetUpgrade_loop length iset prepend curenc
  end.

Definition intsetUpgradeAndAdd (iset : intset) (value : Z) : option intset :=
  let curenc := u8 (encoding iset) in
  let newenc := _intsetValueEncoding value in
  let length := s32 (ilength iset) in
  let prepend := if value <? 0 then 1 else 0 in
  let iset := set_encoding iset newenc in
  let iset := intsetResize iset (u32 (ilength iset + 1)) in
  iset ← intsetUpgrade_loop (Z.to_nat length) iset prepend curenc;
  iset ← (if prepend =? 1 then _intsetSet iset 0 value else _intsetSet iset (ilength iset) value);
  Some (set_length iset (u32 (ilength iset + 1))).

Definition intsetMoveTail (iset : intset) (from to : Z) : option intset :=
  let bytes := u32 (ilength iset - from) in
  c ← (if encoding iset =? INTSET_ENC_INT64 then
         mmove (contents iset) (to * 8) (from * 8) (Z.to_nat (u32 (bytes * 8)))
       else if encoding iset =? INTSET_ENC_INT32 then
         mmove (contents iset) (to * 4) (from * 4) (Z.to_nat (u32 (bytes * 4)))
       else
         mmove (contents iset) (to * 2) (from * 2) (Z.to_nat (u32 (bytes * 2))));
  Some (set_contents iset c).

(** The second component is [*success]. *)
Definition intsetAdd (iset : intset) (value : Z) : option (intset * bool) :=
  let valenc := _intsetValueEncoding value in
  if valenc >? encoding iset then
    iset ← intsetUpgradeAndAdd iset value; Some (iset, true)
  else
    '(found, pos) ← intsetSearch iset value;
    if (found : bool) then Some (iset, false)
    else
      let iset := intsetResize iset (u32 (ilength iset + 1)) in
      iset ← (if pos <? ilength iset then intsetMoveTail iset pos (u32 (pos + 1)) else Some iset);
      iset ← _intsetSet iset pos value;
      Some (set_length iset (u32 (ilength iset + 1)), true).

Definition intsetRemove (iset : intset) (value : Z) : option (intset * bool) :=
  let valenc := _intsetValueEncoding value in
  if valenc <=? encoding iset then
    '(found, pos) ← intsetSearch iset value;
    if (found : bool) then
      let len := ilength iset in
      iset ← (if pos <? u32 (len - 1) then intsetMoveTail iset (u32 (pos + 1)) pos else Some iset);
      let iset := intsetResize iset (u32 (len - 1)) in
      Some (set_length iset (u32 (len - 1)), true)
    else Some (iset, false)
  else Some (iset, false).

End realloc.

Definition intsetFind (iset : intset) (value : Z) : option bool :=
  let valenc := _intsetValueEncoding value in
  if valenc <=? encoding iset then
    '(found, _) ← intsetSearch iset value; Some found
  else Some false.

(** [r] is the value of [rand()]; a zero length is a division by zero. *)
Definition intsetRandom (iset : intset) (r : Z) : option Z :=
  if ilength iset =? 0 then None
  else _intsetGet iset (s32 (u32 r mod ilength iset)).

(** [Some v] when the C function returns 1 with [*value = v]; [None] inside
    when it returns 0. *)
Definition intsetGet (iset : intset) (pos : Z) : option (option Z) :=
  if pos <? ilength iset then v ← _intsetGet iset (s32 pos); Some (Some v) else Some None.

Definition intsetLen (iset : intset) : Z := ilength iset.

Definition sizeof_intset : Z := 8.
Definition intsetBlobLen (iset : intset) : Z := u64 (sizeof_intset + u32 (ilength iset * encoding iset)).

(** ** Representation of a sorted list of integers *)

Definition enc_val (e v : Z) : list Z := le_encode (Z.to_nat e) v.

Definition valid_enc (e : Z) : Prop := e = 2 \/ e = 4 \/ e = 8.

(** Largest number of elements for which the 32-bit size computed by
    [intsetResize] cannot wrap around, whatever the encoding. *)
Definition INTSET_CAP : Z := 2 ^ 29.

Record repr (s : intset) (vals : list Z) : Prop := mkRepr {
  repr_enc : valid_enc (encoding s);
  repr_len : ilength s = Z.of_nat (length vals);
  repr_contents : contents s = concat (enc_val (encoding s) <$> vals);
  repr_range : Forall (in_s (8 * encoding s)) vals;
  repr_sorted : StronglySorted Z.lt vals;
  repr_cap : ilength s < INTSET_CAP }.

(** An intset blob represents a finite set. *)
Definition represents (s : intset) (X : gset Z) : Prop :=
  exists vals, repr s vals /\ X = list_to_set vals.

Ltac unfold_enc :=
  unfold valid_enc, INTSET_CAP, INTSET_ENC_INT16, INTSET_ENC_INT32, INTSET_ENC_INT64 in *.

(** The three branches on the encoding are one access of [enc] bytes. *)
Lemma _intsetGetEncoded_eq s pos e :
  valid_enc e ->
  _intsetGetEncoded s pos e =
    (bs ← mread (contents s) (pos * e) (Z.to_nat e); Some (swrap (8 * e) (le_decode bs))).
Proof. by intros [-> | [-> | ->]]. Qed.

Lemma _intsetSet_eq s pos v :
  valid_enc (encoding s) ->
  _intsetSet s pos v =
    (c ← mwrite (contents s) (pos * encoding s) (enc_val (encoding s) v);
     Some (set_contents s c)).
Proof. unfold _intsetSet. by intros [-> | [-> | ->]]. Qed.

Lemma intsetMoveTail_eq s from to :
  valid_enc (encoding s) ->
  intsetMoveTail s from to =
    (c ← mmove (contents s) (to * encoding s) (from * encoding s)
           (Z.to_nat (u32 (u32 (ilength s - from) * encoding s)));
     Some (set_contents s c)).
Proof. unfold intsetMoveTail. by intros [-> | [-> | ->]]. Qed.

Lemma chunked_enc e vals : chunked (Z.to_nat e) (enc_val e <$> vals).
Proof. unfold chunked. apply Forall_fmap, Forall_true. intros. apply length_le_encode. Qed.
#[local] Hint Resolve chunked_enc : redis.

Lemma dec_enc_val e v :
  valid_enc e -> in_s (8 * e) v -> swrap (8 * e) (le_decode (enc_val e v)) = v.
Proof.
  intros He Hv. unfold enc_val. rewrite le_decode_encode.
  replace (8 * Z.of_nat (Z.to_nat e)) with (8 * e) by (unfold_enc; lia).
  rewrite swrap_mod by (unfold_enc; lia). apply swrap_small; [unfold_enc; lia|done].
Qed.

Lemma enc_of_nat e i : valid_enc e -> Z.of_nat i * e = Z.of_nat i * Z.of_nat (Z.to_nat e).
Proof. unfold_enc. lia. Qed.

Lemma _intsetGet_spec s vals i v :
  repr s vals -> vals !! i = Some v -> _intsetGet s (Z.of_nat i) = Some v.
Proof.
  intros [He Hl Hc Hr _ _] Hi. unfold _intsetGet.
  rewrite uwrap_small by (unfold_enc; mlia).
  rewrite _intsetGetEncoded_eq, Hc, enc_of_nat by done.
  erewrite mread_chunk; [|apply chunked_enc|by rewrite list_lookup_fmap, Hi]. simpl.
  rewrite dec_enc_val; [done|done|]. by eapply Forall_lookup_1.
Qed.

(** ** Search *)

Lemma sorted_lookup_lt (vals : list Z) i j x y :
  StronglySorted Z.lt vals -> vals !! i = Some x -> vals !! j = Some y ->
  (i < j)%nat -> x < y.
Proof.
  intros Hs. revert i j. induction Hs as [|a l Hl IH Hf]; intros i j Hi Hj Hij; [done|].
  destruct j as [|j]; [lia|]. simpl in Hj. destruct i as [|i]; simpl in *.
  - simplify_eq. eapply Forall_lookup_1 in Hf; eauto.
  - eapply IH; eauto. lia.
Qed.

(** [pos] splits the list at [value]. *)
Definition split_at (vals : list Z) (value : Z) (pos : nat) : Prop :=
  (forall i x, vals !! i = Some x -> (i < pos)%nat -> x < value) /\
  (forall i x, vals !! i = Some x -> (pos <= i)%nat -> value < x).

Lemma mid_eq a b :
  0 <= a <= b -> b < 2 ^ 30 ->
  s32 (Z.shiftr (u32 (u32 a + u32 b)) 1) = (a + b) / 2.
Proof.
  intros Ha Hb. assert (0 <= (a + b) / 2 <= b) by (split; [apply Z.div_pos; lia|apply Z.div_le_upper_bound; lia]).
  rewrite (uwrap_small _ a), (uwrap_small _ b) by mlia.
  rewrite (uwrap_small _ (a + b)) by mlia.
  rewrite Z.shiftr_div_pow2 by lia. change (2 ^ 1) with 2.
  apply swrap_small; mlia.
Qed.

Lemma intsetSearch_loop_spec s vals value :
  repr s vals ->
  forall fuel min max mid cur,
    0 <= min -> max < Z.of_nat (length vals) -> min <= max + 1 ->
    max - min + 1 < Z.of_nat fuel ->
    (forall i x, vals !! i = Some x -> Z.of_nat i < min -> x < value) ->
    (forall i x, vals !! i = Some x -> max < Z.of_nat i -> value < x) ->
    (min <= max \/ cur <> value) ->
    exists min' mid' cur',
      intsetSearch_loop fuel s value min max mid cur = Some (min', mid', cur') /\
      (cur' = value /\ 0 <= mid' /\ vals !! Z.to_nat mid' = Some value
       \/ cur' <> value /\ 0 <= min' /\ split_at vals value (Z.to_nat min')).
Proof.
  intros Hr. pose proof (repr_cap _ _ Hr) as Hcap. pose proof (repr_len _ _ Hr) as Hlen.
  unfold INTSET_CAP in Hcap.
  induction fuel as [|fuel IH]; intros min max mid cur Hmin Hmax Hmm Hfuel Hlo Hhi Hcur; [lia|].
  simpl. destruct (Z.geb_spec max min) as [Hge|Hlt].
  - rewrite mid_eq by mlia. set (m := (min + max) / 2).
    assert (min <= m <= max) as Hm by (subst m; split;
      [apply Z.div_le_lower_bound; lia | apply Z.div_le_upper_bound; lia]).
    destruct (lookup_lt_is_Some_2 vals (Z.to_nat m)) as [x Hx]; [lia|].
    assert (_intsetGet s m = Some x) as ->.
    { rewrite <- (Z2Nat.id m) by lia. by apply (_intsetGet_spec _ vals). }
    simpl.
    pose proof (repr_sorted _ _ Hr) as Hs.
    destruct (Z.gtb_spec value x) as [Hgt|Hle].
    { apply IH; try lia; [|done].
      intros i y Hi Hlt. destruct (decide (i = Z.to_nat m)); [by simplify_eq; lia|].
      pose proof (sorted_lookup_lt _ _ _ _ _ Hs Hi Hx). lia. }
    destruct (Z.ltb_spec value x) as [Hlt|Hge'].
    { apply IH; try lia; [done|].
      intros i y Hi Hlt'. destruct (decide (i = Z.to_nat m)); [by simplify_eq; lia|].
      pose proof (sorted_lookup_lt _ _ _ _ _ Hs Hx Hi). lia. }
    eexists _, _, _. split; [done|]. left. replace x with value in * by lia. split_and!; [done|lia|done].
  - eexists _, _, _. split; [done|]. right. split_and!; [destruct Hcur; [lia|done]|done|].
    split; intros i x Hi Hp; [eapply Hlo|eapply Hhi]; eauto; lia.
Qed.

(** Binary search finds the value, or the position that keeps the list sorted. *)
Lemma intsetSearch_spec s vals value :
  repr s vals ->
  exists (found : bool) (pos : nat),
    intsetSearch s value = Some (found, Z.of_nat pos) /\ (pos <= length vals)%nat /\
    if found then vals !! pos = Some value else split_at vals value pos.
Proof.
  intros Hr. pose proof (repr_cap _ _ Hr) as Hcap. pose proof (repr_len _ _ Hr) as Hlen.
  pose proof (repr_sorted _ _ Hr) as Hs. unfold INTSET_CAP in Hcap.
  unfold intsetSearch. destruct (Z.eqb_spec (ilength s) 0) as [H0|H0].
  { exists false, 0%nat. split_and!; [done|lia|]. destruct vals; [|simpl in *; lia].
    by split; intros ?? ?. }
  rewrite swrap_small by mlia.
  assert (0 < length vals)%nat as Hpos by lia.
  destruct (lookup_lt_is_Some_2 vals (length vals - 1)) as [last Hlast]; [lia|].
  destruct (lookup_lt_is_Some_2 vals 0) as [first Hfirst]; [lia|].
  replace (ilength s - 1) with (Z.of_nat (length vals - 1)) by lia.
  rewrite (_intsetGet_spec _ _ _ _ Hr Hlast). bsimpl.
  destruct (Z.gtb_spec value last) as [Hgt|Hle].
  { exists false, (length vals). rewrite Hlen. split_and!; [done|lia|]. split.
    - intros i x Hi _. pose proof (lookup_lt_Some _ _ _ Hi).
      destruct (decide (i = length vals - 1)%nat); [by simplify_eq|].
      pose proof (sorted_lookup_lt _ _ _ _ _ Hs Hi Hlast). lia.
    - intros i x Hi. pose proof (lookup_lt_Some _ _ _ Hi). lia. }
  pose proof (_intsetGet_spec _ _ _ _ Hr Hfirst) as Hget0. change (Z.of_nat 0) with 0 in Hget0.
  rewrite Hget0. bsimpl.
  destruct (Z.ltb_spec value first) as [Hlt|Hge].
  { exists false, 0%nat. split_and!; [done|lia|]. split; [lia|].
    intros i x Hi _. destruct i as [|i]; [by simplify_eq|].
    pose proof (sorted_lookup_lt _ _ _ _ _ Hs Hfirst Hi). lia. }
  destruct (intsetSearch_loop_spec s vals value Hr (S (Z.to_nat (ilength s))) 0
              (Z.of_nat (length vals - 1)) (-1) (-1)) as (mn & md & cur & -> & Hres); try lia.
  { intros i x Hi. pose proof (lookup_lt_Some _ _ _ Hi). lia. }
 bsimpl. destruct Hres as [(-> & Hmd & Hl)|(Hne & Hmn & Hsp)].
  - rewrite Z.eqb_refl. pose proof (lookup_lt_Some _ _ _ Hl).
    exists true, (Z.to_nat md). rewrite uwrap_small by mlia.
    split_and!; [by rewrite Z2Nat.id|lia|done].
  - rewrite (proj2 (Z.eqb_neq value cur)) by done.
    assert (Z.to_nat mn <= length vals - 1)%nat.
    { destruct (decide (Z.to_nat mn <= length vals - 1)%nat); [done|].
      pose proof (proj1 Hsp _ _ Hlast). lia. }
    exists false, (Z.to_nat mn). rewrite uwrap_small by mlia.
    split_and!; [by rewrite Z2Nat.id|lia|done].
Qed.

(** ** Insertion into and deletion from the sorted list *)

Definition ins_at (vals : list Z) (pos : nat) (v : Z) : list Z :=
  take pos vals ++ v :: drop pos vals.

Lemma split_at_take vals v pos x : split_at vals v pos -> x ∈ take pos vals -> x < v.
Proof.
  intros [Hlo _] [i Hi]%list_elem_of_lookup. apply lookup_take_Some in Hi as [Hi ?]. eauto.
Qed.

Lemma split_at_drop vals v pos x : split_at vals v pos -> x ∈ drop pos vals -> v < x.
Proof.
  intros [_ Hhi] [i Hi]%list_elem_of_lookup. rewrite lookup_drop in Hi.
  eapply Hhi; [done|lia].
Qed.

Lemma split_at_not_elem vals v pos : split_at vals v pos -> v ∉ vals.
Proof.
  intros Hs Hv. rewrite <- (take_drop pos vals) in Hv. apply elem_of_app in Hv as [Hv|Hv].
  - apply (split_at_take _ _ _ _ Hs) in Hv. lia.
  - apply (split_at_drop _ _ _ _ Hs) in Hv. lia.
Qed.

Lemma ins_at_sorted vals v pos :
  StronglySorted Z.lt vals -> split_at vals v pos -> StronglySorted Z.lt (ins_at vals pos v).
Proof.
  intros Hs Hsp. rewrite <- (take_drop pos vals) in Hs. apply StronglySorted_app in Hs as (Hx & Ht & Hd).
  apply StronglySorted_app_2; [|done|].
  - intros x y Hx' [->|Hy]%elem_of_cons; [by eapply split_at_take|].
    by apply Hx.
  - apply StronglySorted_cons. split; [|done]. apply Forall_forall.
    intros. by eapply split_at_drop.
Qed.

Lemma length_ins_at vals pos v :
  (pos <= length vals)%nat -> length (ins_at vals pos v) = S (length vals).
Proof. intros. unfold ins_at. rewrite length_app, length_take. simpl. rewrite length_drop. lia. Qed.

Lemma ins_at_set vals pos v :
  list_to_set (C := gset Z) (ins_at vals pos v) = {[v]} ∪ list_to_set vals.
Proof.
  unfold ins_at. rewrite <- (take_drop pos vals) at 3. rewrite !list_to_set_app_L. simpl.
  set_solver.
Qed.

Lemma delete_sorted vals pos : StronglySorted Z.lt vals -> StronglySorted Z.lt (delete pos vals).
Proof.
  revert pos. induction vals as [|a vals IH]; intros pos Hs; [done|].
  apply StronglySorted_cons in Hs as [Hf Hs]. destruct pos as [|pos]; simpl; [done|].
  apply StronglySorted_cons. split; [by apply Forall_delete|]. by apply IH.
Qed.

Lemma delete_set vals pos v :
  StronglySorted Z.lt vals -> vals !! pos = Some v ->
  list_to_set (C := gset Z) (delete pos vals) = list_to_set vals ∖ {[v]}.
Proof.
  intros Hs Hv. apply set_eq. intros x.
  rewrite elem_of_difference, !elem_of_list_to_set, elem_of_singleton.
  split.
  - intros [i Hi]%list_elem_of_lookup. destruct (decide (i < pos)%nat).
    + rewrite list_lookup_delete_lt in Hi by done. split; [by eapply list_elem_of_lookup_2|].
      intros ->. pose proof (sorted_lookup_lt _ _ _ _ _ Hs Hi Hv). lia.
    + rewrite list_lookup_delete_ge in Hi by lia. split; [by eapply list_elem_of_lookup_2|].
      intros ->. pose proof (sorted_lookup_lt _ _ _ _ _ Hs Hv Hi). lia.
  - intros [[i Hi]%list_elem_of_lookup Hne]. apply list_elem_of_lookup.
    destruct (decide (i < pos)%nat); [exists i; by rewrite list_lookup_delete_lt|].
    assert (i <> pos) by congruence. exists (i - 1)%nat.
    rewrite list_lookup_delete_ge by lia. by replace (S (i - 1)) with i by lia.
Qed.

(** ** Value ranges and encodings *)

Lemma valid_enc_value v : valid_enc (_intsetValueEncoding v).
Proof. unfold _intsetValueEncoding. unfold_enc. repeat case_match; auto. Qed.

(** [_intsetValueEncoding] is the least encoding that holds the value. *)
Lemma value_encoding_le v e :
  valid_enc e -> in_s 64 v -> _intsetValueEncoding v <= e <-> in_s (8 * e) v.
Proof.
  intros He Hv. unfold _intsetValueEncoding. unfold_enc.
  destruct (Z.ltb_spec v INT32_MIN), (Z.gtb_spec v INT32_MAX), (Z.ltb_spec v INT16_MIN),
    (Z.gtb_spec v INT16_MAX); simpl; destruct He as [-> | [-> | ->]]; simpl; mlia.
Qed.

Lemma in_s_mono w w' v : 0 < w <= w' -> in_s w v -> in_s w' v.
Proof.
  unfold in_s. intros Hw Hv.
  pose proof (Z.pow_le_mono_r 2 (w - 1) (w' - 1) ltac:(lia) ltac:(lia)). lia.
Qed.

(** ** The write operations *)

Section realloc_spec.
Context (fill : nat -> Z).

Lemma enc_val_length e v : length (enc_val e v) = Z.to_nat e.
Proof. apply length_le_encode. Qed.

Lemma size_bytes n e :
  valid_enc e -> Z.of_nat n < INTSET_CAP -> Z.to_nat (u32 (Z.of_nat n * e)) = (n * Z.to_nat e)%nat.
Proof.
  intros He Hn. rewrite uwrap_small; [unfold_enc; lia|]. unfold_enc.
  destruct He as [-> | [-> | ->]]; mlia.
Qed.

(** Storing a value in cell [pos] of an array with one free cell. *)
Lemma store_chunk e n b pos value :
  valid_enc e -> Z.of_nat n + 1 < INTSET_CAP ->
  chunked (Z.to_nat e) b -> length b = (n + 1)%nat -> (pos <= n)%nat ->
  (s2 ← _intsetSet (mkIntset e (Z.of_nat n) (concat b)) (Z.of_nat pos) value;
   Some (set_length s2 (u32 (ilength s2 + 1))))
  = Some (mkIntset e (Z.of_nat (n + 1)) (concat (<[pos := enc_val e value]> b))).
Proof.
  intros He Hcap Hbc Hbl Hp. rewrite _intsetSet_eq by done. simpl. rewrite enc_of_nat by done.
  rewrite mwrite_chunk by (done || apply enc_val_length || lia). simpl.
  unfold set_length; simpl. rewrite uwrap_small by (unfold_enc; mlia). do 2 f_equal. lia.
Qed.

(** Making room in front of cell [pos]. *)
Lemma move_tail_chunks e n b pos :
  valid_enc e -> Z.of_nat n + 1 < INTSET_CAP ->
  chunked (Z.to_nat e) b -> length b = (n + 1)%nat -> (pos < n)%nat ->
  intsetMoveTail (mkIntset e (Z.of_nat n) (concat b)) (Z.of_nat pos) (Z.of_nat pos + 1)
  = Some (mkIntset e (Z.of_nat n) (concat (take (pos + 1) b ++ take (n - pos) (drop pos b)
            ++ drop (pos + 1 + (n - pos)) b))).
Proof.
  intros He Hcap Hbc Hbl Hp. rewrite intsetMoveTail_eq by done. simpl.
  rewrite (uwrap_small 32 (_ - _)) by (unfold_enc; mlia).
  replace (Z.of_nat n - Z.of_nat pos) with (Z.of_nat (n - pos)) by lia.
  rewrite size_bytes by (done || unfold_enc; lia).
  replace (Z.of_nat pos + 1) with (Z.of_nat (pos + 1)) by lia. rewrite !(enc_of_nat e) by done.
  by rewrite mmove_chunks by (done || lia).
Qed.

(** The array after the tail has been moved and the value stored. *)
Lemma insert_contents s vals pos value :
  valid_enc (encoding s) -> ilength s = Z.of_nat (length vals) ->
  contents s = concat (enc_val (encoding s) <$> vals) ->
  (pos <= length vals)%nat -> Z.of_nat (length vals) + 1 < INTSET_CAP ->
  (s1 ← (let s := intsetResize fill s (u32 (ilength s + 1)) in
         if Z.of_nat pos <? ilength s
         then intsetMoveTail s (Z.of_nat pos) (u32 (Z.of_nat pos + 1)) else Some s);
   s2 ← _intsetSet s1 (Z.of_nat pos) value;
   Some (set_length s2 (u32 (ilength s2 + 1))))
  = Some (mkIntset (encoding s) (Z.of_nat (length vals + 1))
            (concat (enc_val (encoding s) <$> ins_at vals pos value))).
Proof.
  intros He Hl Hc Hp Hcap. destruct s as [e n b]; simpl in *. subst n b.
  set (cs := enc_val e <$> vals).
  assert (length cs = length vals) as Hlc by apply length_fmap.
  assert (chunked (Z.to_nat e) cs) as Hck by apply chunked_enc.
  assert (enc_val e <$> ins_at vals pos value = take pos cs ++ enc_val e value :: drop pos cs) as ->.
  { unfold ins_at, cs. by rewrite fmap_app, fmap_cons, fmap_take, fmap_drop. }
  unfold intsetResize, set_contents; simpl.
  rewrite !(uwrap_small 32 (Z.of_nat (length vals) + 1)), (uwrap_small 32 (Z.of_nat pos + 1))
    by (unfold_enc; mlia).
  rewrite <- Hlc in *.
  replace (Z.of_nat (length cs) + 1) with (Z.of_nat (length cs + 1)) by lia.
  rewrite size_bytes by (done || lia).
  destruct (mresize_grow_chunk fill (Z.to_nat e) cs Hck) as (c & Hlc' & ->).
  assert (chunked (Z.to_nat e) (cs ++ [c])) as Hck' by (apply chunked_app; [done|by repeat constructor]).
  assert (length (cs ++ [c]) = (length cs + 1)%nat) as Hlb by (rewrite length_app; simpl; lia).
  destruct (Z.ltb_spec (Z.of_nat pos) (Z.of_nat (length cs))) as [Hlt|Hge].
  - rewrite move_tail_chunks by (done || lia). bsimpl.
    rewrite store_chunk; [by rewrite insert_shift by lia|done..|auto with redis| |done].
    rewrite !length_app, !length_take, !length_drop, Hlb. lia.
  - bsimpl. rewrite store_chunk by done. replace pos with (length cs) by lia.
    rewrite take_ge, drop_ge by lia. by rewrite insert_app_r_alt, Nat.sub_diag by lia.
Qed.

(** ** Upgrade *)

(** Rewriting the elements back to front in the wider encoding never reads a
    cell that has already been overwritten. *)
Lemma intsetUpgrade_loop_spec cur p vals n : forall s,
  valid_enc cur -> valid_enc (encoding s) -> cur <= encoding s -> (p <= 1)%nat ->
  length (contents s) = ((length vals + 1) * Z.to_nat (encoding s))%nat ->
  (n <= length vals)%nat ->
  take (n * Z.to_nat cur) (contents s) = concat (enc_val cur <$> take n vals) ->
  Forall (in_s (8 * cur)) vals ->
  exists b,
    intsetUpgrade_loop n s (Z.of_nat p) cur = Some (set_contents s b) /\
    length b = length (contents s) /\
    (forall j v, (j < n)%nat -> vals !! j = Some v ->
       mread b (Z.of_nat (j + p) * encoding s) (Z.to_nat (encoding s)) = Some (enc_val (encoding s) v)) /\
    (forall off k, Z.of_nat (n + p) * encoding s <= off ->
       mread b off k = mread (contents s) off k).
Proof.
  induction n as [|n IH]; intros s Hcur Henc Hle Hp Hlen Hn Hpre Hrng.
  { exists (contents s). destruct s. split_and!; try done. lia. }
  destruct (lookup_lt_is_Some_2 vals n) as [v Hv]; [lia|].
  assert (in_s (8 * cur) v) as Hvr by (by eapply Forall_lookup_1).
  simpl. assert (_intsetGetEncoded s (Z.of_nat n) cur = Some v) as ->.
  { rewrite _intsetGetEncoded_eq by done.
    rewrite (mread_prefix (S n * Z.to_nat cur)) by (unfold_enc; nia).
    rewrite Hpre, enc_of_nat by done. erewrite mread_chunk; [|apply chunked_enc|].
    2: { rewrite list_lookup_fmap, lookup_take_lt by lia. by rewrite Hv. }
    bsimpl. by rewrite dec_enc_val. }
  bsimpl. rewrite _intsetSet_eq by done.
  set (e := encoding s) in *.
  assert (exists b1, mwrite (contents s) ((Z.of_nat n + Z.of_nat p) * e) (enc_val e v) = Some b1)
    as [b1 Hw].
  { eexists. apply mwrite_Some; rewrite ?enc_val_length; unfold_enc; nia. }
  rewrite Hw. bsimpl. pose proof (mwrite_length _ _ _ _ Hw) as Hl1.
  destruct (IH (set_contents s b1)) as (b & Hloop & Hl & Hlow & Hhigh);
    try done; try (simpl; rewrite ?Hl1; lia).
  { simpl. erewrite take_mwrite; [|done|unfold_enc; nia].
    replace (n * Z.to_nat cur)%nat with ((n * Z.to_nat cur) `min` (S n * Z.to_nat cur))%nat by lia.
    rewrite <- take_take, Hpre, (take_concat_chunked _ _ _ (chunked_enc cur _)).
    rewrite <- fmap_take, take_take. do 3 f_equal. lia. }
  simpl in *. fold e in Hlow, Hhigh. exists b. split_and!.
  - by rewrite Hloop.
  - by rewrite Hl.
  - intros j x Hj Hx. destruct (decide (j = n)) as [->|Hne]; [|apply Hlow; [lia|done]].
    rewrite Hhigh by lia. simplify_eq. rewrite <- (enc_val_length e v).
    replace (Z.of_nat (n + p) * e) with ((Z.of_nat n + Z.of_nat p) * e) by lia.
    by eapply mread_mwrite_same.
  - intros off k Hoff. rewrite Hhigh by (unfold_enc; nia).
    eapply mread_mwrite_other; [done|]. right. rewrite enc_val_length. unfold_enc; nia.
Qed.

Definition upgraded (vals : list Z) (v : Z) : list Z :=
  if v <? 0 then v :: vals else vals ++ [v].

Lemma length_upgraded vals v : length (upgraded vals v) = (length vals + 1)%nat.
Proof. unfold upgraded. case_match; simpl; rewrite ?length_app; simpl; lia. Qed.

(** Where the cells of the upgraded array come from. *)
Lemma upgraded_lookup vals v i :
  let p := if v <? 0 then 1%nat else 0%nat in
  let k := if v <? 0 then 0%nat else length vals in
  (i < length vals + 1)%nat ->
  (i = k /\ upgraded vals v !!! i = v) \/
  (i <> k /\ exists j, i = (j + p)%nat /\ (j < length vals)%nat /\
     vals !! j = Some (upgraded vals v !!! i)).
Proof.
  intros p k Hi. unfold p, k, upgraded. destruct (v <? 0).
  - destruct i as [|i]; [by left|]. right. split; [done|]. exists i.
    split_and!; [lia|lia|]. simpl. rewrite list_lookup_lookup_total_lt by lia. done.
  - destruct (decide (i = length vals)) as [->|Hne].
    + left. split; [done|]. by rewrite lookup_total_app_r, Nat.sub_diag by lia.
    + right. split; [done|]. exists i. split_and!; [lia|lia|].
      rewrite lookup_total_app_l by lia. by rewrite list_lookup_lookup_total_lt by lia.
Qed.

Lemma intsetUpgradeAndAdd_eq s vals v :
  repr s vals -> in_s 64 v -> encoding s < _intsetValueEncoding v ->
  ilength s + 1 < INTSET_CAP ->
  intsetUpgradeAndAdd fill s v =
    Some (mkIntset (_intsetValueEncoding v) (ilength s + 1)
            (concat (enc_val (_intsetValueEncoding v) <$> upgraded vals v))).
Proof.
  intros Hr Hv Hlt Hcap. destruct Hr as [He Hl Hc Hrng Hs _].
  pose proof (valid_enc_value v) as Hne. set (e := _intsetValueEncoding v) in *.
  set (p := if v <? 0 then 1%nat else 0%nat). set (k := if v <? 0 then 0%nat else length vals).
  unfold intsetUpgradeAndAdd. fold e.
  replace (if v <? 0 then 1 else 0) with (Z.of_nat p) by (subst p; by case_match).
  rewrite (uwrap_small 8), (swrap_small 32) by (unfold_enc; mlia). rewrite Hl, Nat2Z.id.
  unfold intsetResize, set_encoding, set_contents; cbn [encoding ilength contents].
  rewrite (uwrap_small 32 (ilength s + 1)) by (unfold_enc; mlia).
  replace (ilength s + 1) with (Z.of_nat (length vals + 1)) by lia.
  rewrite size_bytes by (done || lia).
  set (b0 := mresize fill (contents s) _).
  assert (length b0 = ((length vals + 1) * Z.to_nat e)%nat) as Hb0 by apply length_mresize.
  assert (length (contents s) = (length vals * Z.to_nat (encoding s))%nat) as Hlc.
  { rewrite Hc, (length_concat_chunked _ _ (chunked_enc _ _)). by rewrite length_fmap. }
  destruct (intsetUpgrade_loop_spec (encoding s) p vals (length vals) (mkIntset e (ilength s) b0))
    as (b & -> & Hlb & Hlow & Hhigh); try done; simpl; try lia.
  { subst p; case_match; lia. }
  { subst b0. unfold mresize. rewrite take_app_le by (rewrite length_take; unfold_enc; nia).
    rewrite take_take, Nat.min_l by (unfold_enc; nia). rewrite <- Hlc, take_ge, take_ge by lia. done. }
  unfold set_contents; simpl.
  replace (if Z.of_nat p =? 1 then _intsetSet _ 0 v else _)
    with (_intsetSet (mkIntset e (ilength s) b) (Z.of_nat k) v)
    by (subst p k; case_match; simpl; by rewrite ?Hl).
  assert (k <= length vals)%nat by (subst k; case_match; lia).
  rewrite _intsetSet_eq by done. simpl in *.
  assert (exists b', mwrite b (Z.of_nat k * e) (enc_val e v) = Some b') as [b' Hw].
  { eexists. apply mwrite_Some; rewrite ?enc_val_length; unfold_enc; nia. }
  rewrite Hw. bsimpl. unfold set_length; simpl. rewrite uwrap_small by (unfold_enc; mlia).
  do 3 f_equal; [lia|]. pose proof (mwrite_length _ _ _ _ Hw) as Hlb'.
  rewrite <- (fmap_lookup_total_seq (enc_val e) (upgraded vals v)), length_upgraded.
  apply (concat_of_mread (Z.to_nat e)); [lia|]. intros i Hi. rewrite <- enc_of_nat by done.
  destruct (upgraded_lookup vals v i Hi) as [[-> ->]|(Hnk & j & -> & Hj & Hvj)].
  - fold k. rewrite <- (enc_val_length e v). by eapply mread_mwrite_same.
  - fold k in Hnk. fold p in Hnk, Hvj |- *. rewrite <- (Hlow j _ Hj Hvj).
    eapply mread_mwrite_other; [done|]. rewrite enc_val_length. unfold_enc; nia.
Qed.

Lemma upgraded_split_at vals v e :
  valid_enc e -> in_s 64 v -> e < _intsetValueEncoding v -> Forall (in_s (8 * e)) vals ->
  let k := if v <? 0 then 0%nat else length vals in
  upgraded vals v = ins_at vals k v /\ split_at vals v k.
Proof.
  intros He Hv Hlt Hf k.
  assert (~ in_s (8 * e) v) as Hout by (rewrite <- value_encoding_le by done; lia).
  assert (forall i x, vals !! i = Some x -> in_s (8 * e) x) as Hx by (intros; by eapply Forall_lookup_1).
  subst k. unfold upgraded, ins_at. destruct (Z.ltb_spec v 0).
  - split; [done|]. split; [lia|]. intros i x Hi _. specialize (Hx i x Hi). unfold in_s in *. lia.
  - rewrite take_ge, drop_ge by lia. split; [done|]. split.
    + intros i x Hi _. specialize (Hx i x Hi). unfold in_s in *. lia.
    + intros i x Hi. pose proof (lookup_lt_Some _ _ _ Hi). lia.
Qed.

(** Insertion at a position that splits the list keeps the invariant. *)
Lemma repr_ins_at s vals pos v e :
  repr s vals -> split_at vals v pos -> (pos <= length vals)%nat ->
  valid_enc e -> encoding s <= e -> in_s (8 * e) v -> ilength s + 1 < INTSET_CAP ->
  repr (mkIntset e (ilength s + 1) (concat (enc_val e <$> ins_at vals pos v))) (ins_at vals pos v).
Proof.
  intros [He Hl Hc Hr Hs _] Hsp Hp He' Hle Hv Hcap. constructor; simpl; try done.
  - rewrite length_ins_at by done. lia.
  - assert (Forall (in_s (8 * e)) vals) as Hf.
    { eapply Forall_impl; [done|]. intros x. apply in_s_mono. unfold_enc; lia. }
    unfold ins_at. apply Forall_app; split; [by apply Forall_take|].
    constructor; [done|by apply Forall_drop].
  - by apply ins_at_sorted.
Qed.

(** [intsetAdd] at the level of the represented list. *)
Lemma intsetAdd_repr s vals v :
  repr s vals -> in_s 64 v -> ilength s + 1 < INTSET_CAP ->
  ((v ∈ vals) /\ intsetAdd fill s v = Some (s, false)) \/
  ((v ∉ vals) /\ exists s' pos,
     intsetAdd fill s v = Some (s', true) /\ repr s' (ins_at vals pos v) /\
     ilength s' = ilength s + 1 /\ encoding s' = Z.max (encoding s) (_intsetValueEncoding v)).
Proof.
  intros Hr Hv Hcap. unfold intsetAdd.
  pose proof (repr_enc _ _ Hr) as He. pose proof (repr_len _ _ Hr) as Hl.
  destruct (Z.gtb_spec (_intsetValueEncoding v) (encoding s)) as [Hgt|Hle].
  - right. destruct (upgraded_split_at vals v (encoding s)) as [Hu Hsp]; try done;
      [by apply repr_range|].
    split; [by eapply split_at_not_elem|].
    rewrite (intsetUpgradeAndAdd_eq s vals v) by (done || lia). bsimpl. rewrite Hu.
    eexists _, _. split; [done|]. split_and!; [|done|simpl; lia].
    apply repr_ins_at; try done; [case_match; lia|apply valid_enc_value|lia|].
    apply value_encoding_le; [apply valid_enc_value|done|lia].
  - destruct (intsetSearch_spec s vals v Hr) as (found & pos & -> & Hp & Hfound). bsimpl.
    destruct found; [left; split; [by eapply list_elem_of_lookup_2|done]|right].
    split; [by eapply split_at_not_elem|].
    pose proof (insert_contents s vals pos v He Hl (repr_contents _ _ Hr) Hp ltac:(lia)) as Hins.
    cbn zeta in Hins. revert Hins.
    destruct (if Z.of_nat pos <? _ then _ else _) as [s1|]; [bsimpl|done].
    destruct (_intsetSet s1 _ v) as [s2|]; [bsimpl; intros ->%(inj Some)|done].
    replace (Z.of_nat (length vals + 1)) with (ilength s + 1) by lia.
    eexists _, _. split_and!; [done| |done|simpl; lia].
    apply repr_ins_at; try done. apply value_encoding_le; [done..|lia].
Qed.

(** Overwriting cell [pos] with the tail and truncating is deletion. *)
Lemma delete_contents e vals pos :
  valid_enc e -> (pos < length vals)%nat -> Z.of_nat (length vals) < INTSET_CAP ->
  (s1 ← (if Z.of_nat pos <? Z.of_nat (length vals - 1)
         then intsetMoveTail (mkIntset e (Z.of_nat (length vals)) (concat (enc_val e <$> vals)))
                (Z.of_nat (pos + 1)) (Z.of_nat pos)
         else Some (mkIntset e (Z.of_nat (length vals)) (concat (enc_val e <$> vals))));
   Some (intsetResize fill s1 (Z.of_nat (length vals - 1))))
  = Some (mkIntset e (Z.of_nat (length vals)) (concat (enc_val e <$> delete pos vals))).
Proof.
  intros He Hp Hcap. set (cs := enc_val e <$> vals).
  assert (length cs = length vals) as Hlc by apply length_fmap.
  assert (chunked (Z.to_nat e) cs) as Hck by apply chunked_enc.
  assert (enc_val e <$> delete pos vals = take pos cs ++ drop (pos + 1) cs) as ->.
  { rewrite delete_take_drop, fmap_app, fmap_take, fmap_drop. by rewrite Nat.add_1_r. }
  rewrite <- Hlc in *. unfold intsetResize, set_contents.
  destruct (Z.ltb_spec (Z.of_nat pos) (Z.of_nat (length cs - 1))) as [Hlt|Hge].
  - rewrite intsetMoveTail_eq by done. simpl.
    rewrite (uwrap_small 32 (_ - _)) by (unfold_enc; mlia).
    replace (Z.of_nat (length cs) - Z.of_nat (pos + 1)) with (Z.of_nat (length cs - (pos + 1))) by lia.
    rewrite size_bytes by (done || unfold_enc; lia). rewrite !(enc_of_nat e) by done.
    rewrite mmove_chunks by (done || lia). bsimpl. unfold set_contents; simpl.
    rewrite size_bytes by (done || unfold_enc; lia).
    rewrite (take_ge (drop _ cs)) by (rewrite length_drop; lia).
    rewrite mresize_shrink_chunks by (auto with redis || rewrite ?length_app, ?length_take, ?length_drop; lia).
    do 4 f_equal. rewrite app_assoc, take_app_le by (rewrite length_app, length_take, length_drop; lia).
    by rewrite take_ge by (rewrite length_app, length_take, length_drop; lia).
  - bsimpl. simpl. rewrite size_bytes by (done || unfold_enc; lia).
    rewrite mresize_shrink_chunks by (done || lia).
    rewrite (drop_ge cs) by lia. rewrite app_nil_r. do 4 f_equal. lia.
Qed.

Lemma intsetRemove_repr s vals v :
  repr s vals -> in_s 64 v ->
  ((v ∉ vals) /\ intsetRemove fill s v = Some (s, false)) \/
  (exists s' pos, vals !! pos = Some v /\
     intsetRemove fill s v = Some (s', true) /\ repr s' (delete pos vals) /\
     ilength s' = ilength s - 1 /\ encoding s' = encoding s).
Proof.
  intros Hr Hv. unfold intsetRemove. pose proof Hr as [He Hl Hc Hrng Hs Hcap].
  destruct (Z.leb_spec (_intsetValueEncoding v) (encoding s)) as [Hle|Hgt].
  - destruct (intsetSearch_spec s vals v Hr) as (found & pos & -> & Hp & Hfound). bsimpl.
    destruct found; [right|left; split; [by eapply split_at_not_elem|done]].
    pose proof (lookup_lt_Some _ _ _ Hfound) as Hlt.
    destruct s as [e n b]; simpl in *. subst n b.
    rewrite !(uwrap_small 32 (Z.of_nat (length vals) - 1)), (uwrap_small 32 (_ + 1)) by (unfold_enc; mlia).
    replace (Z.of_nat (length vals) - 1) with (Z.of_nat (length vals - 1)) by lia.
    replace (Z.of_nat pos + 1) with (Z.of_nat (pos + 1)) by lia.
    pose proof (delete_contents e vals pos He Hlt Hcap) as Hdel. revert Hdel.
    destruct (if Z.of_nat pos <? _ then _ else _) as [s1|]; [bsimpl; intros ->%(inj Some)|done].
    eexists _, pos. split_and!; [done|done| |simpl; lia|done].
    assert (length (delete pos vals) = (length vals - 1)%nat) by (by apply length_delete).
    constructor; simpl; try done; [lia|by apply Forall_delete|by apply delete_sorted|lia].
  - left. split; [|done]. intros [i Hi]%list_elem_of_lookup.
    pose proof (Forall_lookup_1 _ _ _ _ Hrng Hi) as Hin.
    apply value_encoding_le in Hin; [lia|done..].
Qed.

End realloc_spec.

(** ** The set interface *)

(** An operation of the set interface, and its answer. *)
Inductive op := OpAdd (v : Z) | OpRemove (v : Z) | OpFind (v : Z) | OpLen.
Inductive answer := ABool (b : bool) | ALen (n : Z).

Definition op_value_ok (o : op) : Prop :=
  match o with OpAdd v | OpRemove v | OpFind v => in_s 64 v | OpLen => True end.

(** Execution on the blob; [None] is an out-of-bounds access. *)
Definition exec (fill : nat -> Z) (s : intset) (o : op) : option (intset * answer) :=
  match o with
  | OpAdd v => '(s, b) ← intsetAdd fill s v; Some (s, ABool b)
  | OpRemove v => '(s, b) ← intsetRemove fill s v; Some (s, ABool b)
  | OpFind v => b ← intsetFind s v; Some (s, ABool b)
  | OpLen => Some (s, ALen (intsetLen s))
  end.

(** The abstract specification: a finite set of integers. *)
Definition exec_spec (X : gset Z) (o : op) : gset Z * answer :=
  match o with
  | OpAdd v => ({[v]} ∪ X, ABool (bool_decide (v ∉ X)))
  | OpRemove v => (X ∖ {[v]}, ABool (bool_decide (v ∈ X)))
  | OpFind v => (X, ABool (bool_decide (v ∈ X)))
  | OpLen => (X, ALen (Z.of_nat (size X)))
  end.

Fixpoint run (fill : nat -> Z) (s : intset) (os : list op) : option (intset * list answer) :=
  match os with
  | [] => Some (s, [])
  | o :: os => '(s, a) ← exec fill s o; '(s, r) ← run fill s os; Some (s, a :: r)
  end.

Fixpoint run_spec (X : gset Z) (os : list op) : gset Z * list answer :=
  match os with
  | [] => (X, [])
  | o :: os => let '(X, a) := exec_spec X o in let '(X, r) := run_spec X os in (X, a :: r)
  end.

Lemma repr_size s vals : repr s vals -> ilength s = Z.of_nat (size (list_to_set vals : gset Z)).
Proof.
  intros Hr. rewrite (repr_len _ _ Hr), size_list_to_set; [done|].
  pose proof (repr_sorted _ _ Hr) as Hs. apply NoDup_alt. intros i j x Hi Hj.
  destruct (decide (i = j)) as [|Hne]; [done|]. destruct (decide (i < j)%nat).
  - pose proof (sorted_lookup_lt _ _ _ _ _ Hs Hi Hj). lia.
  - pose proof (sorted_lookup_lt _ _ _ _ _ Hs Hj Hi). lia.
Qed.

Lemma represents_add fill s X v :
  represents s X -> in_s 64 v -> ilength s + 1 < INTSET_CAP ->
  exists s', intsetAdd fill s v = Some (s', bool_decide (v ∉ X)) /\
    represents s' ({[v]} ∪ X) /\ ilength s' <= ilength s + 1 /\
    encoding s' = Z.max (encoding s) (_intsetValueEncoding v).
Proof.
  intros (vals & Hr & ->) Hv Hcap.
  destruct (intsetAdd_repr fill s vals v Hr Hv Hcap) as [[Hin ->]|(Hni & s' & pos & -> & Hr' & Hl' & He')].
  - rewrite bool_decide_eq_false_2 by set_solver. exists s. split_and!; [done| |lia|].
    + exists vals. split; [done|]. set_solver.
    + apply list_elem_of_lookup in Hin as [i Hi].
      pose proof (Forall_lookup_1 _ _ _ _ (repr_range _ _ Hr) Hi) as Hle.
      apply value_encoding_le in Hle; [lia|by eapply repr_enc|done].
  - rewrite bool_decide_eq_true_2 by set_solver. exists s'. split_and!; [done| |lia|done].
    exists (ins_at vals pos v). by rewrite ins_at_set.
Qed.

Lemma represents_remove fill s X v :
  represents s X -> in_s 64 v ->
  exists s', intsetRemove fill s v = Some (s', bool_decide (v ∈ X)) /\
    represents s' (X ∖ {[v]}) /\ ilength s' <= ilength s.
Proof.
  intros (vals & Hr & ->) Hv.
  destruct (intsetRemove_repr fill s vals v Hr Hv) as [[Hni ->]|(s' & pos & Hp & -> & Hr' & Hl' & _)].
  - rewrite bool_decide_eq_false_2 by set_solver. exists s. split_and!; [done| |lia].
    exists vals. split; [done|]. set_solver.
  - rewrite bool_decide_eq_true_2 by (rewrite elem_of_list_to_set; by eapply list_elem_of_lookup_2).
    exists s'. split_and!; [done| |lia]. exists (delete pos vals). split; [done|].
    symmetry. apply delete_set; [by eapply repr_sorted|done].
Qed.

Lemma represents_find s X v :
  represents s X -> in_s 64 v -> intsetFind s v = Some (bool_decide (v ∈ X)).
Proof.
  intros (vals & Hr & ->) Hv. unfold intsetFind.
  destruct (Z.leb_spec (_intsetValueEncoding v) (encoding s)) as [Hle|Hgt].
  - destruct (intsetSearch_spec s vals v Hr) as (found & pos & -> & _ & Hf). bsimpl. f_equal.
    symmetry. destruct found; [apply bool_decide_eq_true_2|apply bool_decide_eq_false_2];
      rewrite elem_of_list_to_set; [by eapply list_elem_of_lookup_2|by eapply split_at_not_elem].
  - rewrite bool_decide_eq_false_2; [done|].
    rewrite elem_of_list_to_set. intros [i Hi]%list_elem_of_lookup.
    pose proof (Forall_lookup_1 _ _ _ _ (repr_range _ _ Hr) Hi) as Hin.
    apply value_encoding_le in Hin; [lia|by eapply repr_enc|done].
Qed.

Lemma represents_new : represents intsetNew ∅.
Proof. exists []. split; [|done]. constructor; simpl; [by left|done|done|constructor..|done]. Qed.

Lemma represents_len s X : represents s X -> ilength s = Z.of_nat (size X).
Proof. intros (vals & Hr & ->). by apply repr_size. Qed.

Lemma exec_refines fill s X o :
  represents s X -> op_value_ok o -> ilength s + 1 < INTSET_CAP ->
  exists s', exec fill s o = Some (s', (exec_spec X o).2) /\
    represents s' (exec_spec X o).1 /\ ilength s' <= ilength s + 1.
Proof.
  intros HX Ho Hcap. destruct o as [v|v|v|]; simpl in *.
  - destruct (represents_add fill s X v HX Ho Hcap) as (s' & -> & ? & ? & _). eauto.
  - destruct (represents_remove fill s X v HX Ho) as (s' & -> & ? & ?).
    eexists. split; [done|]. split; [done|lia].
  - rewrite (represents_find s X v HX Ho). eexists. split; [done|]. split; [done|lia].
  - unfold intsetLen. rewrite <- (represents_len s X HX).
    eexists. split; [done|]. split; [done|lia].
Qed.

(** C10: The intset blob implements a finite set.  Any sequence of additions,
    removals, membership tests and length queries with 64-bit values, started
    on a blob that represents [X], runs without an out-of-bounds access,
    answers exactly as the abstract set does, and ends in a blob that
    represents the abstract result, as long as the number of elements stays
    below the size at which the 32-bit byte count wraps. *)
Theorem intset_run_refines fill s X os :
  represents s X -> Forall op_value_ok os ->
  ilength s + Z.of_nat (length os) < INTSET_CAP ->
  exists s', run fill s os = Some (s', (run_spec X os).2) /\ represents s' (run_spec X os).1.
Proof.
  intros HX Hos. revert s X HX.
  induction Hos as [|o os Ho Hos IH]; intros s X HX Hcap; simpl in *; [eauto|].
  destruct (exec_refines fill s X o) as (s1 & -> & HX1 & Hl1); [done..|lia|].
  destruct (exec_spec X o) as [X1 a]; simpl in *.
  destruct (IH s1 X1 HX1 ltac:(lia)) as (s2 & -> & HX2).
  destruct (run_spec X1 os) as [X2 r]; simpl in *. eauto.
Qed.

Lemma intset_run_refines_witness :
  exists s', run (fun _ => 0) intsetNew [OpAdd 5; OpAdd (-70000); OpAdd 5; OpRemove 5; OpFind 5; OpLen]
    = Some (s', [ABool true; ABool true; ABool false; ABool true; ABool false; ALen 1]).
Proof.
  destruct (intset_run_refines (fun _ => 0) intsetNew ∅
    [OpAdd 5; OpAdd (-70000); OpAdd 5; OpRemove 5; OpFind 5; OpLen]) as (s' & Hrun & _).
  - apply represents_new.
  - repeat constructor; vm_compute; intuition congruence.
  - vm_compute; reflexivity.
  - exists s'. rewrite Hrun. vm_compute. reflexivity.
Defined.

(** Adding a value widens the encoding exactly when the value needs it,
    keeps every old element, and leaves a blob of eight header bytes plus
    one cell per element. *)
Theorem intsetAdd_blob fill s X v :
  represents s X -> in_s 64 v -> ilength s + 1 < INTSET_CAP ->
  exists s', intsetAdd fill s v = Some (s', bool_decide (v ∉ X)) /\
    represents s' ({[v]} ∪ X) /\
    encoding s' = Z.max (encoding s) (_intsetValueEncoding v) /\
    Z.of_nat (length (contents s')) = intsetLen s' * encoding s' /\
    intsetBlobLen s' = 8 + Z.of_nat (length (contents s')).
Proof.
  intros HX Hv Hcap.
  destruct (represents_add fill s X v HX Hv Hcap) as (s' & Hadd & HX' & Hl & He).
  exists s'. do 3 (split; [done|]). destruct HX' as (vals & [Hve Hlen Hc _ _ Hcap'] & _).
  assert (Z.of_nat (length (contents s')) = intsetLen s' * encoding s') as Heq.
  { rewrite Hc, (length_concat_chunked _ _ (chunked_enc _ _)), length_fmap. unfold intsetLen.
    unfold_enc. nia. }
  split; [done|]. unfold intsetBlobLen, sizeof_intset. rewrite Heq. unfold intsetLen in *.
  assert (0 <= ilength s' * encoding s' < 2 ^ 32) by (unfold_enc; mlia).
  rewrite (uwrap_small 32) by done. apply uwrap_small. mlia.
Qed.

Lemma intsetAdd_blob_witness :
  exists s', intsetAdd (fun _ => 0) intsetNew 40000 = Some (s', true) /\
    encoding s' = 4 /\ intsetBlobLen s' = 12.
Proof.
  destruct (intsetAdd_blob (fun _ => 0) intsetNew ∅ 40000) as (s' & Hadd & _ & He & Hl & Hb).
  - apply represents_new.
  - vm_compute; intuition congruence.
  - vm_compute; reflexivity.
  - exists s'. vm_compute in Hadd. injection Hadd as <-. repeat split; reflexivity.
Defined.

(** Positional access enumerates the set in increasing order: in-range
    positions read members, later positions read larger members, every member
    is at some position, and an out-of-range position is reported as such. *)
Theorem intsetGet_enumerates s X :
  represents s X ->
  (forall i, 0 <= i < intsetLen s -> exists v, intsetGet s i = Some (Some v) /\ v ∈ X) /\
  (forall i j v w, 0 <= i < j -> intsetGet s i = Some (Some v) -> intsetGet s j = Some (Some w) -> v < w) /\
  (forall v, v ∈ X -> exists i, 0 <= i < intsetLen s /\ intsetGet s i = Some (Some v)) /\
  (forall i, intsetLen s <= i -> intsetGet s i = Some None).
Proof.
  intros (vals & Hr & ->). pose proof Hr as [_ Hl _ _ Hs Hcap]. unfold intsetLen.
  assert (forall i, 0 <= i < ilength s -> exists v, vals !! Z.to_nat i = Some v /\
            intsetGet s i = Some (Some v)) as Hget.
  { intros i Hi. destruct (lookup_lt_is_Some_2 vals (Z.to_nat i)) as [v Hv]; [lia|].
    exists v. split; [done|]. unfold intsetGet. rewrite (proj2 (Z.ltb_lt _ _)) by lia.
    rewrite swrap_small by (unfold_enc; mlia). rewrite <- (Z2Nat.id i) by lia.
    by rewrite (_intsetGet_spec _ _ _ _ Hr Hv). }
  split_and!.
  - intros i Hi. destruct (Hget i Hi) as (v & Hv & ->). exists v. split; [done|].
    rewrite elem_of_list_to_set. by eapply list_elem_of_lookup_2.
  - intros i j v w Hij Hi Hj.
    assert (j < ilength s) by (unfold intsetGet in Hj; destruct (Z.ltb_spec j (ilength s)); [lia|done]).
    destruct (Hget i ltac:(lia)) as (v' & Hv & Hi'). destruct (Hget j ltac:(lia)) as (w' & Hw & Hj').
    simplify_eq. eapply sorted_lookup_lt; [done..|lia].
  - intros v [i Hi]%elem_of_list_to_set%list_elem_of_lookup. pose proof (lookup_lt_Some _ _ _ Hi).
    exists (Z.of_nat i). split; [lia|]. destruct (Hget (Z.of_nat i)) as (w & Hw & ->); [lia|].
    rewrite Nat2Z.id in Hw. by simplify_eq.
  - intros i Hi. unfold intsetGet. by rewrite (proj2 (Z.ltb_ge _ _)).
Qed.

Lemma intsetGet_enumerates_witness :
  exists s, intsetAdd (fun _ => 0) intsetNew 7 = Some (s, true) /\ intsetGet s 0 = Some (Some 7).
Proof.
  destruct (represents_add (fun _ => 0) intsetNew ∅ 7 represents_new) as (s & Hadd & HX & _).
  - vm_compute; intuition congruence.
  - vm_compute; reflexivity.
  - exists s. split; [exact Hadd|].
    destruct (intsetGet_enumerates s _ HX) as (_ & _ & Hall & _).
    destruct (Hall 7) as (i & Hi & Hg); [set_solver|].
    vm_compute in Hadd. injection Hadd as <-. vm_compute. reflexivity.
Defined.

(** A full-range example of the invariant: the integers [0 .. n-1] in the
    64-bit encoding. *)
Definition iota_intset (n : Z) : intset := mkIntset 8 n (concat (enc_val 8 <$> seqZ 0 n)).

Lemma represents_iota n :
  0 <= n < INTSET_CAP -> represents (iota_intset n) (list_to_set (seqZ 0 n)).
Proof.
  intros Hn. exists (seqZ 0 n). split; [|done]. constructor; simpl; try done.
  - by right; right.
  - rewrite length_seqZ. lia.
  - apply Forall_forall. intros x Hx%elem_of_seqZ. unfold_enc. mlia.
  - apply Sorted_StronglySorted; [intros ???; lia|]. 
    unfold seqZ. generalize (Z.to_nat n) as k. intros k. generalize 0%nat as j. induction k as [|k IH]; intros j; simpl; constructor; [apply IH|].
    destruct k; simpl; constructor. lia.
  - lia.
Qed.

Lemma mread_nil off n : (0 < n)%nat -> mread [] off n = None.
Proof. intros. unfold mread. case_bool_decide; [simpl in *; lia|done]. Qed.

(** C37: The size computation of [intsetResize] is 32-bit: with [2^29 - 1]
    64-bit elements the block for one more element is computed as zero bytes,
    so the insertion accesses memory outside the allocation. *)
Theorem intsetAdd_size_wraps fill s X v :
  represents s X -> encoding s = INTSET_ENC_INT64 -> ilength s = 2 ^ 29 - 1 ->
  in_s 64 v -> v ∉ X -> intsetAdd fill s v = None.
Proof.
  intros (vals & Hr & ->) He Hl Hv Hni. unfold intsetAdd.
  assert (_intsetValueEncoding v <= 8) as Hle.
  { apply value_encoding_le; [unfold_enc; lia|done|done]. }
  rewrite He. destruct (Z.gtb_spec (_intsetValueEncoding v) INTSET_ENC_INT64); [unfold_enc; lia|].
  destruct (intsetSearch_spec s vals v Hr) as (found & pos & -> & Hp & Hf). bsimpl.
  destruct found.
  { exfalso. apply Hni, elem_of_list_to_set. by eapply list_elem_of_lookup_2. }
  assert (intsetResize fill s (u32 (ilength s + 1)) = mkIntset 8 (2 ^ 29 - 1) []) as ->.
  { unfold intsetResize, set_contents. rewrite He, Hl.
    replace (Z.to_nat _) with 0%nat by (vm_compute; reflexivity). reflexivity. }
  pose proof (repr_len _ _ Hr) as Hlen. cbn [ilength].
  assert (forall w, _intsetSet (mkIntset 8 (2 ^ 29 - 1) []) (Z.of_nat pos) w = None) as Hset.
  { intros w. rewrite _intsetSet_eq by (unfold_enc; auto). unfold mwrite. cbn [encoding contents].
    rewrite bool_decide_eq_false_2; [done|]. rewrite enc_val_length. simpl length. lia. }
  destruct (Z.ltb_spec (Z.of_nat pos) (2 ^ 29 - 1)) as [Hlt|]; [|bsimpl; by rewrite Hset].
  rewrite intsetMoveTail_eq by (unfold_enc; auto). unfold mmove. cbn [encoding contents ilength].
  rewrite (uwrap_small 32 (_ - _)), (uwrap_small 32 (_ * 8)) by mlia.
  rewrite mread_nil by mlia. done.
Qed.

Lemma intsetAdd_size_wraps_witness :
  intsetAdd (fun _ => 0) (iota_intset (2 ^ 29 - 1)) (-1) = None.
Proof.
  apply (intsetAdd_size_wraps (fun _ => 0) (iota_intset (2 ^ 29 - 1)) (list_to_set (seqZ 0 (2 ^ 29 - 1)))).
  - apply represents_iota. unfold INTSET_CAP. lia.
  - reflexivity.
  - reflexivity.
  - unfold in_s. lia.
  - rewrite elem_of_list_to_set, elem_of_seqZ. lia.
Defined.

End Intset.
