(* ===== verification/UtilNum.v ===== *)
(** Model of the integer/decimal conversions of [util.c]: [digits10],
    [sdigits10], [ll2string], [string2ll] and [string2l].

    Strings are lists of byte values; the output buffer of [ll2string] is a
    block with bounds-checked stores.  The theorems relate the routines to a
    plain reference printer [decimal]: [ll2string] prints it, [string2ll]
    accepts exactly its outputs, and the two are inverse to each other. *)

From S2P Require Import Prelude.

#[local] Open Scope Z_scope.

Module UtilNum.

Definition chr0 : Z := 48.
Definition chr9 : Z := 57.
Definition chr_minus : Z := 45.

(** ** [digits10] *)

(** The recursion divides by [10^12]; two levels are enough for 64 bits. *)
Fixpoint digits10_rec (fuel : nat) (v : Z) : option Z :=
  match fuel with
  | O => None
  | S fuel =>
      if v <? 10 then Some 1 else
      if v <? 100 then Some 2 else
      if v <? 1000 then Some 3 else
      if v <? 1000000000000 then
        if v <? 100000000 then
          if v <? 1000000 then
            if v <? 10000 then Some 4
            else Some (5 + Z.b2z (v >=? 100000))
          else Some (7 + Z.b2z (v >=? 10000000))
        else if v <? 10000000000 then Some (9 + Z.b2z (v >=? 1000000000))
        else Some (11 + Z.b2z (v >=? 100000000000))
      else r ← digits10_rec fuel (v / 1000000000000); Some (u32 (12 + r))
  end.

Definition digits10 (v : Z) : option Z := digits10_rec 2 v.

Definition sdigits10 (v : Z) : option Z :=
  if v <? 0 then
    let uv := if negb (v =? LLONG_MIN) then u64 (- v) else u64 (LLONG_MAX + 1) in
    r ← digits10 uv; Some (u32 (r + 1))
  else digits10 (u64 v).

(** ** [ll2string] *)

(** The static table of two-digit strings: entry [2k] and [2k+1] hold the
    characters of [k]. *)
Definition digits : list Z :=
  [48;48; 48;49; 48;50; 48;51; 48;52; 48;53; 48;54; 48;55; 48;56; 48;57;
   49;48; 49;49; 49;50; 49;51; 49;52; 49;53; 49;54; 49;55; 49;56; 49;57;
   50;48; 50;49; 50;50; 50;51; 50;52; 50;53; 50;54; 50;55; 50;56; 50;57;
   51;48; 51;49; 51;50; 51;51; 51;52; 51;53; 51;54; 51;55; 51;56; 51;57;
   52;48; 52;49; 52;50; 52;51; 52;52; 52;53; 52;54; 52;55; 52;56; 52;57;
   53;48; 53;49; 53;50; 53;51; 53;52; 53;53; 53;54; 53;55; 53;56; 53;57;
   54;48; 54;49; 54;50; 54;51; 54;52; 54;53; 54;54; 54;55; 54;56; 54;57;
   55;48; 55;49; 55;50; 55;51; 55;52; 55;53; 55;54; 55;55; 55;56; 55;57;
   56;48; 56;49; 56;50; 56;51; 56;52; 56;53; 56;54; 56;55; 56;56; 56;57;
   57;48; 57;49; 57;50; 57;51; 57;52; 57;53; 57;54; 57;55; 57;56; 57;57].

(** [dst[i] = c], [None] outside the buffer. *)
Definition store (dst : list Z) (i c : Z) : option (list Z) := mwrite dst i [c].

Definition digit_at (i : Z) : option Z := digits !! Z.to_nat i.

(** [while (value >= 100) { ... }]; returns the buffer, [value] and [next]. *)
Fixpoint ll2string_loop (fuel : nat) (dst : list Z) (value next : Z)
  : option (list Z * Z * Z) :=
  match fuel with
  | O => None
  | S fuel =>
      if value >=? 100 then
        let i := (value mod 100) * 2 in
        let value := value / 100 in
        d1 ← digit_at (i + 1); dst ← store dst next d1;
        d0 ← digit_at i; dst ← store dst (u32 (next - 1)) d0;
        ll2string_loop fuel dst value (u32 (next - 2))
      else Some (dst, value, next)
  end.

(** The buffer has [dstlen] bytes; the result is the buffer and the returned
    length. *)
Definition ll2string (dst : list Z) (dstlen svalue : Z) : option (list Z * Z) :=
  let '(value, negative) :=
    if svalue <? 0 then
      (if negb (svalue =? LLONG_MIN) then u64 (- svalue) else u64 (LLONG_MAX + 1), 1)
    else (u64 svalue, 0) in
  d ← digits10 value;
  let length := u32 (d + negative) in
  if length >=? dstlen then Some (dst, 0)
  else
    let next := length in
    dst ← store dst next 0;
    let next := u32 (next - 1) in
    '(dst, value, next) ← ll2string_loop 11 dst value next;
    dst ← (if value <? 10 then store dst next (chr0 + u32 value)
           else
             let i := u32 value * 2 in
             d1 ← digit_at (i + 1); dst ← store dst next d1;
             d0 ← digit_at i; store dst (u32 (next - 1)) d0);
    dst ← (if negative =? 1 then store dst 0 chr_minus else Some dst);
    Some (dst, length).

(** ** [string2ll] *)

(** [while (plen < slen && isdigit(p[0])) { ... }]: [None] is the early
    return on overflow, otherwise the value and the unread characters. *)
Fixpoint string2ll_loop (p : list Z) (v : Z) : option (Z * list Z) :=
  match p with
  | [] => Some (v, [])
  | c :: p' =>
      if (c >=? chr0) && (c <=? chr9) then
        if v >? ULLONG_MAX / 10 then None
        else
          let v := u64 (v * 10) in
          if v >? u64 (ULLONG_MAX - (c - chr0)) then None
          else string2ll_loop p' (u64 (v + (c - chr0)))
      else Some (v, p)
  end.

(** [None] is the return value 0; [Some v] is 1 with [*value = v]. *)
Definition string2ll (s : list Z) : option Z :=
  match s with
  | [] => None
  | c :: rest =>
      if (c =? chr0) && bool_decide (rest = []) then Some 0
      else
        let '(negative, p) := if c =? chr_minus then (true, rest) else (false, s) in
        match p with
        | [] => None
        | d :: p =>
            if (d >=? chr0 + 1) && (d <=? chr9) then
              '(v, p) ← string2ll_loop p (d - chr0);
              match p with
              | _ :: _ => None
              | [] =>
                  if (negative : bool) then
                    if v >? u64 (- (LLONG_MIN + 1)) + 1 then None
                    else Some (s64 (u64 (- v)))
                  else if v >? LLONG_MAX then None
                  else Some (s64 v)
              end
            else None
        end
  end.

(** [long] is 64 bits wide (LP64). *)
Definition LONG_MIN : Z := LLONG_MIN.
Definition LONG_MAX : Z := LLONG_MAX.
Definition string2l (s : list Z) : option Z :=
  llval ← string2ll s;
  if (llval <? LONG_MIN) || (llval >? LONG_MAX) then None else Some (s64 llval).

(** ** The reference printer *)

Fixpoint dec_digits (fuel : nat) (v : Z) : list Z :=
  match fuel with
  | O => []
  | S fuel => if v <? 10 then [chr0 + v] else dec_digits fuel (v / 10) ++ [chr0 + v mod 10]
  end.

(** Decimal digits of an unsigned 64-bit value ([2^64 < 10^20]). *)
Definition udec (v : Z) : list Z := dec_digits 20 v.

Definition decimal (v : Z) : list Z :=
  if v <? 0 then chr_minus :: udec (- v) else udec v.

Lemma dec_digits_S f v :
  dec_digits (S f) v = if v <? 10 then [chr0 + v] else dec_digits f (v / 10) ++ [chr0 + v mod 10].
Proof. done. Qed.

#[local] Arguments dec_digits : simpl never.

Lemma dec_digits_fuel n f v :
  v < 10 ^ Z.of_nat n -> (0 < n <= f)%nat -> dec_digits f v = dec_digits n v.
Proof.
  revert f v. induction n as [|n IH]; intros f v Hv Hf; [lia|].
  destruct f as [|f]; [lia|]. rewrite !dec_digits_S. destruct (Z.ltb_spec v 10) as [|Hge]; [done|].
  destruct n as [|n]; [simpl in Hv; lia|]. f_equal. apply IH; [|lia].
  apply Z.div_lt_upper_bound; [lia|]. rewrite <- Z.pow_succ_r by lia.
  by replace (Z.succ (Z.of_nat (S n))) with (Z.of_nat (S (S n))) by lia.
Qed.

Lemma udec_small v : v < 10 -> udec v = [chr0 + v].
Proof. intros. unfold udec. rewrite dec_digits_S. by rewrite (proj2 (Z.ltb_lt _ _)). Qed.

Lemma udec_nonempty v : (0 < length (udec v))%nat.
Proof.
  unfold udec. rewrite dec_digits_S. case_match; rewrite ?length_app; simpl; lia.
Qed.

Lemma udec_step v : 10 <= v < 10 ^ 20 -> udec v = udec (v / 10) ++ [chr0 + v mod 10].
Proof.
  intros [Hlo Hhi]. unfold udec. rewrite (dec_digits_S 19), (proj2 (Z.ltb_ge _ _)) by done.
  rewrite (dec_digits_fuel 19 20 (v / 10)); [done| |lia].
  apply Z.div_lt_upper_bound; [lia|]. done.
Qed.

Lemma udec_step100 v :
  100 <= v < 10 ^ 20 ->
  udec v = udec (v / 100) ++ [chr0 + v mod 100 / 10; chr0 + v mod 100 mod 10].
Proof.
  intros Hv. rewrite udec_step by lia.
  assert (10 <= v / 10 < 10 ^ 20).
  { split; [apply Z.div_le_lower_bound; lia|apply Z.div_lt_upper_bound; lia]. }
  rewrite udec_step, Z.div_div by lia. change (10 * 10) with 100.
  rewrite <- app_assoc. simpl. do 3 f_equal; [|f_equal].
  - dlia.
  - dlia.
Qed.

Lemma udec_length v (d : nat) :
  0 <= v < 10 ^ 20 -> (0 < d)%nat -> (10 ^ (Z.of_nat d - 1) <= v \/ d = 1%nat) ->
  v < 10 ^ Z.of_nat d -> length (udec v) = d.
Proof.
  revert v. induction d as [|d IH]; intros v Hv Hd Hlo Hhi; [lia|].
  destruct (decide (v < 10)) as [Hs|Hs].
  - rewrite udec_small by done. simpl. destruct Hlo as [Hlo|]; [|lia].
    destruct d as [|d]; [done|].
    assert (10 ^ 1 <= 10 ^ (Z.of_nat (S (S d)) - 1)) by (apply Z.pow_le_mono_r; lia). lia.
  - rewrite udec_step, length_app by lia. simpl.
    destruct d as [|d]; [change (10 ^ Z.of_nat 1) with 10 in Hhi; lia|].
    destruct Hlo as [Hlo|]; [|lia].
    assert (10 ^ (Z.of_nat (S (S d)) - 1) = 10 * 10 ^ (Z.of_nat (S d) - 1)) as E1.
    { rewrite <- Z.pow_succ_r by lia. f_equal. lia. }
    assert (10 ^ Z.of_nat (S (S d)) = 10 * 10 ^ Z.of_nat (S d)) as E2.
    { rewrite <- Z.pow_succ_r by lia. f_equal. lia. }
    rewrite E1 in Hlo. rewrite E2 in Hhi.
    rewrite IH; [lia| |lia| |].
    + split; [apply Z.div_pos; lia|apply Z.div_lt_upper_bound; lia].
    + left. apply Z.div_le_lower_bound; lia.
    + apply Z.div_lt_upper_bound; lia.
Qed.

(** The value a digit string denotes. *)
Definition dval (acc : Z) (ds : list Z) : Z := fold_left (fun a d => a * 10 + (d - chr0)) ds acc.
Definition is_digit (c : Z) : Prop := chr0 <= c <= chr9.

(** No leading zero, except for the string "0". *)
Definition canonical (ds : list Z) : Prop :=
  Forall is_digit ds /\ (ds = [chr0] \/ exists d ds', ds = d :: ds' /\ chr0 < d).

Lemma dval_app acc ds d : dval acc (ds ++ [d]) = dval acc ds * 10 + (d - chr0).
Proof. unfold dval. by rewrite fold_left_app. Qed.

Lemma dval_mono acc ds : 0 <= acc -> Forall is_digit ds -> acc <= dval acc ds.
Proof.
  intros Hacc Hds. revert acc Hacc. induction Hds as [|d ds Hd _ IH]; intros acc Hacc; simpl; [unfold dval; simpl; lia|].
  unfold is_digit in Hd. unfold dval in *. simpl. specialize (IH (acc * 10 + (d - chr0))). lia.
Qed.

Lemma udec_spec v : 0 <= v < 10 ^ 20 -> canonical (udec v) /\ dval 0 (udec v) = v.
Proof.
  intros Hv.
  assert (forall (f : nat) v, 0 <= v < 10 ^ Z.of_nat f -> v < 10 ^ 20 -> canonical (udec v) /\ dval 0 (udec v) = v) as H.
  2: { apply (H 20%nat); lia. }
  clear v Hv. induction f as [|f IH]; intros v Hv Hv'.
  { change (10 ^ Z.of_nat 0) with 1 in Hv. replace v with 0 by lia.
    split; [|done]. split; [repeat constructor; vm_compute; congruence|by left]. }
  destruct (decide (v < 10)) as [Hs|Hs].
  - rewrite udec_small by done. unfold canonical, is_digit, dval, chr0, chr9. simpl. split; [|lia].
    split; [repeat constructor; lia|].
    destruct (decide (v = 0)) as [->|]; [by left|right; eexists _, _; split; [done|lia]].
  - rewrite udec_step by lia.
    assert (10 ^ Z.of_nat (S f) = 10 * 10 ^ Z.of_nat f) as E.
    { rewrite <- Z.pow_succ_r by lia. f_equal. lia. }
    rewrite E in Hv. assert (1 <= v / 10) by (apply Z.div_le_lower_bound; lia).
    destruct (IH (v / 10)) as [[Hd Hc] Hval].
    { split; [lia|apply Z.div_lt_upper_bound; lia]. }
    { apply Z.div_lt_upper_bound; lia. }
    pose proof (Z.mod_pos_bound v 10 ltac:(lia)). split.
    + split.
      { apply Forall_app; split; [done|]. repeat constructor; unfold chr0, chr9; lia. }
      right. destruct Hc as [Hc|(d & ds & Hc & Hpos)].
      { rewrite Hc in Hval. unfold dval, chr0 in Hval. simpl in Hval. lia. }
      rewrite Hc. eexists _, _. split; [done|done].
    + rewrite dval_app, Hval. pose proof (Z.div_mod v 10 ltac:(lia)). lia.
Qed.

(** A canonical digit string is the printed form of its value. *)
Lemma canonical_unique ds :
  canonical ds -> dval 0 ds < 10 ^ 20 -> ds = udec (dval 0 ds).
Proof.
  intros Hc. assert (0 <= dval 0 ds) as H0 by (apply dval_mono; [lia|apply Hc]).
  induction ds as [|d ds IH] using rev_ind; intros Hv.
  { destruct Hc as [_ [?|(? & ? & ? & _)]]; done. }
  destruct Hc as [Hd Hc]. apply Forall_app in Hd as [Hds Hd]. rewrite Forall_singleton in Hd.
  rewrite dval_app in *. unfold is_digit, chr0, chr9 in *.
  destruct ds as [|c ds].
  { change (dval 0 []) with 0 in *. rewrite udec_small by lia. unfold chr0. rewrite app_nil_l. f_equal. lia. }
  assert (48 < c) as Hcpos.
  { destruct Hc as [?|(? & ? & [= <- _] & ?)]; [by destruct ds|done]. }
  assert (1 <= dval 0 (c :: ds)) as Hpos.
  { change (dval 0 (c :: ds)) with (dval (c - chr0) ds). 
    transitivity (c - chr0); [unfold chr0; lia|]. apply dval_mono; [unfold chr0; lia|].
    by inversion Hds. }
  rewrite udec_step by lia.
  rewrite (Z.add_comm (_ * 10)), Z.div_add, Z.mod_add by lia.
  rewrite Z.div_small, Z.mod_small, Z.add_0_l by lia.
  f_equal; [|f_equal; unfold chr0; lia]. apply IH; [|lia|lia].
  split; [done|]. right. eexists _, _. done.
Qed.

(** ** [digits10] counts the printed digits *)

Definition has_digits (v : Z) (d : nat) : Prop :=
  (0 < d)%nat /\ (10 ^ (Z.of_nat d - 1) <= v \/ d = 1%nat) /\ v < 10 ^ Z.of_nat d.

Lemma digits10_small f v :
  0 <= v < 10 ^ 12 ->
  exists d, digits10_rec (S f) v = Some (Z.of_nat d) /\ has_digits v d /\ (d <= 12)%nat.
Proof.
  intros [H0 H12].
  assert (forall k, has_digits v (Z.to_nat k) -> 0 < k <= 12 ->
            exists d, Some k = Some (Z.of_nat d) /\ has_digits v d /\ (d <= 12)%nat) as Hk.
  { intros k Hd Hk. exists (Z.to_nat k). split_and!; [f_equal; lia|done|lia]. }
  cbn [digits10_rec]. unfold has_digits in Hk.
  rewrite (proj2 (Z.ltb_lt v 1000000000000)) by lia.
  repeat match goal with
  | |- context [v <? ?n] => destruct (Z.ltb_spec v n)
  | |- context [v >=? ?n] => destruct (Z.geb_spec v n)
  end; (apply Hk; [split_and!|]; cbn -[Z.pow]; mlia).
Qed.

Lemma digits10_big f v :
  10 ^ 12 <= v ->
  digits10_rec (S f) v = (r ← digits10_rec f (v / 10 ^ 12); Some (u32 (12 + r))).
Proof. intros Hv. cbn [digits10_rec]. by rewrite !(proj2 (Z.ltb_ge v _)) by lia. Qed.

Lemma digits10_spec v :
  0 <= v < 2 ^ 64 -> digits10 v = Some (Z.of_nat (length (udec v))).
Proof.
  intros Hv. destruct (decide (v < 10 ^ 12)) as [Hlt|Hge].
  - destruct (digits10_small 1 v) as (d & Hd & (? & ? & ?) & _); [lia|].
    unfold digits10. rewrite Hd. by rewrite (udec_length v d) by (mlia || done).
  - assert (0 <= v / 10 ^ 12 < 10 ^ 8) as Hq.
    { split; [apply Z.div_pos; lia|apply Z.div_lt_upper_bound; mlia]. }
    destruct (digits10_small 0 (v / 10 ^ 12)) as (d & Hd & (Hd0 & Hlo & Hhi) & Hd12); [lia|].
    unfold digits10. assert (digits10_rec 2 v = Some (u32 (12 + Z.of_nat d))) as ->.
    { rewrite digits10_big by lia. by rewrite Hd. }
    rewrite uwrap_small by mlia. f_equal.
    assert (v = 10 ^ 12 * (v / 10 ^ 12) + v mod 10 ^ 12) as Hdm by (apply Z.div_mod; lia).
    pose proof (Z.mod_pos_bound v (10 ^ 12) ltac:(lia)).
    rewrite (udec_length v (12 + d)); [lia|mlia|lia| |].
    + left. replace (Z.of_nat (12 + d) - 1) with (12 + (Z.of_nat d - 1)) by lia.
      rewrite Z.pow_add_r by lia. destruct Hlo as [Hlo| ->]; [nia|]. simpl. lia.
    + replace (Z.of_nat (12 + d)) with (12 + Z.of_nat d) by lia.
      rewrite Z.pow_add_r by lia. nia.
Qed.

(** ** [ll2string] prints [decimal] *)

Lemma digit_at_spec k :
  0 <= k < 100 ->
  digit_at (k * 2) = Some (chr0 + k / 10) /\ digit_at (k * 2 + 1) = Some (chr0 + k mod 10).
Proof.
  intros Hk.
  assert (Forall (fun n => digit_at (Z.of_nat n * 2) = Some (chr0 + Z.of_nat n / 10) /\
            digit_at (Z.of_nat n * 2 + 1) = Some (chr0 + Z.of_nat n mod 10)) (seq 0 100)) as Hall.
  { repeat constructor. }
  rewrite Forall_forall in Hall. specialize (Hall (Z.to_nat k)).
  rewrite Z2Nat.id in Hall by lia. apply Hall. apply elem_of_seq. lia.
Qed.

Lemma store_app A x B c i :
  i = Z.of_nat (length A) -> store (A ++ x :: B) i c = Some (A ++ c :: B).
Proof.
  intros ->. unfold store. rewrite mwrite_Some; [|lia|rewrite length_app; simpl; lia].
  rewrite Nat2Z.id, take_app_length. f_equal. f_equal. simpl. f_equal.
  rewrite drop_app_ge by lia. by replace (length A + 1 - length A)%nat with 1%nat by lia.
Qed.

(** Two characters stored from the end of the free part [A]. *)
Lemma store2_app A x y B c d next :
  next = Z.of_nat (length A) + 1 -> next < 2 ^ 32 ->
  (dst ← store (A ++ x :: y :: B) next d; store dst (u32 (next - 1)) c)
  = Some (A ++ c :: d :: B).
Proof.
  intros -> Hb.
  replace (A ++ x :: y :: B) with ((A ++ [x]) ++ y :: B) by by rewrite <- app_assoc.
  rewrite store_app by (rewrite length_app; simpl; lia). bsimpl. rewrite <- app_assoc. simpl.
  apply store_app. rewrite uwrap_small; [lia|]. mlia.
Qed.

Lemma ends_with_two {A} (l : list A) n :
  length l = (n + 2)%nat -> exists l' x y, l = l' ++ [x; y] /\ length l' = n.
Proof.
  intros Hl. exists (take n l). pose proof (take_drop n l) as Htd.
  assert (length (drop n l) = 2%nat) as Hd by (rewrite length_drop; lia).
  destruct (drop n l) as [|x [|y [|]]]; try done. exists x, y.
  split; [done|]. rewrite length_take. lia.
Qed.

Lemma ll2string_loop_spec k fuel : forall v A B,
  0 <= v < 10 ^ 20 -> v < 100 ^ Z.of_nat fuel -> (0 < fuel)%nat ->
  length A = (k + length (udec v))%nat -> Z.of_nat (length A) < 2 ^ 32 ->
  exists A' v' sfx,
    ll2string_loop fuel (A ++ B) v (Z.of_nat (length A) - 1)
      = Some (A' ++ sfx ++ B, v', Z.of_nat (length A') - 1) /\
    udec v = udec v' ++ sfx /\ 0 <= v' < 100 /\ length A' = (k + length (udec v'))%nat.
Proof.
  induction fuel as [|fuel IH]; intros v A B Hv Hf Hpos Hl Hb; [lia|].
  cbn [ll2string_loop]. destruct (Z.geb_spec v 100) as [Hge|Hlt].
  - assert (100 ^ Z.of_nat (S fuel) = 100 * 100 ^ Z.of_nat fuel) as E.
    { rewrite <- Z.pow_succ_r by lia. f_equal. lia. }
    assert (0 <= v / 100 < 10 ^ 20) as Hq by (split; [apply Z.div_pos; lia|apply Z.div_lt_upper_bound; lia]).
    pose proof (udec_step100 v ltac:(lia)) as Hu. rewrite Hu in Hl. rewrite length_app in Hl. simpl in Hl.
    destruct (ends_with_two A (k + length (udec (v / 100)))) as (A1 & x & y & -> & Hl1); [lia|].
    rewrite length_app in *. simpl in *. rewrite <- app_assoc.
    destruct (digit_at_spec (v mod 100)) as [-> ->]; [apply Z.mod_pos_bound; lia|]. bsimpl.
    pose proof (store2_app A1 x y B (chr0 + v mod 100 / 10) (chr0 + v mod 100 mod 10)
      (Z.of_nat (length A1 + 2) - 1) ltac:(lia) ltac:(lia)) as Hst. revert Hst. simpl app.
    destruct (store (A1 ++ x :: y :: B) _ _) as [dst|]; [bsimpl|done]. intros ->. bsimpl.
    pose proof (udec_nonempty (v / 100)). rewrite (uwrap_small 32 (_ - 2)) by mlia.
    replace (Z.of_nat (length A1 + 2) - 1 - 2) with (Z.of_nat (length A1) - 1) by lia.
    destruct (IH (v / 100) A1 (chr0 + v mod 100 / 10 :: chr0 + v mod 100 mod 10 :: B))
      as (A' & v' & sfx & Hloop & Hu' & Hv' & Hl'); try lia.
    { apply Z.div_lt_upper_bound; lia. }
    { destruct fuel; [|lia]. simpl in Hf. lia. }
    exists A', v', (sfx ++ [chr0 + v mod 100 / 10; chr0 + v mod 100 mod 10]).
    rewrite Hloop, Hu, Hu', <- !app_assoc. done.
  - exists A, v, []. split_and!; try done; [by rewrite app_nil_r|lia].
Qed.

(** The last one or two digits and the sign. *)
Lemma ll2string_tail k A v B :
  0 <= v < 100 -> (k <= 1)%nat -> length A = (k + length (udec v))%nat ->
  (dst ← (if v <? 10 then store (A ++ B) (Z.of_nat (length A) - 1) (chr0 + u32 v)
          else
            d1 ← digit_at (u32 v * 2 + 1); dst ← store (A ++ B) (Z.of_nat (length A) - 1) d1;
            d0 ← digit_at (u32 v * 2); store dst (u32 (Z.of_nat (length A) - 1 - 1)) d0);
   if Z.of_nat k =? 1 then store dst 0 chr_minus else Some dst)
  = Some ((if Z.of_nat k =? 1 then [chr_minus] else []) ++ udec v ++ B).
Proof.
  intros Hv Hk Hl. rewrite (uwrap_small 32 v) by mlia.
  assert (forall P R, length P = k ->
    (if Z.of_nat k =? 1 then store (P ++ R) 0 chr_minus else Some (P ++ R))
    = Some ((if Z.of_nat k =? 1 then [chr_minus] else []) ++ R)) as Hsign.
  { intros P R HP. destruct k as [|[|k]]; [|destruct P as [|z [|]]; try done|lia].
    - by destruct P. - by apply (store_app [] z). }
  destruct (Z.ltb_spec v 10) as [Hs|Hs].
  - rewrite udec_small in Hl |- * by done. simpl in Hl.
    assert (exists P y, A = P ++ [y] /\ length P = k) as (P & y & -> & HP).
    { exists (take k A). pose proof (take_drop k A) as Htd.
      assert (length (drop k A) = 1%nat) as Hd by (rewrite length_drop; lia).
      destruct (drop k A) as [|y [|]]; try done. exists y. split; [done|]. rewrite length_take. lia. }
    rewrite <- app_assoc, length_app. simpl.
    rewrite store_app by lia. bsimpl. by apply Hsign.
  - assert (udec v = [chr0 + v / 10; chr0 + v mod 10]) as Hu.
    { rewrite udec_step by lia. by rewrite udec_small by dlia. }
    rewrite Hu in Hl |- *. simpl in Hl.
    destruct (ends_with_two A k) as (P & x & y & -> & HP); [lia|].
    destruct (digit_at_spec v) as [-> ->]; [lia|]. bsimpl. rewrite <- app_assoc, length_app. simpl.
    pose proof (store2_app P x y B (chr0 + v / 10) (chr0 + v mod 10)
      (Z.of_nat (length P + 2) - 1) ltac:(lia) ltac:(lia)) as Hst. revert Hst.
    destruct (store _ _ _) as [dst|]; [bsimpl|done]. intros ->. bsimpl. by apply Hsign.
Qed.

Lemma decimal_abs v :
  decimal v = (if v <? 0 then [chr_minus] else []) ++ udec (Z.abs v).
Proof.
  unfold decimal. destruct (Z.ltb_spec v 0); [|by rewrite Z.abs_eq by lia].
  by rewrite Z.abs_neq by lia.
Qed.

Lemma udec_length_20 v : 0 <= v < 2 ^ 64 -> (length (udec v) <= 20)%nat.
Proof.
  intros Hv. assert (forall f v, (length (dec_digits f v) <= f)%nat) as H.
  { induction f as [|f IH]; intros w; [done|]. rewrite dec_digits_S.
    case_match; [simpl; lia|]. rewrite length_app. specialize (IH (w / 10)). simpl. lia. }
  apply H.
Qed.

Lemma dec_digits_short f : forall d v, 0 <= v < 10 ^ Z.of_nat d -> (0 < d)%nat -> (length (dec_digits f v) <= d)%nat.
Proof.
  induction f as [|f IH]; intros d v Hv Hd; [simpl; lia|]. rewrite dec_digits_S.
  destruct (Z.ltb_spec v 10); [simpl; lia|]. destruct d as [|d]; [lia|].
  rewrite Nat2Z.inj_succ, Z.pow_succ_r in Hv by lia. rewrite length_app. simpl.
  assert (0 < d)%nat by (destruct d; simpl in Hv; lia).
  specialize (IH d (v / 10)). assert (v / 10 < 10 ^ Z.of_nat d) by (apply Z.div_lt_upper_bound; lia).
  pose proof (Z.div_pos v 10). lia.
Qed.

(** What [ll2string] leaves in a buffer of [length dst] bytes. *)
Lemma ll2string_decimal dst v :
  in_s 64 v ->
  ll2string dst (Z.of_nat (length dst)) v =
    if (length dst <=? length (decimal v))%nat then Some (dst, 0)
    else Some (decimal v ++ 0 :: drop (S (length (decimal v))) dst, Z.of_nat (length (decimal v))).
Proof.
  intros Hv. unfold ll2string. set (k := if v <? 0 then 1%nat else 0%nat).
  assert ((if v <? 0 then (if negb (v =? LLONG_MIN) then u64 (- v) else u64 (LLONG_MAX + 1), 1) else (u64 v, 0))
          = (Z.abs v, Z.of_nat k)) as ->.
  { subst k. destruct (Z.ltb_spec v 0); [destruct (Z.eqb_spec v LLONG_MIN) as [->|]; [done|]; simpl|];
      rewrite uwrap_small by mlia; f_equal; lia. }
  assert (0 <= Z.abs v < 2 ^ 64) as Ha by mlia.
  assert (length (decimal v) = (k + length (udec (Z.abs v)))%nat) as Hlen.
  { rewrite decimal_abs, length_app. subst k. by case_match. }
  pose proof (udec_length_20 (Z.abs v) Ha) as H20.
  assert (k <= 1)%nat as Hk1 by (subst k; case_match; lia).
  rewrite digits10_spec by done. bsimpl.
  rewrite (uwrap_small 32 (_ + _)) by mlia.
  replace (Z.of_nat (length (udec (Z.abs v))) + Z.of_nat k) with (Z.of_nat (length (decimal v))) by lia.
  destruct (Z.geb_spec (Z.of_nat (length (decimal v))) (Z.of_nat (length dst))) as [Hge|Hlt].
  { by rewrite (proj2 (Nat.leb_le _ _)) by lia. }
  rewrite (proj2 (Nat.leb_gt _ _)) by lia.
  destruct (lookup_lt_is_Some_2 dst (length (decimal v))) as [x Hx]; [lia|].
  rewrite <- (take_drop_middle dst _ x Hx) at 1.
  set (A := take (length (decimal v)) dst). set (R := drop (S (length (decimal v))) dst).
  assert (length A = length (decimal v)) as HA by (subst A; rewrite length_take; lia).
  rewrite store_app by lia. bsimpl. pose proof (udec_nonempty (Z.abs v)).
  rewrite (uwrap_small 32) by mlia. rewrite <- HA.
  destruct (ll2string_loop_spec k 11 (Z.abs v) A (0 :: R)) as (A' & v' & sfx & -> & Hu & Hv' & Hl');
    [mlia|mlia|lia|lia|mlia|].
  bsimpl. pose proof (ll2string_tail k A' v' (sfx ++ 0 :: R) Hv' Hk1 Hl') as Ht. revert Ht.
  destruct (if v' <? 10 then _ else _) as [d|]; [bsimpl|done]. intros ->. bsimpl.
  rewrite decimal_abs, Hu, HA, <- !app_assoc. do 3 f_equal. subst k. by case_match.
Qed.

(** C24: [ll2string] on a 64-bit value and a buffer of [dstlen] bytes: when the
    printed number and its terminator fit, the buffer starts with exactly the
    decimal representation followed by a NUL, the rest is untouched and the
    length is returned; otherwise the buffer is unchanged and 0 is returned.
    No store is outside the buffer. *)
Theorem ll2string_prints dst v :
  in_s 64 v ->
  ll2string dst (Z.of_nat (length dst)) v =
    if (length dst <=? length (decimal v))%nat then Some (dst, 0)
    else Some (decimal v ++ 0 :: drop (S (length (decimal v))) dst, Z.of_nat (length (decimal v))).
Proof. apply ll2string_decimal. Qed.

Lemma ll2string_prints_witness :
  ll2string [1; 1; 1; 1; 1; 1] 6 (-907) = Some ([45; 57; 48; 55; 0; 1], 4) /\
  ll2string [1; 1; 1; 1] 4 (-907) = Some ([1; 1; 1; 1], 0).
Proof.
  split.
  - assert (in_s 64 (-907)) as H by (vm_compute; intuition congruence).
    etransitivity; [exact (ll2string_prints [1; 1; 1; 1; 1; 1] (-907) H)|]. vm_compute. reflexivity.
  - vm_compute. reflexivity.
Defined.

(** ** [string2ll] accepts exactly the printed numbers *)

(** On digits the loop computes the denoted value, and stops with an error
    exactly when it exceeds 64 bits. *)
Lemma string2ll_loop_digits p : forall v,
  Forall is_digit p -> 0 <= v <= ULLONG_MAX ->
  string2ll_loop p v = if dval v p <=? ULLONG_MAX then Some (dval v p, []) else None.
Proof.
  induction p as [|c p IH]; intros v Hp Hv; simpl.
  { change (dval v []) with v. by rewrite (proj2 (Z.leb_le _ _)) by lia. }
  apply Forall_cons in Hp as [Hc Hp]. unfold is_digit in Hc.
  rewrite (proj2 (Z.geb_le _ _)), (proj2 (Z.leb_le c _)) by lia. simpl.
  change (dval v (c :: p)) with (dval (v * 10 + (c - chr0)) p).
  pose proof (dval_mono (v * 10 + (c - chr0)) p ltac:(lia) Hp) as Hm.
  unfold chr0, chr9 in *.
  rewrite (uwrap_small 64 (ULLONG_MAX - _)) by mlia.
  destruct (Z.gtb_spec v (ULLONG_MAX / 10)) as [Hg|Hg].
  { rewrite (proj2 (Z.leb_gt _ _)); [done|]. change (ULLONG_MAX / 10) with 1844674407370955161 in Hg. lia. }
  change (ULLONG_MAX / 10) with 1844674407370955161 in Hg.
  rewrite (uwrap_small 64 (v * 10)) by mlia.
  destruct (Z.gtb_spec (v * 10) (ULLONG_MAX - (c - 48))) as [Hg'|Hg'].
  { rewrite (proj2 (Z.leb_gt _ _)); [done|lia]. }
  rewrite (uwrap_small 64 (v * 10 + _)) by mlia. apply IH; [done|lia].
Qed.

(** Success with no unread character means that all characters are digits. *)
Lemma string2ll_loop_all p : forall v v',
  string2ll_loop p v = Some (v', []) -> Forall is_digit p.
Proof.
  induction p as [|c p IH]; intros v v' H; simpl in *; [constructor|].
  destruct (Z.geb_spec c chr0), (Z.leb_spec c chr9); simpl in H; try done.
  destruct (v >? _); [done|]. destruct (_ >? _); [done|].
  constructor; [done|]. by eapply IH.
Qed.

(** A sign followed by a first digit 1-9 and a value in range. *)
Lemma string2ll_digits (neg : bool) d p :
  chr0 < d -> Forall is_digit (d :: p) -> (dval 0 (d :: p) <= (if neg then 2 ^ 63 else 2 ^ 63 - 1)) ->
  string2ll ((if neg then [chr_minus] else []) ++ d :: p)
    = Some (if neg then - dval 0 (d :: p) else dval 0 (d :: p)).
Proof.
  intros Hd Hp Hr. pose proof (Forall_inv Hp) as Hd'. pose proof (Forall_inv_tail Hp) as Hp'.
  unfold is_digit in Hd'. change (dval 0 (d :: p)) with (dval (d - chr0) p) in *.
  pose proof (dval_mono (d - chr0) p ltac:(lia) Hp') as Hm.
  assert (string2ll_loop p (d - chr0) = Some (dval (d - chr0) p, [])) as Hloop.
  { rewrite string2ll_loop_digits by (done || unfold chr0, chr9 in *; lia).
    by rewrite (proj2 (Z.leb_le _ _)) by (destruct neg; mlia). }
  unfold string2ll. unfold chr0, chr9, chr_minus in *. destruct neg; simpl.
  - rewrite (proj2 (Z.geb_le _ _)), (proj2 (Z.leb_le _ _)) by lia. simpl. rewrite Hloop. simpl.
    rewrite Z.gtb_ltb, (proj2 (Z.ltb_ge _ _)) by (change (u64 _) with (2 ^ 63 - 1); mlia).
    rewrite swrap_uwrap by lia. f_equal. apply swrap_small; mlia.
  - rewrite (proj2 (Z.eqb_neq d 48)), (proj2 (Z.eqb_neq d 45)) by lia. simpl.
    rewrite (proj2 (Z.geb_le _ _)), (proj2 (Z.leb_le _ _)) by lia. simpl. rewrite Hloop. simpl.
    rewrite Z.gtb_ltb, (proj2 (Z.ltb_ge _ _)) by mlia. f_equal. apply swrap_small; mlia.
Qed.

(** Conversely, a parsed string has this shape. *)
Lemma string2ll_inv s v :
  string2ll s = Some v ->
  (s = [chr0] /\ v = 0) \/
  exists (neg : bool) d p, s = (if neg then [chr_minus] else []) ++ d :: p /\
    chr0 < d /\ Forall is_digit (d :: p) /\ dval 0 (d :: p) <= (if neg then 2 ^ 63 else 2 ^ 63 - 1).
Proof.
  unfold string2ll. destruct s as [|c rest]; [done|].
  destruct (Z.eqb_spec c chr0) as [->|Hc0]; [case_bool_decide as Hr; simpl; [intros [= <-]; subst; by left|]|simpl].
  { done. }
  assert (exists (neg : bool) q, (if c =? chr_minus then (true, rest) else (false, c :: rest)) = (neg, q) /\
    c :: rest = (if neg then [chr_minus] else []) ++ q) as (neg & q & -> & Hs).
  { destruct (Z.eqb_spec c chr_minus) as [->|]; eexists _, _; done. }
  rewrite Hs. destruct q as [|d p]; [done|].
  destruct (Z.geb_spec d (chr0 + 1)), (Z.leb_spec d chr9); simpl; try done.
  destruct (string2ll_loop p (d - chr0)) as [[w u]|] eqn:Hloop; simpl; [|done].
  destruct u; [|done]. pose proof (string2ll_loop_all _ _ _ Hloop) as Hall.
  rewrite string2ll_loop_digits in Hloop by (done || unfold chr0, chr9 in *; lia).
  destruct (Z.leb_spec (dval (d - chr0) p) ULLONG_MAX); [|done]. injection Hloop as <-.
  intros Hv. right. exists neg, d, p. split; [done|]. split; [lia|].
  split; [constructor; [unfold is_digit; lia|done]|].
  change (dval 0 (d :: p)) with (dval (d - chr0) p).
  change (u64 (- (LLONG_MIN + 1)) + 1) with (2 ^ 63) in Hv.
  destruct neg; [destruct (Z.gtb_spec (dval (d - chr0) p) (2 ^ 63))
                |destruct (Z.gtb_spec (dval (d - chr0) p) LLONG_MAX)]; (done || mlia).
Qed.

(** [string2ll] parses exactly the reference printer's outputs. *)
Lemma string2ll_decimal s v : string2ll s = Some v <-> in_s 64 v /\ s = decimal v.
Proof.
  split.
  - intros Hs. destruct (string2ll_inv s v Hs) as [[-> ->]|(neg & d & p & -> & Hd & Hp & Hr)].
    { split; [mlia|done]. }
    rewrite string2ll_digits in Hs by done. apply (inj Some) in Hs. subst v.
    assert (canonical (d :: p)) as Hc by (split; [done|right; eauto]).
    assert (0 < dval 0 (d :: p)).
    { change (dval 0 (d :: p)) with (dval (d - chr0) p).
      pose proof (dval_mono (d - chr0) p ltac:(lia) (Forall_inv_tail Hp)). lia. }
    pose proof (canonical_unique _ Hc ltac:(destruct neg; mlia)) as Hu.
    destruct neg; cbv iota in Hr |- *; (split; [mlia|]); rewrite decimal_abs.
    + rewrite (proj2 (Z.ltb_lt _ _)), Z.abs_opp, Z.abs_eq by lia. by rewrite <- Hu.
    + rewrite (proj2 (Z.ltb_ge _ _)), Z.abs_eq by lia. by rewrite <- Hu.
  - intros [Hv ->]. rewrite decimal_abs.
    destruct (udec_spec (Z.abs v)) as [[Hdig Hc] Hval]; [mlia|].
    destruct Hc as [Hc|(d & p & Hc & Hd)].
    + rewrite Hc in Hval. change (dval 0 [chr0]) with 0 in Hval.
      by replace v with 0 by lia.
    + rewrite Hc in *.
      rewrite (string2ll_digits (v <? 0) d p Hd Hdig); rewrite Hval;
        destruct (Z.ltb_spec v 0); try mlia; f_equal; lia.
Qed.

(** C25: [string2ll] succeeds with [v] exactly on the decimal representation
    of a 64-bit [v]: no leading zeros, spaces, plus sign, trailing bytes or
    out-of-range value is accepted, and every 64-bit value is. *)
Theorem string2ll_iff s v : string2ll s = Some v <-> in_s 64 v /\ s = decimal v.
Proof. apply string2ll_decimal. Qed.

(** Printing and parsing are inverse: what [ll2string] writes into a large
    enough buffer is parsed back by [string2ll] to the same value, and a
    string accepted by [string2ll] is reproduced by printing its value. *)
Theorem ll2string_string2ll_roundtrip dst v buf n :
  in_s 64 v -> ll2string dst (Z.of_nat (length dst)) v = Some (buf, n) -> n <> 0 ->
  string2ll (take (Z.to_nat n) buf) = Some v /\
  (forall s w, string2ll s = Some w -> w = v -> s = take (Z.to_nat n) buf).
Proof.
  intros Hv Hp Hn. rewrite ll2string_decimal in Hp by done.
  destruct (length dst <=? _)%nat; [by injection Hp as <- <-|]. injection Hp as <- <-.
  rewrite Nat2Z.id, take_app_length. split.
  - by apply string2ll_decimal.
  - intros s w [_ ->]%string2ll_decimal ->. done.
Qed.

Lemma ll2string_string2ll_roundtrip_witness :
  string2ll [45; 57; 48; 55] = Some (-907).
Proof.
  apply (ll2string_string2ll_roundtrip [1; 1; 1; 1; 1; 1] (-907) [45; 57; 48; 55; 0; 1] 4).
  - vm_compute; intuition congruence.
  - vm_compute. reflexivity.
  - discriminate.
Defined.

Lemma length_decimal v : in_s 64 v -> (length (decimal v) <= 20)%nat.
Proof.
  intros Hv. rewrite decimal_abs, length_app. destruct (Z.ltb_spec v 0).
  - pose proof (dec_digits_short 20 19 (Z.abs v) ltac:(mlia) ltac:(lia)) as Hl. fold (udec (Z.abs v)) in Hl. simpl. lia.
  - pose proof (udec_length_20 (Z.abs v) ltac:(mlia)). simpl. lia.
Qed.

Definition dec_char (c : Z) : Prop := c = chr_minus \/ is_digit c.

Lemma decimal_chars v : in_s 64 v -> Forall dec_char (decimal v).
Proof.
  intros Hv. rewrite decimal_abs. apply Forall_app. split.
  - destruct (v <? 0); repeat constructor.
  - destruct (udec_spec (Z.abs v)) as [[Hd _] _]; [mlia|]. eapply Forall_impl; [exact Hd|]. intros c Hc. by right.
Qed.

Lemma decimal_nonzero v : in_s 64 v -> (0 : Z) ∉ decimal v.
Proof.
  intros Hv H0. pose proof (proj1 (Forall_forall _ _) (decimal_chars v Hv) 0 H0) as [Hc|[Hc _]]; by vm_compute in Hc.
Qed.

Lemma decimal_bytes v : in_s 64 v -> Forall is_byte (decimal v).
Proof.
  intros Hv. eapply Forall_impl; [apply decimal_chars, Hv|]. unfold is_byte, dec_char, is_digit, chr_minus, chr0, chr9. lia.
Qed.

(** A buffer of more than 20 bytes takes every value. *)
Lemma ll2string_fits dst n v : in_s 64 v -> (20 < length dst)%nat -> n = Z.of_nat (length dst) ->
  exists rest, ll2string dst n v = Some (decimal v ++ 0 :: rest, Z.of_nat (length (decimal v))) /\
    (length (decimal v) + S (length rest) = length dst)%nat.
Proof.
  intros Hv Hn ->. rewrite (ll2string_decimal dst v Hv). pose proof (length_decimal v Hv).
  rewrite (proj2 (Nat.leb_gt _ _)) by lia. eexists. split; [done|]. rewrite length_drop. lia.
Qed.

(** The two digit counters, against the reference printer. *)
Lemma sdigits10_decimal v : in_s 64 v -> sdigits10 v = Some (Z.of_nat (length (decimal v))).
Proof.
  intros Hv. rewrite decimal_abs. unfold sdigits10. destruct (Z.ltb_spec v 0) as [Hn|Hn].
  - assert ((if negb (v =? LLONG_MIN) then u64 (- v) else u64 (LLONG_MAX + 1)) = Z.abs v) as ->.
    { destruct (Z.eqb_spec v LLONG_MIN) as [->|]; [done|]. simpl. rewrite uwrap_small by mlia. lia. }
    rewrite digits10_spec by mlia. bsimpl. pose proof (udec_length_20 (Z.abs v) ltac:(mlia)).
    rewrite uwrap_small by mlia. f_equal. rewrite length_app. simpl. lia.
  - rewrite uwrap_small, Z.abs_eq by mlia. by apply digits10_spec; mlia.
Qed.

(** [digits10] and [sdigits10] return the length of the printed form of
    every 64-bit unsigned and signed value. *)
Theorem digits10_counts u v :
  in_u 64 u -> in_s 64 v ->
  digits10 u = Some (Z.of_nat (length (decimal u))) /\
  sdigits10 v = Some (Z.of_nat (length (decimal v))).
Proof.
  intros Hu Hv. split; [|by apply sdigits10_decimal].
  rewrite decimal_abs, (proj2 (Z.ltb_ge u 0)), (Z.abs_eq u) by mlia. by apply digits10_spec.
Qed.

Lemma digits10_counts_witness : digits10 1844674407370955161 = Some 19 /\ sdigits10 (-100) = Some 4.
Proof.
  destruct (digits10_counts 1844674407370955161 (-100)) as [H1 H2].
  - vm_compute; intuition congruence.
  - vm_compute; intuition congruence.
  - rewrite H1, H2. vm_compute. split; reflexivity.
Defined.

End UtilNum.
