(* ===== verification/Glob.v ===== *)
(** Model of [stringmatchlen] of [util.c], the glob matcher behind KEYS, SCAN
    MATCH, PSUBSCRIBE and ACL patterns.

    The pattern and the string are arrays of [char] values (signed on the
    platforms Redis builds for by default) that end with a NUL, as sds strings
    do; [patternLen] and [stringLen] are the lengths without it.  The
    C function walks two pointers; here they are offsets into the buffers and
    every dereference is bounds-checked, so [Some _] means that no byte past
    the terminator was read.  The reference semantics parses the pattern into
    tokens and matches them by a direct recursion. *)

From S2P Require Import Prelude.

#[local] Open Scope Z_scope.

Module Glob.

Definition c_star : Z := 42.
Definition c_quest : Z := 63.
Definition c_lbrack : Z := 91.
Definition c_bslash : Z := 92.
Definition c_rbrack : Z := 93.
Definition c_caret : Z := 94.
Definition c_dash : Z := 45.

(** [tolower] in the C locale. *)
Definition tolower (c : Z) : Z := if (65 <=? c) && (c <=? 90) then c + 32 else c.

(** Dereference of a pointer into a buffer. *)
Definition rd (m : list Z) (i : Z) : option Z :=
  if i <? 0 then None else m !! Z.to_nat i.

Section matcher.
Context (pm sm : list Z) (nocase : bool).

(** [while (patternLen && pattern[1] == '*') { pattern++; patternLen--; }] *)
Fixpoint skip_stars (fuel : nat) (pi plen : Z) : option (Z * Z) :=
  match fuel with
  | O => None
  | S fuel =>
      if plen =? 0 then Some (pi, plen)
      else
        c ← rd pm (pi + 1);
        if c =? c_star then skip_stars fuel (pi + 1) (plen - 1) else Some (pi, plen)
  end.

(** The [while(1)] loop of the bracket case; returns the pattern position,
    [patternLen] and [match]. *)
Fixpoint class_loop (fuel : nat) (pi plen si : Z) (mtch : bool) : option (Z * Z * bool) :=
  match fuel with
  | O => None
  | S fuel =>
      p0 ← rd pm pi;
      if (p0 =? c_bslash) && (plen >=? 2) then
        let pi := pi + 1 in let plen := plen - 1 in
        p0 ← rd pm pi; s0 ← rd sm si;
        class_loop fuel (pi + 1) (plen - 1) si (if p0 =? s0 then true else mtch)
      else if p0 =? c_rbrack then Some (pi, plen, mtch)
      else if plen =? 0 then Some (pi - 1, plen + 1, mtch)
      else
        range ← (if plen >=? 3 then p1 ← rd pm (pi + 1); Some (p1 =? c_dash) else Some false);
        if (range : bool) then
          end_ ← rd pm (pi + 2); c ← rd sm si;
          let '(start, end_) := if p0 >? end_ then (end_, p0) else (p0, end_) in
          let '(start, end_, c) :=
            if nocase then (tolower start, tolower end_, tolower c) else (start, end_, c) in
          let pi := pi + 2 in let plen := plen - 2 in
          class_loop fuel (pi + 1) (plen - 1) si (if (c >=? start) && (c <=? end_) then true else mtch)
        else
          s0 ← rd sm si;
          let eq := if negb nocase then p0 =? s0 else tolower p0 =? tolower s0 in
          class_loop fuel (pi + 1) (plen - 1) si (if eq then true else mtch)
  end.

(** The loop that skips the stars left in the pattern when the string has
    been consumed. *)
Fixpoint trailing_stars (fuel : nat) (pi plen : Z) : option (Z * Z) :=
  match fuel with
  | O => None
  | S fuel =>
      c ← rd pm pi;
      if c =? c_star then trailing_stars fuel (pi + 1) (plen - 1) else Some (pi, plen)
  end.

(** [while(stringLen) { if (stringmatchlen(...)) return 1; string++; stringLen--; }] *)
Fixpoint star_loop (rec : Z -> Z -> option bool) (n : nat) (si : Z) : option bool :=
  match n with
  | O => Some false
  | S n' =>
      r ← rec si (Z.of_nat n);
      if (r : bool) then Some true else star_loop rec n' (si + 1)
  end.

Definition iter_fuel : nat := S (length pm).

(** One iteration of the outer loop per unit of fuel; the recursive call of
    the star case uses the same fuel.  Inside the switch, [inr b] is a
    [return b] and [inl] the pointers at the end of the case. *)
Fixpoint match_rec (fuel : nat) (pi plen si slen : Z) : option bool :=
  match fuel with
  | O => None
  | S fuel =>
      if (plen =? 0) || (slen =? 0) then Some ((plen =? 0) && (slen =? 0))
      else
        p0 ← rd pm pi;
        if p0 =? c_star then
          '(pi, plen) ← skip_stars iter_fuel pi plen;
          if plen =? 1 then Some true
          else star_loop (fun si slen => match_rec fuel (pi + 1) (plen - 1) si slen) (Z.to_nat slen) si
        else
          r ← (if p0 =? c_quest then Some (inl (pi, plen, si + 1, slen - 1))
               else if p0 =? c_lbrack then
                 let pi := pi + 1 in let plen := plen - 1 in
                 p0 ← rd pm pi;
                 let not := p0 =? c_caret in
                 let '(pi, plen) := if not then (pi + 1, plen - 1) else (pi, plen) in
                 '(pi, plen, mtch) ← class_loop iter_fuel pi plen si false;
                 let mtch := if not then negb mtch else mtch in
                 if negb mtch then Some (inr false)
                 else Some (inl (pi, plen, si + 1, slen - 1))
               else
                 let '(pi, plen) :=
                   if (p0 =? c_bslash) && (plen >=? 2) then (pi + 1, plen - 1) else (pi, plen) in
                 p0 ← rd pm pi; s0 ← rd sm si;
                 let ne := if negb nocase then negb (p0 =? s0) else negb (tolower p0 =? tolower s0) in
                 if ne then Some (inr false)
                 else Some (inl (pi, plen, si + 1, slen - 1)));
          match r with
          | inr b => Some b
          | inl (pi, plen, si, slen) =>
              let pi := pi + 1 in let plen := plen - 1 in
              if slen =? 0 then
                '(pi, plen) ← trailing_stars iter_fuel pi plen;
                Some ((plen =? 0) && (slen =? 0))
              else match_rec fuel pi plen si slen
          end
  end.

End matcher.

(** Pattern and string are given without their terminating NUL. *)
Definition stringmatchlen (pattern string : list Z) (nocase : bool) : option bool :=
  match_rec (pattern ++ [0]) (string ++ [0]) nocase (S (length pattern)) 0
    (Z.of_nat (length pattern)) 0 (Z.of_nat (length string)).

(** ** Reference semantics *)

Inductive item := IEsc (c : Z) | IRange (a b : Z) | ILit (c : Z).
Inductive token := TStar | TAny | TLit (c : Z) | TClass (neg : bool) (items : list item).

(** The items of a bracket expression and the rest of the pattern; a missing
    closing bracket extends the class to the end. *)
Fixpoint parse_class (p : list Z) : list item * list Z :=
  match p with
  | [] => ([], [])
  | c :: p1 =>
      if c =? c_bslash then
        match p1 with
        | d :: p2 => let '(its, r) := parse_class p2 in (IEsc d :: its, r)
        | [] => ([ILit c], [])
        end
      else if c =? c_rbrack then ([], p1)
      else
        match p1 with
        | d :: p2 =>
            if d =? c_dash then
              match p2 with
              | e :: p3 => let '(its, r) := parse_class p3 in (IRange c e :: its, r)
              | [] => let '(its, r) := parse_class p1 in (ILit c :: its, r)
              end
            else let '(its, r) := parse_class p1 in (ILit c :: its, r)
        | [] => ([ILit c], [])
        end
  end.

(** The tokens of a pattern; [n] bounds the number of tokens. *)
Fixpoint tokenize (n : nat) (p : list Z) : list token :=
  match n, p with
  | O, _ | _, [] => []
  | S n, c :: p1 =>
      if c =? c_star then TStar :: tokenize n p1
      else if c =? c_quest then TAny :: tokenize n p1
      else if c =? c_lbrack then
        let '(neg, p2) :=
          match p1 with
          | d :: p2 => if d =? c_caret then (true, p2) else (false, p1)
          | [] => (false, p1)
          end in
        let '(its, r) := parse_class p2 in TClass neg its :: tokenize n r
      else if c =? c_bslash then
        match p1 with
        | d :: p2 => TLit d :: tokenize n p2
        | [] => [TLit c]
        end
      else TLit c :: tokenize n p1
  end.

Definition tokens (p : list Z) : list token := tokenize (length p) p.

Lemma parse_class_length p its r : parse_class p = (its, r) -> (length r <= length p)%nat.
Proof.
  remember (length p) as n eqn:Hn. revert p its r Hn.
  induction (lt_wf n) as [n _ IH]. intros p its r -> Hp.
  assert (forall q its r, parse_class q = (its, r) -> (length q < length p)%nat ->
            (length r <= length p)%nat) as Hrec.
  { intros q its' r' Hq Hlt. pose proof (IH (length q) Hlt q its' r' eq_refl Hq). lia. }
  destruct p as [|c [|d [|e p]]]; simpl in Hp;
    repeat case_match; simplify_eq; simpl; try lia;
    match goal with H : parse_class ?q = _ |- _ => apply Hrec in H; simpl in *; lia end.
Qed.

Lemma tokenize_fuel n : forall m p,
  (length p <= n)%nat -> (length p <= m)%nat -> tokenize n p = tokenize m p.
Proof.
  induction n as [|n IH]; intros m p Hn Hm; [destruct p; [by destruct m|simpl in Hn; lia]|].
  destruct p as [|c p]; [by destruct m|]. destruct m as [|m]; [simpl in Hm; lia|].
  simpl in Hn, Hm. cbn [tokenize].
  assert (forall q, (length q <= length p)%nat -> tokenize n q = tokenize m q) as Hq.
  { intros q Hl. apply IH; lia. }
  rewrite (Hq p) by lia.
  destruct p as [|d p]; [simpl; by rewrite (Hq []) by (simpl; lia)|].
  assert (forall q, (length q <= S (length p))%nat ->
    (let '(its, r) := parse_class q in tokenize n r) = (let '(its, r) := parse_class q in tokenize m r)) as Hc.
  { intros q Hl. destruct (parse_class q) as [its r] eqn:Hp. apply parse_class_length in Hp.
    apply Hq. simpl. lia. }
  rewrite (Hq p) by (simpl; lia).
  destruct (d =? c_caret).
  - specialize (Hc p ltac:(lia)). destruct (parse_class p). by rewrite Hc.
  - specialize (Hc (d :: p) ltac:(simpl; lia)). destruct (parse_class (d :: p)). by rewrite Hc.
Qed.

Section semantics.
Context (nocase : bool).

Definition char_eq (a b : Z) : bool :=
  if nocase then tolower a =? tolower b else a =? b.

(** An escaped character inside a class is compared exactly, also when
    [nocase] is set. *)
Definition item_match (c : Z) (i : item) : bool :=
  match i with
  | IEsc d => d =? c
  | ILit d => char_eq d c
  | IRange a b =>
      let lo := Z.min a b in let hi := Z.max a b in
      if nocase then (tolower lo <=? tolower c) && (tolower c <=? tolower hi)
      else (lo <=? c) && (c <=? hi)
  end.

Definition tok_match (t : token) (c : Z) : bool :=
  match t with
  | TStar | TAny => true
  | TLit d => char_eq d c
  | TClass neg items => xorb neg (existsb (item_match c) items)
  end.

Fixpoint gmatch (ts : list token) (s : list Z) : bool :=
  match ts with
  | [] => match s with [] => true | _ => false end
  | TStar :: ts =>
      (fix star (s : list Z) : bool :=
         gmatch ts s || match s with [] => false | _ :: s' => star s' end) s
  | t :: ts => match s with [] => false | c :: s' => tok_match t c && gmatch ts s' end
  end.

Lemma gmatch_star ts s :
  gmatch (TStar :: ts) s = gmatch ts s || match s with [] => false | _ :: s' => gmatch (TStar :: ts) s' end.
Proof. by destruct s. Qed.

Lemma gmatch_star_star ts s : gmatch (TStar :: TStar :: ts) s = gmatch (TStar :: ts) s.
Proof.
  induction s as [|c s IH]; rewrite gmatch_star.
  - by rewrite orb_false_r.
  - rewrite IH. rewrite (gmatch_star ts (c :: s)). by destruct (gmatch ts (c :: s)), (gmatch (TStar :: ts) s).
Qed.

Lemma gmatch_star_nil s : gmatch [TStar] s = true.
Proof. induction s as [|c s IH]; rewrite gmatch_star; [done|]. by rewrite IH, orb_true_r. Qed.

(** ** Views of the buffers *)

Section proofs.
Context (pattern string : list Z).
Notation pm := (pattern ++ [0]).
Notation sm := (string ++ [0]).

(** [l] is what is left of [m] at offset [i]. *)
Definition view (m : list Z) (i : Z) (l : list Z) : Prop :=
  exists pre, m = pre ++ l /\ i = Z.of_nat (length pre).

Lemma view_next m i c l : view m i (c :: l) -> view m (i + 1) l.
Proof.
  intros (pre & -> & ->). exists (pre ++ [c]). rewrite <- app_assoc, length_app. simpl.
  split; [done|lia].
Qed.

Lemma view_rd m i c l : view m i (c :: l) -> rd (m ++ [0]) i = Some c.
Proof.
  intros (pre & -> & ->). unfold rd. rewrite (proj2 (Z.ltb_ge _ _)), Nat2Z.id by lia.
  rewrite <- app_assoc. simpl. by apply list_lookup_middle.
Qed.

Lemma view_rd_end m i : view m i [] -> rd (m ++ [0]) i = Some 0.
Proof.
  intros (pre & -> & ->). unfold rd. rewrite (proj2 (Z.ltb_ge _ _)), Nat2Z.id by lia.
  rewrite app_nil_r. by apply list_lookup_middle.
Qed.

Lemma view_length m i l : view m i l -> (length l <= length m)%nat.
Proof. intros (pre & -> & _). rewrite length_app. lia. Qed.

(** Leading stars. *)
Fixpoint drop_stars (p : list Z) : list Z :=
  match p with
  | c :: p' => if c =? c_star then drop_stars p' else p
  | [] => []
  end.

Lemma drop_stars_length p : (length (drop_stars p) <= length p)%nat.
Proof. induction p as [|c p IH]; simpl; [lia|]. destruct (c =? c_star); simpl; lia. Qed.

Lemma drop_stars_head p c p' : drop_stars p = c :: p' -> c <> c_star.
Proof.
  induction p as [|d p IH]; simpl; [done|]. destruct (Z.eqb_spec d c_star); [done|].
  by intros [= -> ->].
Qed.

Lemma trailing_stars_spec fuel : forall pi P,
  (length P < fuel)%nat -> view pattern pi P ->
  exists pi', trailing_stars pm fuel pi (Z.of_nat (length P)) = Some (pi', Z.of_nat (length (drop_stars P))).
Proof.
  induction fuel as [|fuel IH]; intros pi P Hf Hv; [lia|]. destruct P as [|c P]; simpl.
  { rewrite (view_rd_end _ _ Hv). simpl. eauto. }
  rewrite (view_rd _ _ _ _ Hv). bsimpl. destruct (c =? c_star); [|eauto].
  replace (Z.of_nat (S (length P)) - 1) with (Z.of_nat (length P)) by lia.
  apply IH; [simpl in Hf; lia|]. by eapply view_next.
Qed.

Lemma skip_stars_spec fuel : forall pi P,
  (length P < fuel)%nat -> view pattern pi (c_star :: P) ->
  exists pi', skip_stars pm fuel pi (Z.of_nat (length P) + 1)
      = Some (pi', Z.of_nat (length (drop_stars P)) + 1) /\
    view pattern (pi' + 1) (drop_stars P).
Proof.
  induction fuel as [|fuel IH]; intros pi P Hf Hv; [lia|]. cbn [skip_stars].
  rewrite (proj2 (Z.eqb_neq _ _)) by lia. pose proof (view_next _ _ _ _ Hv) as Hv'.
  destruct P as [|c P]; simpl.
  { rewrite (view_rd_end _ _ Hv'). simpl. eauto. }
  rewrite (view_rd _ _ _ _ Hv'). bsimpl. destruct (Z.eqb_spec c c_star) as [->|]; [|eauto].
  replace (Z.of_nat (S (length P)) + 1 - 1) with (Z.of_nat (length P) + 1) by lia.
  apply IH; [simpl in Hf; lia|done].
Qed.

(** The bracket loop computes the class of [parse_class]. *)
Lemma class_loop_spec si s0 fuel : forall pi P m its R,
  (length P < fuel)%nat -> view pattern pi P -> rd sm si = Some s0 ->
  parse_class P = (its, R) ->
  exists pi', class_loop pm sm nocase fuel pi (Z.of_nat (length P)) si m
      = Some (pi', Z.of_nat (length R) + 1, m || existsb (item_match s0) its) /\
    view pattern (pi' + 1) R /\ (length R <= length P)%nat.
Proof.
  induction fuel as [|fuel IH]; intros pi P m its R Hf Hv Hs Hp; [lia|]. cbn [class_loop].
  (* one item consumed: continue with the rest *)
  assert (forall pi1 P1 it its1 m1,
    view pattern pi1 P1 -> (length P1 < length P)%nat -> parse_class P1 = (its1, R) ->
    its = it :: its1 -> m1 = (if item_match s0 it then true else m) ->
    exists pi', class_loop pm sm nocase fuel pi1 (Z.of_nat (length P1)) si m1
      = Some (pi', Z.of_nat (length R) + 1, m || existsb (item_match s0) its) /\
    view pattern (pi' + 1) R /\ (length R <= length P)%nat) as Hstep.
  { intros pi1 P1 it its1 m1 Hv1 Hl1 Hp1 -> ->.
    destruct (IH pi1 P1 (if item_match s0 it then true else m) its1 R ltac:(lia) Hv1 Hs Hp1) as (pi' & -> & ? & ?).
    exists pi'. split_and!; [|done|lia]. do 2 f_equal. simpl.
    destruct (item_match s0 it), m; simpl; done. }
  destruct P as [|c P1]; simpl in Hp.
  { injection Hp as <- <-. rewrite (view_rd_end _ _ Hv). bsimpl. simpl.
    exists (pi - 1). rewrite orb_false_r. split_and!; [done| |done]. by replace (pi - 1 + 1) with pi by lia. }
  rewrite (view_rd _ _ _ _ Hv). bsimpl. pose proof (view_next _ _ _ _ Hv) as Hv1.
  assert (Z.of_nat (length (c :: P1)) - 1 = Z.of_nat (length P1)) as Hlen1 by (simpl; lia).
  destruct (Z.eqb_spec c c_bslash) as [Hc|Hc].
  - destruct P1 as [|d P2].
    + simpl. rewrite Hs. bsimpl. rewrite Hc in *. simpl. injection Hp as <- <-.
      eapply (Hstep _ []); [done|simpl; lia|done|done|]. unfold item_match, char_eq. by destruct nocase.
    + rewrite (proj2 (Z.geb_le _ _)) by (simpl; lia). simpl.
      rewrite (view_rd _ _ _ _ Hv1). bsimpl. rewrite Hs. bsimpl.
      destruct (parse_class P2) as [its2 R2] eqn:Hp2. injection Hp as <- <-.
      replace (Z.of_nat (S (S (length P2))) - 1 - 1) with (Z.of_nat (length P2)) by lia.
      eapply Hstep; [by eapply view_next|simpl; lia|done|done|done].
  - cbn [andb]. destruct (Z.eqb_spec c c_rbrack) as [Hr|Hr].
    { injection Hp as <- <-. exists pi. rewrite orb_false_r. split_and!; [|done|simpl; lia].
      do 3 f_equal. simpl. lia. }
    rewrite (proj2 (Z.eqb_neq _ 0)) by (simpl; lia).
    assert (forall its1, parse_class P1 = (its1, R) -> its = ILit c :: its1 ->
      exists pi', (s1 ← rd sm si;
        let eq := if negb nocase then c =? s1 else tolower c =? tolower s1 in
        class_loop pm sm nocase fuel (pi + 1) (Z.of_nat (length (c :: P1)) - 1) si (if eq then true else m))
        = Some (pi', Z.of_nat (length R) + 1, m || existsb (item_match s0) its) /\
      view pattern (pi' + 1) R /\ (length R <= length (c :: P1))%nat) as Hlit.
    { intros its1 Hp1 ->. rewrite Hs. bsimpl. rewrite Hlen1.
      eapply Hstep; [done|simpl; lia|done|done|]. unfold item_match, char_eq. by destruct nocase. }
    destruct P1 as [|d P2]; [injection Hp as <- <-; simpl; by apply (Hlit [])|].
    destruct P2 as [|e P3].
    { simpl. apply (Hlit (if d =? c_dash then (parse_class [d]).1 else (parse_class [d]).1));
        destruct (d =? c_dash), (parse_class [d]); simpl; congruence. }
    rewrite (proj2 (Z.geb_le _ 3)) by (simpl; lia). rewrite (view_rd _ _ _ _ Hv1). bsimpl.
    destruct (d =? c_dash) eqn:Hd.
    + pose proof (view_next _ _ _ _ Hv1) as Hv2. replace (pi + 1 + 1) with (pi + 2) in Hv2 by lia.
      rewrite (view_rd _ _ _ _ Hv2). bsimpl. rewrite Hs. bsimpl.
      destruct (parse_class P3) as [its3 R3] eqn:Hp3. injection Hp as <- <-.
      rewrite (surjective_pairing (if c >? e then (e, c) else (c, e))).
      rewrite (surjective_pairing (A := Z * Z) (if nocase then _ else _)).
      rewrite (surjective_pairing (fst (if nocase then _ else _))).
      replace (Z.of_nat (length (c :: d :: e :: P3)) - 2 - 1) with (Z.of_nat (length P3)) by (simpl; lia).
      eapply Hstep; [by eapply view_next|simpl; lia|done|done|].
      unfold item_match. rewrite !Z.geb_leb.
      destruct (Z.gtb_spec c e); destruct nocase; simpl;
        rewrite ?(Z.min_r c e), ?(Z.max_l c e), ?(Z.min_l c e), ?(Z.max_r c e) by lia; done.
    + destruct (parse_class (d :: e :: P3)) as [its1 R1] eqn:Hp1. injection Hp as <- <-.
      by apply (Hlit its1).
Qed.

Lemma tokens_star P : tokens (c_star :: P) = TStar :: tokens P.
Proof. done. Qed.

Lemma gmatch_drop_stars P s :
  gmatch (TStar :: tokens P) s = gmatch (TStar :: tokens (drop_stars P)) s.
Proof.
  induction P as [|c P IH]; [done|]. simpl drop_stars. destruct (Z.eqb_spec c c_star) as [->|]; [|done].
  by rewrite tokens_star, gmatch_star_star.
Qed.

(** A pattern that does not start with a star needs a character. *)
Lemma gmatch_nonstar_nil c P : c <> c_star -> gmatch (tokens (c :: P)) [] = false.
Proof.
  intros Hc. unfold tokens. simpl. rewrite (proj2 (Z.eqb_neq _ _)) by done.
  repeat case_match; simplify_eq; done.
Qed.

Lemma gmatch_nil P : gmatch (tokens P) [] = (Z.of_nat (length (drop_stars P)) =? 0).
Proof.
  induction P as [|c P IH]; [done|]. destruct (Z.eqb_spec c c_star) as [->|Hc].
  - rewrite tokens_star, gmatch_star. simpl. by rewrite orb_false_r.
  - rewrite gmatch_nonstar_nil by done. simpl. by rewrite (proj2 (Z.eqb_neq c c_star)) by done.
Qed.

Lemma star_loop_spec ts rec S : forall si,
  gmatch ts [] = false ->
  (forall k, (k < length S)%nat ->
     rec (si + Z.of_nat k) (Z.of_nat (length S - k)) = Some (gmatch ts (drop k S))) ->
  star_loop rec (length S) si = Some (gmatch (TStar :: ts) S).
Proof.
  induction S as [|c S IH]; intros si Hnil Hrec; simpl star_loop.
  { simpl. by rewrite Hnil. }
  pose proof (Hrec 0%nat ltac:(simpl; lia)) as H0. rewrite Z.add_0_r in H0. simpl in H0.
  rewrite H0. bsimpl. rewrite gmatch_star. destruct (gmatch ts (c :: S)); [done|]. simpl.
  apply IH; [done|]. intros k Hk. pose proof (Hrec (Datatypes.S k) ltac:(simpl; lia)) as Hk'.
  replace (si + 1 + Z.of_nat k) with (si + Z.of_nat (Datatypes.S k)) by lia. exact Hk'.
Qed.

Lemma view_drop m i l k : view m i l -> (k <= length l)%nat -> view m (i + Z.of_nat k) (drop k l).
Proof.
  intros (pre & -> & ->) Hk. exists (pre ++ take k l). rewrite <- app_assoc, take_drop.
  split; [done|]. rewrite length_app, length_take. lia.
Qed.

(** What the [switch] does on a pattern that does not start with a star: it
    consumes one token and one character, or returns 0. *)
Definition switch_result (P : list Z) (si slen s0 : Z) (r : (Z * Z * Z * Z) + bool) : Prop :=
  exists t R, tokens P = t :: tokens R /\ t <> TStar /\ (length R < length P)%nat /\
    if tok_match t s0
    then exists pi', r = inl (pi', Z.of_nat (length R) + 1, si + 1, slen - 1) /\ view pattern (pi' + 1) R
    else r = inr false.

Lemma switch_spec pi c P1 si slen s0 :
  c <> c_star -> view pattern pi (c :: P1) -> rd sm si = Some s0 ->
  exists r, switch_result (c :: P1) si slen s0 r /\
  (let plen := Z.of_nat (length (c :: P1)) in
   if c =? c_quest then Some (inl (pi, plen, si + 1, slen - 1))
   else if c =? c_lbrack then
     let pi := pi + 1 in let plen := plen - 1 in
     p0 ← rd pm pi;
     let not := p0 =? c_caret in
     let '(pi, plen) := if not then (pi + 1, plen - 1) else (pi, plen) in
     '(pi, plen, mtch) ← class_loop pm sm nocase (iter_fuel pm) pi plen si false;
     let mtch := if not then negb mtch else mtch in
     if negb mtch then Some (inr false)
     else Some (inl (pi, plen, si + 1, slen - 1))
   else
     let '(pi, plen) :=
       if (c =? c_bslash) && (plen >=? 2) then (pi + 1, plen - 1) else (pi, plen) in
     p0 ← rd pm pi; s0 ← rd sm si;
     let ne := if negb nocase then negb (p0 =? s0) else negb (tolower p0 =? tolower s0) in
     if ne then Some (inr false)
     else Some (inl (pi, plen, si + 1, slen - 1))) = Some r.
Proof.
  intros Hc Hv Hs. pose proof (view_next _ _ _ _ Hv) as Hv1.
  assert (Z.of_nat (length (c :: P1)) - 1 = Z.of_nat (length P1)) as Hlen1 by (simpl; lia).
  assert (forall t R, tokenize (length (c :: P1)) (c :: P1) = t :: tokenize (length P1) R ->
    (length R <= length P1)%nat -> tokens (c :: P1) = t :: tokens R) as Htok.
  { intros t R Ht Hl. unfold tokens at 1. rewrite Ht. f_equal. apply tokenize_fuel; lia. }
  cbn [length tokenize] in Htok. rewrite (proj2 (Z.eqb_neq c c_star)) in Htok by done.
  cbv zeta. unfold switch_result.
  destruct (Z.eqb_spec c c_quest) as [Hq|Hq].
  { eexists. split; [|done]. exists TAny, P1. split_and!; [by apply Htok|done|simpl; lia|].
    simpl. exists pi. split; [|done]. do 4 f_equal. lia. }
  destruct (Z.eqb_spec c c_lbrack) as [Hb|Hb].
  - assert (exists (neg : bool) p2 pi2, view pattern pi2 p2 /\ (length p2 <= length P1)%nat /\
      (match P1 with d :: p2 => if d =? c_caret then (true, p2) else (false, P1) | [] => (false, P1) end = (neg, p2)) /\
      exists p0, rd pm (pi + 1) = Some p0 /\ (p0 =? c_caret) = neg /\
      (if p0 =? c_caret then (pi + 1 + 1, Z.of_nat (length P1) - 1) else (pi + 1, Z.of_nat (length P1)))
        = (pi2, Z.of_nat (length p2))) as (neg & p2 & pi2 & Hv2 & Hl2 & Hp2 & p0 & Hrd & Hneg & Hpair).
    { destruct P1 as [|d P2].
      - exists false, [], (pi + 1). split_and!; [done..|]. exists 0. by rewrite (view_rd_end _ _ Hv1).
      - destruct (d =? c_caret) eqn:Hd.
        + exists true, P2, (pi + 1 + 1). split_and!; [by eapply view_next|simpl; lia|done|].
          exists d. rewrite (view_rd _ _ _ _ Hv1), Hd. split_and!; [done..|]. f_equal. simpl. lia.
        + exists false, (d :: P2), (pi + 1). split_and!; [done..|].
          exists d. by rewrite (view_rd _ _ _ _ Hv1), Hd. }
    rewrite Hp2 in Htok. rewrite Hrd. bsimpl. rewrite Hlen1, Hpair, Hneg.
    destruct (parse_class p2) as [its R] eqn:Hpc.
    destruct (class_loop_spec si s0 (iter_fuel pm) pi2 p2 false its R) as (pi' & -> & Hv' & Hl'); try done.
    { unfold iter_fuel. pose proof (view_length _ _ _ Hv2). rewrite length_app. lia. }
    bsimpl. exists (if tok_match (TClass neg its) s0
      then inl (pi', Z.of_nat (length R) + 1, si + 1, slen - 1) else inr false).
    split; [|by simpl; destruct neg, (existsb (item_match s0) its)].
    exists (TClass neg its), R. split_and!; [apply Htok; [done|lia]|done|simpl; lia|].
    destruct (tok_match _ _); eauto.
  - assert (exists d R pi2, view pattern pi2 (d :: R) /\ (length R <= length P1)%nat /\
      tokens (c :: P1) = TLit d :: tokens R /\
      (if (c =? c_bslash) && (Z.of_nat (length (c :: P1)) >=? 2) then (pi + 1, Z.of_nat (length P1))
       else (pi, Z.of_nat (length (c :: P1)))) = (pi2, Z.of_nat (length R) + 1))
      as (d & R & pi2 & Hv2 & Hl2 & Ht & Hpair).
    { destruct (Z.eqb_spec c c_bslash) as [->|Hbs]; cbn [andb].
      - destruct P1 as [|d P2].
        + exists c_bslash, [], pi. split_and!; [done|simpl; lia|by apply Htok|done].
        + rewrite (proj2 (Z.geb_le _ 2)) by (simpl; lia).
          exists d, P2, (pi + 1). split_and!; [done|simpl; lia|apply Htok; [done|simpl; lia]|].
          f_equal. simpl. lia.
      - exists c, P1, pi. split_and!; [done|lia|by apply Htok|]. f_equal. simpl. lia. }
    rewrite Hlen1, Hpair, (view_rd _ _ _ _ Hv2). bsimpl. rewrite Hs. bsimpl.
    exists (if tok_match (TLit d) s0
      then inl (pi2, Z.of_nat (length R) + 1, si + 1, slen - 1) else inr false).
    split; [|unfold tok_match, char_eq; destruct nocase; cbn [negb];
             by destruct (tolower d =? tolower s0), (d =? s0)].
    exists (TLit d), R. split_and!; [done|done|simpl; lia|]. pose proof (view_next _ _ _ _ Hv2).
    destruct (tok_match _ _); eauto.
Qed.


Lemma match_rec_spec fuel : forall pi P si S,
  (length P < fuel)%nat -> view pattern pi P -> view string si S ->
  match_rec pm sm nocase fuel pi (Z.of_nat (length P)) si (Z.of_nat (length S))
    = Some (match S with
            | [] => match P with [] => true | _ => false end
            | _ => gmatch (tokens P) S
            end).
Proof.
  induction fuel as [|fuel IH]; intros pi P si S Hf Hv Hvs; [lia|]. cbn [match_rec].
  destruct S as [|s0 S1]; [rewrite orb_true_r; by destruct P|].
  destruct P as [|c P1]; [done|].
  rewrite (proj2 (Z.eqb_neq (Z.of_nat (length (c :: P1))) 0)),
    (proj2 (Z.eqb_neq (Z.of_nat (length (s0 :: S1))) 0)) by (simpl; lia). cbn [orb].
  rewrite (view_rd _ _ _ _ Hv). bsimpl. pose proof (view_rd _ _ _ _ Hvs) as Hs0.
  destruct (Z.eqb_spec c c_star) as [->|Hc].
  - replace (Z.of_nat (length (c_star :: P1))) with (Z.of_nat (length P1) + 1) by (simpl; lia).
    destruct (skip_stars_spec (iter_fuel pm) pi P1) as (pi' & -> & Hv').
    { unfold iter_fuel. pose proof (view_length _ _ _ Hv). rewrite length_app. simpl in *. lia. }
    { done. }
    bsimpl. rewrite tokens_star, gmatch_drop_stars. pose proof (drop_stars_length P1) as Hds.
    destruct (drop_stars P1) as [|d D] eqn:HD; [by rewrite gmatch_star_nil|].
    rewrite (proj2 (Z.eqb_neq _ 1)) by (simpl; lia). rewrite Nat2Z.id.
    apply star_loop_spec; [apply gmatch_nonstar_nil; by eapply drop_stars_head|].
    intros k Hk. replace (Z.of_nat (length (d :: D)) + 1 - 1) with (Z.of_nat (length (d :: D))) by lia.
    replace (length (s0 :: S1) - k)%nat with (length (drop k (s0 :: S1))) by (rewrite length_drop; lia).
    rewrite IH; [|simpl in *; lia|done|apply view_drop; [done|lia]].
    destruct (drop k (s0 :: S1)) eqn:Hd; [|done].
    apply (f_equal length) in Hd. rewrite length_drop in Hd. simpl in *. lia.
  - destruct (switch_spec pi c P1 si (Z.of_nat (length (s0 :: S1))) s0 Hc Hv Hs0) as (r & Hr & Hsw).
    cbv zeta in Hsw. rewrite Hsw. bsimpl. clear Hsw.
    destruct Hr as (t & R & Ht & Hns & HlR & Hr). rewrite Ht.
    assert (gmatch (t :: tokens R) (s0 :: S1) = tok_match t s0 && gmatch (tokens R) S1) as ->
      by (by destruct t).
    destruct (tok_match t s0); [|by subst r]. destruct Hr as (pi' & -> & Hv'). cbn [andb].
    replace (Z.of_nat (length R) + 1 - 1) with (Z.of_nat (length R)) by lia.
    replace (Z.of_nat (length (s0 :: S1)) - 1) with (Z.of_nat (length S1)) by (simpl; lia).
    destruct S1 as [|s1 S2].
    + cbn [length Z.of_nat Z.eqb]. destruct (trailing_stars_spec (iter_fuel pm) (pi' + 1) R) as (pi'' & ->).
      { unfold iter_fuel. pose proof (view_length _ _ _ Hv'). rewrite length_app. lia. }
      { done. }
      bsimpl. by rewrite gmatch_nil, andb_true_r.
    + rewrite (proj2 (Z.eqb_neq _ 0)) by (simpl; lia).
      rewrite IH; [done|simpl in *; lia|done|by eapply view_next].
Qed.

End proofs.
End semantics.

(** C23: On NUL-terminated buffers [stringmatchlen] reads no byte past the
    terminators, terminates, and for a non-empty string returns exactly
    whether the pattern, read as a sequence of tokens, matches the whole
    string: a star matches any substring, [?] one character, a bracket
    expression one character of the class, anything else itself. *)
Theorem stringmatchlen_glob pattern string nocase :
  string <> [] ->
  stringmatchlen pattern string nocase = Some (gmatch nocase (tokens pattern) string).
Proof.
  intros Hne. unfold stringmatchlen. rewrite match_rec_spec.
  - by destruct string.
  - lia.
  - by exists [].
  - by exists [].
Qed.

Lemma stringmatchlen_glob_witness :
  stringmatchlen [104; 42; 91; 97; 45; 99; 93; 63] [104; 101; 108; 98; 111] false = Some true.
Proof.
  assert ([104; 101; 108; 98; 111] <> @nil Z) as H by discriminate.
  rewrite (stringmatchlen_glob [104; 42; 91; 97; 45; 99; 93; 63] _ false H). vm_compute. reflexivity.
Defined.

(** The empty string is matched by the empty pattern only: the outer loop
    is not entered, so even a pattern of stars is rejected. *)
Theorem stringmatchlen_empty pattern nocase :
  stringmatchlen pattern [] nocase = Some (bool_decide (pattern = [])).
Proof.
  unfold stringmatchlen. rewrite match_rec_spec; [by destruct pattern|lia|by exists []..].
Qed.

End Glob.
