(* ===== verification/Ziplist.v ===== *)
(** Model of [ziplist.c]: the packed lists behind small lists, hashes and sorted
    sets.

    A ziplist is one block: a header with the size of the block, the offset of
    the last entry and the number of entries, the entries, and the byte 255.
    An entry starts with the length of the entry before it, in one or five
    bytes, and its own encoding and length, so that the list can be walked both
    ways.  Pointers into the block are offsets; a read or write outside the
    block, a panic or a failed assertion is [None].  The machine is little
    endian, so the byte-order macros are the identity. *)

From S2P Require Import Prelude UtilNum.

#[local] Open Scope Z_scope.

Module Ziplist.
Import UtilNum.
#[local] Notation zlen l := (Z.of_nat (length l)) (only parsing).

Abbreviation ZIPLIST_HEAD := 0 (only parsing).
Abbreviation ZIPLIST_TAIL := 1 (only parsing).
Abbreviation ZIP_END := 255 (only parsing).
Abbreviation ZIP_BIG_PREVLEN := 254 (only parsing).
Abbreviation ZIP_STR_MASK := 0xc0 (only parsing).
Abbreviation ZIP_STR_06B := (Z.shiftl 0 6) (only parsing).
Abbreviation ZIP_STR_14B := (Z.shiftl 1 6) (only parsing).
Abbreviation ZIP_STR_32B := (Z.shiftl 2 6) (only parsing).
Abbreviation ZIP_INT_16B := (Z.lor 0xc0 (Z.shiftl 0 4)) (only parsing).
Abbreviation ZIP_INT_32B := (Z.lor 0xc0 (Z.shiftl 1 4)) (only parsing).
Abbreviation ZIP_INT_64B := (Z.lor 0xc0 (Z.shiftl 2 4)) (only parsing).
Abbreviation ZIP_INT_24B := (Z.lor 0xc0 (Z.shiftl 3 4)) (only parsing).
Abbreviation ZIP_INT_8B := 0xfe (only parsing).
Abbreviation ZIP_INT_IMM_MASK := 0x0f (only parsing).
Abbreviation ZIP_INT_IMM_MIN := 0xf1 (only parsing).
Abbreviation ZIP_INT_IMM_MAX := 0xfd (only parsing).
Abbreviation INT24_MAX := 0x7fffff (only parsing).
Abbreviation INT24_MIN := (- INT24_MAX - 1) (only parsing).
Abbreviation UINT16_MAX := 65535 (only parsing).

Definition ZIP_IS_STR (enc : Z) : bool := Z.land enc ZIP_STR_MASK <? ZIP_STR_MASK.

(** ** The header *)

Abbreviation ZIPLIST_HEADER_SIZE := 10 (only parsing).
Abbreviation ZIPLIST_END_SIZE := 1 (only parsing).

Definition ZIPLIST_BYTES (zl : list Z) : option Z := le_decode <$> mread zl 0 4.
Definition ZIPLIST_TAIL_OFFSET (zl : list Z) : option Z := le_decode <$> mread zl 4 4.
Definition ZIPLIST_LENGTH (zl : list Z) : option Z := le_decode <$> mread zl 8 2.

(** Assignments through the same macros; storing truncates to the width. *)
Definition set_ZIPLIST_BYTES (zl : list Z) (n : Z) : option (list Z) := mwrite zl 0 (le_encode 4 n).
Definition set_ZIPLIST_TAIL_OFFSET (zl : list Z) (n : Z) : option (list Z) := mwrite zl 4 (le_encode 4 n).
Definition set_ZIPLIST_LENGTH (zl : list Z) (n : Z) : option (list Z) := mwrite zl 8 (le_encode 2 n).

Abbreviation ZIPLIST_ENTRY_HEAD := ZIPLIST_HEADER_SIZE (only parsing).
Definition ZIPLIST_ENTRY_TAIL (zl : list Z) : option Z := ZIPLIST_TAIL_OFFSET zl.
Definition ZIPLIST_ENTRY_END (zl : list Z) : option Z := n ← ZIPLIST_BYTES zl; Some (n - 1).

Definition ZIPLIST_INCR_LENGTH (zl : list Z) (incr : Z) : option (list Z) :=
  n ← ZIPLIST_LENGTH zl;
  if n <? UINT16_MAX then set_ZIPLIST_LENGTH zl (n + incr) else Some zl.

(** ** Entries *)

Record zlentry := mkEntry {
  prevrawlensize : Z;
  prevrawlen : Z;
  lensize : Z;
  len : Z;
  headersize : Z;
  encoding : Z;
  ptr : Z }.

Definition ZIP_ENTRY_ENCODING (zl : list Z) (p : Z) : option Z :=
  c ← rd zl p; Some (if c <? ZIP_STR_MASK then Z.land c ZIP_STR_MASK else c).

Definition zipIntSize (encoding : Z) : option Z :=
  if encoding =? ZIP_INT_8B then Some 1
  else if encoding =? ZIP_INT_16B then Some 2
  else if encoding =? ZIP_INT_24B then Some 3
  else if encoding =? ZIP_INT_32B then Some 4
  else if encoding =? ZIP_INT_64B then Some 8
  else if (ZIP_INT_IMM_MIN <=? encoding) && (encoding <=? ZIP_INT_IMM_MAX) then Some 0
  else None.

(** The block and the number of bytes of the encoding; without a pointer
    nothing is written. *)
Definition zipStoreEntryEncoding (zl : list Z) (p : option Z) (encoding rawlen : Z) : option (list Z * Z) :=
  let buf :=
    if ZIP_IS_STR encoding then
      if rawlen <=? 0x3f then [u8 (Z.lor ZIP_STR_06B rawlen)]
      else if rawlen <=? 0x3fff
      then [u8 (Z.lor ZIP_STR_14B (Z.land (Z.shiftr rawlen 8) 0x3f)); Z.land rawlen 0xff]
      else [ZIP_STR_32B; Z.land (Z.shiftr rawlen 24) 0xff; Z.land (Z.shiftr rawlen 16) 0xff;
            Z.land (Z.shiftr rawlen 8) 0xff; Z.land rawlen 0xff]
    else [encoding] in
  match p with
  | None => Some (zl, zlen buf)
  | Some p => zl ← mwrite zl p buf; Some (zl, zlen buf)
  end.

(** Encoding, bytes of the encoding, bytes of the data. *)
Definition ZIP_DECODE_LENGTH (zl : list Z) (p : Z) : option (Z * Z * Z) :=
  encoding ← ZIP_ENTRY_ENCODING zl p;
  if encoding <? ZIP_STR_MASK then
    if encoding =? ZIP_STR_06B then c ← rd zl p; Some (encoding, 1, Z.land c 0x3f)
    else if encoding =? ZIP_STR_14B then
      c ← rd zl p; c1 ← rd zl (p + 1);
      Some (encoding, 2, Z.lor (Z.shiftl (Z.land c 0x3f) 8) c1)
    else if encoding =? ZIP_STR_32B then
      c1 ← rd zl (p + 1); c2 ← rd zl (p + 2); c3 ← rd zl (p + 3); c4 ← rd zl (p + 4);
      Some (encoding, 5, u32 (Z.lor (Z.lor (Z.lor (Z.shiftl c1 24) (Z.shiftl c2 16)) (Z.shiftl c3 8)) c4))
    else None
  else n ← zipIntSize encoding; Some (encoding, 1, n).

Definition zipStorePrevEntryLengthLarge (zl : list Z) (p len : Z) : option (list Z * Z) :=
  zl ← mwrite zl p [ZIP_BIG_PREVLEN];
  zl ← mwrite zl (p + 1) (le_encode 4 len);
  Some (zl, 5).

Definition zipStorePrevEntryLength (zl : list Z) (p : option Z) (len : Z) : option (list Z * Z) :=
  match p with
  | None => Some (zl, if len <? ZIP_BIG_PREVLEN then 1 else 5)
  | Some p =>
      if len <? ZIP_BIG_PREVLEN then zl ← mwrite zl p [len]; Some (zl, 1)
      else zipStorePrevEntryLengthLarge zl p len
  end.

Definition ZIP_DECODE_PREVLENSIZE (zl : list Z) (p : Z) : option Z :=
  c ← rd zl p; Some (if c <? ZIP_BIG_PREVLEN then 1 else 5).

(** Size of the field and the length in it. *)
Definition ZIP_DECODE_PREVLEN (zl : list Z) (p : Z) : option (Z * Z) :=
  prevlensize ← ZIP_DECODE_PREVLENSIZE zl p;
  if prevlensize =? 1 then c ← rd zl p; Some (prevlensize, c)
  else bs ← mread zl (p + 1) 4; Some (prevlensize, le_decode bs).

Definition zipPrevLenByteDiff (zl : list Z) (p len : Z) : option Z :=
  prevlensize ← ZIP_DECODE_PREVLENSIZE zl p;
  '(_, size) ← zipStorePrevEntryLength zl None len;
  Some (s32 (u32 (size - prevlensize))).

Definition zipRawEntryLength (zl : list Z) (p : Z) : option Z :=
  prevlensize ← ZIP_DECODE_PREVLENSIZE zl p;
  '(_, lensize, len) ← ZIP_DECODE_LENGTH zl (p + prevlensize);
  Some (u32 (prevlensize + lensize + len)).

(** The value and the encoding, when the string is an integer. *)
Definition zipTryEncoding (entry : list Z) : option (Z * Z) :=
  let entrylen := zlen entry in
  if (entrylen >=? 32) || (entrylen =? 0) then None
  else
    value ← string2ll entry;
    Some (value,
      if (0 <=? value) && (value <=? 12) then u8 (ZIP_INT_IMM_MIN + value)
      else if (- 2 ^ 7 <=? value) && (value <=? 2 ^ 7 - 1) then ZIP_INT_8B
      else if (- 2 ^ 15 <=? value) && (value <=? 2 ^ 15 - 1) then ZIP_INT_16B
      else if (INT24_MIN <=? value) && (value <=? INT24_MAX) then ZIP_INT_24B
      else if (- 2 ^ 31 <=? value) && (value <=? 2 ^ 31 - 1) then ZIP_INT_32B
      else ZIP_INT_64B).

Definition zipSaveInteger (zl : list Z) (p value encoding : Z) : option (list Z) :=
  if encoding =? ZIP_INT_8B then mwrite zl p (le_encode 1 value)
  else if encoding =? ZIP_INT_16B then mwrite zl p (le_encode 2 value)
  else if encoding =? ZIP_INT_24B then
    let i32 := s32 (Z.shiftl value 8) in mwrite zl p (drop 1 (le_encode 4 i32))
  else if encoding =? ZIP_INT_32B then mwrite zl p (le_encode 4 value)
  else if encoding =? ZIP_INT_64B then mwrite zl p (le_encode 8 value)
  else if (ZIP_INT_IMM_MIN <=? encoding) && (encoding <=? ZIP_INT_IMM_MAX) then Some zl
  else None.

Definition zipLoadInteger (zl : list Z) (p encoding : Z) : option Z :=
  if encoding =? ZIP_INT_8B then c ← rd zl p; Some (s8 c)
  else if encoding =? ZIP_INT_16B then bs ← mread zl p 2; Some (s16 (le_decode bs))
  else if encoding =? ZIP_INT_32B then bs ← mread zl p 4; Some (s32 (le_decode bs))
  else if encoding =? ZIP_INT_24B then
    bs ← mread zl p 3;
    let i32 := s32 (le_decode (0 :: bs)) in Some (Z.shiftr i32 8)
  else if encoding =? ZIP_INT_64B then bs ← mread zl p 8; Some (s64 (le_decode bs))
  else if (ZIP_INT_IMM_MIN <=? encoding) && (encoding <=? ZIP_INT_IMM_MAX)
  then Some (Z.land encoding ZIP_INT_IMM_MASK - 1)
  else None.

Definition zipEntry (zl : list Z) (p : Z) : option zlentry :=
  '(prevrawlensize, prevrawlen) ← ZIP_DECODE_PREVLEN zl p;
  '(encoding, lensize, len) ← ZIP_DECODE_LENGTH zl (p + prevrawlensize);
  Some (mkEntry prevrawlensize prevrawlen lensize len (u32 (prevrawlensize + lensize)) encoding p).

Definition is_end (zl : list Z) (p : Z) : option bool := c ← rd zl p; Some (c =? ZIP_END).

Section alloc.
(** The contents of memory the allocator returns. *)
Context (fill : nat -> Z).

Definition ziplistNew : option (list Z) :=
  let bytes := ZIPLIST_HEADER_SIZE + ZIPLIST_END_SIZE in
  let zl := fill <$> seq 0 (Z.to_nat bytes) in
  zl ← set_ZIPLIST_BYTES zl bytes;
  zl ← set_ZIPLIST_TAIL_OFFSET zl ZIPLIST_HEADER_SIZE;
  zl ← set_ZIPLIST_LENGTH zl 0;
  mwrite zl (bytes - 1) [ZIP_END].

Definition ziplistResize (zl : list Z) (len : Z) : option (list Z) :=
  let len := u32 len in
  let zl := mresize fill zl (Z.to_nat len) in
  zl ← set_ZIPLIST_BYTES zl len;
  mwrite zl (u32 (len - 1)) [ZIP_END].

(** ** Updating the lengths of previous entries *)

(** The loop goes on only after a field has grown, on a later entry: the bytes
    of the block bound the rounds. *)
Fixpoint cascade_loop (fuel : nat) (zl : list Z) (p curlen : Z) : option (list Z) :=
  match fuel with
  | O => None
  | S fuel =>
      e ← is_end zl p;
      if (e : bool) then Some zl
      else
        cur ← zipEntry zl p;
        let rawlen := u32 (headersize cur + len cur) in
        '(_, rawlensize) ← zipStorePrevEntryLength zl None rawlen;
        e ← is_end zl (p + rawlen);
        if (e : bool) then Some zl
        else
          next ← zipEntry zl (p + rawlen);
          if prevrawlen next =? rawlen then Some zl
          else if prevrawlensize next <? rawlensize then
            let offset := p in
            let extra := rawlensize - prevrawlensize next in
            zl ← ziplistResize zl (curlen + extra);
            let p := offset in
            let np := p + rawlen in
            let noffset := np in
            tail ← ZIPLIST_TAIL_OFFSET zl;
            zl ← (if negb (tail =? np) then set_ZIPLIST_TAIL_OFFSET zl (tail + extra) else Some zl);
            zl ← mmove zl (np + rawlensize) (np + prevrawlensize next)
                   (Z.to_nat (u64 (curlen - noffset - prevrawlensize next - 1)));
            '(zl, _) ← zipStorePrevEntryLength zl (Some np) rawlen;
            cascade_loop fuel zl (p + rawlen) (curlen + extra)
          else
            '(zl, _) ← (if prevrawlensize next >? rawlensize
                        then zipStorePrevEntryLengthLarge zl (p + rawlen) rawlen
                        else zipStorePrevEntryLength zl (Some (p + rawlen)) rawlen);
            Some zl
  end.

Definition __ziplistCascadeUpdate (zl : list Z) (p : Z) : option (list Z) :=
  curlen ← ZIPLIST_BYTES zl; cascade_loop (S (length zl)) zl p curlen.

(** ** Deleting and inserting *)

(** The loop over the entries to delete: the pointer and their number. *)
Fixpoint skip_entries (fuel : nat) (zl : list Z) (p i num : Z) : option (Z * Z) :=
  match fuel with
  | O => None
  | S fuel =>
      e ← is_end zl p;
      if negb e && (i <? num) then
        n ← zipRawEntryLength zl p; skip_entries fuel zl (p + n) (i + 1) num
      else Some (p, i)
  end.

Definition __ziplistDelete (zl : list Z) (p num : Z) : option (list Z) :=
  first ← zipEntry zl p;
  '(p, deleted) ← skip_entries (S (length zl)) zl p 0 num;
  let totlen := u32 (p - ptr first) in
  if totlen >? 0 then
    e ← is_end zl p;
    '(zl, nextdiff) ←
      (if negb e then
         nextdiff ← zipPrevLenByteDiff zl p (prevrawlen first);
         let p := p - nextdiff in
         '(zl, _) ← zipStorePrevEntryLength zl (Some p) (prevrawlen first);
         tail_offset ← ZIPLIST_TAIL_OFFSET zl;
         zl ← set_ZIPLIST_TAIL_OFFSET zl (tail_offset - totlen);
         tail ← zipEntry zl p;
         e ← is_end zl (p + u32 (headersize tail + len tail));
         zl ← (if negb e
               then t ← ZIPLIST_TAIL_OFFSET zl; set_ZIPLIST_TAIL_OFFSET zl (t + nextdiff)
               else Some zl);
         bytes ← ZIPLIST_BYTES zl;
         zl ← mmove zl (ptr first) p (Z.to_nat (u64 (bytes - p - 1)));
         Some (zl, nextdiff)
       else zl ← set_ZIPLIST_TAIL_OFFSET zl (ptr first - prevrawlen first); Some (zl, 0));
    let offset := ptr first in
    bytes ← ZIPLIST_BYTES zl;
    zl ← ziplistResize zl (bytes - totlen + nextdiff);
    zl ← ZIPLIST_INCR_LENGTH zl (- deleted);
    let p := offset in
    if negb (nextdiff =? 0) then __ziplistCascadeUpdate zl p else Some zl
  else Some zl.

(** [slen], an unsigned int in the code, is the length of [s], which callers
    keep below 4 GB. *)
Definition __ziplistInsert (zl : list Z) (p : Z) (s : list Z) : option (list Z) :=
  let slen := zlen s in
  curlen ← ZIPLIST_BYTES zl;
  at_end ← is_end zl p;
  prevlen ←
    (if negb at_end then '(_, prevlen) ← ZIP_DECODE_PREVLEN zl p; Some prevlen
     else
       ptail ← ZIPLIST_ENTRY_TAIL zl;
       e ← is_end zl ptail;
       if negb e then zipRawEntryLength zl ptail else Some 0);
  let '(encoding, value, is_int) :=
    match zipTryEncoding s with
    | Some (value, encoding) => (encoding, value, true)
    | None => (0, 123456789, false)
    end in
  reqlen ← (if (is_int : bool) then zipIntSize encoding else Some slen);
  '(_, n) ← zipStorePrevEntryLength zl None prevlen;
  let reqlen := reqlen + n in
  '(_, n) ← zipStoreEntryEncoding zl None encoding slen;
  let reqlen := reqlen + n in
  nextdiff ← (if negb at_end then zipPrevLenByteDiff zl p (u32 reqlen) else Some 0);
  let forcelarge := (nextdiff =? -4) && (reqlen <? 4) in
  let nextdiff := if forcelarge then 0 else nextdiff in
  let offset := p in
  zl ← ziplistResize zl (curlen + reqlen + nextdiff);
  let p := offset in
  at_end ← is_end zl p;
  zl ←
    (if negb at_end then
       zl ← mmove zl (p + reqlen) (p - nextdiff) (Z.to_nat (u64 (curlen - offset - 1 + nextdiff)));
       '(zl, _) ← (if forcelarge
                   then zipStorePrevEntryLengthLarge zl (p + reqlen) (u32 reqlen)
                   else zipStorePrevEntryLength zl (Some (p + reqlen)) (u32 reqlen));
       tail_offset ← ZIPLIST_TAIL_OFFSET zl;
       zl ← set_ZIPLIST_TAIL_OFFSET zl (tail_offset + reqlen);
       tail ← zipEntry zl (p + reqlen);
       e ← is_end zl (p + (reqlen + headersize tail + len tail));
       if negb e
       then t ← ZIPLIST_TAIL_OFFSET zl; set_ZIPLIST_TAIL_OFFSET zl (t + nextdiff)
       else Some zl
     else set_ZIPLIST_TAIL_OFFSET zl p);
  zl ← (if negb (nextdiff =? 0) then __ziplistCascadeUpdate zl (p + reqlen) else Some zl);
  '(zl, n) ← zipStorePrevEntryLength zl (Some p) prevlen;
  let p := p + n in
  '(zl, n) ← zipStoreEntryEncoding zl (Some p) encoding slen;
  let p := p + n in
  zl ← (if ZIP_IS_STR encoding then mwrite zl p s else zipSaveInteger zl p value encoding);
  ZIPLIST_INCR_LENGTH zl 1.


Definition ziplistPush (zl : list Z) (s : list Z) (where_ : Z) : option (list Z) :=
  p ← (if where_ =? ZIPLIST_HEAD then Some ZIPLIST_ENTRY_HEAD else ZIPLIST_ENTRY_END zl);
  __ziplistInsert zl p s.

Definition ziplistInsert (zl : list Z) (p : Z) (s : list Z) : option (list Z) := __ziplistInsert zl p s.

(** The block and the pointer, which stays where it was. *)
Definition ziplistDelete (zl : list Z) (p : Z) : option (list Z * Z) :=
  let offset := p in zl ← __ziplistDelete zl p 1; Some (zl, offset).

(** ** Merging *)

(** [None] as an argument is [NULL], [same] tells that both are one list; the
    result is the merged list and whether it took the place of the first. *)
Definition ziplistMerge (same : bool) (first second : option (list Z)) : option (option (list Z * bool)) :=
  match first, second with
  | Some first, Some second =>
      if same then Some None
      else
        first_bytes ← ZIPLIST_BYTES first;
        first_len ← ZIPLIST_LENGTH first;
        second_bytes ← ZIPLIST_BYTES second;
        second_len ← ZIPLIST_LENGTH second;
        let append := first_len >=? second_len in
        let '(target, target_bytes, source, source_bytes) :=
          if append then (first, first_bytes, second, second_bytes)
          else (second, second_bytes, first, first_bytes) in
        let zlbytes := u64 (first_bytes + second_bytes - ZIPLIST_HEADER_SIZE - ZIPLIST_END_SIZE) in
        let zllength := first_len + second_len in
        let zllength := if zllength <? UINT16_MAX then zllength else UINT16_MAX in
        first_offset ← ZIPLIST_TAIL_OFFSET first;
        second_offset ← ZIPLIST_TAIL_OFFSET second;
        let target := mresize fill target (Z.to_nat zlbytes) in
        target ←
          (if append then
             bs ← mread source ZIPLIST_HEADER_SIZE (Z.to_nat (source_bytes - ZIPLIST_HEADER_SIZE));
             mwrite target (target_bytes - ZIPLIST_END_SIZE) bs
           else
             target ← mmove target (source_bytes - ZIPLIST_END_SIZE) ZIPLIST_HEADER_SIZE
                        (Z.to_nat (target_bytes - ZIPLIST_HEADER_SIZE));
             bs ← mread source 0 (Z.to_nat (source_bytes - ZIPLIST_END_SIZE));
             mwrite target 0 bs);
        target ← set_ZIPLIST_BYTES target zlbytes;
        target ← set_ZIPLIST_LENGTH target zllength;
        target ← set_ZIPLIST_TAIL_OFFSET target
                   ((first_bytes - ZIPLIST_END_SIZE) + (second_offset - ZIPLIST_HEADER_SIZE));
        target ← __ziplistCascadeUpdate target first_offset;
        Some (Some (target, append))
  | _, _ => Some None
  end.

(** ** Looking at entries *)

Fixpoint index_back (fuel : nat) (zl : list Z) (p prevlen index : Z) : option (Z * Z) :=
  match fuel with
  | O => None
  | S fuel =>
      if prevlen >? 0 then
        if index =? 0 then Some (p, index - 1)
        else
          let p := p - prevlen in
          '(_, prevlen) ← ZIP_DECODE_PREVLEN zl p;
          index_back fuel zl p prevlen (index - 1)
      else Some (p, index)
  end.

Fixpoint index_forth (fuel : nat) (zl : list Z) (p index : Z) : option (Z * Z) :=
  match fuel with
  | O => None
  | S fuel =>
      e ← is_end zl p;
      if negb e then
        if index =? 0 then Some (p, index - 1)
        else n ← zipRawEntryLength zl p; index_forth fuel zl (p + n) (index - 1)
      else Some (p, index)
  end.

(** [Some None] is [NULL]; the negation of the smallest [int] overflows. *)
Definition ziplistIndex (zl : list Z) (index : Z) : option (option Z) :=
  '(p, index) ←
    (if index <? 0 then
       if index <=? - 2 ^ 31 then None
       else
         let index := - index - 1 in
         p ← ZIPLIST_ENTRY_TAIL zl;
         e ← is_end zl p;
         if negb e
         then '(_, prevlen) ← ZIP_DECODE_PREVLEN zl p; index_back (S (length zl)) zl p prevlen index
         else Some (p, index)
     else index_forth (S (length zl)) zl ZIPLIST_ENTRY_HEAD index);
  e ← is_end zl p;
  Some (if (e : bool) || (index >? 0) then None else Some p).

Definition ziplistNext (zl : list Z) (p : Z) : option (option Z) :=
  e ← is_end zl p;
  if (e : bool) then Some None
  else
    n ← zipRawEntryLength zl p;
    e ← is_end zl (p + n);
    Some (if (e : bool) then None else Some (p + n)).

Definition ziplistPrev (zl : list Z) (p : Z) : option (option Z) :=
  e ← is_end zl p;
  if (e : bool) then
    p ← ZIPLIST_ENTRY_TAIL zl;
    e ← is_end zl p;
    Some (if (e : bool) then None else Some p)
  else if p =? ZIPLIST_ENTRY_HEAD then Some None
  else
    '(_, prevlen) ← ZIP_DECODE_PREVLEN zl p;
    if prevlen >? 0 then Some (Some (p - prevlen)) else None.

(** What an entry holds: the place and length of a string, or an integer. *)
Inductive found := FoundStr (sstr slen : Z) | FoundInt (sval : Z).

Definition ziplistGet (zl : list Z) (p : option Z) : option (option found) :=
  match p with
  | None => Some None
  | Some p =>
      e ← is_end zl p;
      if (e : bool) then Some None
      else
        entry ← zipEntry zl p;
        if ZIP_IS_STR (encoding entry) then Some (Some (FoundStr (p + headersize entry) (len entry)))
        else v ← zipLoadInteger zl (p + headersize entry) (encoding entry); Some (Some (FoundInt v))
  end.

Definition ziplistDeleteRange (zl : list Z) (index num : Z) : option (list Z) :=
  p ← ziplistIndex zl index;
  match p with
  | None => Some zl
  | Some p => __ziplistDelete zl p num
  end.

Definition ziplistCompare (zl : list Z) (p : Z) (sstr : list Z) : option bool :=
  e ← is_end zl p;
  if (e : bool) then Some false
  else
    entry ← zipEntry zl p;
    if ZIP_IS_STR (encoding entry) then
      if len entry =? zlen sstr
      then bs ← mread zl (p + headersize entry) (length sstr); Some (bool_decide (bs = sstr))
      else Some false
    else
      match zipTryEncoding sstr with
      | Some (sval, _) =>
          zval ← zipLoadInteger zl (p + headersize entry) (encoding entry); Some (zval =? sval)
      | None => Some false
      end.

(** [venc] is [vencoding], 0 before the first attempt and 255 when the string
    is no integer. *)
Fixpoint find_loop (fuel : nat) (zl : list Z) (p : Z) (vstr : list Z) (skip skipcnt venc vll : Z) : option (option Z) :=
  match fuel with
  | O => None
  | S fuel =>
      e ← is_end zl p;
      if (e : bool) then Some None
      else
        prevlensize ← ZIP_DECODE_PREVLENSIZE zl p;
        '(encoding, lensize, len) ← ZIP_DECODE_LENGTH zl (p + prevlensize);
        let q := p + prevlensize + lensize in
        if skipcnt =? 0 then
          if ZIP_IS_STR encoding then
            eq ← (if len =? zlen vstr
                  then bs ← mread zl q (length vstr); Some (bool_decide (bs = vstr)) else Some false);
            if (eq : bool) then Some (Some p)
            else find_loop fuel zl (q + len) vstr skip skip venc vll
          else
            let '(venc, vll) :=
              if venc =? 0 then
                match zipTryEncoding vstr with
                | Some (v, e) => (e, v)
                | None => (255, vll)
                end
              else (venc, vll) in
            if venc =? 0 then None
            else
              eq ← (if negb (venc =? 255)
                    then ll ← zipLoadInteger zl q encoding; Some (ll =? vll) else Some false);
              if (eq : bool) then Some (Some p)
              else find_loop fuel zl (q + len) vstr skip skip venc vll
        else find_loop fuel zl (q + len) vstr skip (skipcnt - 1) venc vll
  end.

Definition ziplistFind (zl : list Z) (p : Z) (vstr : list Z) (skip : Z) : option (option Z) :=
  find_loop (S (length zl)) zl p vstr (s32 skip) 0 0 0.

Fixpoint len_loop (fuel : nat) (zl : list Z) (p len : Z) : option Z :=
  match fuel with
  | O => None
  | S fuel =>
      e ← is_end zl p;
      if (e : bool) then Some len
      else n ← zipRawEntryLength zl p; len_loop fuel zl (p + n) (u32 (len + 1))
  end.

Definition ziplistLen (zl : list Z) : option (list Z * Z) :=
  n ← ZIPLIST_LENGTH zl;
  if n <? UINT16_MAX then Some (zl, n)
  else
    len ← len_loop (S (length zl)) zl ZIPLIST_HEADER_SIZE 0;
    zl ← (if len <? UINT16_MAX then set_ZIPLIST_LENGTH zl len else Some zl);
    Some (zl, len).

Definition ziplistBlobLen (zl : list Z) : option Z := ZIPLIST_BYTES zl.

End alloc.
End Ziplist.
