(* ===== verification/ZiplistFacts.v ===== *)
(** Correctness of the packed lists of [Ziplist]: the layout of the block, its
    preservation by every operation (the cascading update of the length fields
    included), and the refinement of lists of byte strings. *)

From S2P Require Import Prelude UtilNum Ziplist.

#[local] Open Scope Z_scope.

Module ZiplistFacts.
Import UtilNum Ziplist.
#[local] Notation zlen l := (Z.of_nat (length l)) (only parsing).

(** ** Elements *)

(** A string that is the decimal form of an integer is kept as the integer. *)
Definition int_encoding (value : Z) : Z :=
  if (0 <=? value) && (value <=? 12) then u8 (ZIP_INT_IMM_MIN + value)
  else if (- 2 ^ 7 <=? value) && (value <=? 2 ^ 7 - 1) then ZIP_INT_8B
  else if (- 2 ^ 15 <=? value) && (value <=? 2 ^ 15 - 1) then ZIP_INT_16B
  else if (INT24_MIN <=? value) && (value <=? INT24_MAX) then ZIP_INT_24B
  else if (- 2 ^ 31 <=? value) && (value <=? 2 ^ 31 - 1) then ZIP_INT_32B
  else ZIP_INT_64B.

Definition int_bytes (value : Z) : list Z :=
  if (0 <=? value) && (value <=? 12) then []
  else if (- 2 ^ 7 <=? value) && (value <=? 2 ^ 7 - 1) then le_encode 1 value
  else if (- 2 ^ 15 <=? value) && (value <=? 2 ^ 15 - 1) then le_encode 2 value
  else if (INT24_MIN <=? value) && (value <=? INT24_MAX) then le_encode 3 value
  else if (- 2 ^ 31 <=? value) && (value <=? 2 ^ 31 - 1) then le_encode 4 value
  else le_encode 8 value.

(** Lengths of strings are big endian. *)
Definition str_header (n : Z) : list Z :=
  if n <=? 63 then [n]
  else if n <=? 16383 then [64 + n / 256; n mod 256]
  else [128; n / 16777216; n / 65536 mod 256; n / 256 mod 256; n mod 256].

Definition enc_of (s : list Z) : Z :=
  match string2ll s with
  | Some v => int_encoding v
  | None => if zlen s <=? 63 then 0 else if zlen s <=? 16383 then 64 else 128
  end.
Definition header_of (s : list Z) : list Z :=
  match string2ll s with Some v => [int_encoding v] | None => str_header (zlen s) end.
Definition data_of (s : list Z) : list Z :=
  match string2ll s with Some v => int_bytes v | None => s end.
Definition body (s : list Z) : list Z := header_of s ++ data_of s.

Lemma try_spec s : zipTryEncoding s = (fun v => (v, int_encoding v)) <$> string2ll s.
Proof.
  unfold zipTryEncoding. destruct (string2ll s) as [v|] eqn:Hv; [|by destruct (_ || _)].
  pose proof Hv as [Hr ->]%string2ll_decimal. pose proof (length_decimal v Hr).
  destruct (decimal v) as [|c l] eqn:Hd; [done|]. rewrite <- Hd in *.
  replace ((zlen (decimal v) >=? 32) || (zlen (decimal v) =? 0)) with false; [done|].
  symmetry. apply orb_false_intro; [rewrite Z.geb_leb; apply Z.leb_gt; lia|].
  apply Z.eqb_neq. rewrite Hd. simpl. lia.
Qed.

(** The encodings, one case per width. *)
Lemma int_cases v (P : Z -> list Z -> Prop) : in_s 64 v ->
  (0 <= v <= 12 -> P (241 + v) []) ->
  (in_s 8 v -> P 254 (le_encode 1 v)) ->
  (in_s 16 v -> P 192 (le_encode 2 v)) ->
  (in_s 24 v -> P 240 (le_encode 3 v)) ->
  (in_s 32 v -> P 208 (le_encode 4 v)) ->
  P 224 (le_encode 8 v) -> P (int_encoding v) (int_bytes v).
Proof.
  intros Hv H0 H8 H16 H24 H32 H64. unfold int_encoding, int_bytes, in_s in *.
  change (- (8388607) - 1) with (-8388608).
  destruct (Z.leb_spec 0 v), (Z.leb_spec v 12); cbn [andb];
    try (rewrite uwrap_small by (unfold in_u; lia); apply H0; lia);
    (destruct (Z.leb_spec (- 2 ^ 7) v), (Z.leb_spec v (2 ^ 7 - 1)); cbn [andb]; try (apply H8; lia));
    (destruct (Z.leb_spec (- 2 ^ 15) v), (Z.leb_spec v (2 ^ 15 - 1)); cbn [andb]; try (apply H16; lia));
    (destruct (Z.leb_spec (-8388608) v), (Z.leb_spec v 8388607); cbn [andb]; try (apply H24; lia));
    (destruct (Z.leb_spec (- 2 ^ 31) v), (Z.leb_spec v (2 ^ 31 - 1)); cbn [andb]; try (apply H32; lia)); exact H64.
Qed.

#[local] Ltac enc_tests :=
  change ZIP_INT_16B with 192; change ZIP_INT_24B with 240;
  change ZIP_INT_32B with 208; change ZIP_INT_64B with 224; cbn [Z.eqb Pos.eqb].

(** The tests of the code on the encoding of an immediate integer. *)
Lemma imm_tests v : 0 <= v <= 12 ->
  (241 + v =? ZIP_INT_8B) = false /\ (241 + v =? ZIP_INT_16B) = false /\ (241 + v =? ZIP_INT_24B) = false /\
  (241 + v =? ZIP_INT_32B) = false /\ (241 + v =? ZIP_INT_64B) = false /\
  (ZIP_INT_IMM_MIN <=? 241 + v) && (241 + v <=? ZIP_INT_IMM_MAX) = true.
Proof.
  intros H. enc_tests.
  rewrite !Z.eqb_neq, andb_true_iff, !Z.leb_le. lia.
Qed.

#[local] Ltac immediate H := destruct (imm_tests _ H) as (-> & -> & -> & -> & -> & ->).

Lemma int_size v : in_s 64 v -> zipIntSize (int_encoding v) = Some (zlen (int_bytes v)).
Proof.
  intros Hv. apply (int_cases v (fun e b => zipIntSize e = Some (zlen b))); [done|..];
    try (intros _; by vm_compute); [|by vm_compute].
  intros H. unfold zipIntSize. by immediate H.
Qed.

Lemma int_not_str v : in_s 64 v -> 192 <= int_encoding v < 255.
Proof.
  intros Hv. apply (int_cases v (fun e _ => 192 <= e < 255)); [done|..]; intros; lia.
Qed.

Lemma land_c0 b : is_byte b -> Z.land b 0xc0 = 64 * (b / 64).
Proof.
  intros Hb. apply Z.eqb_eq. revert b Hb. apply forall_byte. by vm_compute.
Qed.

Lemma land_3f b : is_byte b -> Z.land b 0x3f = b mod 64.
Proof. intros _. change 0x3f with (Z.ones 6). by rewrite Z.land_ones. Qed.

Lemma land_ff b : Z.land b 0xff = b mod 256.
Proof. change 0xff with (Z.ones 8). by rewrite Z.land_ones. Qed.

Lemma is_str_iff e : is_byte e -> ZIP_IS_STR e = (e <? 192).
Proof.
  intros Hb. unfold ZIP_IS_STR. rewrite land_c0 by done. unfold is_byte in Hb.
  destruct (Z.ltb_spec e 192); [apply Z.ltb_lt|apply Z.ltb_ge]; dlia.
Qed.

Lemma is_str_enc s : ZIP_IS_STR (enc_of s) = match string2ll s with Some _ => false | None => true end.
Proof.
  unfold enc_of. destruct (string2ll s) as [v|] eqn:Hv.
  - apply string2ll_decimal in Hv as [Hr _]. pose proof (int_not_str v Hr).
    rewrite is_str_iff by (unfold is_byte; lia). apply Z.ltb_ge. lia.
  - repeat case_match; by vm_compute.
Qed.

(** ** Reading and writing elements *)

Lemma le_encode_mod n z w : 8 * Z.of_nat n <= w -> le_encode n (z mod 2 ^ w) = le_encode n z.
Proof.
  revert z w. induction n as [|n IH]; intros z w Hw; [done|]. cbn [le_encode].
  assert (2 ^ w = 256 * 2 ^ (w - 8)) as Hp.
  { change 256 with (2 ^ 8). rewrite <- Z.pow_add_r by lia. f_equal. lia. }
  assert (0 < 2 ^ (w - 8)) by (apply Z.pow_pos_nonneg; lia). rewrite Hp, Z.rem_mul_r by lia. f_equal.
  - rewrite (Z.mul_comm 256), Z.mod_add, Z.mod_mod by lia. done.
  - rewrite (Z.mul_comm 256), Z.div_add, (Z.div_small (z mod 256)), Z.add_0_l by (try apply Z.mod_pos_bound; lia).
    apply IH. lia.
Qed.

Lemma le_encode_swrap n z w : 0 < w -> 8 * Z.of_nat n <= w -> le_encode n (swrap w z) = le_encode n z.
Proof.
  intros H0 Hw. rewrite <- (le_encode_mod n (swrap w z) w), <- (le_encode_mod n z w) by done. f_equal.
  by apply (uwrap_swrap w z).
Qed.

Lemma save_24 v : drop 1 (le_encode 4 (s32 (Z.shiftl v 8))) = le_encode 3 v.
Proof.
  rewrite le_encode_swrap by lia. rewrite Z.shiftl_mul_pow2 by lia. change (le_encode 4 (v * 2 ^ 8))
    with ((v * 256) mod 256 :: le_encode 3 (v * 256 / 256)). cbn [drop]. by rewrite Z.div_mul by lia.
Qed.

Lemma swrap_decode n v w : w = 8 * Z.of_nat n -> 0 < w -> in_s w v -> swrap w (le_decode (le_encode n v)) = v.
Proof.
  intros -> Hw Hv. rewrite le_decode_encode. rewrite swrap_mod by done. by apply swrap_small.
Qed.

Lemma load_24 v : in_s 24 v -> Z.shiftr (s32 (le_decode (0 :: le_encode 3 v))) 8 = v.
Proof.
  intros Hv. cbn [le_decode]. rewrite Z.add_0_l, (le_decode_encode 3).
  replace (256 * (v mod 2 ^ (8 * Z.of_nat 3))) with ((v * 256) mod 2 ^ 32).
  - rewrite swrap_mod, swrap_small by (unfold in_s in *; lia). rewrite Z.shiftr_div_pow2 by lia. by apply Z.div_mul.
  - change (2 ^ 32) with (256 * 2 ^ 24). rewrite (Z.mul_comm v), Z.mul_mod_distr_l by lia. done.
Qed.

Lemma mwrite_nil zl p : 0 <= p <= zlen zl -> mwrite zl p [] = Some zl.
Proof.
  intros Hp. rewrite mwrite_Some by (cbn [length]; lia). cbn [length app]. by rewrite Nat.add_0_r, take_drop.
Qed.

Lemma save_spec pre old post v p : in_s 64 v -> p = zlen pre -> length old = length (int_bytes v) ->
  zipSaveInteger (pre ++ old ++ post) p v (int_encoding v) = Some (pre ++ int_bytes v ++ post).
Proof.
  intros Hv -> Hl. rewrite <- (mwrite_mid pre old post (zlen pre) (int_bytes v)) by done. clear Hl.
  set (zl := pre ++ old ++ post). assert (0 <= zlen pre <= zlen zl) as Hp by (unfold zl; rewrite !length_app; lia).
  clearbody zl. generalize dependent (zlen pre). intros p Hp.
  apply (int_cases v (fun e b => zipSaveInteger zl p v e = mwrite zl p b)); [done|..]; try done.
  - intros H. rewrite mwrite_nil by done. unfold zipSaveInteger. by immediate H.
  - intros _. unfold zipSaveInteger. enc_tests. by rewrite save_24.
Qed.

Lemma rd_off pre l off i : off = zlen pre + Z.of_nat i -> rd (pre ++ l) off = l !! i.
Proof.
  intros ->. unfold rd. rewrite (proj2 (Z.ltb_ge _ _)) by lia. rewrite lookup_app_r by lia. f_equal. lia.
Qed.

Lemma load_spec pre post v p : in_s 64 v -> p = zlen pre ->
  zipLoadInteger (pre ++ int_bytes v ++ post) p (int_encoding v) = Some v.
Proof.
  intros Hv ->. apply (int_cases v (fun e b => zipLoadInteger (pre ++ b ++ post) (zlen pre) e = Some v)); [done|..].
  - intros H. unfold zipLoadInteger. immediate H. f_equal.
    change 0x0f with (Z.ones 4). rewrite Z.land_ones by lia. change (2 ^ 4) with 16. dlia.
  - intros H. unfold zipLoadInteger. cbn [Z.eqb Pos.eqb]. cbn [app le_encode].
    rewrite (rd_off _ _ _ 0) by lia. change (Some (s8 (v mod 2 ^ 8)) = Some v). by rewrite swrap_mod, swrap_small.
  - intros H. unfold zipLoadInteger. enc_tests.
    rewrite mread_mid by done. bsimpl. by rewrite swrap_decode.
  - intros H. unfold zipLoadInteger. enc_tests.
    rewrite mread_mid by done. bsimpl. by rewrite load_24.
  - intros H. unfold zipLoadInteger. enc_tests.
    rewrite mread_mid by done. bsimpl. by rewrite swrap_decode.
  - unfold zipLoadInteger. enc_tests.
    rewrite mread_mid by done. bsimpl. by rewrite swrap_decode.
Qed.

(** The encoding the insertion passes on: 0 for strings. *)
Definition ins_enc (s : list Z) : Z := match string2ll s with Some v => int_encoding v | None => 0 end.

Lemma lor_64 b : 0 <= b < 64 -> Z.lor 64 b = 64 + b.
Proof. intros Hb. rewrite Z.lor_comm. change 64 with (Z.shiftl 1 6) at 1. rewrite lor_shift_add by lia. lia. Qed.

Lemma str_header_buf n : 0 <= n < 2 ^ 32 ->
  (if n <=? 0x3f then [u8 (Z.lor ZIP_STR_06B n)]
   else if n <=? 0x3fff
   then [u8 (Z.lor ZIP_STR_14B (Z.land (Z.shiftr n 8) 0x3f)); Z.land n 0xff]
   else [ZIP_STR_32B; Z.land (Z.shiftr n 24) 0xff; Z.land (Z.shiftr n 16) 0xff;
         Z.land (Z.shiftr n 8) 0xff; Z.land n 0xff]) = str_header n.
Proof.
  intros Hn. unfold str_header. rewrite !land_ff, !Z.shiftr_div_pow2 by lia.
  change (2 ^ 8) with 256. change (2 ^ 16) with 65536. change (2 ^ 24) with 16777216.
  change ZIP_STR_06B with 0. change ZIP_STR_14B with 64. change ZIP_STR_32B with 128. rewrite Z.lor_0_l.
  destruct (Z.leb_spec n 63); [by rewrite uwrap_small by (unfold in_u; lia)|].
  destruct (Z.leb_spec n 16383).
  - change 0x3f with (Z.ones 6). rewrite Z.land_ones by lia. rewrite Z.mod_small by dlia.
    rewrite lor_64, uwrap_small by (unfold in_u; dlia). done.
  - do 2 f_equal. apply Z.mod_small. dlia.
Qed.

Lemma store_encoding_spec s zl : zlen s < 2 ^ 32 ->
  zipStoreEntryEncoding zl None (ins_enc s) (zlen s) = Some (zl, zlen (header_of s)) /\
  forall p, zipStoreEntryEncoding zl (Some p) (ins_enc s) (zlen s) =
    (zl ← mwrite zl p (header_of s); Some (zl, zlen (header_of s))).
Proof.
  intros Hs. unfold zipStoreEntryEncoding, ins_enc, header_of. cbv zeta.
  rewrite str_header_buf by lia. destruct (string2ll s) as [v|] eqn:Hv; [|by change (ZIP_IS_STR 0) with true].
  apply string2ll_decimal in Hv as [Hr _]. pose proof (int_not_str v Hr).
  rewrite is_str_iff, (proj2 (Z.ltb_ge _ _)) by (unfold is_byte; lia). done.
Qed.

Lemma entry_encoding_spec pre c post p : is_byte c -> p = zlen pre ->
  ZIP_ENTRY_ENCODING (pre ++ c :: post) p = Some (if c <? 192 then 64 * (c / 64) else c).
Proof.
  intros Hc ->. unfold ZIP_ENTRY_ENCODING. rewrite (rd_off _ _ _ 0) by lia. cbn [lookup list_lookup]. bsimpl.
  by rewrite land_c0.
Qed.

Lemma join_32 a b c d : 0 <= a < 256 -> 0 <= b < 256 -> 0 <= c < 256 -> 0 <= d < 256 ->
  Z.lor (Z.lor (Z.lor (Z.shiftl a 24) (Z.shiftl b 16)) (Z.shiftl c 8)) d = a * 2 ^ 24 + b * 2 ^ 16 + c * 2 ^ 8 + d.
Proof.
  intros. rewrite (Z.lor_comm (Z.shiftl a 24)), (Z.lor_comm _ (Z.shiftl c 8)), (Z.lor_comm _ d).
  replace (Z.shiftl a 24) with (Z.shiftl (Z.shiftl a 8) 16) by (by rewrite Z.shiftl_shiftl).
  rewrite <- Z.shiftl_lor. replace (Z.shiftl (Z.lor b (Z.shiftl a 8)) 16) with (Z.shiftl (Z.shiftl (Z.lor b (Z.shiftl a 8)) 8) 8)
    by (by rewrite Z.shiftl_shiftl).
  rewrite <- Z.shiftl_lor. rewrite !lor_shift_add by lia. lia.
Qed.

Lemma decode_length_spec pre s post p : p = zlen pre -> zlen s < 2 ^ 32 ->
  ZIP_DECODE_LENGTH (pre ++ header_of s ++ post) p = Some (enc_of s, zlen (header_of s), zlen (data_of s)).
Proof.
  intros -> Hs. unfold ZIP_DECODE_LENGTH, header_of, enc_of, data_of. destruct (string2ll s) as [v|] eqn:Hv.
  - apply string2ll_decimal in Hv as [Hr _]. pose proof (int_not_str v Hr). cbn [app].
    rewrite entry_encoding_spec by (unfold is_byte; lia). bsimpl.
    rewrite (proj2 (Z.ltb_ge (int_encoding v) 192)) by lia.
    rewrite (proj2 (Z.ltb_ge _ _)) by lia. rewrite int_size by done. done.
  - unfold str_header. destruct (Z.leb_spec (zlen s) 63); [|destruct (Z.leb_spec (zlen s) 16383)]; cbn [app].
    + rewrite entry_encoding_spec by (unfold is_byte; lia). bsimpl.
      rewrite (proj2 (Z.ltb_lt (zlen s) 192)) by lia. replace (zlen s / 64) with 0 by dlia.
      cbn [Z.mul Z.ltb Z.compare Z.eqb Z.shiftl Pos.iter].
      change (64 * 0 <? ZIP_STR_MASK) with true. change (64 * 0 =? ZIP_STR_06B) with true. cbn match.
      rewrite (rd_off _ _ _ 0) by lia. cbn [lookup list_lookup]. bsimpl. rewrite land_3f by (unfold is_byte; lia).
      by rewrite Z.mod_small by lia.
    + assert (1 <= zlen s / 256 < 64 \/ zlen s / 256 = 0) as Hd by dlia.
      rewrite entry_encoding_spec by (unfold is_byte; lia). bsimpl.
      rewrite (proj2 (Z.ltb_lt (64 + zlen s / 256) 192)) by lia. replace ((64 + zlen s / 256) / 64) with 1 by dlia.
      change (64 * 1 <? ZIP_STR_MASK) with true. change (64 * 1 =? ZIP_STR_06B) with false.
      change (64 * 1 =? ZIP_STR_14B) with true. cbn match.
      rewrite (rd_off _ _ (zlen pre) 0), (rd_off _ _ (zlen pre + 1) 1) by lia. cbn [lookup list_lookup]. bsimpl.
      rewrite land_3f by (unfold is_byte; lia). replace ((64 + zlen s / 256) mod 64) with (zlen s / 256) by dlia.
      rewrite Z.lor_comm, lor_shift_add by dlia. do 2 f_equal. dlia.
    + rewrite entry_encoding_spec by done. bsimpl. cbn match.
      change (if 128 <? 192 then 64 * (128 / 64) else 128) with 128.
      change (128 <? ZIP_STR_MASK) with true. change (128 =? ZIP_STR_06B) with false.
      change (128 =? ZIP_STR_14B) with false. change (128 =? ZIP_STR_32B) with true. cbn match.
      rewrite (rd_off _ _ (zlen pre + 1) 1), (rd_off _ _ (zlen pre + 2) 2), (rd_off _ _ (zlen pre + 3) 3), (rd_off _ _ (zlen pre + 4) 4) by lia. cbn [lookup list_lookup]. bsimpl.
      rewrite join_32 by dlia. do 2 f_equal. rewrite uwrap_small by (unfold in_u; dlia). dlia.
Qed.

Lemma header_length s : 1 <= zlen (header_of s) <= 5.
Proof. unfold header_of, str_header. repeat case_match; simpl; lia. Qed.

Lemma int_bytes_length v : (length (int_bytes v) <= 8)%nat.
Proof. unfold int_bytes. repeat case_match; rewrite ?length_le_encode; simpl; lia. Qed.

Lemma body_length s : zlen (body s) = zlen (header_of s) + zlen (data_of s).
Proof. unfold body. rewrite length_app. lia. Qed.

Lemma body_small s : zlen (body s) <= zlen s + 13.
Proof.
  rewrite body_length. pose proof (header_length s). unfold data_of.
  destruct (string2ll s) as [v|]; [pose proof (int_bytes_length v)|]; lia.
Qed.

Lemma elem_small s : zlen (body s) < 2 ^ 32 -> zlen s < 2 ^ 32.
Proof.
  rewrite body_length. unfold data_of. destruct (string2ll s) as [v|] eqn:Hv; [|lia].
  apply string2ll_decimal in Hv as [Hr ->]. pose proof (length_decimal v Hr). lia.
Qed.

(** ** Entries *)

(** The field with the length of the entry before, in one or five bytes. *)
Definition field (big : bool) (pv : Z) : list Z := if big then 254 :: le_encode 4 pv else [pv].
Definition fsize (big : bool) : Z := if big then 5 else 1.
Definition field_ok (big : bool) (pv : Z) : Prop := 0 <= pv < 2 ^ 32 /\ (big = false -> pv < 254).

(** An entry: the size of its first field and its element. *)
Abbreviation node := (bool * list Z)%type.
Definition rawlen (n : node) : Z := fsize n.1 + zlen (body n.2).

Lemma length_field big pv : zlen (field big pv) = fsize big.
Proof. by destruct big. Qed.

Lemma rawlen_min n : 2 <= rawlen n.
Proof.
  destruct n as [b s]. unfold rawlen. cbn [fst snd]. rewrite body_length. pose proof (header_length s).
  destruct b; unfold fsize; lia.
Qed.

Lemma fsize_bounds b : 1 <= fsize b <= 5.
Proof. destruct b; unfold fsize; lia. Qed.

Lemma prevlensize_spec pre big pv post p : p = zlen pre -> field_ok big pv ->
  ZIP_DECODE_PREVLENSIZE (pre ++ field big pv ++ post) p = Some (fsize big).
Proof.
  intros -> [Hpv Hb]. unfold ZIP_DECODE_PREVLENSIZE. rewrite (rd_off _ _ _ 0) by lia.
  destruct big; [done|]. cbn [field app lookup list_lookup]. bsimpl. specialize (Hb eq_refl).
  by rewrite (proj2 (Z.ltb_lt _ _)) by lia.
Qed.

Lemma mread_eq zl l1 l2 l3 off n :
  zl = l1 ++ l2 ++ l3 -> off = zlen l1 -> n = length l2 -> mread zl off n = Some l2.
Proof. intros ->. apply mread_mid. Qed.

Lemma mwrite_eq zl l1 l2 l3 off bs :
  zl = l1 ++ l2 ++ l3 -> off = zlen l1 -> length bs = length l2 -> mwrite zl off bs = Some (l1 ++ bs ++ l3).
Proof. intros ->. apply mwrite_mid. Qed.

Lemma prevlen_spec pre big pv post p : p = zlen pre -> field_ok big pv ->
  ZIP_DECODE_PREVLEN (pre ++ field big pv ++ post) p = Some (fsize big, pv).
Proof.
  intros -> Hf. unfold ZIP_DECODE_PREVLEN. rewrite prevlensize_spec by done. bsimpl.
  destruct Hf as [Hpv Hb]. destruct big; cbn [fsize Z.eqb Pos.eqb].
  - rewrite (mread_eq _ (pre ++ [254]) (le_encode 4 pv) post) by
      (rewrite ?length_app, ?length_le_encode, <- ?app_assoc; simpl; lia || done).
    bsimpl. rewrite le_decode_encode, Z.mod_small by (simpl; lia). done.
  - by rewrite (rd_off _ _ _ 0) by lia.
Qed.

(** Writing a field over one of the same size. *)
Lemma store_large_over pre old pv post p : p = zlen pre -> length old = 5%nat ->
  zipStorePrevEntryLengthLarge (pre ++ old ++ post) p pv = Some (pre ++ field true pv ++ post, 5).
Proof.
  intros -> Hl. unfold zipStorePrevEntryLengthLarge. destruct old as [|x old]; [done|]. cbn [app].
  rewrite mwrite_at by done. bsimpl. injection Hl as Hl.
  rewrite (mwrite_eq _ (pre ++ [ZIP_BIG_PREVLEN]) old post) by
    (rewrite ?length_app, ?length_le_encode, <- ?app_assoc; simpl; lia || done).
  bsimpl. by rewrite <- app_assoc.
Qed.

(** The size of the field the code chooses. *)
Definition needs_big (pv : Z) : bool := 254 <=? pv.

Lemma store_size zl pv : zipStorePrevEntryLength zl None pv = Some (zl, fsize (needs_big pv)).
Proof.
  unfold zipStorePrevEntryLength, needs_big. rewrite Z.leb_antisym. by destruct (pv <? 254).
Qed.

Lemma store_over pre old pv post p : p = zlen pre -> zlen old = fsize (needs_big pv) ->
  zipStorePrevEntryLength (pre ++ old ++ post) (Some p) pv =
    Some (pre ++ field (needs_big pv) pv ++ post, fsize (needs_big pv)).
Proof.
  intros -> Hl. unfold zipStorePrevEntryLength. unfold needs_big in *. rewrite Z.leb_antisym in *.
  destruct (pv <? 254); cbn [negb fsize] in *.
  - destruct old as [|x [|y old]]; simpl in Hl; try lia. cbn [app]. by rewrite mwrite_at.
  - apply store_large_over; [done|lia].
Qed.

Lemma field_needs_big pv : 0 <= pv < 2 ^ 32 -> field_ok (needs_big pv) pv.
Proof. intros H. split; [done|]. unfold needs_big. rewrite Z.leb_gt. done. Qed.

Lemma is_end_field pre big pv post p : p = zlen pre -> field_ok big pv ->
  is_end (pre ++ field big pv ++ post) p = Some false.
Proof.
  intros -> [Hpv Hb]. unfold is_end. rewrite (rd_off _ _ _ 0) by lia. destruct big; [done|].
  cbn [field app lookup list_lookup]. bsimpl. specialize (Hb eq_refl). f_equal. apply Z.eqb_neq. lia.
Qed.

Lemma is_end_last pre post p : p = zlen pre -> is_end (pre ++ 255 :: post) p = Some true.
Proof. intros ->. unfold is_end. by rewrite (rd_off _ _ _ 0) by lia. Qed.

Lemma prevlen_diff_spec pre big pv post p len : p = zlen pre -> field_ok big pv ->
  zipPrevLenByteDiff (pre ++ field big pv ++ post) p len = Some (fsize (needs_big len) - fsize big).
Proof.
  intros -> Hf. unfold zipPrevLenByteDiff. rewrite prevlensize_spec by done. bsimpl. rewrite store_size. bsimpl.
  f_equal. rewrite swrap_uwrap by lia. apply swrap_small; [lia|].
  pose proof (fsize_bounds big). pose proof (fsize_bounds (needs_big len)). unfold in_s. lia.
Qed.

Section entry.
Context (pre post : list Z) (big : bool) (pv : Z) (s : list Z).
Notation zl := (pre ++ field big pv ++ body s ++ post).
Hypothesis Hf : field_ok big pv.
Hypothesis Hsize : rawlen (big, s) < 2 ^ 32.

Lemma decode_body_spec p : p = zlen pre + fsize big ->
  ZIP_DECODE_LENGTH zl p = Some (enc_of s, zlen (header_of s), zlen (data_of s)).
Proof using Hsize.
  intros ->. unfold body. rewrite <- app_assoc, app_assoc. unfold rawlen in Hsize. cbn [fst snd] in Hsize.
  pose proof (fsize_bounds big). apply decode_length_spec; [|apply elem_small; lia].
  rewrite length_app, Nat2Z.inj_add, length_field. done.
Qed.

Lemma zipEntry_spec p : p = zlen pre ->
  zipEntry zl p = Some (mkEntry (fsize big) pv (zlen (header_of s)) (zlen (data_of s))
    (fsize big + zlen (header_of s)) (enc_of s) p).
Proof using Hf Hsize.
  intros ->. unfold zipEntry. rewrite prevlen_spec by done. bsimpl. rewrite decode_body_spec by done. bsimpl.
  pose proof (header_length s). pose proof (fsize_bounds big). rewrite uwrap_small by (unfold in_u; lia). done.
Qed.

Lemma raw_length_spec p : p = zlen pre -> zipRawEntryLength zl p = Some (rawlen (big, s)).
Proof using Hf Hsize.
  intros ->. unfold zipRawEntryLength. rewrite prevlensize_spec by done. bsimpl. rewrite decode_body_spec by done. bsimpl.
  pose proof (header_length s). pose proof (fsize_bounds big). unfold rawlen in *. cbn [fst snd] in *.
  rewrite body_length in *. rewrite uwrap_small by (unfold in_u; lia). f_equal. lia.
Qed.

End entry.

(** ** Sequences of entries *)

(** The entries as they lie in the block, when [pv] is in the first field. *)
Fixpoint ser (pv : Z) (ns : list node) : list Z :=
  match ns with
  | [] => []
  | n :: ns => field n.1 pv ++ body n.2 ++ ser (rawlen n) ns
  end.

Fixpoint wf (pv : Z) (ns : list node) : Prop :=
  match ns with
  | [] => True
  | n :: ns => field_ok n.1 pv /\ wf (rawlen n) ns
  end.

Definition size (ns : list node) : Z := foldr (fun n z => rawlen n + z) 0 ns.
Definition last_raw (pv : Z) (ns : list node) : Z := from_option rawlen pv (last ns).

(** Where the last entry starts, the first one being at [base]. *)
Fixpoint tailpos (base : Z) (ns : list node) : Z :=
  match ns with
  | [] | [_] => base
  | n :: ns => tailpos (base + rawlen n) ns
  end.

Lemma size_cons n ns : size (n :: ns) = rawlen n + size ns.
Proof. done. Qed.

Lemma length_ser ns : forall pv, zlen (ser pv ns) = size ns.
Proof.
  induction ns as [|n ns IH]; intros pv; cbn [ser]; [done|].
  rewrite !length_app, !Nat2Z.inj_add, IH, length_field, size_cons. unfold rawlen. lia.
Qed.

Lemma size_app a b : size (a ++ b) = size a + size b.
Proof. induction a as [|n a IH]; cbn [app]; rewrite ?size_cons; [done|lia]. Qed.

Lemma size_nonneg ns : 2 * zlen ns <= size ns.
Proof.
  induction ns as [|n ns IH]; [done|]. rewrite size_cons. cbn [length]. pose proof (rawlen_min n). lia.
Qed.

Lemma last_raw_cons pv n ns : last_raw pv (n :: ns) = last_raw (rawlen n) ns.
Proof. unfold last_raw. rewrite last_cons. by destruct (last ns). Qed.

Lemma ser_app a b : forall pv, ser pv (a ++ b) = ser pv a ++ ser (last_raw pv a) b.
Proof.
  induction a as [|n a IH]; intros pv; cbn [app ser]; [done|]. by rewrite IH, last_raw_cons, <- !app_assoc.
Qed.

Lemma wf_app a b : forall pv, wf pv (a ++ b) <-> wf pv a /\ wf (last_raw pv a) b.
Proof.
  induction a as [|n a IH]; intros pv; cbn [app wf]; [by split; [|intros [_ ?]]|].
  rewrite IH, last_raw_cons. tauto.
Qed.

Lemma tailpos_cons base n ns : ns <> [] -> tailpos base (n :: ns) = tailpos (base + rawlen n) ns.
Proof. by destruct ns. Qed.

Lemma tailpos_app a b : forall base, b <> [] -> tailpos base (a ++ b) = tailpos (base + size a) b.
Proof.
  induction a as [|n a IH]; intros base Hb; cbn [app]; [by rewrite Z.add_0_r|].
  rewrite tailpos_cons, IH, size_cons by (done || by destruct a). f_equal. lia.
Qed.

Lemma tailpos_bounds ns : forall base, base <= tailpos base ns <= base + size ns.
Proof.
  induction ns as [|n ns IH]; intros base; [cbn; lia|]. pose proof (rawlen_min n). rewrite size_cons.
  destruct ns as [|m ns]; [change (size []) with 0; cbn [tailpos]; lia|].
  rewrite tailpos_cons by done. specialize (IH (base + rawlen n)). lia.
Qed.

Lemma tailpos_shift ns d : forall base, tailpos (base + d) ns = tailpos base ns + d.
Proof.
  induction ns as [|n ns IH]; intros base; [done|]. destruct ns as [|m ns]; [done|].
  rewrite (tailpos_cons (base + d)), (tailpos_cons base), <- IH by done. f_equal. lia.
Qed.

Lemma ser_first pv n ns : ser pv (n :: ns) = field n.1 pv ++ body n.2 ++ ser (rawlen n) ns.
Proof. done. Qed.

(** ** The block *)

Definition hdr (bytes tail count : Z) (rest : list Z) : list Z :=
  le_encode 4 bytes ++ le_encode 4 tail ++ le_encode 2 count ++ rest.

Lemma hdr_app b t c l1 l2 : hdr b t c (l1 ++ l2) = hdr b t c l1 ++ l2.
Proof. unfold hdr. by rewrite <- !app_assoc. Qed.

Lemma length_hdr b t c l : zlen (hdr b t c l) = 10 + zlen l.
Proof. unfold hdr. rewrite !length_app, !length_le_encode. lia. Qed.

Lemma get_bytes b t c l : 0 <= b < 2 ^ 32 -> ZIPLIST_BYTES (hdr b t c l) = Some b.
Proof.
  intros Hb. unfold ZIPLIST_BYTES, hdr. rewrite mread_head by done. cbn [fmap option_fmap option_map].
  by rewrite le_decode_encode, Z.mod_small by (simpl; lia).
Qed.

Lemma get_tail b t c l : 0 <= t < 2 ^ 32 -> ZIPLIST_TAIL_OFFSET (hdr b t c l) = Some t.
Proof.
  intros Ht. unfold ZIPLIST_TAIL_OFFSET, hdr. rewrite mread_mid by done. cbn [fmap option_fmap option_map].
  by rewrite le_decode_encode, Z.mod_small by (simpl; lia).
Qed.

Lemma get_length b t c l : 0 <= c < 2 ^ 16 -> ZIPLIST_LENGTH (hdr b t c l) = Some c.
Proof.
  intros Hc. unfold ZIPLIST_LENGTH, hdr. rewrite app_assoc, mread_mid by done. cbn [fmap option_fmap option_map].
  by rewrite le_decode_encode, Z.mod_small by (simpl; lia).
Qed.

Lemma set_bytes b t c l n : set_ZIPLIST_BYTES (hdr b t c l) n = Some (hdr n t c l).
Proof. unfold set_ZIPLIST_BYTES, hdr. by rewrite mwrite_head. Qed.

Lemma set_tail b t c l n : set_ZIPLIST_TAIL_OFFSET (hdr b t c l) n = Some (hdr b n c l).
Proof. unfold set_ZIPLIST_TAIL_OFFSET, hdr. by rewrite mwrite_mid. Qed.

Lemma set_length b t c l n : set_ZIPLIST_LENGTH (hdr b t c l) n = Some (hdr b t n l).
Proof. unfold set_ZIPLIST_LENGTH, hdr. rewrite app_assoc, mwrite_mid by done. by rewrite <- app_assoc. Qed.

(** Growing the block: the last byte and what is allocated become [junk],
    whose first byte is the old end mark. *)
Lemma resize_grow fill b t c l (k : nat) : 0 <= 11 + zlen l + Z.of_nat k < 2 ^ 32 ->
  exists junk, ziplistResize fill (hdr b t c (l ++ [255])) (11 + zlen l + Z.of_nat k) =
    Some (hdr (11 + zlen l + Z.of_nat k) t c (l ++ junk ++ [255])) /\ length junk = k /\
    ((0 < k)%nat -> head junk = Some 255).
Proof.
  intros Hn. unfold ziplistResize. rewrite (uwrap_small 32 (_ + _)) by (unfold in_u; lia). cbv zeta.
  assert (length (hdr b t c (l ++ [255])) = (11 + length l)%nat) as Hl.
  { pose proof (length_hdr b t c (l ++ [255])) as Hh. rewrite length_app in Hh. cbn [length] in Hh. lia. }
  unfold mresize. rewrite Hl. rewrite take_ge by lia.
  set (new := fill <$> _). assert (length new = k) as Hnew by (unfold new; rewrite length_fmap, length_seq; lia).
  clearbody new. rewrite <- hdr_app, <- app_assoc, set_bytes. bsimpl.
  rewrite uwrap_small by (unfold in_u; lia). set (B := 11 + zlen l + Z.of_nat k) in *.
  assert (exists junk x, [255] ++ new = junk ++ [x] /\ length junk = k /\ ((0 < k)%nat -> head junk = Some 255))
    as (junk & x & Hj & Hlj & Hhj).
  { destruct new as [|y new _] using rev_ind; [by exists [], 255; split_and!; [|simpl in *|simpl in *; lia]|].
    exists (255 :: new), y. rewrite length_app in Hnew. simpl in *. split_and!; [done|lia|done]. }
  exists junk. split_and!; [|done|done].
  rewrite (mwrite_eq _ (hdr B t c (l ++ junk)) [x] []); [by rewrite <- hdr_app, <- app_assoc| |..].
  - by rewrite <- hdr_app, app_nil_r, Hj, <- app_assoc.
  - rewrite length_hdr, length_app. unfold B. lia.
  - done.
Qed.

(** Shrinking it. *)
Lemma resize_shrink fill b t c l1 l2 : 0 <= 11 + zlen l1 < 2 ^ 32 ->
  l2 <> [] -> ziplistResize fill (hdr b t c (l1 ++ l2)) (11 + zlen l1) = Some (hdr (11 + zlen l1) t c (l1 ++ [255])).
Proof.
  intros Hn Hl2. destruct l2 as [|x l2]; [done|]. unfold ziplistResize. rewrite (uwrap_small 32 (_ + _)) by (unfold in_u; lia). cbv zeta.
  assert (length (hdr b t c (l1 ++ [x])) = (11 + length l1)%nat) as Hl.
  { pose proof (length_hdr b t c (l1 ++ [x])) as Hh. rewrite length_app in Hh. cbn [length] in Hh. lia. }
  unfold mresize. replace (l1 ++ x :: l2) with ((l1 ++ [x]) ++ l2) by (by rewrite <- app_assoc).
  rewrite hdr_app, length_app, take_app_le by lia. rewrite take_ge by lia.
  replace (Z.to_nat (11 + zlen l1) - (length (hdr b t c (l1 ++ [x])) + length l2))%nat with 0%nat by lia.
  cbn [seq fmap list_fmap]. rewrite app_nil_r, set_bytes. bsimpl. rewrite uwrap_small by (unfold in_u; lia).
  rewrite (mwrite_eq _ (hdr (11 + zlen l1) t c l1) [x] []); [by rewrite hdr_app| |rewrite length_hdr; lia|done].
  by rewrite app_nil_r, hdr_app.
Qed.

(** Moving bytes towards the end and towards the start of a block. *)
Lemma mmove_right X a M J Y (d sr : Z) (n : nat) :
  sr = zlen X + zlen a -> d = zlen X + zlen a + zlen J -> n = length M ->
  exists G, mmove (X ++ a ++ M ++ J ++ Y) d sr n = Some (X ++ G ++ M ++ Y) /\ length G = (length a + length J)%nat.
Proof.
  intros -> -> ->. unfold mmove. rewrite (mread_eq _ (X ++ a) M (J ++ Y)); [|by rewrite <- app_assoc|rewrite length_app; lia|done].
  bsimpl. set (G := take (length a + length J) (a ++ M ++ J)).
  assert (length G = (length a + length J)%nat) as HG by (unfold G; rewrite length_take, !length_app; lia).
  exists G. split; [|done].
  rewrite (mwrite_eq _ (X ++ G) (drop (length a + length J) (a ++ M ++ J)) Y).
  - by rewrite <- app_assoc.
  - rewrite <- app_assoc. f_equal. trans ((a ++ M ++ J) ++ Y); [by rewrite <- !app_assoc|].
    by rewrite <- (take_drop (length a + length J) (a ++ M ++ J)) at 1; rewrite <- app_assoc.
  - rewrite length_app, HG. lia.
  - rewrite length_drop, !length_app. lia.
Qed.

Lemma mmove_left X a M Y (d sr : Z) (n : nat) :
  sr = zlen X + zlen a -> d = zlen X -> n = length M ->
  exists G, mmove (X ++ a ++ M ++ Y) d sr n = Some (X ++ M ++ G ++ Y) /\ length G = length a.
Proof.
  intros -> -> ->. unfold mmove. rewrite (mread_eq _ (X ++ a) M Y); [|by rewrite <- app_assoc|rewrite length_app; lia|done].
  bsimpl. set (G := drop (length M) (a ++ M)).
  assert (length G = length a) as HG by (unfold G; rewrite length_drop, !length_app; lia).
  exists G. split; [|done]. rewrite (mwrite_eq _ X (take (length M) (a ++ M)) (G ++ Y)); [done| |done|].
  - f_equal. unfold G. by rewrite !app_assoc, take_drop.
  - rewrite length_take, length_app. lia.
Qed.

(** ** The cascading update *)

(** What the update makes of the entries [ns] after one of raw length [r], when
    the first of them says [pv]. *)
Fixpoint fixup (r pv : Z) (ns : list node) : list node :=
  match ns with
  | [] => []
  | n :: ns' =>
      if pv =? r then ns
      else if negb n.1 && needs_big r then (true, n.2) :: fixup (rawlen (true, n.2)) (rawlen n) ns'
      else ns
  end.

Lemma fixup_contents ns : forall r pv, (fixup r pv ns).*2 = ns.*2.
Proof.
  induction ns as [|n ns IH]; intros r pv; cbn [fixup]; [done|]. destruct (pv =? r); [done|].
  destruct (negb n.1 && needs_big r); [|done]. cbn [fmap list_fmap]. by rewrite IH.
Qed.

Lemma fixup_length r pv ns : length (fixup r pv ns) = length ns.
Proof. pose proof (f_equal length (fixup_contents ns r pv)) as H. by rewrite !length_fmap in H. Qed.

Lemma rawlen_grow n : n.1 = false -> rawlen (true, n.2) = rawlen n + 4.
Proof. intros H. unfold rawlen. cbn [fst snd]. rewrite H. cbn [fsize]. lia. Qed.

Lemma fixup_size ns : forall r pv, size ns <= size (fixup r pv ns) <= size ns + 4 * zlen ns.
Proof.
  induction ns as [|n ns IH]; intros r pv; cbn [fixup]; [done|].
  destruct (pv =? r); [cbn [length]; lia|].
  destruct (negb n.1 && needs_big r) eqn:Hg; [|cbn [length]; lia].
  apply andb_prop in Hg as [Hn%negb_true_iff _]. rewrite !size_cons, rawlen_grow by done.
  specialize (IH (rawlen n + 4) (rawlen n)). cbn [length]. lia.
Qed.

(** The fields are right afterwards. *)
Lemma fixup_wf ns : forall r pv, 0 <= r < 2 ^ 32 -> size ns + 4 * zlen ns < 2 ^ 32 -> wf pv ns -> wf r (fixup r pv ns).
Proof.
  induction ns as [|n ns IH]; intros r pv Hr Hsz Hw; cbn [fixup]; [done|]. destruct Hw as [[Hpv Hf] Hw].
  destruct (Z.eqb_spec pv r) as [->|Hne]; [done|]. pose proof (rawlen_min n). rewrite size_cons in Hsz.
  pose proof (size_nonneg ns). cbn [length] in Hsz.
  destruct (negb n.1 && needs_big r) eqn:Hg; cbn [wf fst].
  - apply andb_prop in Hg as [Hn%negb_true_iff _]. split; [by split|]. rewrite rawlen_grow by done.
    apply IH; [lia|lia|done].
  - split; [|done]. split; [done|]. intros Hn. rewrite Hn in Hg. cbn [negb andb] in Hg.
    apply Z.leb_gt in Hg. lia.
Qed.

Lemma zipEntry_at zl pre post big pv s p :
  zl = pre ++ field big pv ++ body s ++ post -> p = zlen pre -> field_ok big pv -> rawlen (big, s) < 2 ^ 32 ->
  zipEntry zl p = Some (mkEntry (fsize big) pv (zlen (header_of s)) (zlen (data_of s))
    (fsize big + zlen (header_of s)) (enc_of s) p).
Proof. intros -> Hp Hf Hr. by apply zipEntry_spec. Qed.

Lemma is_end_at zl pre post big pv p :
  zl = pre ++ field big pv ++ post -> p = zlen pre -> field_ok big pv -> is_end zl p = Some false.
Proof. intros ->. apply is_end_field. Qed.

Lemma is_end_mark zl pre post p : zl = pre ++ 255 :: post -> p = zlen pre -> is_end zl p = Some true.
Proof. intros ->. apply is_end_last. Qed.

Lemma raw_length_at zl pre post big pv s p :
  zl = pre ++ field big pv ++ body s ++ post -> p = zlen pre -> field_ok big pv -> rawlen (big, s) < 2 ^ 32 ->
  zipRawEntryLength zl p = Some (rawlen (big, s)).
Proof. intros -> Hp Hf Hr. by apply raw_length_spec. Qed.

Lemma entry_raw big s : fsize big + zlen (header_of s) + zlen (data_of s) = rawlen (big, s).
Proof. unfold rawlen. cbn [fst snd]. rewrite body_length. lia. Qed.

Lemma entry_bytes big pv s : zlen (field big pv ++ body s) = rawlen (big, s).
Proof. rewrite length_app, Nat2Z.inj_add, length_field. done. Qed.

Section cascade.
Context (fill : nat -> Z) (c : Z).

(** The block around an entry [n], whose first field is [pn], and what follows. *)
Definition around (A : list Z) (n : node) (pn r : Z) (ns : list node) : list Z :=
  hdr (11 + zlen A + rawlen n + size ns) (tailpos (10 + zlen A) (n :: ns)) c
    (A ++ field n.1 pn ++ body n.2 ++ ser r ns ++ [255]).

Lemma around_shift A n pn m r ns :
  around A n pn r (m :: ns) = around (A ++ field n.1 pn ++ body n.2) m r (rawlen m) ns.
Proof.
  unfold around. rewrite length_app, Nat2Z.inj_add, entry_bytes, size_cons, tailpos_cons by done.
  destruct n as [bn sn]. cbn [fst snd ser]. f_equal; [lia|f_equal; lia|by rewrite <- !app_assoc].
Qed.

Lemma around_split A n pn r ns :
  around A n pn r ns = hdr (11 + zlen A + rawlen n + size ns) (tailpos (10 + zlen A) (n :: ns)) c A ++
    field n.1 pn ++ body n.2 ++ ser r ns ++ [255].
Proof. unfold around. by rewrite hdr_app. Qed.

Lemma around_not_end A n pn r ns : field_ok n.1 pn -> is_end (around A n pn r ns) (10 + zlen A) = Some false.
Proof. intros Hf. eapply is_end_at; [apply around_split|by rewrite length_hdr|done]. Qed.

Lemma around_end A n pn r : is_end (around A n pn r []) (10 + zlen A + rawlen n) = Some true.
Proof.
  unfold around. cbn [ser app]. rewrite !app_assoc, hdr_app. eapply is_end_mark; [done|].
  rewrite length_hdr, <- app_assoc, length_app, Nat2Z.inj_add, entry_bytes. destruct n. cbn [fst snd]. lia.
Qed.

Lemma around_entry A n pn r ns : field_ok n.1 pn -> rawlen n < 2 ^ 32 ->
  zipEntry (around A n pn r ns) (10 + zlen A) = Some (mkEntry (fsize n.1) pn (zlen (header_of n.2)) (zlen (data_of n.2))
    (fsize n.1 + zlen (header_of n.2)) (enc_of n.2) (10 + zlen A)).
Proof.
  intros Hf Hr. eapply zipEntry_at; [apply around_split|by rewrite length_hdr|done|by destruct n].
Qed.

(** The position of the entry after [n]. *)
Lemma next_pos A n pn : 10 + zlen A + rawlen n = 10 + zlen (A ++ field n.1 pn ++ body n.2).
Proof. rewrite length_app, Nat2Z.inj_add, entry_bytes. destruct n. cbn [fst snd]. lia. Qed.

Lemma around_next_not_end A n pn r m ns : field_ok m.1 r ->
  is_end (around A n pn r (m :: ns)) (10 + zlen A + rawlen n) = Some false.
Proof. intros Hf. rewrite (next_pos A n pn), around_shift. by apply around_not_end. Qed.

Lemma around_next_entry A n pn r m ns : field_ok m.1 r -> rawlen m < 2 ^ 32 ->
  zipEntry (around A n pn r (m :: ns)) (10 + zlen A + rawlen n) =
    Some (mkEntry (fsize m.1) r (zlen (header_of m.2)) (zlen (data_of m.2))
      (fsize m.1 + zlen (header_of m.2)) (enc_of m.2) (10 + zlen A + rawlen n)).
Proof. intros Hf Hr. rewrite (next_pos A n pn), around_shift. by apply around_entry. Qed.

(** One field that does not grow. *)
Lemma store_next A n pn pv r m ns : negb m.1 && needs_big r = false ->
  ('(zl, _) ← (if fsize m.1 >? fsize (needs_big r)
               then zipStorePrevEntryLengthLarge (around A n pn pv (m :: ns)) (10 + zlen A + rawlen n) r
               else zipStorePrevEntryLength (around A n pn pv (m :: ns)) (Some (10 + zlen A + rawlen n)) r);
   Some zl) = Some (around A n pn r (m :: ns)).
Proof.
  intros Hg. rewrite !around_shift, (next_pos A n pn). generalize (A ++ field n.1 pn ++ body n.2). intros A'.
  rewrite !around_split. set (P := hdr _ _ c A'). assert (10 + zlen A' = zlen P) as Hp by (unfold P; by rewrite length_hdr).
  clearbody P. pose proof (store_over P (field m.1 pv) r (body m.2 ++ ser (rawlen m) ns ++ [255]) _ Hp) as Hst.
  rewrite length_field in Hst. destruct m as [[] s]; cbn [fst snd negb andb] in *.
  - destruct (needs_big r) eqn:Hb; cbn [fsize Z.gtb Z.compare Pos.compare Pos.compare_cont].
    + by rewrite Hst.
    + by rewrite store_large_over.
  - rewrite Hg in *. cbn [fsize Z.gtb Z.compare Pos.compare Pos.compare_cont]. by rewrite Hst.
Qed.

(** The offset of the tail when the first field of an entry grows. *)
Lemma tail_grow base n ns : n.1 = false ->
  tailpos base ((true, n.2) :: ns) =
    if negb (tailpos base (n :: ns) =? base) then tailpos base (n :: ns) + 4 else tailpos base (n :: ns).
Proof.
  intros Hn. destruct ns as [|m ns]; [cbn [tailpos]; by rewrite Z.eqb_refl|].
  rewrite (tailpos_cons base (true, n.2)), (tailpos_cons base n) by done.
  pose proof (tailpos_bounds (m :: ns) (base + rawlen n)). pose proof (rawlen_min n).
  rewrite (proj2 (Z.eqb_neq _ _)) by lia. cbn [negb]. rewrite rawlen_grow by done. rewrite <- tailpos_shift. f_equal. lia.
Qed.

(** One that does. *)
Lemma grow_next A n pn pv r s ns : needs_big r = true ->
  let B := 11 + zlen A + rawlen n + size ((false, s) :: ns) in
  let np := 10 + zlen A + rawlen n in
  B + 4 < 2 ^ 32 ->
  (zl ← ziplistResize fill (around A n pn pv ((false, s) :: ns)) (B + 4);
   tail ← ZIPLIST_TAIL_OFFSET zl;
   zl ← (if negb (tail =? np) then set_ZIPLIST_TAIL_OFFSET zl (tail + 4) else Some zl);
   zl ← mmove zl (np + 5) (np + 1) (Z.to_nat (u64 (B - np - 1 - 1)));
   '(zl, _) ← zipStorePrevEntryLength zl (Some np) r;
   Some zl) = Some (around (A ++ field n.1 pn ++ body n.2) (true, s) r (rawlen (false, s)) ns).
Proof.
  intros Hb B np HB. unfold B, np in *. clear B np. rewrite around_shift, (next_pos A n pn).
  replace (11 + zlen A + rawlen n) with (11 + zlen (A ++ field n.1 pn ++ body n.2)) in * by (pose proof (next_pos A n pn); lia).
  generalize dependent (A ++ field n.1 pn ++ body n.2). intros A' HB. rewrite size_cons in *.
  unfold around. cbn [fst snd]. set (R := rawlen (false, s)) in *.
  assert (zlen (field false pv ++ body s ++ ser R ns) = R + size ns) as Hlr.
  { rewrite app_assoc, length_app, Nat2Z.inj_add, entry_bytes, length_ser. done. }
  pose proof (size_nonneg ns). pose proof (rawlen_min (false, s)) as HR. fold R in HR.
  destruct (resize_grow fill (11 + zlen A' + R + size ns) (tailpos (10 + zlen A') ((false, s) :: ns)) c
    (A' ++ field false pv ++ body s ++ ser R ns) 4) as (junk & Hrs & Hlj & _).
  { rewrite length_app. lia. }
  replace (11 + zlen (A' ++ field false pv ++ body s ++ ser R ns) + Z.of_nat 4) with (11 + zlen A' + (R + size ns) + 4) in Hrs
    by (rewrite length_app; lia).
  rewrite <- !app_assoc in Hrs. rewrite Hrs. bsimpl.
  pose proof (tailpos_bounds ((false, s) :: ns) (10 + zlen A')) as Htb. rewrite size_cons in Htb. fold R in Htb.
  rewrite get_tail by lia. bsimpl.
  set (t := tailpos (10 + zlen A') ((false, s) :: ns)) in *. set (B := 11 + zlen A' + (R + size ns) + 4).
  assert ((if negb (t =? 10 + zlen A') then set_ZIPLIST_TAIL_OFFSET (hdr B t c (A' ++ field false pv ++ body s ++ ser R ns ++ junk ++ [255])) (t + 4)
    else Some (hdr B t c (A' ++ field false pv ++ body s ++ ser R ns ++ junk ++ [255]))) =
    Some (hdr B (tailpos (10 + zlen A') ((true, s) :: ns)) c (A' ++ field false pv ++ body s ++ ser R ns ++ junk ++ [255]))) as ->.
  { unfold t. rewrite (tail_grow (10 + zlen A') (false, s)) by done. destruct (negb _); [|done]. by rewrite set_tail. }
  bsimpl. set (t' := tailpos _ _).
  assert (length (body s ++ ser R ns) = Z.to_nat (R + size ns - 1)) as Hlm by (cbn [field app length] in Hlr; lia).
  destruct (mmove_right (hdr B t' c A') (field false pv) (body s ++ ser R ns) junk [255]
    (10 + zlen A' + 5) (10 + zlen A' + 1) (Z.to_nat (u64 (11 + zlen A' + (R + size ns) - (10 + zlen A') - 1 - 1))))
    as (G & HG & HlG).
  { rewrite length_hdr. done. }
  { rewrite length_hdr. cbn [field length]. lia. }
  { rewrite Hlm. rewrite uwrap_small by (unfold in_u; lia). lia. }
  rewrite <- hdr_app, <- app_assoc in HG. rewrite HG. bsimpl.
  rewrite store_over by (rewrite ?length_hdr, ?Hb; cbn [field length fsize] in *; lia || done). bsimpl. rewrite Hb.
  rewrite <- hdr_app, <- app_assoc. f_equal. f_equal.
  pose proof (rawlen_grow (false, s) eq_refl) as Hg. cbn [snd] in Hg. fold R in Hg. unfold B. lia.
Qed.

Lemma cascade_spec ns : forall fuel A n pn pv,
  (length ns < fuel)%nat -> field_ok n.1 pn -> wf pv ns ->
  11 + zlen A + rawlen n + size ns + 4 * zlen ns < 2 ^ 32 ->
  cascade_loop fill fuel (around A n pn pv ns) (10 + zlen A) (11 + zlen A + rawlen n + size ns) =
    Some (around A n pn (rawlen n) (fixup (rawlen n) pv ns)).
Proof.
  induction ns as [|m ns IH]; intros fuel A n pn pv Hfuel Hn Hw HB; (destruct fuel as [|fuel]; [simpl in Hfuel; lia|]);
    pose proof (rawlen_min n); cbn [cascade_loop].
  - change (size []) with 0 in HB. cbn [length] in HB.
    rewrite around_not_end by done. bsimpl. rewrite around_entry by (done || lia). bsimpl. cbn [headersize len].
    rewrite entry_raw, <- surjective_pairing, uwrap_small by (unfold in_u; lia).
    rewrite store_size. bsimpl. by rewrite around_end.
  - destruct Hw as [Hm Hw]. pose proof (size_nonneg ns). pose proof (rawlen_min m). rewrite size_cons in HB. cbn [length] in HB, Hfuel.
    rewrite around_not_end by done. bsimpl. rewrite around_entry by (done || lia). bsimpl. cbn [headersize len].
    rewrite entry_raw, <- surjective_pairing, uwrap_small by (unfold in_u; lia).
    rewrite store_size. bsimpl. rewrite around_next_not_end by done. bsimpl.
    rewrite around_next_entry by (done || lia). bsimpl. cbn [prevrawlen prevrawlensize fixup].
    destruct (Z.eqb_spec pv (rawlen n)) as [->|Hne]; [done|].
    destruct (negb m.1 && needs_big (rawlen n)) eqn:Hg.
    + destruct m as [[] s]; [done|]. cbn [fst snd negb andb] in *. rewrite Hg. cbn [fsize Z.ltb Z.compare Pos.compare Pos.compare_cont Z.sub Z.opp Z.add Z.pos_sub].
      pose proof (grow_next A n pn pv (rawlen n) s ns Hg) as Hgr. cbv zeta in Hgr. rewrite size_cons in Hgr |- *.
      specialize (Hgr ltac:(lia)).
      destruct (ziplistResize _ _ _) as [z1|]; [|done]. bsimpl in Hgr. bsimpl.
      destruct (ZIPLIST_TAIL_OFFSET z1) as [tl|]; [|done]. bsimpl in Hgr. bsimpl.
      destruct (if negb _ then _ else _) as [z2|]; [|done]. bsimpl in Hgr. bsimpl.
      destruct (mmove _ _ _ _) as [z3|]; [|done]. bsimpl in Hgr. bsimpl.
      destruct (zipStorePrevEntryLength z3 _ _) as [[z4 w]|]; [|done]. bsimpl in Hgr. bsimpl.
      injection Hgr as ->. rewrite (around_shift A n pn (true, s)).
      pose proof (rawlen_grow (false, s) eq_refl) as Hrg. cbn [snd] in Hrg.
      rewrite <- (IH fuel (A ++ field n.1 pn ++ body n.2) (true, s) (rawlen n) (rawlen (false, s)));
        [|lia|split; [lia|done]|done|pose proof (next_pos A n pn); lia].
      f_equal; pose proof (next_pos A n pn); lia.
    + replace (fsize m.1 <? fsize (needs_big (rawlen n))) with false.
      * by apply store_next.
      * destruct m as [[] s]; cbn [fst negb andb] in *; [by destruct (needs_big _)|by rewrite Hg].
Qed.

Lemma cascade_update_spec A n pn pv ns : field_ok n.1 pn -> wf pv ns ->
  11 + zlen A + rawlen n + size ns + 4 * zlen ns < 2 ^ 32 ->
  __ziplistCascadeUpdate fill (around A n pn pv ns) (10 + zlen A) =
    Some (around A n pn (rawlen n) (fixup (rawlen n) pv ns)).
Proof.
  intros Hn Hw HB. unfold __ziplistCascadeUpdate. pose proof (rawlen_min n). pose proof (size_nonneg ns).
  assert (ZIPLIST_BYTES (around A n pn pv ns) = Some (11 + zlen A + rawlen n + size ns)) as ->
    by (unfold around; by rewrite get_bytes by lia).
  bsimpl. apply cascade_spec; try done.
  unfold around. pose proof (length_hdr (11 + zlen A + rawlen n + size ns) (tailpos (10 + zlen A) (n :: ns)) c
    (A ++ field n.1 pn ++ body n.2 ++ ser pv ns ++ [255])) as Hl. rewrite !length_app in Hl.
  pose proof (length_ser ns pv). lia.
Qed.

End cascade.

(** ** Lists *)

(** The count in the header is exact until it sticks at its maximum. *)
Definition count_ok (c : Z) (ns : list node) : Prop := 0 <= c <= 65535 /\ (c = 65535 \/ c = zlen ns).
Definition bump (c k : Z) : Z := if c <? 65535 then c + k else c.

Lemma incr_length_spec b t c l k : 0 <= c <= 65535 ->
  ZIPLIST_INCR_LENGTH (hdr b t c l) k = Some (hdr b t (bump c k) l).
Proof.
  intros Hc. unfold ZIPLIST_INCR_LENGTH, bump. rewrite get_length by lia. bsimpl.
  destruct (c <? 65535); [by rewrite set_length|done].
Qed.

Lemma bump_ok c ns ns' : count_ok c ns -> zlen ns' <= zlen ns + 1 -> count_ok (bump c (zlen ns' - zlen ns)) ns'.
Proof.
  intros [Hc Hk] Hl. unfold bump, count_ok. destruct (Z.ltb_spec c 65535); lia.
Qed.

(** The block [zl] holds the entries [ns]. *)
Record holds (zl : list Z) (ns : list node) (c : Z) : Prop := mkHolds {
  h_zl : zl = hdr (11 + size ns) (tailpos 10 ns) c (ser 0 ns ++ [255]);
  h_wf : wf 0 ns;
  h_size : 11 + size ns < 2 ^ 32;
  h_count : count_ok c ns }.

(** Room for the fields to grow, and for [k] bytes more. *)
Definition roomy (ns : list node) (k : Z) : Prop := 11 + size ns + 4 * zlen ns + k < 2 ^ 32.

(** The block seen from one of its entries. *)
Lemma focus a n b c :
  hdr (11 + size (a ++ n :: b)) (tailpos 10 (a ++ n :: b)) c (ser 0 (a ++ n :: b) ++ [255]) =
    around c (ser 0 a) n (last_raw 0 a) (rawlen n) b.
Proof.
  unfold around. rewrite size_app, size_cons, tailpos_app, ser_app, length_ser by done. cbn [ser].
  rewrite <- !app_assoc. f_equal. lia.
Qed.

Lemma holds_around a n b c : wf 0 (a ++ n :: b) -> 11 + size (a ++ n :: b) < 2 ^ 32 -> count_ok c (a ++ n :: b) ->
  holds (around c (ser 0 a) n (last_raw 0 a) (rawlen n) b) (a ++ n :: b) c.
Proof. intros Hw Hs Hc. split; [by rewrite focus|done..]. Qed.

Lemma holds_focus zl a n b c : holds zl (a ++ n :: b) c ->
  zl = around c (ser 0 a) n (last_raw 0 a) (rawlen n) b /\ field_ok n.1 (last_raw 0 a) /\ wf (rawlen n) b /\
  rawlen n < 2 ^ 32.
Proof.
  intros [-> Hw Hs _]. rewrite focus. apply wf_app in Hw as [_ [Hf Hw]]. rewrite size_app, size_cons in Hs.
  pose proof (size_nonneg a). pose proof (size_nonneg b). split_and!; [done..|lia].
Qed.

(** The block seen from its end. *)
Lemma holds_end zl ns c : holds zl ns c -> is_end zl (10 + size ns) = Some true.
Proof.
  intros [-> Hw Hs _]. rewrite hdr_app. eapply is_end_mark; [done|]. by rewrite length_hdr, length_ser.
Qed.

Section reading.
Context (zl : list Z) (a : list node) (n : node) (b : list node) (c : Z).
Hypothesis Hh : holds zl (a ++ n :: b) c.

Lemma zl_split : zl = hdr (11 + zlen (ser 0 a) + rawlen n + size b) (tailpos (10 + zlen (ser 0 a)) (n :: b)) c (ser 0 a) ++
  field n.1 (last_raw 0 a) ++ body n.2 ++ ser (rawlen n) b ++ [255].
Proof using Hh. destruct (holds_focus _ _ _ _ _ Hh) as (-> & _). apply around_split. Qed.

Lemma pos_split t : 10 + size a = zlen (hdr (11 + zlen (ser 0 a) + rawlen n + size b) t c (ser 0 a)).
Proof using Type. by rewrite length_hdr, length_ser. Qed.

Lemma holds_not_end : is_end zl (10 + size a) = Some false.
Proof using Hh.
  destruct (holds_focus _ _ _ _ _ Hh) as (-> & Hf & _). rewrite <- (length_ser a 0). by apply around_not_end.
Qed.

Lemma holds_raw : zipRawEntryLength zl (10 + size a) = Some (rawlen n).
Proof using Hh.
  destruct (holds_focus _ _ _ _ _ Hh) as (_ & Hf & _ & Hr). rewrite (surjective_pairing n).
  eapply raw_length_at; [apply zl_split|apply pos_split|done|by destruct n].
Qed.

Lemma holds_entry : zipEntry zl (10 + size a) =
  Some (mkEntry (fsize n.1) (last_raw 0 a) (zlen (header_of n.2)) (zlen (data_of n.2))
    (fsize n.1 + zlen (header_of n.2)) (enc_of n.2) (10 + size a)).
Proof using Hh.
  destruct (holds_focus _ _ _ _ _ Hh) as (-> & Hf & _ & Hr). rewrite <- (length_ser a 0). by apply around_entry.
Qed.

Lemma holds_prevlen : ZIP_DECODE_PREVLEN zl (10 + size a) = Some (fsize n.1, last_raw 0 a).
Proof using Hh.
  destruct (holds_focus _ _ _ _ _ Hh) as (_ & Hf & _ & _). rewrite zl_split. apply prevlen_spec; [apply pos_split|done].
Qed.

Lemma holds_prevlensize : ZIP_DECODE_PREVLENSIZE zl (10 + size a) = Some (fsize n.1).
Proof using Hh.
  destruct (holds_focus _ _ _ _ _ Hh) as (_ & Hf & _ & _). rewrite zl_split. apply prevlensize_spec; [apply pos_split|done].
Qed.

Lemma holds_decode : ZIP_DECODE_LENGTH zl (10 + size a + fsize n.1) =
  Some (enc_of n.2, zlen (header_of n.2), zlen (data_of n.2)).
Proof using Hh.
  destruct (holds_focus _ _ _ _ _ Hh) as (_ & Hf & _ & Hr). rewrite zl_split.
  apply decode_body_spec; [by destruct n|]. by rewrite <- pos_split.
Qed.

Lemma holds_diff len : zipPrevLenByteDiff zl (10 + size a) len = Some (fsize (needs_big len) - fsize n.1).
Proof using Hh.
  destruct (holds_focus _ _ _ _ _ Hh) as (_ & Hf & _ & _). rewrite zl_split. apply prevlen_diff_spec; [apply pos_split|done].
Qed.

(** The element's data. *)
Lemma holds_data : zl = (hdr (11 + zlen (ser 0 a) + rawlen n + size b) (tailpos (10 + zlen (ser 0 a)) (n :: b)) c (ser 0 a) ++
  field n.1 (last_raw 0 a) ++ header_of n.2) ++ data_of n.2 ++ ser (rawlen n) b ++ [255].
Proof using Hh. rewrite zl_split at 1. unfold body. by rewrite <- !app_assoc. Qed.

Lemma data_pos t : 10 + size a + (fsize n.1 + zlen (header_of n.2)) =
  zlen (hdr (11 + zlen (ser 0 a) + rawlen n + size b) t c (ser 0 a) ++ field n.1 (last_raw 0 a) ++ header_of n.2).
Proof using Type. rewrite !length_app, !Nat2Z.inj_add, <- pos_split, length_field. lia. Qed.

Lemma holds_size_le : size a + rawlen n + size b + 11 = zlen zl.
Proof using Hh.
  destruct Hh as [-> _ _ _]. rewrite length_hdr, length_app, Nat2Z.inj_add, length_ser, size_app, size_cons. cbn [length]. lia.
Qed.
End reading.

Lemma holds_length zl ns c : holds zl ns c -> zlen zl = 11 + size ns.
Proof. intros [-> _ _ _]. rewrite length_hdr, length_app, Nat2Z.inj_add, length_ser. cbn [length]. lia. Qed.

(** The fuel [S (length zl)] is enough for one round per entry. *)
Lemma holds_fuel zl ns c : holds zl ns c -> (length ns < S (length zl))%nat.
Proof. intros Hh%holds_length. pose proof (size_nonneg ns). lia. Qed.

Lemma app_one {A} (a : list A) x b : a ++ x :: b = (a ++ [x]) ++ b.
Proof. by rewrite <- app_assoc. Qed.

Lemma size_snoc a n : size (a ++ [n]) = size a + rawlen n.
Proof. rewrite size_app, size_cons. change (size []) with 0. lia. Qed.

Lemma skip_spec zl c b : forall a fuel i num, holds zl (a ++ b) c -> (length b < fuel)%nat -> 0 <= i <= num ->
  skip_entries fuel zl (10 + size a) i num =
    Some (10 + size (a ++ take (Z.to_nat (num - i)) b), i + zlen (take (Z.to_nat (num - i)) b)).
Proof.
  induction b as [|n b IH]; intros a fuel i num Hh Hfuel Hi; (destruct fuel as [|fuel]; [simpl in Hfuel; lia|]); cbn [skip_entries].
  - rewrite app_nil_r in Hh. rewrite (holds_end _ _ _ Hh). bsimpl. cbn [negb andb].
    rewrite take_nil, app_nil_r. cbn [length]. by rewrite Z.add_0_r.
  - rewrite (holds_not_end _ _ _ _ _ Hh). bsimpl. cbn [negb andb]. destruct (Z.ltb_spec i num).
    + rewrite (holds_raw _ _ _ _ _ Hh). bsimpl. rewrite <- Z.add_assoc, <- size_snoc.
      rewrite app_one in Hh. cbn [length] in Hfuel. rewrite (IH _ fuel (i + 1) num Hh) by lia.
      replace (Z.to_nat (num - i)) with (S (Z.to_nat (num - (i + 1)))) by lia. cbn [take].
      rewrite <- app_assoc. cbn [app length]. do 2 f_equal. lia.
    + replace (Z.to_nat (num - i)) with 0%nat by lia. cbn [take length]. by rewrite app_nil_r, Z.add_0_r.
Qed.

End ZiplistFacts.
