(* ===== verification/ZiplistOps.v ===== *)
(** The operations of [Ziplist] that change a list: deletion, insertion and
    merging, each shown to keep the layout of [ZiplistFacts] and to act on the
    elements as on a list. *)

From S2P Require Import Prelude UtilNum Ziplist ZiplistFacts.

#[local] Open Scope Z_scope.

Module ZiplistOps.
Import UtilNum Ziplist ZiplistFacts.
#[local] Notation zlen l := (Z.of_nat (length l)) (only parsing).

Section ops.
Context (fill : nat -> Z).

(** ** Deleting *)

(** The entries [b] after the raw length before them has become [q]. *)
Definition reprev (q : Z) (b : list node) : list node :=
  match b with
  | [] => []
  | m :: b => (needs_big q, m.2) :: fixup (rawlen (needs_big q, m.2)) (rawlen m) b
  end.

Lemma reprev_contents q b : (reprev q b).*2 = b.*2.
Proof. destruct b as [|m b]; [done|]. cbn [reprev fmap list_fmap snd]. by rewrite fixup_contents. Qed.

Lemma rawlen_field big m : rawlen (big, m.2) = rawlen m + (fsize big - fsize m.1).
Proof. unfold rawlen. cbn [fst snd]. lia. Qed.

Lemma fixup_same r ns : fixup r r ns = ns.
Proof. destruct ns; [done|]. cbn [fixup]. by rewrite Z.eqb_refl. Qed.

(** Rewriting the first field of [m], with the cascade if its size changes. *)
Lemma cascade_if c A m big q b : field_ok big q -> wf (rawlen m) b ->
  11 + zlen A + rawlen (big, m.2) + size b + 4 * zlen b < 2 ^ 32 ->
  (if negb (fsize big - fsize m.1 =? 0)
   then __ziplistCascadeUpdate fill (around c A (big, m.2) q (rawlen m) b) (10 + zlen A)
   else Some (around c A (big, m.2) q (rawlen m) b)) =
  Some (around c A (big, m.2) q (rawlen (big, m.2)) (fixup (rawlen (big, m.2)) (rawlen m) b)).
Proof.
  intros Hf Hw HB. destruct (Z.eqb_spec (fsize big - fsize m.1) 0) as [H0|H0]; cbn [negb].
  - rewrite rawlen_field, H0, Z.add_0_r. by rewrite fixup_same.
  - by apply cascade_update_spec.
Qed.

(** The tail offset when the entries [d] before [m] go and its field changes. *)
Lemma tail_delete base (m : node) big b k :
  tailpos base ((big, m.2) :: b) =
    tailpos (base + k) (m :: b) - k + (if bool_decide (b = []) then 0 else fsize big - fsize m.1).
Proof.
  case_bool_decide as Hb.
  - subst b. cbn [tailpos]. lia.
  - rewrite (tailpos_cons base), (tailpos_cons (base + k)), rawlen_field by done.
    rewrite Z.add_assoc, (tailpos_shift b (fsize big - fsize m.1)).
    replace (base + k + rawlen m) with (base + rawlen m + k) by lia. rewrite (tailpos_shift b k). lia.
Qed.

(** The store in [__ziplistDelete]: the field of [m], and before it the last
    bytes of the deleted entries [d]. *)
Lemma store_before q d pm (m : node) rest : d <> [] -> wf q d -> 0 <= q < 2 ^ 32 ->
  exists D old, ser q d ++ field m.1 pm ++ rest = D ++ old ++ rest /\
    zlen old = fsize (needs_big q) /\ zlen D = size d - (fsize (needs_big q) - fsize m.1).
Proof.
  intros Hd Hw Hq. destruct d as [|n d]; [done|]. destruct Hw as [[_ Hn] _].
  assert (fsize (needs_big q) <= rawlen n + fsize m.1) as Hle.
  { pose proof (rawlen_min n) as Hr. pose proof (fsize_bounds m.1). destruct (needs_big q) eqn:Hb; cbn [fsize]; [|lia].
    unfold needs_big in Hb. apply Z.leb_le in Hb. destruct n as [[] s]; cbn [fst] in Hn; [|specialize (Hn eq_refl); lia].
    unfold rawlen in *. cbn [fst fsize] in *. lia. }
  pose proof (length_ser (n :: d) q) as Hl. pose proof (size_nonneg d). rewrite size_cons in *. pose proof (fsize_bounds m.1).
  pose proof (fsize_bounds (needs_big q)).
  set (X := ser q (n :: d) ++ field m.1 pm). set (k := Z.to_nat (zlen X - fsize (needs_big q))).
  assert (zlen X = rawlen n + size d + fsize m.1) as HX by (unfold X; rewrite length_app, Nat2Z.inj_add, length_field; lia).
  exists (take k X), (drop k X). rewrite app_assoc. fold X. split_and!.
  - by rewrite app_assoc, take_drop.
  - rewrite length_drop. lia.
  - rewrite length_take. lia.
Qed.

(** From the store of the field to the move of the entries kept. *)
Lemma delete_move A D old q (m : node) b c t totlen nextdiff p :
  let B := 11 + zlen A + zlen D + rawlen (needs_big q, m.2) + size b in
  zlen old = fsize (needs_big q) -> 0 <= q < 2 ^ 32 -> wf (rawlen m) b -> B < 2 ^ 32 ->
  p = 10 + zlen A + zlen D -> 0 <= t < 2 ^ 32 -> 0 <= t - totlen < 2 ^ 32 ->
  exists G, length G = length D /\
  ('(zl, _) ← zipStorePrevEntryLength (hdr B t c (A ++ D ++ old ++ body m.2 ++ ser (rawlen m) b ++ [255])) (Some p) q;
   tail_offset ← ZIPLIST_TAIL_OFFSET zl;
   zl ← set_ZIPLIST_TAIL_OFFSET zl (tail_offset - totlen);
   tail ← zipEntry zl p;
   e ← is_end zl (p + u32 (headersize tail + len tail));
   zl ← (if negb e
         then t ← ZIPLIST_TAIL_OFFSET zl; set_ZIPLIST_TAIL_OFFSET zl (t + nextdiff)
         else Some zl);
   bytes ← ZIPLIST_BYTES zl;
   zl ← mmove zl (10 + zlen A) p (Z.to_nat (u64 (bytes - p - 1)));
   Some (zl, nextdiff)) =
  Some (hdr B (t - totlen + (if bool_decide (b = []) then 0 else nextdiff)) c
    (A ++ (field (needs_big q) q ++ body m.2 ++ ser (rawlen m) b) ++ G ++ [255]), nextdiff).
Proof.
  intros B Hold Hq Hw HB -> Ht Htt. set (n := (needs_big q, m.2)). pose proof (size_nonneg b). pose proof (rawlen_min n) as Hn.
  assert (B = 11 + zlen A + zlen D + rawlen n + size b) as HBe by done. clearbody B.
  assert (field_ok (needs_big q) q) as Hf by (by apply field_needs_big).
  assert (forall x, hdr B x c (A ++ D ++ field (needs_big q) q ++ body m.2 ++ ser (rawlen m) b ++ [255]) =
    hdr B x c (A ++ D) ++ field n.1 q ++ body n.2 ++ ser (rawlen m) b ++ [255]) as Hz.
  { intros x. rewrite <- hdr_app. by rewrite <- app_assoc. }
  assert (forall x, 10 + zlen A + zlen D = zlen (hdr B x c (A ++ D))) as Hp by (intros x; rewrite length_hdr, length_app; lia).
  rewrite (app_assoc A D), hdr_app, store_over by done. bsimpl. rewrite <- hdr_app, <- app_assoc, get_tail by done. bsimpl.
  rewrite set_tail. bsimpl. rewrite Hz. rewrite (zipEntry_at _ _ _ n.1 q n.2 _ eq_refl (Hp _)) by (done || (rewrite <- surjective_pairing; lia)).
  bsimpl. cbn [headersize len]. rewrite entry_raw, <- surjective_pairing, uwrap_small by (unfold in_u; lia).
  set (t1 := t - totlen) in *.
  assert (is_end (hdr B t1 c (A ++ D) ++ field n.1 q ++ body n.2 ++ ser (rawlen m) b ++ [255])
    (10 + zlen A + zlen D + rawlen n) = Some (bool_decide (b = []))) as ->.
  { assert (10 + zlen A + zlen D + rawlen n = zlen (hdr B t1 c (A ++ D) ++ field n.1 q ++ body n.2)) as Hp1.
    { rewrite length_app, Nat2Z.inj_add, <- Hp, entry_bytes. by destruct n. }
    destruct b as [|m' b]; cbn [ser app].
    - eapply is_end_mark; [|done]. by rewrite <- !app_assoc.
    - destruct Hw as [Hm' _]. eapply is_end_at; [|done|apply Hm']. by rewrite <- !app_assoc. }
  bsimpl. rewrite <- Hz.
  assert ((if negb (bool_decide (b = [])) then
      t0 ← ZIPLIST_TAIL_OFFSET (hdr B t1 c (A ++ D ++ field (needs_big q) q ++ body m.2 ++ ser (rawlen m) b ++ [255]));
      set_ZIPLIST_TAIL_OFFSET (hdr B t1 c (A ++ D ++ field (needs_big q) q ++ body m.2 ++ ser (rawlen m) b ++ [255])) (t0 + nextdiff)
    else Some (hdr B t1 c (A ++ D ++ field (needs_big q) q ++ body m.2 ++ ser (rawlen m) b ++ [255]))) =
    Some (hdr B (t1 + (if bool_decide (b = []) then 0 else nextdiff)) c
      (A ++ D ++ field (needs_big q) q ++ body m.2 ++ ser (rawlen m) b ++ [255]))) as ->.
  { destruct (bool_decide (b = [])); cbn [negb]; [by rewrite Z.add_0_r|]. rewrite get_tail by done. bsimpl. by rewrite set_tail. }
  bsimpl. rewrite get_bytes by lia. bsimpl. set (t2 := t1 + _).
  set (M := field (needs_big q) q ++ body m.2 ++ ser (rawlen m) b).
  assert (zlen M = rawlen n + size b) as HM.
  { unfold M. rewrite app_assoc, length_app, Nat2Z.inj_add, length_ser. fold (n.2). rewrite entry_bytes. done. }
  destruct (mmove_left (hdr B t2 c A) D M [255] (10 + zlen A) (10 + zlen A + zlen D)
    (Z.to_nat (u64 (B - (10 + zlen A + zlen D) - 1)))) as (G & HG & HlG).
  { by rewrite length_hdr. }
  { by rewrite length_hdr. }
  { rewrite uwrap_small by (unfold in_u; lia). lia. }
  exists G. split; [done|]. rewrite <- hdr_app in HG. unfold M in HG at 1. rewrite <- !app_assoc in HG. rewrite HG. bsimpl.
  by rewrite <- hdr_app.
Qed.

(** The first steps of a deletion: the entry at the pointer, and the pointer
    after the entries that go. *)
Lemma delete_start zl a d b c num : holds zl (a ++ d ++ b) c -> d <> [] -> num = zlen d \/ b = [] /\ zlen d <= num ->
  exists first, zipEntry zl (10 + size a) = Some first /\ ptr first = 10 + size a /\ prevrawlen first = last_raw 0 a /\
    skip_entries (S (length zl)) zl (10 + size a) 0 num = Some (10 + size (a ++ d), zlen d) /\
    u32 (10 + size (a ++ d) - (10 + size a)) = size d /\ 0 < size d.
Proof.
  intros Hh Hd Hnum. pose proof (size_nonneg d). pose proof (size_nonneg a). pose proof (size_nonneg b).
  assert (0 < size d) as Hpos by (destruct d; [done|cbn [length] in *; lia]).
  assert (exists first, zipEntry zl (10 + size a) = Some first /\ ptr first = 10 + size a /\ prevrawlen first = last_raw 0 a)
    as (first & -> & Hptr & Hprev).
  { destruct d as [|n d]; [done|]. cbn [app] in Hh. rewrite (holds_entry _ _ _ _ _ Hh). by eexists. }
  exists first. split_and!; try done.
  - pose proof (holds_fuel _ _ _ Hh) as Hfu. rewrite !length_app in Hfu.
    rewrite (skip_spec zl c (d ++ b) a _ 0 num Hh) by (rewrite ?length_app; lia). rewrite Z.sub_0_r, Z.add_0_l.
    assert (take (Z.to_nat num) (d ++ b) = d) as ->; [|done].
    destruct Hnum as [->|[-> Hle]]; [by rewrite Nat2Z.id, take_app_length|]. rewrite app_nil_r. apply take_ge. lia.
  - destruct Hh as [_ _ Hs _]. rewrite !size_app in *. rewrite uwrap_small by (unfold in_u; lia). lia.
Qed.

Lemma last_raw_range zl a b c : holds zl (a ++ b) c -> 0 <= last_raw 0 a < 2 ^ 32.
Proof.
  intros [_ _ Hs _]. rewrite size_app in Hs. pose proof (size_nonneg b). unfold last_raw.
  destruct a as [|n a _] using rev_ind; [done|]. rewrite last_snoc. cbn [from_option].
  rewrite size_snoc in Hs. pose proof (size_nonneg a). pose proof (rawlen_min n). lia.
Qed.

Lemma last_raw_app q a b : last_raw q (a ++ b) = last_raw (last_raw q a) b.
Proof. unfold last_raw. rewrite last_app. by destruct (last b). Qed.

Lemma delete_mid zl a d m b c num : holds zl (a ++ d ++ m :: b) c -> d <> [] -> num = zlen d ->
  roomy (a ++ d ++ m :: b) 0 ->
  __ziplistDelete fill zl (10 + size a) num =
    Some (around (bump c (- zlen d)) (ser 0 a) (needs_big (last_raw 0 a), m.2) (last_raw 0 a)
      (rawlen (needs_big (last_raw 0 a), m.2)) (fixup (rawlen (needs_big (last_raw 0 a), m.2)) (rawlen m) b)).
Proof.
  intros Hh Hd Hnum Hroom. pose proof (last_raw_range _ _ _ _ Hh) as Hq. unfold __ziplistDelete.
  destruct (delete_start _ _ _ _ _ _ Hh Hd (or_introl Hnum)) as (first & -> & Hptr & Hprev & Hskip & Htot & Hpos).
  bsimpl. rewrite Hskip. bsimpl. rewrite Hptr, Hprev, Htot, Z.gtb_ltb, (proj2 (Z.ltb_lt _ _)) by done.
  rewrite app_assoc in Hh. rewrite (holds_not_end _ _ _ _ _ Hh), (holds_diff _ _ _ _ _ Hh). bsimpl. cbn [negb]. bsimpl.
  rewrite <- app_assoc in Hh. set (q := last_raw 0 a) in *. destruct Hh as [-> Hw Hs Hc].
  apply wf_app in Hw as [Hwa Hwd]. fold q in Hwd. apply wf_app in Hwd as [Hwd [Hfm Hwb]].
  unfold roomy in Hroom. rewrite !size_app, size_cons in *. rewrite !length_app in Hroom. cbn [length] in Hroom.
  pose proof (size_nonneg a). pose proof (size_nonneg b). pose proof (rawlen_min m).
  pose proof (rawlen_field (needs_big q) m) as Hrf. set (m' := (needs_big q, m.2)) in *.
  pose proof (fsize_bounds (needs_big q)). pose proof (fsize_bounds m.1). pose proof (size_nonneg d).
  destruct (store_before q d (last_raw q d) m (body m.2 ++ ser (rawlen m) b ++ [255]) Hd Hwd Hq) as (D & old & HDo & Hlo & HlD).
  rewrite ser_app, ser_app, <- !app_assoc. fold q. rewrite ser_first, <- !app_assoc, HDo.
  set (nextdiff := fsize (needs_big q) - fsize m.1) in *.
  rewrite (tailpos_app a), (tailpos_app d) by (done || by destruct d).
  set (t := tailpos _ (m :: b)). pose proof (tailpos_bounds (m :: b) (10 + size a + size d)) as Htb. fold t in Htb. rewrite size_cons in Htb.
  destruct (delete_move (ser 0 a) D old q m b c t (size d) nextdiff (10 + (size a + size d) - nextdiff)) as (G & HlG & Hmv);
    try done; rewrite ?length_ser; fold m'; try lia.
  rewrite length_ser in Hmv. fold m' in Hmv.
  replace (11 + size a + zlen D + rawlen m' + size b) with (11 + (size a + (size d + (rawlen m + size b)))) in Hmv by lia.
  rewrite Hmv. bsimpl. clear Hmv. rewrite get_bytes by lia. bsimpl.
  set (M := field (needs_big q) q ++ body m.2 ++ ser (rawlen m) b).
  assert (zlen (ser 0 a ++ M) = size a + rawlen m' + size b) as HlM.
  { unfold M. rewrite length_app, app_assoc, length_app, !Nat2Z.inj_add, !length_ser, entry_bytes. fold m'. lia. }
  replace (11 + (size a + (size d + (rawlen m + size b))) - size d + nextdiff) with (11 + zlen (ser 0 a ++ M)) by lia.
  rewrite app_assoc, resize_shrink by (lia || (by destruct G)). bsimpl. rewrite incr_length_spec by (by destruct Hc). bsimpl.
  rewrite <- app_assoc. set (t' := t - size d + _).
  assert (hdr (11 + zlen (ser 0 a ++ M)) t' (bump c (- zlen d)) (ser 0 a ++ M ++ [255]) =
    around (bump c (- zlen d)) (ser 0 a) m' q (rawlen m) b) as ->.
  { unfold around, M. rewrite <- !app_assoc, length_ser. fold M. rewrite HlM. f_equal; [lia|].
    symmetry. apply (tail_delete (10 + size a) m (needs_big q) b (size d)). }
  rewrite <- (length_ser a 0). apply cascade_if; [by apply field_needs_big|done|]. rewrite length_ser. fold m'. lia.
Qed.

Lemma tailpos_last a base : tailpos base a = base + size a - last_raw 0 a.
Proof.
  destruct a as [|n a _] using rev_ind; [change (size []) with 0; unfold last_raw; cbn; lia|].
  rewrite tailpos_app, size_snoc by done. unfold last_raw. rewrite last_snoc. cbn [tailpos from_option]. lia.
Qed.

Lemma delete_tail zl a d c num : holds zl (a ++ d) c -> d <> [] -> zlen d <= num ->
  __ziplistDelete fill zl (10 + size a) num =
    Some (hdr (11 + size a) (tailpos 10 a) (bump c (- zlen d)) (ser 0 a ++ [255])).
Proof.
  intros Hh Hd Hnum. unfold __ziplistDelete. assert (holds zl (a ++ d ++ []) c) as Hh' by by rewrite app_nil_r.
  destruct (delete_start _ _ _ _ _ _ Hh' Hd (or_intror (conj eq_refl Hnum))) as (first & -> & Hptr & Hprev & Hskip & Htot & Hpos).
  bsimpl. rewrite Hskip. bsimpl. rewrite Hptr, Hprev, Htot, Z.gtb_ltb, (proj2 (Z.ltb_lt _ _)) by done.
  rewrite (holds_end _ _ _ Hh). bsimpl. cbn [negb]. destruct Hh as [-> _ Hs Hc]. rewrite set_tail. bsimpl.
  pose proof (size_nonneg a). rewrite size_app in *. rewrite get_bytes by lia. bsimpl.
  replace (11 + (size a + size d) - size d + 0) with (11 + zlen (ser 0 a)) by (rewrite length_ser; lia).
  rewrite ser_app, <- app_assoc, resize_shrink by (rewrite ?length_ser; lia || (by intros [_ [=]]%app_eq_nil)).
  bsimpl. rewrite incr_length_spec by (by destruct Hc). bsimpl. cbn [negb Z.eqb].
  by rewrite length_ser, tailpos_last.
Qed.

Lemma size_contents (ns ns' : list node) : ns'.*2 = ns.*2 -> zlen ns' = zlen ns.
Proof. intros H%(f_equal length). rewrite !length_fmap in H. lia. Qed.

Lemma reprev_wf q b pv : 0 <= q < 2 ^ 32 -> wf pv b -> size b + 4 * zlen b + 4 < 2 ^ 32 -> wf q (reprev q b).
Proof.
  intros Hq Hw Hs. destruct b as [|m b]; [done|]. destruct Hw as [Hm Hw]. cbn [reprev wf fst].
  split; [by apply field_needs_big|]. rewrite size_cons in Hs. cbn [length] in Hs. pose proof (size_nonneg b).
  pose proof (rawlen_min (needs_big q, m.2)) as H1. pose proof (rawlen_field (needs_big q) m).
  pose proof (fsize_bounds (needs_big q)). pose proof (fsize_bounds m.1). pose proof (rawlen_min m).
  apply fixup_wf; [lia|lia|done].
Qed.

Lemma reprev_size q b : size (reprev q b) <= size b + 4 * zlen b.
Proof.
  destruct b as [|m b]; [done|]. cbn [reprev length]. rewrite !size_cons. rewrite rawlen_field.
  pose proof (fixup_size b (rawlen m + (fsize (needs_big q) - fsize m.1)) (rawlen m)).
  pose proof (fsize_bounds (needs_big q)). pose proof (fsize_bounds m.1). lia.
Qed.

(** Deleting the entries [d] at the pointer. *)
Lemma delete_spec zl a d b c num : holds zl (a ++ d ++ b) c -> d <> [] ->
  num = zlen d \/ b = [] /\ zlen d <= num -> roomy (a ++ d ++ b) 0 ->
  exists zl', __ziplistDelete fill zl (10 + size a) num = Some zl' /\
    holds zl' (a ++ reprev (last_raw 0 a) b) (bump c (- zlen d)).
Proof.
  intros Hh Hd Hnum Hroom. pose proof (last_raw_range _ _ _ _ Hh) as Hq.
  assert (count_ok (bump c (- zlen d)) (a ++ reprev (last_raw 0 a) b)) as Hc'.
  { replace (- zlen d) with (zlen (a ++ reprev (last_raw 0 a) b) - zlen (a ++ d ++ b)).
    - apply bump_ok; [by destruct Hh|]. rewrite !length_app. pose proof (size_contents _ _ (reprev_contents (last_raw 0 a) b)). lia.
    - rewrite !length_app. pose proof (size_contents _ _ (reprev_contents (last_raw 0 a) b)). lia. }
  pose proof Hh as [_ Hw Hs _]. apply wf_app in Hw as [Hwa Hw]. apply wf_app in Hw as [_ Hwb].
  unfold roomy in Hroom. rewrite !size_app, !length_app in *. pose proof (size_nonneg a). pose proof (size_nonneg d).
  assert (0 < zlen d) by (destruct d; [done|simpl; lia]).
  assert (wf 0 (a ++ reprev (last_raw 0 a) b)) as Hw'.
  { apply wf_app. split; [done|]. eapply reprev_wf; [done|done|lia]. }
  pose proof (reprev_size (last_raw 0 a) b).
  destruct b as [|m b].
  - cbn [reprev] in *. rewrite app_nil_r in Hh, Hw', Hc' |- *. change (size []) with 0 in *.
    rewrite (delete_tail zl a d c num) by (done || (destruct Hnum as [|[]]; lia)). eexists. split; [done|]. split; [done|done|lia|done].
  - cbn [reprev] in *. destruct Hnum as [->|[[=] _]]. rewrite (delete_mid zl a d m b c) by (done || (unfold roomy; rewrite !size_app, !length_app; lia)).
    eexists. split; [done|]. apply holds_around; [done|rewrite size_app; lia|done].
Qed.

(** ** Inserting *)

Definition ins_val (s : list Z) : Z := match string2ll s with Some v => v | None => 123456789 end.
Definition ins_int (s : list Z) : bool := match string2ll s with Some _ => true | None => false end.

Lemma ins_try s :
  match zipTryEncoding s with
  | Some (value, encoding) => (encoding, value, true)
  | None => (0, 123456789, false)
  end = (ins_enc s, ins_val s, ins_int s).
Proof. rewrite try_spec. unfold ins_enc, ins_val, ins_int. by destruct (string2ll s). Qed.

Lemma ins_data s : (if ins_int s then zipIntSize (ins_enc s) else Some (zlen s)) = Some (zlen (data_of s)).
Proof.
  unfold ins_int, ins_enc, data_of. destruct (string2ll s) as [v|] eqn:Hv; [|done].
  apply string2ll_decimal in Hv as [Hr _]. by apply int_size.
Qed.

Lemma ins_is_str s : ZIP_IS_STR (ins_enc s) = negb (ins_int s).
Proof.
  unfold ins_int, ins_enc. destruct (string2ll s) as [v|] eqn:Hv; [|done].
  apply string2ll_decimal in Hv as [Hr _]. pose proof (int_not_str v Hr).
  rewrite is_str_iff by (unfold is_byte; lia). apply Z.ltb_ge. lia.
Qed.

(** The data written over as many bytes. *)
Lemma ins_write pre old post s p : p = zlen pre -> length old = length (data_of s) ->
  (if ZIP_IS_STR (ins_enc s) then mwrite (pre ++ old ++ post) p s
   else zipSaveInteger (pre ++ old ++ post) p (ins_val s) (ins_enc s)) = Some (pre ++ data_of s ++ post).
Proof.
  intros -> Hl. rewrite ins_is_str. unfold ins_int, ins_val, ins_enc, data_of in *.
  destruct (string2ll s) as [v|] eqn:Hv; cbn [negb].
  - apply string2ll_decimal in Hv as [Hr _]. by apply save_spec.
  - by apply mwrite_mid.
Qed.

(** The whole entry written over [G]. *)
Lemma write_entry P G post q s p : p = zlen P -> zlen G = rawlen (needs_big q, s) -> zlen s < 2 ^ 32 ->
  ('(zl, n) ← zipStorePrevEntryLength (P ++ G ++ post) (Some p) q;
   '(zl, n0) ← zipStoreEntryEncoding zl (Some (p + n)) (ins_enc s) (zlen s);
   if ZIP_IS_STR (ins_enc s) then mwrite zl (p + n + n0) s else zipSaveInteger zl (p + n + n0) (ins_val s) (ins_enc s)) =
  Some (P ++ field (needs_big q) q ++ body s ++ post).
Proof.
  intros -> HG Hs. rewrite <- entry_raw in HG. pose proof (fsize_bounds (needs_big q)). pose proof (header_length s).
  set (k := Z.to_nat (fsize (needs_big q))). set (h := length (header_of s)).
  rewrite <- (take_drop k G), <- app_assoc. rewrite store_over by (try done; rewrite length_take; unfold k; lia). bsimpl.
  rewrite (proj2 (store_encoding_spec s _ Hs)).
  rewrite (mwrite_eq _ (P ++ field (needs_big q) q) (take h (drop k G)) (drop h (drop k G) ++ post)).
  - bsimpl. rewrite (app_assoc _ (header_of s)), ins_write; [unfold body; by rewrite <- !app_assoc| |].
    + rewrite !length_app, !Nat2Z.inj_add, length_field. lia.
    + rewrite !length_drop. unfold h, k. lia.
  - by rewrite (app_assoc (take h _)), take_drop, <- app_assoc.
  - rewrite length_app, Nat2Z.inj_add, length_field. lia.
  - rewrite length_take, length_drop. unfold h, k. lia.
Qed.

Lemma write_then P G post q s p (k : list Z -> option (list Z)) :
  p = zlen P -> zlen G = rawlen (needs_big q, s) -> zlen s < 2 ^ 32 ->
  ('(zl, n) ← zipStorePrevEntryLength (P ++ G ++ post) (Some p) q;
   '(zl, n0) ← zipStoreEntryEncoding zl (Some (p + n)) (ins_enc s) (zlen s);
   zl ← (if ZIP_IS_STR (ins_enc s) then mwrite zl (p + n + n0) s else zipSaveInteger zl (p + n + n0) (ins_val s) (ins_enc s));
   k zl) = k (P ++ field (needs_big q) q ++ body s ++ post).
Proof.
  intros Hp HG Hs. pose proof (write_entry P G post q s p Hp HG Hs) as Hw.
  destruct (zipStorePrevEntryLength _ _ _) as [[z n]|]; [|done]. bsimpl in Hw. bsimpl.
  destruct (zipStoreEntryEncoding _ _ _ _) as [[z1 n0]|]; [|done]. bsimpl in Hw. bsimpl. by rewrite Hw.
Qed.

(** A move of bytes towards the end keeps what lies before. *)
Lemma mmove_spec zl d sr n : 0 <= sr -> sr + Z.of_nat n <= zlen zl -> 0 <= d -> d + Z.of_nat n <= zlen zl ->
  mmove zl d sr n = Some (take (Z.to_nat d) zl ++ take n (drop (Z.to_nat sr) zl) ++ drop (Z.to_nat d + n) zl).
Proof.
  intros. unfold mmove. rewrite mread_Some by done. bsimpl.
  assert (length (take n (drop (Z.to_nat sr) zl)) = n) as Hl by (rewrite length_take, length_drop; lia).
  rewrite mwrite_Some by lia. by rewrite Hl.
Qed.

(** The move in [__ziplistInsert]: [G] is the room for the entry, [F] that for
    the first field of the entry after it. *)
Lemma insert_move B t c A f T J reqlen nextdiff n :
  0 <= reqlen -> zlen J = reqlen + nextdiff -> nextdiff <= 4 -> -4 <= nextdiff -> 0 <= zlen f + nextdiff ->
  n = zlen T + zlen f + nextdiff ->
  exists G F, mmove (hdr B t c (A ++ f ++ T ++ J ++ [255])) (10 + zlen A + reqlen) (10 + zlen A - nextdiff) (Z.to_nat n) =
    Some (hdr B t c (A ++ G ++ F ++ T ++ [255])) /\ zlen G = reqlen /\ zlen F = zlen f + nextdiff.
Proof.
  intros Hr HJ Hn4 Hn4' Hf ->. set (zl := hdr B t c (A ++ f ++ T ++ J ++ [255])).
  assert (zlen zl = 11 + zlen A + zlen f + zlen T + zlen J) as Hl.
  { unfold zl. rewrite length_hdr, !length_app. cbn [length]. lia. }
  rewrite mmove_spec by lia.
  exists (take (Z.to_nat reqlen) (f ++ T ++ J ++ [255])), (drop (Z.to_nat (10 + zlen A - nextdiff)) (hdr B t c (A ++ f))).
  split_and!.
  - f_equal. rewrite (hdr_app _ _ _ A). unfold zl. rewrite (hdr_app _ _ _ A) at 1.
    pose proof (length_hdr B t c A) as HA. rewrite take_app_ge by lia.
    replace (Z.to_nat (10 + zlen A + reqlen) - length (hdr B t c A))%nat with (Z.to_nat reqlen) by lia.
    rewrite <- app_assoc. f_equal. f_equal.
    rewrite (app_assoc A f), hdr_app. pose proof (length_hdr B t c (A ++ f)) as HAf. rewrite length_app in HAf.
    rewrite drop_app_le by lia. rewrite take_app_ge by (rewrite length_drop; lia). rewrite length_drop.
    replace (Z.to_nat (zlen T + zlen f + nextdiff) - (length (hdr B t c (A ++ f)) - Z.to_nat (10 + zlen A - nextdiff)))%nat
      with (length T) by lia.
    rewrite take_app_length, <- app_assoc. do 2 f_equal.
    replace (T ++ J ++ [255]) with ((T ++ J) ++ [255]) by (by rewrite <- app_assoc).
    rewrite (app_assoc (hdr B t c (A ++ f))). apply drop_app_length'. rewrite !length_app. lia.
  - rewrite length_take, !length_app. cbn [length]. lia.
  - rewrite length_drop. pose proof (length_hdr B t c (A ++ f)) as HAf. rewrite length_app in HAf. lia.
Qed.

(** From the store of the length in the next entry to the tail offset. *)
Lemma insert_fix A G F (m : node) b c reqlen big (forcelarge : bool) :
  let B := 11 + zlen A + reqlen + rawlen (big, m.2) + size b in
  let p := 10 + zlen A in
  zlen G = reqlen -> zlen F = fsize big -> field_ok big reqlen -> wf (rawlen m) b -> B < 2 ^ 32 -> 10 + zlen A + rawlen m + size b + reqlen < 2 ^ 32 ->
  (if forcelarge then big = true else big = needs_big reqlen) ->
  ('(zl, _) ← (if forcelarge
     then zipStorePrevEntryLengthLarge
            (hdr B (tailpos p (m :: b)) c (A ++ G ++ F ++ (body m.2 ++ ser (rawlen m) b) ++ [255])) (p + reqlen) reqlen
     else zipStorePrevEntryLength
            (hdr B (tailpos p (m :: b)) c (A ++ G ++ F ++ (body m.2 ++ ser (rawlen m) b) ++ [255])) (Some (p + reqlen)) reqlen);
   tail_offset ← ZIPLIST_TAIL_OFFSET zl;
   zl ← set_ZIPLIST_TAIL_OFFSET zl (tail_offset + reqlen);
   tail ← zipEntry zl (p + reqlen);
   e ← is_end zl (p + (reqlen + headersize tail + len tail));
   if negb e
   then t ← ZIPLIST_TAIL_OFFSET zl; set_ZIPLIST_TAIL_OFFSET zl (t + (fsize big - fsize m.1))
   else Some zl) = Some (around c (A ++ G) (big, m.2) reqlen (rawlen m) b).
Proof.
  intros B p HG HF Hf Hw HB Ht Hlarge. set (n := (big, m.2)). pose proof (size_nonneg b). pose proof (rawlen_min n).
  assert (B = 11 + zlen A + reqlen + rawlen n + size b) as HBe by done. clearbody B. unfold p. clear p.
  set (t := tailpos (10 + zlen A) (m :: b)). pose proof (tailpos_bounds (m :: b) (10 + zlen A)) as Htb. fold t in Htb. rewrite size_cons in Htb.
  set (T := body m.2 ++ ser (rawlen m) b).
  assert (forall x f, hdr B x c (A ++ G ++ f ++ T ++ [255]) = hdr B x c (A ++ G) ++ f ++ T ++ [255]) as Hz.
  { intros x f. rewrite <- hdr_app. by rewrite <- app_assoc. }
  assert (forall x, 10 + zlen A + reqlen = zlen (hdr B x c (A ++ G))) as Hp by (intros x; rewrite length_hdr, length_app; lia).
  assert ((if forcelarge then zipStorePrevEntryLengthLarge (hdr B t c (A ++ G ++ F ++ T ++ [255])) (10 + zlen A + reqlen) reqlen
    else zipStorePrevEntryLength (hdr B t c (A ++ G ++ F ++ T ++ [255])) (Some (10 + zlen A + reqlen)) reqlen) =
    Some (hdr B t c (A ++ G ++ field big reqlen ++ T ++ [255]), fsize big)) as ->.
  { rewrite !Hz. destruct forcelarge; subst big.
    - rewrite store_large_over by (apply Hp || (cbn [fsize] in HF; lia)). done.
    - by rewrite store_over by (apply Hp || done). }
  bsimpl. rewrite get_tail by lia. bsimpl. rewrite set_tail. bsimpl.
  assert (forall x, hdr B x c (A ++ G ++ field big reqlen ++ T ++ [255]) =
    hdr B x c (A ++ G) ++ field n.1 reqlen ++ body n.2 ++ ser (rawlen m) b ++ [255]) as Hz'.
  { intros x. rewrite Hz. unfold T. by rewrite <- app_assoc. }
  rewrite Hz' at 1. rewrite (zipEntry_at _ _ _ n.1 reqlen n.2 _ eq_refl (Hp _)) by (done || (rewrite <- surjective_pairing; lia)).
  bsimpl. cbn [headersize len].
  assert (is_end (hdr B (t + reqlen) c (A ++ G ++ field big reqlen ++ T ++ [255]))
    (10 + zlen A + (reqlen + (fsize n.1 + zlen (header_of n.2)) + zlen (data_of n.2))) = Some (bool_decide (b = []))) as ->.
  { rewrite Hz'. assert (10 + zlen A + (reqlen + (fsize n.1 + zlen (header_of n.2)) + zlen (data_of n.2)) =
      zlen (hdr B (t + reqlen) c (A ++ G) ++ field n.1 reqlen ++ body n.2)) as ->.
    { rewrite length_app, Nat2Z.inj_add, <- Hp, entry_bytes, <- entry_raw. lia. }
    destruct b as [|m' b]; cbn [ser app].
    - eapply is_end_mark; [|done]. by rewrite <- !app_assoc.
    - destruct Hw as [Hm' _]. eapply is_end_at; [|done|apply Hm']. by rewrite <- !app_assoc. }
  bsimpl. unfold around. rewrite length_app, Nat2Z.inj_add, HG. fold n.
  replace (10 + (zlen A + reqlen)) with (10 + zlen A + reqlen) by lia.
  unfold n at 2. rewrite (tail_delete (10 + zlen A + reqlen) m big b 0), Z.add_0_r, tailpos_shift. fold t.
  replace (11 + (zlen A + reqlen) + rawlen n + size b) with B by lia.
  unfold T. cbn [fst snd n]. rewrite <- !app_assoc.
  destruct (bool_decide (b = [])); cbn [negb].
  - do 2 f_equal. lia.
  - rewrite get_tail by lia. bsimpl. rewrite set_tail. do 2 f_equal. lia.
Qed.

(** The field of the entry after an insertion of [r] bytes: it is not shrunk
    when the new entry could not make up for it. *)
Definition keep_large (r : Z) (m : node) : bool := (fsize (needs_big r) - fsize m.1 =? -4) && (r <? 4).
Definition next_big (r : Z) (m : node) : bool := if keep_large r m then true else needs_big r.
Definition renext (r : Z) (b : list node) : list node :=
  match b with
  | [] => []
  | m :: b => (next_big r m, m.2) :: fixup (rawlen (next_big r m, m.2)) (rawlen m) b
  end.
Definition inserted (a : list node) (s : list Z) (b : list node) : list node :=
  a ++ (needs_big (last_raw 0 a), s) :: renext (rawlen (needs_big (last_raw 0 a), s)) b.

Lemma next_diff r m :
  (if keep_large r m then 0 else fsize (needs_big r) - fsize m.1) = fsize (next_big r m) - fsize m.1 /\
  (0 <= r -> 0 <= r + (fsize (next_big r m) - fsize m.1)) /\ -4 <= fsize (next_big r m) - fsize m.1 <= 4.
Proof.
  unfold next_big, keep_large. destruct (Z.eqb_spec (fsize (needs_big r) - fsize m.1) (-4)) as [H|H]; cbn [andb].
  - destruct (Z.ltb_spec r 4); destruct m as [[] s]; destruct (needs_big r); cbn [fst fsize] in *; lia.
  - destruct m as [[] s]; destruct (needs_big r); cbn [fst fsize] in *; lia.
Qed.

Lemma next_big_ok r m : 0 <= r < 2 ^ 32 -> field_ok (next_big r m) r.
Proof. intros Hr. unfold next_big. destruct (keep_large r m); [by split|by apply field_needs_big]. Qed.

(** The length of the entry before the pointer. *)
Lemma insert_prevlen zl a b c : holds zl (a ++ b) c ->
  is_end zl (10 + size a) = Some (bool_decide (b = [])) /\
  (if negb (bool_decide (b = [])) then '(_, prevlen) ← ZIP_DECODE_PREVLEN zl (10 + size a); Some prevlen
   else ptail ← ZIPLIST_ENTRY_TAIL zl; e ← is_end zl ptail; if negb e then zipRawEntryLength zl ptail else Some 0) =
  Some (last_raw 0 a).
Proof.
  intros Hh. destruct b as [|m b].
  - rewrite app_nil_r in Hh. rewrite (holds_end _ _ _ Hh). split; [done|]. cbn [negb bool_decide].
    rewrite bool_decide_eq_true_2 by done. cbn [negb]. unfold ZIPLIST_ENTRY_TAIL.
    assert (ZIPLIST_TAIL_OFFSET zl = Some (tailpos 10 a)) as ->.
    { destruct Hh as [-> _ Hs _]. pose proof (tailpos_bounds a 10). apply get_tail. lia. }
    bsimpl. destruct a as [|n a _] using rev_ind.
    + pose proof (holds_end zl [] c Hh) as He. change (10 + size []) with 10 in He. cbn [tailpos]. by rewrite He.
    + rewrite tailpos_app by done. cbn [tailpos]. rewrite (holds_not_end _ _ _ _ _ Hh), (holds_raw _ _ _ _ _ Hh).
      bsimpl. cbn [negb]. unfold last_raw. by rewrite last_snoc.
  - rewrite (holds_not_end _ _ _ _ _ Hh), (holds_prevlen _ _ _ _ _ Hh). by rewrite bool_decide_eq_false_2.
Qed.

Lemma insert_end zl a s c : holds zl a c -> 11 + size a + zlen s + 18 < 2 ^ 32 ->
  __ziplistInsert fill zl (10 + size a) s =
    Some (around (bump c 1) (ser 0 a) (needs_big (last_raw 0 a), s) (last_raw 0 a)
      (rawlen (needs_big (last_raw 0 a), s)) []).
Proof.
  intros Hh Hroom. assert (holds zl (a ++ []) c) as Hh' by by rewrite app_nil_r.
  destruct (insert_prevlen _ _ _ _ Hh') as [He Hprev]. rewrite bool_decide_eq_true_2 in * by done.
  set (q := last_raw 0 a) in *. set (n := (needs_big q, s)). pose proof (size_nonneg a). pose proof (body_small s).
  pose proof (rawlen_min n). assert (rawlen n <= zlen s + 18) as Hn.
  { unfold rawlen, n. cbn [fst snd]. pose proof (fsize_bounds (needs_big q)). lia. }
  unfold __ziplistInsert. assert (ZIPLIST_BYTES zl = Some (11 + size a)) as ->.
  { destruct Hh as [-> _ ? _]. apply get_bytes. lia. }
  bsimpl. rewrite He. bsimpl. rewrite Hprev. bsimpl. rewrite ins_try, ins_data. bsimpl. rewrite store_size. bsimpl.
  rewrite (proj1 (store_encoding_spec s zl ltac:(lia))). bsimpl. cbn [negb]. cbn [Z.eqb andb].
  replace (zlen (data_of s) + fsize (needs_big q) + zlen (header_of s)) with (rawlen n) by (unfold n; rewrite <- entry_raw; lia).
  pose proof Hh as [-> Hw Hs Hc].
  destruct (resize_grow fill (11 + size a) (tailpos 10 a) c (ser 0 a) (Z.to_nat (rawlen n))) as (junk & Hrs & Hlj & Hhd).
  { rewrite length_ser. lia. }
  rewrite length_ser, Z2Nat.id in Hrs by lia. bsimpl. cbn [Z.eqb andb].
  rewrite (Z.add_0_r (11 + size a + rawlen n)), Hrs. bsimpl.
  destruct junk as [|x junk]; [simpl in Hlj; lia|]. specialize (Hhd ltac:(lia)). injection Hhd as ->.
  rewrite hdr_app. cbn [app]. rewrite is_end_last by (by rewrite length_hdr, length_ser). bsimpl. cbn [negb].
  rewrite <- hdr_app, set_tail. bsimpl. cbn [negb]. bsimpl. change (255 :: junk ++ [255]) with ((255 :: junk) ++ [255]).
  set (P := hdr (11 + size a + rawlen n) (10 + size a) c (ser 0 a)). rewrite hdr_app. fold P.
  rewrite (write_then P (255 :: junk) [255] q s (10 + size a) (fun zl => ZIPLIST_INCR_LENGTH zl 1)); [|
    unfold P; by rewrite length_hdr, length_ser|fold n; lia|lia].
  unfold P. rewrite <- hdr_app, incr_length_spec by (by destruct Hc). unfold around.
  rewrite length_ser. cbn [ser tailpos fst snd n app]. change (size []) with 0. by rewrite Z.add_0_r.
Qed.

(** Resizing, moving and relinking in the middle of a list; [G] is left for
    the entry. *)
Lemma insert_relink a m b c n :
  let q := last_raw 0 a in let r := rawlen n in
  let big := next_big r m in let nextdiff := fsize big - fsize m.1 in
  let curlen := 11 + size (a ++ m :: b) in
  holds (around c (ser 0 a) m q (rawlen m) b) (a ++ m :: b) c -> roomy (a ++ m :: b) (r + 4) ->
  exists G, zlen G = r /\
  (zl ← ziplistResize fill (around c (ser 0 a) m q (rawlen m) b) (curlen + r + nextdiff);
   at_end ← is_end zl (10 + size a);
   if negb at_end then
     zl ← mmove zl (10 + size a + r) (10 + size a - nextdiff) (Z.to_nat (u64 (curlen - (10 + size a) - 1 + nextdiff)));
     '(zl, _) ← (if keep_large r m
                 then zipStorePrevEntryLengthLarge zl (10 + size a + r) (u32 r)
                 else zipStorePrevEntryLength zl (Some (10 + size a + r)) (u32 r));
     tail_offset ← ZIPLIST_TAIL_OFFSET zl;
     zl ← set_ZIPLIST_TAIL_OFFSET zl (tail_offset + r);
     tail ← zipEntry zl (10 + size a + r);
     e ← is_end zl (10 + size a + (r + headersize tail + len tail));
     if negb e
     then t ← ZIPLIST_TAIL_OFFSET zl; set_ZIPLIST_TAIL_OFFSET zl (t + nextdiff)
     else Some zl
   else set_ZIPLIST_TAIL_OFFSET zl (10 + size a)) =
  Some (around c (ser 0 a ++ G) (big, m.2) r (rawlen m) b).
Proof.
  intros q r big nextdiff curlen Hh Hroom. destruct (holds_focus _ _ _ _ _ Hh) as (_ & Hf & Hwb & _).
  unfold roomy in Hroom. unfold curlen in *. rewrite size_app, size_cons, length_app in *. cbn [length] in Hroom.
  pose proof (size_nonneg a). pose proof (size_nonneg b). pose proof (rawlen_min n) as Hr2. fold r in Hr2. pose proof (rawlen_min m).
  destruct (next_diff r m) as (_ & Hd4 & Hdr). fold big in Hd4, Hdr. fold nextdiff in Hd4, Hdr. specialize (Hd4 ltac:(lia)).
  assert (r < 2 ^ 32) as Hr32 by lia. pose proof (next_big_ok r m ltac:(lia)) as Hfb. fold big in Hfb.
  pose proof (rawlen_field big m) as Hrb. fold nextdiff in Hrb. pose proof (rawlen_min (big, m.2)).
  unfold around at 1. set (t := tailpos (10 + zlen (ser 0 a)) (m :: b)). set (T := body m.2 ++ ser (rawlen m) b).
  assert (zlen T = rawlen m - fsize m.1 + size b) as HT.
  { unfold T. rewrite length_app, Nat2Z.inj_add, length_ser. unfold rawlen. lia. }
  replace (ser 0 a ++ field m.1 q ++ body m.2 ++ ser (rawlen m) b ++ [255]) with ((ser 0 a ++ field m.1 q ++ T) ++ [255])
    by (unfold T; by rewrite <- !app_assoc).
  destruct (resize_grow fill (11 + zlen (ser 0 a) + rawlen m + size b) t c (ser 0 a ++ field m.1 q ++ T) (Z.to_nat (r + nextdiff)))
    as (J & Hrs & HlJ & _).
  { rewrite !length_app, !Nat2Z.inj_add, length_ser, length_field. lia. }
  replace (11 + zlen (ser 0 a ++ field m.1 q ++ T) + Z.of_nat (Z.to_nat (r + nextdiff)))
    with (11 + (size a + (rawlen m + size b)) + r + nextdiff) in Hrs
    by (rewrite !length_app, !Nat2Z.inj_add, length_ser, length_field; lia).
  rewrite Hrs. bsimpl. clear Hrs. rewrite <- !app_assoc. set (B := 11 + _ + r + nextdiff).
  rewrite (is_end_at _ (hdr B t c (ser 0 a)) (T ++ J ++ [255]) m.1 q);
    [|by rewrite <- hdr_app|by rewrite length_hdr, length_ser|done].
  bsimpl. cbn [negb]. rewrite (uwrap_small 64) by (unfold in_u; lia).
  destruct (insert_move B t c (ser 0 a) (field m.1 q) T J r nextdiff
    (11 + (size a + (rawlen m + size b)) - (10 + size a) - 1 + nextdiff)) as (G & F & Hmv & HG & HF);
    rewrite ?length_field; try lia.
  { pose proof (fsize_bounds big). unfold nextdiff. lia. }
  rewrite length_ser in Hmv. rewrite Hmv. bsimpl. clear Hmv. rewrite !(uwrap_small 32 r) by (unfold in_u; lia).
  exists G. split; [done|]. rewrite length_field in HF. replace (fsize m.1 + nextdiff) with (fsize big) in HF by (unfold nextdiff; lia).
  pose proof (insert_fix (ser 0 a) G F m b c r big (keep_large r m)) as Hfix. cbv zeta in Hfix. rewrite length_ser in Hfix.
  fold T t in Hfix. replace (11 + size a + r + rawlen (big, m.2) + size b) with B in Hfix by (unfold B; lia).
  unfold t. rewrite length_ser. apply Hfix; try done; [unfold B; lia|lia|].
  unfold big, next_big. by destruct (keep_large r m).
Qed.

(** The entry written in front of the relinked ones. *)
Lemma insert_finish a G m2 ns c s :
  let q := last_raw 0 a in let n := (needs_big q, s) in
  zlen G = rawlen n -> zlen s < 2 ^ 32 -> 0 <= c <= 65535 ->
  ('(zl, k) ← zipStorePrevEntryLength (around c (ser 0 a ++ G) m2 (rawlen n) (rawlen m2) ns) (Some (10 + size a)) q;
   '(zl, k0) ← zipStoreEntryEncoding zl (Some (10 + size a + k)) (ins_enc s) (zlen s);
   zl ← (if ZIP_IS_STR (ins_enc s) then mwrite zl (10 + size a + k + k0) s
         else zipSaveInteger zl (10 + size a + k + k0) (ins_val s) (ins_enc s));
   ZIPLIST_INCR_LENGTH zl 1) =
  Some (around (bump c 1) (ser 0 a) n q (rawlen n) (m2 :: ns)).
Proof.
  intros q n HG Hs Hc. unfold around. rewrite length_app, Nat2Z.inj_add, length_ser, HG.
  rewrite <- app_assoc. rewrite hdr_app. rewrite write_then;
    [|by rewrite length_hdr, length_ser|done|done].
  rewrite <- hdr_app, incr_length_spec by done. rewrite (tailpos_cons _ n (m2 :: ns)), size_cons by done. cbn [ser fst snd n].
  f_equal. f_equal; [lia|f_equal; lia|]. by rewrite <- !app_assoc.
Qed.

Lemma insert_mid zl a m b s c : holds zl (a ++ m :: b) c -> roomy (a ++ m :: b) (zlen s + 22) ->
  let q := last_raw 0 a in let n := (needs_big q, s) in let m2 := (next_big (rawlen n) m, m.2) in
  __ziplistInsert fill zl (10 + size a) s =
    Some (around (bump c 1) (ser 0 a) n q (rawlen n) (m2 :: fixup (rawlen m2) (rawlen m) b)).
Proof.
  intros Hh Hroom q n m2. destruct (insert_prevlen _ _ _ _ Hh) as [He Hprev]. rewrite bool_decide_eq_false_2 in * by done.
  pose proof (size_nonneg a). pose proof (size_nonneg b). pose proof (body_small s). fold q in Hprev.
  pose proof (rawlen_min n). assert (rawlen n <= zlen s + 18) as Hn.
  { unfold rawlen, n. cbn [fst snd]. pose proof (fsize_bounds (needs_big q)). lia. }
  destruct (holds_focus _ _ _ _ _ Hh) as (Hz & Hf & Hwb & _). pose proof Hh as [_ _ Hs Hc].
  unfold __ziplistInsert. assert (ZIPLIST_BYTES zl = Some (11 + size (a ++ m :: b))) as ->.
  { destruct Hh as [-> _ _ _]. apply get_bytes. rewrite size_app, size_cons in *. pose proof (rawlen_min m). lia. }
  assert (roomy (a ++ m :: b) (rawlen n + 4)) as Hroom' by (unfold roomy in *; lia).
  unfold roomy in Hroom. rewrite size_app, size_cons, length_app in Hroom. cbn [length] in Hroom. pose proof (rawlen_min m).
  bsimpl. rewrite He. bsimpl. rewrite Hprev. bsimpl. rewrite ins_try, ins_data. bsimpl. rewrite store_size. bsimpl.
  rewrite (proj1 (store_encoding_spec s zl ltac:(lia))). bsimpl. cbn [negb].
  replace (zlen (data_of s) + fsize (needs_big q) + zlen (header_of s)) with (rawlen n) by (unfold n; rewrite <- entry_raw; lia).
  rewrite (holds_diff _ _ _ _ _ Hh). bsimpl. rewrite (uwrap_small 32 (rawlen n)) by (unfold in_u; lia).
  fold (keep_large (rawlen n) m). rewrite (proj1 (next_diff (rawlen n) m)). rewrite Hz in Hh |- *. fold q in Hh |- *.
  destruct (insert_relink a m b c n Hh Hroom') as (G & HG & Hrl). fold q in Hrl. set (r := rawlen n) in *.
  rewrite (uwrap_small 32 r) in Hrl by (unfold in_u; lia).
  set (nextdiff := fsize (next_big r m) - fsize m.1) in *.
  destruct (ziplistResize _ _ _) as [z1|]; [|done]. bsimpl in Hrl. bsimpl.
  destruct (is_end z1 _) as [e1|]; [|done]. bsimpl in Hrl. bsimpl. rewrite Hrl. bsimpl.
  replace (10 + size a + r) with (10 + zlen (ser 0 a ++ G)) by (rewrite length_app, Nat2Z.inj_add, length_ser; lia).
  pose proof (cascade_if c (ser 0 a ++ G) m (next_big r m) r b (next_big_ok r m ltac:(lia)) Hwb) as Hcas.
  fold nextdiff in Hcas. rewrite Hcas.
  - bsimpl. fold m2. apply insert_finish; [done|lia|by destruct Hc].
  - rewrite length_app, Nat2Z.inj_add, length_ser, rawlen_field. destruct (next_diff r m) as (_ & _ & ?). lia.
Qed.

Lemma renext_contents r b : (renext r b).*2 = b.*2.
Proof. destruct b as [|m b]; [done|]. cbn [renext fmap list_fmap snd]. by rewrite fixup_contents. Qed.

Lemma inserted_contents a s b : (inserted a s b).*2 = a.*2 ++ s :: b.*2.
Proof. unfold inserted. rewrite fmap_app. cbn [fmap list_fmap snd]. by rewrite renext_contents. Qed.

Lemma renext_size r b : size (renext r b) <= size b + 4 * zlen b.
Proof.
  destruct b as [|m b]; [done|]. cbn [renext length]. rewrite !size_cons, rawlen_field.
  pose proof (fixup_size b (rawlen m + (fsize (next_big r m) - fsize m.1)) (rawlen m)).
  destruct (next_diff r m) as (_ & _ & ?). lia.
Qed.

Lemma renext_wf r b pv : 0 <= r < 2 ^ 32 -> wf pv b -> size b + 4 * zlen b + 4 < 2 ^ 32 -> wf r (renext r b).
Proof.
  intros Hr Hw Hs. destruct b as [|m b]; [done|]. destruct Hw as [Hm Hw]. cbn [renext wf fst].
  split; [by apply next_big_ok|]. rewrite size_cons in Hs. cbn [length] in Hs. pose proof (size_nonneg b).
  pose proof (rawlen_min (next_big r m, m.2)). pose proof (rawlen_field (next_big r m) m).
  destruct (next_diff r m) as (_ & _ & ?). pose proof (rawlen_min m). apply fixup_wf; [lia|lia|done].
Qed.

Lemma new_rawlen q s : rawlen (needs_big q, s) <= zlen s + 18.
Proof. unfold rawlen. cbn [fst snd]. pose proof (fsize_bounds (needs_big q)). pose proof (body_small s). lia. Qed.

(** Inserting a string at the pointer. *)
Lemma insert_spec zl a s b c : holds zl (a ++ b) c -> roomy (a ++ b) (zlen s + 22) ->
  exists zl', __ziplistInsert fill zl (10 + size a) s = Some zl' /\ holds zl' (inserted a s b) (bump c 1).
Proof.
  intros Hh Hroom. pose proof (last_raw_range _ _ _ _ Hh) as Hq. set (q := last_raw 0 a) in *. set (n := (needs_big q, s)).
  pose proof (new_rawlen q s) as Hn. fold n in Hn. pose proof (rawlen_min n). pose proof Hh as [_ Hw Hs Hc].
  assert (count_ok (bump c 1) (inserted a s b)) as Hc'.
  { pose proof (f_equal length (inserted_contents a s b)) as Hl. rewrite length_fmap, length_app, length_fmap in Hl.
    cbn [length] in Hl. rewrite length_fmap in Hl.
    replace 1 with (zlen (inserted a s b) - zlen (a ++ b)) by (rewrite length_app; lia).
    apply bump_ok; [done|rewrite length_app; lia]. }
  apply wf_app in Hw as [Hwa Hwb]. pose proof Hroom as Hroom'. unfold roomy in Hroom. rewrite size_app, length_app in *.
  pose proof (size_nonneg a). pose proof (size_nonneg b). pose proof (renext_size (rawlen n) b).
  assert (wf 0 (inserted a s b)) as Hw'.
  { apply wf_app. split; [done|]. split; [by apply field_needs_big|]. eapply renext_wf; [fold q; fold n; lia|done|lia]. }
  assert (11 + size (inserted a s b) < 2 ^ 32) as Hs' by (unfold inserted; rewrite size_app, size_cons; fold q; fold n; lia).
  destruct b as [|m b].
  - rewrite app_nil_r in Hh. rewrite (insert_end zl a s c Hh) by (change (size []) with 0 in *; lia).
    eexists. split; [done|]. by apply holds_around.
  - rewrite (insert_mid zl a m b s c Hh Hroom'). eexists. split; [done|]. by apply holds_around.
Qed.

(** ** Merging *)

Definition merged (F S : list node) : list node := F ++ fixup (last_raw 0 F) 0 S.

(** The block before the seam is mended. *)
Lemma merge_copy F S c1 c2 (append : bool) :
  let B := 11 + (size F + size S) in
  let first := hdr (11 + size F) (tailpos 10 F) c1 (ser 0 F ++ [255]) in
  let second := hdr (11 + size S) (tailpos 10 S) c2 (ser 0 S ++ [255]) in
  exists b t c,
  (if append then
     bs ← mread second ZIPLIST_HEADER_SIZE (Z.to_nat (11 + size S - ZIPLIST_HEADER_SIZE));
     mwrite (mresize fill first (Z.to_nat B)) (11 + size F - ZIPLIST_END_SIZE) bs
   else
     target ← mmove (mresize fill second (Z.to_nat B)) (11 + size F - ZIPLIST_END_SIZE) ZIPLIST_HEADER_SIZE
                (Z.to_nat (11 + size S - ZIPLIST_HEADER_SIZE));
     bs ← mread first 0 (Z.to_nat (11 + size F - ZIPLIST_END_SIZE));
     mwrite target 0 bs) = Some (hdr b t c (ser 0 F ++ ser 0 S ++ [255])).
Proof.
  intros B first second.
  pose proof (size_nonneg F). pose proof (size_nonneg S). pose proof (length_ser F 0). pose proof (length_ser S 0).
  assert (forall b t c ns (k : nat), Z.to_nat B = (11 + length (ser 0 ns) + k)%nat ->
    exists junk, mresize fill (hdr b t c (ser 0 ns ++ [255])) (Z.to_nat B) = hdr b t c (ser 0 ns ++ [255] ++ junk) /\
      length junk = k) as Hre.
  { intros b t c ns k Hk. pose proof (length_hdr b t c (ser 0 ns ++ [255])) as Hl. rewrite length_app in Hl. cbn [length] in Hl.
    unfold mresize. rewrite take_ge by lia. eexists. split; [by rewrite <- hdr_app, <- app_assoc|].
    rewrite length_fmap, length_seq. lia. }
  destruct append.
  - destruct (Hre (11 + size F) (tailpos 10 F) c1 F (length (ser 0 S))) as (junk & Hj & Hlj); [unfold B; lia|].
    exists (11 + size F), (tailpos 10 F), c1. unfold second.
    rewrite (mread_eq _ (hdr (11 + size S) (tailpos 10 S) c2 []) (ser 0 S ++ [255]) []);
      [|by rewrite app_nil_r, <- hdr_app|by rewrite length_hdr|rewrite length_app; cbn [length]; lia].
    bsimpl. unfold first. rewrite Hj, hdr_app. rewrite (mwrite_eq _ (hdr (11 + size F) (tailpos 10 F) c1 (ser 0 F)) ([255] ++ junk) []);
      [by rewrite app_nil_r, <- hdr_app|by rewrite app_nil_r|rewrite length_hdr; lia|rewrite !length_app; cbn [length]; lia].
  - destruct (Hre (11 + size S) (tailpos 10 S) c2 S (length (ser 0 F))) as (junk & Hj & Hlj); [unfold B; lia|].
    exists (11 + size F), (tailpos 10 F), c1. unfold second. rewrite Hj.
    destruct (mmove_right (hdr (11 + size S) (tailpos 10 S) c2 []) [] (ser 0 S ++ [255]) junk []
      (11 + size F - 1) 10 (Z.to_nat (11 + size S - 10))) as (G & HG & HlG).
    { by rewrite length_hdr. }
    { rewrite length_hdr. cbn [length]. lia. }
    { rewrite length_app. cbn [length]. lia. }
    rewrite !app_nil_r in HG. cbn [app] in HG. rewrite <- !hdr_app in HG. cbn [app] in HG. rewrite <- app_assoc in HG.
    rewrite HG. bsimpl. unfold first.
    rewrite (mread_eq _ [] (hdr (11 + size F) (tailpos 10 F) c1 (ser 0 F)) [255]); [|by rewrite hdr_app|done|].
    2: { pose proof (length_hdr (11 + size F) (tailpos 10 F) c1 (ser 0 F)). lia. }
    bsimpl. pose proof (length_hdr (11 + size S) (tailpos 10 S) c2 G). pose proof (length_hdr (11 + size F) (tailpos 10 F) c1 (ser 0 F)).
    rewrite (mwrite_eq _ [] (hdr (11 + size S) (tailpos 10 S) c2 G) (ser 0 S ++ [255]));
      [by rewrite <- hdr_app|by rewrite <- hdr_app|done|cbn [length] in HlG; lia].
Qed.

Lemma merged_around F S c : S <> [] -> wf 0 F -> wf 0 S ->
  11 + size F + size S + 4 * zlen S < 2 ^ 32 ->
  __ziplistCascadeUpdate fill (hdr (11 + (size F + size S)) (tailpos 10 S + size F) c (ser 0 F ++ ser 0 S ++ [255])) (tailpos 10 F) =
    Some (hdr (11 + size (merged F S)) (tailpos 10 (merged F S)) c (ser 0 (merged F S) ++ [255])).
Proof.
  intros HS HwF HwS HB. pose proof (size_nonneg F). pose proof (size_nonneg S). unfold merged.
  destruct F as [|n F _] using rev_ind.
  - change (last_raw 0 []) with 0. rewrite fixup_same. cbn [app ser tailpos]. change (size []) with 0 in *. rewrite !Z.add_0_r, Z.add_0_l.
    destruct S as [|m S]; [done|]. destruct HwS as [Hm HwS]. pose proof (focus [] m S c) as Hfo. cbn [app ser] in Hfo.
    change (ser 0 (m :: S)) with (field m.1 0 ++ body m.2 ++ ser (rawlen m) S) in *. rewrite Hfo.
    rewrite size_cons in HB. cbn [length] in HB.
    change 10 with (10 + zlen (@nil Z)) at 1. rewrite cascade_update_spec by (done || (cbn [length]; lia)). by rewrite fixup_same.
  - rewrite <- app_assoc. cbn [app]. rewrite tailpos_app by done. cbn [tailpos].
    apply wf_app in HwF as [HwF [Hn _]]. rewrite size_snoc in *.
    assert (last_raw 0 (F ++ [n]) = rawlen n) as -> by (unfold last_raw; by rewrite last_snoc).
    pose proof (focus F n (fixup (rawlen n) 0 S) c) as Hfo. rewrite Hfo.
    assert (hdr (11 + (size F + rawlen n + size S)) (tailpos 10 S + (size F + rawlen n)) c (ser 0 (F ++ [n]) ++ ser 0 S ++ [255]) =
      around c (ser 0 F) n (last_raw 0 F) 0 S) as ->.
    { unfold around. rewrite length_ser, tailpos_cons, ser_app by done. cbn [ser]. rewrite app_nil_r, <- !app_assoc.
      f_equal; [lia|]. rewrite <- tailpos_shift. f_equal. lia. }
    rewrite <- (length_ser F 0). apply cascade_update_spec; [done|done|]. rewrite length_ser. lia.
Qed.

Lemma merge_spec first second F S c1 c2 : holds first F c1 -> holds second S c2 -> S <> [] ->
  11 + size F + size S + 4 * zlen S < 2 ^ 32 ->
  exists zl c append, ziplistMerge fill false (Some first) (Some second) = Some (Some (zl, append)) /\
    holds zl (merged F S) c.
Proof.
  intros [-> HwF HsF HcF] [-> HwS HsS HcS] HS HB. pose proof (size_nonneg F). pose proof (size_nonneg S).
  pose proof (tailpos_bounds F 10). pose proof (tailpos_bounds S 10).
  pose proof HcF as [? _]. pose proof HcS as [? _].
  unfold ziplistMerge. rewrite !get_bytes, !get_length by lia. bsimpl. set (append := c1 >=? c2).
  rewrite !get_tail by lia.
  destruct (merge_copy F S c1 c2 append) as (b & t & c & Hcopy). cbv zeta in Hcopy.
  replace (u64 (11 + size F + (11 + size S) - 10 - 1)) with (11 + (size F + size S)) by (rewrite uwrap_small by (unfold in_u; lia); lia).
  set (zllength := if c1 + c2 <? UINT16_MAX then c1 + c2 else UINT16_MAX).
  assert (holds (hdr (11 + size (merged F S)) (tailpos 10 (merged F S)) zllength (ser 0 (merged F S) ++ [255])) (merged F S) zllength) as Hres.
  { split; [done| | |].
    - apply wf_app. split; [done|]. apply fixup_wf; [|lia|done]. apply (last_raw_range (hdr (11 + size F) (tailpos 10 F) c1 (ser 0 F ++ [255])) F [] c1).
      rewrite app_nil_r. by split.
    - unfold merged. rewrite size_app. pose proof (fixup_size S (last_raw 0 F) 0). lia.
    - unfold zllength, count_ok in *. unfold merged. rewrite length_app, fixup_length.
      destruct (Z.ltb_spec (c1 + c2) 65535); lia. }
  exists (hdr (11 + size (merged F S)) (tailpos 10 (merged F S)) zllength (ser 0 (merged F S) ++ [255])), zllength, append.
  split; [|done]. destruct append; bsimpl; rewrite Hcopy; bsimpl; rewrite set_bytes; bsimpl; rewrite set_length; bsimpl; rewrite set_tail; bsimpl.
  all: replace (11 + size F - 1 + (tailpos 10 S - 10)) with (tailpos 10 S + size F) by lia.
  all: by rewrite merged_around.
Qed.

(** An empty second list leaves the tail offset on the end mark. *)
Lemma merge_empty_tail first second F c1 c2 : holds first F c1 -> holds second [] c2 -> F <> [] ->
  exists zl, ziplistMerge fill false (Some first) (Some second) = Some (Some (zl, c1 >=? c2)) /\
    ZIPLIST_ENTRY_TAIL zl = Some (10 + size F) /\ is_end zl (10 + size F) = Some true.
Proof.
  intros [-> HwF HsF HcF] [-> _ _ HcS] HF. pose proof (size_nonneg F). change (size []) with 0. cbn [tailpos ser app].
  pose proof (tailpos_bounds F 10). pose proof HcF as [? _]. pose proof HcS as [? _].
  unfold ziplistMerge. rewrite !get_bytes, !get_length by lia. bsimpl. set (append := c1 >=? c2). rewrite !get_tail by lia.
  destruct (merge_copy F [] c1 c2 append) as (b & t & c & Hcopy). cbv zeta in Hcopy. change (size []) with 0 in Hcopy.
  cbn [tailpos ser app] in Hcopy.
  replace (u64 (11 + size F + (11 + 0) - 10 - 1)) with (11 + (size F + 0)) by (rewrite uwrap_small by (unfold in_u; lia); lia).
  set (zllength := if c1 + c2 <? UINT16_MAX then c1 + c2 else UINT16_MAX).
  set (zl := hdr (11 + (size F + 0)) (10 + size F) zllength (ser 0 F ++ [255])).
  assert (__ziplistCascadeUpdate fill zl (tailpos 10 F) = Some zl) as Hcas.
  { unfold __ziplistCascadeUpdate, zl. rewrite get_bytes by lia. bsimpl. fold zl. cbn [cascade_loop].
    destruct F as [|n F _] using rev_ind; [done|]. apply wf_app in HwF as [_ [Hn _]]. rewrite size_snoc in *.
    pose proof (size_nonneg F). pose proof (rawlen_min n). rewrite tailpos_app by done. cbn [tailpos].
    assert (zl = hdr (11 + (size F + rawlen n + 0)) (10 + (size F + rawlen n)) zllength (ser 0 F) ++ field n.1 (last_raw 0 F) ++ body n.2 ++ [255]) as Hz.
    { unfold zl. rewrite ?size_snoc, ser_app, <- hdr_app, <- app_assoc. cbn [ser]. by rewrite app_nil_r, <- app_assoc. }
    assert (10 + size F = zlen (hdr (11 + (size F + rawlen n + 0)) (10 + (size F + rawlen n)) zllength (ser 0 F))) as Hp
      by (by rewrite length_hdr, length_ser).
    rewrite (is_end_at _ _ _ _ _ _ Hz Hp Hn). bsimpl.
    rewrite (zipEntry_at _ _ _ _ _ _ _ Hz Hp Hn) by (rewrite <- surjective_pairing; lia).
    bsimpl. cbn [headersize len]. rewrite entry_raw, <- surjective_pairing, uwrap_small by (unfold in_u; lia).
    rewrite store_size. bsimpl. rewrite (is_end_mark zl (hdr (11 + (size F + rawlen n + 0)) (10 + (size F + rawlen n)) zllength (ser 0 (F ++ [n]))) []);
      [done|unfold zl; by rewrite ?size_snoc, hdr_app|rewrite length_hdr, length_ser, size_snoc; lia]. }
  exists zl. split_and!.
  - destruct append; bsimpl; rewrite Hcopy; bsimpl; rewrite set_bytes; bsimpl; rewrite set_length; bsimpl; rewrite set_tail; bsimpl.
    all: replace (11 + size F - 1 + (10 - 10)) with (10 + size F) by lia.
    all: fold zl; by rewrite Hcas.
  - unfold zl. apply get_tail. lia.
  - unfold zl. eapply is_end_mark; [by rewrite hdr_app|]. by rewrite length_hdr, length_ser.
Qed.

End ops.
End ZiplistOps.
