(* ===== verification/ZiplistRun.v ===== *)
(** The packed lists of [Ziplist] as lists of byte strings: walking, searching
    and counting, and the refinement of every sequence of operations. *)

From S2P Require Import Prelude UtilNum Ziplist ZiplistFacts ZiplistOps.

#[local] Open Scope Z_scope.

Module ZiplistRun.
Import UtilNum Ziplist ZiplistFacts ZiplistOps.
#[local] Notation zlen l := (Z.of_nat (length l)) (only parsing).

(** ** Looking up *)

Lemma new_spec fill : exists zl, ziplistNew fill = Some zl /\ holds zl [] 0.
Proof.
  exists (hdr 11 10 0 [255]). split; [|split; [done..|]; split; [lia|by right]]. unfold ziplistNew.
  assert (exists b t c x, fill <$> seq 0 (Z.to_nat (ZIPLIST_HEADER_SIZE + ZIPLIST_END_SIZE)) = b ++ t ++ c ++ [x] /\
    length b = 4%nat /\ length t = 4%nat /\ length c = 2%nat) as (b & t & c & x & -> & Hb & Ht & Hc).
  { exists (fill <$> seq 0 4), (fill <$> seq 4 4), (fill <$> seq 8 2), (fill 10%nat). by split_and!. }
  unfold set_ZIPLIST_BYTES. rewrite mwrite_head by done. bsimpl.
  unfold set_ZIPLIST_TAIL_OFFSET. rewrite mwrite_mid by done. bsimpl.
  unfold set_ZIPLIST_LENGTH. rewrite app_assoc, mwrite_mid by done. bsimpl.
  rewrite <- app_assoc. rewrite (mwrite_eq _ (hdr 11 10 0 []) [x] []); [by rewrite <- hdr_app|by rewrite <- hdr_app|done|done].
Qed.

(** The entry at an index, counted from the end when negative. *)
Definition entry_index {A} (l : list A) (i : Z) : option nat :=
  if 0 <=? i then if i <? zlen l then Some (Z.to_nat i) else None
  else if - i <=? zlen l then Some (Z.to_nat (zlen l + i)) else None.

Lemma index_forth_spec zl c b : forall a fuel i, holds zl (a ++ b) c -> (length b < fuel)%nat -> 0 <= i ->
  index_forth fuel zl (10 + size a) i =
    Some (10 + size (a ++ take (Z.to_nat i) b), if i <? zlen b then -1 else i - zlen b).
Proof.
  induction b as [|n b IH]; intros a fuel i Hh Hfuel Hi; (destruct fuel as [|fuel]; [simpl in Hfuel; lia|]); cbn [index_forth].
  - rewrite app_nil_r in Hh. rewrite (holds_end _ _ _ Hh). bsimpl. cbn [negb]. rewrite take_nil, app_nil_r.
    cbn [length]. rewrite (proj2 (Z.ltb_ge _ _)) by lia. by rewrite Z.sub_0_r.
  - rewrite (holds_not_end _ _ _ _ _ Hh). bsimpl. cbn [negb]. destruct (Z.eqb_spec i 0) as [->|Hne].
    + cbn [take Z.to_nat]. by rewrite app_nil_r.
    + rewrite (holds_raw _ _ _ _ _ Hh). bsimpl. rewrite <- Z.add_assoc, <- size_snoc. rewrite app_one in Hh.
      cbn [length] in Hfuel. rewrite (IH _ fuel (i - 1) Hh) by lia. replace (Z.to_nat i) with (S (Z.to_nat (i - 1))) by lia.
      cbn [take length]. rewrite <- app_assoc. cbn [app]. f_equal. f_equal.
      destruct (Z.ltb_spec (i - 1) (zlen b)), (Z.ltb_spec i (Z.of_nat (S (length b)))); lia.
Qed.

Lemma index_back_spec zl c a : forall n b fuel i, holds zl (a ++ n :: b) c -> (length a < fuel)%nat -> 0 <= i ->
  index_back fuel zl (10 + size a) (last_raw 0 a) i =
    Some (10 + size (take (length a - Z.to_nat i) a), if i <? zlen a then -1 else i - zlen a).
Proof.
  induction a as [|m a IH] using rev_ind; intros n b fuel i Hh Hfuel Hi; (destruct fuel as [|fuel]; [rewrite ?length_app in Hfuel; simpl in Hfuel; lia|]); cbn [index_back].
  - change (last_raw 0 []) with 0. cbn [Z.gtb Z.compare length take]. rewrite take_nil, (proj2 (Z.ltb_ge _ _)) by (simpl; lia).
    cbn [length]. by rewrite Z.sub_0_r.
  - assert (last_raw 0 (a ++ [m]) = rawlen m) as -> by (unfold last_raw; by rewrite last_snoc).
    pose proof (rawlen_min m). rewrite Z.gtb_ltb, (proj2 (Z.ltb_lt _ _)) by lia. rewrite length_app in *. cbn [length] in *.
    destruct (Z.eqb_spec i 0) as [->|Hne].
    + rewrite take_ge by (rewrite length_app; simpl; lia). rewrite (proj2 (Z.ltb_lt _ _)) by lia. done.
    + rewrite size_snoc. replace (10 + (size a + rawlen m) - rawlen m) with (10 + size a) by lia.
      rewrite <- app_assoc in Hh. cbn [app] in Hh. rewrite (holds_prevlen _ _ _ _ _ Hh). bsimpl.
      rewrite (IH m (n :: b) fuel (i - 1) Hh) by lia.
      replace (length a + 1 - Z.to_nat i)%nat with (length a - Z.to_nat (i - 1))%nat by lia. rewrite take_app_le by lia. f_equal. f_equal.
      destruct (Z.ltb_spec (i - 1) (zlen a)), (Z.ltb_spec i (Z.of_nat (length a + 1))); lia.
Qed.

Lemma holds_tail zl ns c : holds zl ns c -> ZIPLIST_ENTRY_TAIL zl = Some (tailpos 10 ns).
Proof. intros [-> _ Hs _]. pose proof (tailpos_bounds ns 10). apply get_tail. lia. Qed.

Lemma index_spec zl ns c i : holds zl ns c -> - 2 ^ 31 < i ->
  ziplistIndex zl i = Some ((fun k => 10 + size (take k ns)) <$> entry_index ns i).
Proof.
  intros Hh Hi. unfold ziplistIndex, entry_index. destruct (Z.leb_spec 0 i) as [H0|H0].
  - rewrite (proj2 (Z.ltb_ge i 0)) by lia.
    change ZIPLIST_ENTRY_HEAD with (10 + size []).
    rewrite (index_forth_spec zl c ns [] _ i Hh (holds_fuel _ _ _ Hh) H0). bsimpl. cbn [app].
    destruct (Z.ltb_spec i (zlen ns)).
    + assert (exists n, ns !! Z.to_nat i = Some n) as [n Hn] by (apply lookup_lt_is_Some; lia).
      rewrite <- (take_drop_middle ns _ n Hn) in Hh. rewrite (holds_not_end _ _ _ _ _ Hh). done.
    + rewrite take_ge by lia. rewrite (holds_end _ _ _ Hh). done.
  - rewrite (proj2 (Z.ltb_lt i 0)), (proj2 (Z.leb_gt i _)), (holds_tail _ _ _ Hh) by lia. bsimpl.
    destruct ns as [|n a _] using rev_ind.
    + pose proof (holds_end zl [] c Hh) as He. change (10 + size []) with 10 in He. cbn [tailpos]. rewrite He. bsimpl.
      cbn [negb]. bsimpl. rewrite He. bsimpl. cbn [length]. by rewrite (proj2 (Z.leb_gt _ _)) by (simpl; lia).
    + rewrite tailpos_app by done. cbn [tailpos]. rewrite (holds_not_end _ _ _ _ _ Hh). bsimpl. cbn [negb].
      rewrite (holds_prevlen _ _ _ _ _ Hh). bsimpl.
      pose proof (holds_fuel _ _ _ Hh) as Hfu. rewrite length_app in *. cbn [length] in *.
      rewrite (index_back_spec zl c a n [] _ (- i - 1) Hh) by lia. bsimpl.
      assert (exists m b, a ++ [n] = take (length a - Z.to_nat (- i - 1)) a ++ m :: b) as (m & b & Hab).
      { assert (exists m, (a ++ [n]) !! (length a - Z.to_nat (- i - 1))%nat = Some m) as [m Hm]
          by (apply lookup_lt_is_Some; rewrite length_app; simpl; lia).
        pose proof (take_drop_middle _ _ _ Hm) as Htd. rewrite take_app_le in Htd by lia. by eexists _, _. }
      rewrite Hab in Hh. rewrite (holds_not_end _ _ _ _ _ Hh). bsimpl. cbn [orb].
      destruct (Z.leb_spec (- i) (Z.of_nat (length a + 1))).
      * replace (Z.to_nat (Z.of_nat (length a + 1) + i)) with (length a - Z.to_nat (- i - 1))%nat by lia.
        cbn [fmap option_fmap option_map]. rewrite take_app_le by lia.
        destruct (Z.ltb_spec (- i - 1) (zlen a)); [done|]. by replace (- i - 1 - zlen a) with 0 by lia.
      * rewrite (proj2 (Z.ltb_ge (- i - 1) _)) by lia. rewrite Z.gtb_ltb, (proj2 (Z.ltb_lt _ _)) by lia. done.
Qed.

Lemma ziplistNext_at zl a n b c : holds zl (a ++ n :: b) c ->
  ziplistNext zl (10 + size a) = Some (if bool_decide (b = []) then None else Some (10 + size (a ++ [n]))).
Proof.
  intros Hh. unfold ziplistNext. rewrite (holds_not_end _ _ _ _ _ Hh), (holds_raw _ _ _ _ _ Hh). bsimpl.
  rewrite <- Z.add_assoc, <- size_snoc. rewrite app_one in Hh. destruct b as [|m b].
  - rewrite app_nil_r in Hh. rewrite (holds_end _ _ _ Hh). done.
  - rewrite (holds_not_end _ _ _ _ _ Hh). done.
Qed.

(** The entry before one, and before the end mark. *)
Lemma ziplistPrev_at zl a b c : holds zl (a ++ b) c ->
  ziplistPrev zl (10 + size a) = Some ((fun k => 10 + size (take k a)) <$> entry_index a (-1)).
Proof.
  intros Hh. unfold ziplistPrev, entry_index. cbn [Z.leb Z.compare Z.opp].
  destruct a as [|m a _] using rev_ind.
  - change (10 + size []) with 10. cbn [length app] in Hh |- *. destruct b as [|n b].
    + pose proof (holds_end zl [] c Hh) as He. change (10 + size []) with 10 in He. rewrite He. bsimpl.
      rewrite (holds_tail _ _ _ Hh). bsimpl. cbn [tailpos]. by rewrite He.
    + pose proof (holds_not_end zl [] n b c Hh) as He. change (10 + size []) with 10 in He. by rewrite He.
  - rewrite length_app. cbn [length]. rewrite (proj2 (Z.leb_le _ _)) by lia. cbn [fmap option_fmap option_map].
    replace (Z.to_nat (Z.of_nat (length a + 1) + -1)) with (length a) by lia. rewrite take_app_length.
    pose proof (rawlen_min m). pose proof (size_nonneg a). destruct b as [|n b].
    + rewrite app_nil_r in Hh. rewrite (holds_end _ _ _ Hh). bsimpl. rewrite (holds_tail _ _ _ Hh). bsimpl.
      rewrite tailpos_app by done. cbn [tailpos]. by rewrite (holds_not_end _ _ _ _ _ Hh).
    + rewrite (holds_not_end _ _ _ _ _ Hh). bsimpl. rewrite (proj2 (Z.eqb_neq _ _)) by (rewrite size_snoc; lia).
      rewrite (holds_prevlen _ _ _ _ _ Hh). bsimpl. unfold last_raw. rewrite last_snoc. cbn [from_option].
      rewrite Z.gtb_ltb, (proj2 (Z.ltb_lt _ _)), size_snoc by lia. do 2 f_equal. lia.
Qed.

Lemma load_at zl a n b c v : holds zl (a ++ n :: b) c -> string2ll n.2 = Some v ->
  zipLoadInteger zl (10 + size a + (fsize n.1 + zlen (header_of n.2))) (enc_of n.2) = Some v.
Proof.
  intros Hh Hv. pose proof (holds_data _ _ _ _ _ Hh) as Hz. pose proof (data_pos a n b c) as Hp.
  unfold enc_of, data_of in *. rewrite Hv in *. apply string2ll_decimal in Hv as [Hr _]. rewrite Hz. apply load_spec; [done|apply Hp].
Qed.

(** The string an entry stands for, from what [ziplistGet] delivers. *)
Definition fetch (zl : list Z) (f : found) : option (list Z) :=
  match f with
  | FoundStr sstr slen => mread zl sstr (Z.to_nat slen)
  | FoundInt v => Some (decimal v)
  end.

Lemma get_spec zl a n b c : holds zl (a ++ n :: b) c ->
  exists f, ziplistGet zl (Some (10 + size a)) = Some (Some f) /\ fetch zl f = Some n.2.
Proof.
  intros Hh. unfold ziplistGet. rewrite (holds_not_end _ _ _ _ _ Hh), (holds_entry _ _ _ _ _ Hh). bsimpl. cbn [encoding headersize len].
  rewrite is_str_enc. destruct (string2ll n.2) as [v|] eqn:Hv.
  - rewrite (load_at _ _ _ _ _ v Hh Hv). bsimpl. apply string2ll_decimal in Hv as [Hr Hn].
    exists (FoundInt v). split; [done|]. cbn [fetch]. by rewrite Hn.
  - eexists. split; [done|]. cbn [fetch]. pose proof (holds_data _ _ _ _ _ Hh) as Hz. pose proof (data_pos a n b c) as Hp.
    unfold data_of in *. rewrite Hv in *. rewrite Hz. apply mread_mid; [apply Hp|lia].
Qed.

(** Comparing an element with the string [s], as both comparisons of the code do. *)
Lemma equal_str zl a n b c s : holds zl (a ++ n :: b) c -> string2ll n.2 = None ->
  (if zlen (data_of n.2) =? zlen s
   then bs ← mread zl (10 + size a + (fsize n.1 + zlen (header_of n.2))) (length s); Some (bool_decide (bs = s))
   else Some false) = Some (bool_decide (n.2 = s)).
Proof.
  intros Hh Hv. pose proof (holds_data _ _ _ _ _ Hh) as Hz. pose proof (data_pos a n b c) as Hp.
  unfold data_of in *. rewrite Hv in *. destruct (Z.eqb_spec (zlen n.2) (zlen s)) as [Hl|Hl].
  - rewrite Hz. rewrite mread_mid by (apply Hp || lia). done.
  - rewrite bool_decide_eq_false_2; [done|]. congruence.
Qed.

Lemma equal_int v s : in_s 64 v ->
  match string2ll s with Some w => v =? w | None => false end = bool_decide (decimal v = s).
Proof.
  intros Hv. destruct (string2ll s) as [w|] eqn:Hw.
  - pose proof Hw as [Hr ->]%string2ll_decimal. destruct (Z.eqb_spec v w) as [->|Hne].
    + by rewrite bool_decide_eq_true_2.
    + rewrite bool_decide_eq_false_2; [done|]. intros Heq.
      assert (string2ll (decimal v) = Some v) as Hs by (by apply string2ll_decimal). rewrite Heq in Hs. congruence.
  - rewrite bool_decide_eq_false_2; [done|]. intros <-. pose proof (proj2 (string2ll_decimal (decimal v) v) (conj Hv eq_refl)). congruence.
Qed.

Lemma compare_spec zl a n b c s : holds zl (a ++ n :: b) c ->
  ziplistCompare zl (10 + size a) s = Some (bool_decide (n.2 = s)).
Proof.
  intros Hh. unfold ziplistCompare. rewrite (holds_not_end _ _ _ _ _ Hh), (holds_entry _ _ _ _ _ Hh). bsimpl. cbn [encoding headersize len].
  rewrite is_str_enc. destruct (string2ll n.2) as [v|] eqn:Hv; [|by apply (equal_str _ _ _ _ _ _ Hh)].
  pose proof Hv as [Hr Hn]%string2ll_decimal. rewrite Hn, <- (equal_int v s Hr), try_spec.
  destruct (string2ll s) as [w|]; cbn [fmap option_fmap option_map]; [|done].
  rewrite <- Hn. by rewrite (load_at _ _ _ _ _ v Hh Hv).
Qed.

(** The first of every [skip + 1] elements that is [s], [k] being skipped
    before. *)
Fixpoint find_from {A} `{EqDecision A} (s : A) (skip k : nat) (l : list A) : option nat :=
  match l with
  | [] => None
  | x :: l =>
      match k with
      | O => if bool_decide (x = s) then Some O else S <$> find_from s skip skip l
      | S k => S <$> find_from s skip k l
      end
  end.

(** What the loop remembers of the search key. *)
Definition key_ok (s : list Z) (venc vll : Z) : Prop :=
  venc = 0 \/ match string2ll s with Some w => venc <> 0 /\ venc <> 255 /\ vll = w | None => venc = 255 end.

Lemma key_step s venc vll : key_ok s venc vll ->
  let '(venc, vll) := if venc =? 0 then match zipTryEncoding s with Some (v, e) => (e, v) | None => (255, vll) end else (venc, vll) in
  venc <> 0 /\ key_ok s venc vll /\
  forall v (lo : option Z), lo = Some v ->
    (if negb (venc =? 255) then ll ← lo; Some (ll =? vll) else Some false) =
      Some match string2ll s with Some w => v =? w | None => false end.
Proof.
  intros Hk. rewrite try_spec. unfold key_ok in *. destruct (string2ll s) as [w|] eqn:Hw; cbn [fmap option_fmap option_map].
  - pose proof Hw as [Hr _]%string2ll_decimal. pose proof (int_not_str w Hr).
    destruct (Z.eqb_spec venc 0) as [->|Hne].
    + split_and!; [lia|right; split_and!; lia|]. intros v lo ->. rewrite (proj2 (Z.eqb_neq _ 255)) by lia. done.
    + destruct Hk as [?|(_ & H255 & ->)]; [done|]. split_and!; [done|by right|]. intros v lo ->.
      by rewrite (proj2 (Z.eqb_neq _ 255)).
  - destruct (Z.eqb_spec venc 0) as [->|Hne]; [split_and!; [done|by right|done]|].
    destruct Hk as [? | ->]; [done|]. split_and!; [done|by right|done].
Qed.

Lemma find_spec_loop zl c s skip b : forall a fuel k venc vll, holds zl (a ++ b) c -> (length b < fuel)%nat -> key_ok s venc vll ->
  find_loop fuel zl (10 + size a) s (Z.of_nat skip) (Z.of_nat k) venc vll =
    Some ((fun j => 10 + size (a ++ take j b)) <$> find_from s skip k b.*2).
Proof.
  induction b as [|n b IH]; intros a fuel k venc vll Hh Hfuel Hk; (destruct fuel as [|fuel]; [simpl in Hfuel; lia|]); cbn [find_loop].
  - rewrite app_nil_r in Hh. by rewrite (holds_end _ _ _ Hh).
  - rewrite (holds_not_end _ _ _ _ _ Hh), (holds_prevlensize _ _ _ _ _ Hh). bsimpl. rewrite (holds_decode _ _ _ _ _ Hh). bsimpl.
    cbn [length] in Hfuel. cbn [fmap list_fmap find_from].
    assert (10 + size a + fsize n.1 + zlen (header_of n.2) + zlen (data_of n.2) = 10 + size (a ++ [n])) as Hnext.
    { rewrite size_snoc. destruct n as [bn sn]. rewrite <- entry_raw. cbn [fst snd]. lia. }
    assert (forall k venc vll, key_ok s venc vll ->
      find_loop fuel zl (10 + size a + fsize n.1 + zlen (header_of n.2) + zlen (data_of n.2)) s (Z.of_nat skip) (Z.of_nat k) venc vll =
      Some ((fun j => 10 + size (a ++ take j (n :: b))) <$> (S <$> find_from s skip k b.*2))) as Hrec.
    { intros k' ve vl Hk'. rewrite Hnext. rewrite app_one in Hh. rewrite (IH _ fuel k' ve vl Hh) by (done || lia).
      destruct (find_from s skip k' b.*2); [|done]. cbn [fmap option_fmap option_map take]. by rewrite <- app_assoc. }
    replace (10 + size a + fsize n.1 + zlen (header_of n.2)) with (10 + size a + (fsize n.1 + zlen (header_of n.2))) in * by lia.
    destruct k as [|k].
    + cbn [Z.of_nat Z.eqb]. rewrite is_str_enc. destruct (string2ll n.2) as [v|] eqn:Hv.
      * pose proof (key_step s venc vll Hk) as Hks. destruct (if venc =? 0 then _ else _) as [ve vl].
        destruct Hks as (H0 & Hk' & Heq). rewrite (proj2 (Z.eqb_neq ve 0)) by done.
        rewrite (Heq v _ (load_at _ _ _ _ _ v Hh Hv)). bsimpl. pose proof Hv as [Hr Hn]%string2ll_decimal.
        rewrite (equal_int v s Hr), <- Hn. destruct (bool_decide (n.2 = s)); [|by apply Hrec].
        cbn [fmap option_fmap option_map take]. by rewrite app_nil_r.
      * rewrite (equal_str _ _ _ _ _ _ Hh Hv). bsimpl. destruct (bool_decide (n.2 = s)); [|by apply Hrec].
        cbn [fmap option_fmap option_map take]. by rewrite app_nil_r.
    + rewrite (proj2 (Z.eqb_neq _ _)) by lia. replace (Z.of_nat (S k) - 1) with (Z.of_nat k) by lia. by apply Hrec.
Qed.

Lemma find_spec zl a b c s (skip : nat) : holds zl (a ++ b) c -> Z.of_nat skip < 2 ^ 31 ->
  ziplistFind zl (10 + size a) s (Z.of_nat skip) = Some ((fun j => 10 + size (a ++ take j b)) <$> find_from s skip 0 b.*2).
Proof.
  intros Hh Hs. unfold ziplistFind. rewrite swrap_small by (unfold in_s; lia). change 0 with (Z.of_nat 0) at 1.
  apply (find_spec_loop zl c s skip b); [done| |by left].
  pose proof (holds_fuel _ _ _ Hh) as Hfu. rewrite length_app in Hfu. lia.
Qed.

Lemma len_loop_spec zl c b : forall a fuel k, holds zl (a ++ b) c -> (length b < fuel)%nat -> 0 <= k -> k + zlen b < 2 ^ 32 ->
  len_loop fuel zl (10 + size a) k = Some (k + zlen b).
Proof.
  induction b as [|n b IH]; intros a fuel k Hh Hfuel Hk Hl; (destruct fuel as [|fuel]; [simpl in Hfuel; lia|]); cbn [len_loop length].
  - rewrite app_nil_r in Hh. rewrite (holds_end _ _ _ Hh). bsimpl. by rewrite Z.add_0_r.
  - rewrite (holds_not_end _ _ _ _ _ Hh), (holds_raw _ _ _ _ _ Hh). bsimpl. cbn [length] in *.
    rewrite <- Z.add_assoc, <- size_snoc. rewrite app_one in Hh. rewrite uwrap_small by (unfold in_u; lia).
    rewrite (IH _ fuel (k + 1) Hh) by lia. f_equal. lia.
Qed.

Lemma len_spec zl ns c : holds zl ns c ->
  exists zl' c', ziplistLen zl = Some (zl', zlen ns) /\ holds zl' ns c'.
Proof.
  intros Hh. pose proof Hh as [Hz Hw Hs [Hc Hk]]. pose proof (size_nonneg ns). unfold ziplistLen.
  assert (ZIPLIST_LENGTH zl = Some c) as -> by (rewrite Hz; apply get_length; lia). bsimpl.
  destruct (Z.ltb_spec c 65535).
  - exists zl, c. split; [|done]. do 2 f_equal. lia.
  - change ZIPLIST_HEADER_SIZE with (10 + size []). rewrite (len_loop_spec zl c ns []) by (done || lia || by eapply holds_fuel).
    bsimpl. rewrite Z.add_0_l. destruct (Z.ltb_spec (zlen ns) 65535).
    + rewrite Hz, set_length. bsimpl. eexists _, _. split; [done|]. split; [done..|]. split; [lia|by right].
    + by exists zl, c.
Qed.

(** ** Sequences of operations *)

(** [zl] is a packed list of the strings [l]. *)
Definition packs (zl : list Z) (l : list (list Z)) : Prop := exists ns c, holds zl ns c /\ ns.*2 = l.

(** Enough room in the 32-bit size for the strings and their fields. *)
Definition weight (l : list (list Z)) : Z := foldr (fun s z => zlen s + 22 + z) 0 l.
Definition room (l : list (list Z)) : Prop := 11 + weight l < 2 ^ 32.

Lemma weight_cons s l : weight (s :: l) = zlen s + 22 + weight l.
Proof. done. Qed.

Lemma weight_app l1 l2 : weight (l1 ++ l2) = weight l1 + weight l2.
Proof. unfold weight. induction l1 as [|s l1 IH]; cbn [app foldr]; lia. Qed.

Lemma weight_nonneg l : 0 <= weight l.
Proof. unfold weight. induction l as [|s l IH]; cbn [foldr]; lia. Qed.

Lemma weight_size (ns : list node) : size ns + 4 * zlen ns <= weight ns.*2.
Proof.
  unfold weight. induction ns as [|n ns IH]; [done|]. rewrite size_cons. cbn [fmap list_fmap foldr length].
  assert (rawlen n <= zlen n.2 + 18) by (unfold rawlen; pose proof (fsize_bounds n.1); pose proof (body_small n.2); lia). lia.
Qed.

Lemma weight_roomy (ns : list node) k : 11 + weight ns.*2 + k < 2 ^ 32 -> roomy ns k.
Proof. intros H. pose proof (weight_size ns). unfold roomy. lia. Qed.

Inductive op :=
  | Push (s : list Z) (where_ : Z)
  | Insert (i : Z) (s : list Z)
  | Delete (i : Z)
  | DeleteRange (i num : Z)
  | Merge (l : list (list Z))
  | Get (i : Z)
  | Compare (i : Z) (s : list Z)
  | Find (s : list Z) (skip : nat)
  | Len.

Inductive answer := Unit | Value (v : option (list Z)) | Bool (b : bool) | Num (n : Z).

Section run.
Context (fill : nat -> Z).

(** Callers find an entry with [ziplistIndex] before they insert, delete or
    read. *)
Definition at_index {A} (zl : list Z) (i : Z) (none : A) (k : Z -> option A) : option A :=
  p ← ziplistIndex zl i; match p with None => Some none | Some p => k p end.

Fixpoint push_all (zl : list Z) (l : list (list Z)) : option (list Z) :=
  match l with
  | [] => Some zl
  | s :: l => zl ← ziplistPush fill zl s ZIPLIST_TAIL; push_all zl l
  end.

Definition run_op (zl : list Z) (o : op) : option (list Z * answer) :=
  match o with
  | Push s where_ => zl ← ziplistPush fill zl s where_; Some (zl, Unit)
  | Insert i s => zl ← at_index zl i zl (fun p => ziplistInsert fill zl p s); Some (zl, Unit)
  | Delete i => zl ← at_index zl i zl (fun p => '(zl, _) ← ziplistDelete fill zl p; Some zl); Some (zl, Unit)
  | DeleteRange i num => zl ← ziplistDeleteRange fill zl i num; Some (zl, Unit)
  | Merge l =>
      second ← ziplistNew fill;
      second ← push_all second l;
      r ← ziplistMerge fill false (Some zl) (Some second);
      match r with Some (zl, _) => Some (zl, Unit) | None => None end
  | Get i =>
      v ← at_index zl i None (fun p => f ← ziplistGet zl (Some p); match f with Some f => Some <$> fetch zl f | None => None end);
      Some (zl, Value v)
  | Compare i s => b ← at_index zl i false (fun p => ziplistCompare zl p s); Some (zl, Bool b)
  | Find s skip => p ← ziplistFind zl ZIPLIST_ENTRY_HEAD s (Z.of_nat skip); Some (zl, Bool (bool_decide (is_Some p)))
  | Len => '(zl, n) ← ziplistLen zl; Some (zl, Num n)
  end.

Fixpoint run (zl : list Z) (os : list op) : option (list Z * list answer) :=
  match os with
  | [] => Some (zl, [])
  | o :: os => '(zl, a) ← run_op zl o; '(zl, rest) ← run zl os; Some (zl, a :: rest)
  end.

End run.

(** The same operations on lists. *)
Definition abs_op (l : list (list Z)) (o : op) : list (list Z) * answer :=
  match o with
  | Push s where_ => (if where_ =? ZIPLIST_HEAD then s :: l else l ++ [s], Unit)
  | Insert i s => (match entry_index l i with Some k => take k l ++ s :: drop k l | None => l end, Unit)
  | Delete i => (match entry_index l i with Some k => take k l ++ drop (S k) l | None => l end, Unit)
  | DeleteRange i num =>
      (match entry_index l i with Some k => take k l ++ drop (k + Z.to_nat num) l | None => l end, Unit)
  | Merge l2 => (l ++ l2, Unit)
  | Get i => (l, Value (k ← entry_index l i; l !! k))
  | Compare i s => (l, Bool match entry_index l i with Some k => bool_decide (l !! k = Some s) | None => false end)
  | Find s skip => (l, Bool (bool_decide (is_Some (find_from s skip 0 l))))
  | Len => (l, Num (zlen l))
  end.

Fixpoint abs_run (l : list (list Z)) (os : list op) : list (list Z) * list answer :=
  match os with
  | [] => (l, [])
  | o :: os => let '(l, a) := abs_op l o in let '(l, rest) := abs_run l os in (l, a :: rest)
  end.

(** Indices and counts of the C types, and lists that stay below 4 GB. *)
Definition op_ok (o : op) : Prop :=
  match o with
  | Insert i _ | Delete i | Get i | Compare i _ => - 2 ^ 31 < i
  | DeleteRange i num => - 2 ^ 31 < i /\ 0 <= num
  | Find _ skip => Z.of_nat skip < 2 ^ 31
  | Merge l => l <> []
  | Push _ _ | Len => True
  end.

Fixpoint fits (l : list (list Z)) (os : list op) : Prop :=
  room l /\
  match os with
  | [] => True
  | o :: os => op_ok o /\ room (abs_op l o).1 /\ fits (abs_op l o).1 os
  end.

Section refines.
Context (fill : nat -> Z).

Lemma entry_index_lt {A} (l : list A) i k : entry_index l i = Some k -> (k < length l)%nat.
Proof.
  unfold entry_index. destruct (Z.leb_spec 0 i).
  - destruct (Z.ltb_spec i (zlen l)); [|done]. intros [= <-]. lia.
  - destruct (Z.leb_spec (- i) (zlen l)); [|done]. intros [= <-]. lia.
Qed.

Lemma entry_index_fmap (ns : list node) i : entry_index ns i = entry_index ns.*2 i.
Proof. unfold entry_index. by rewrite length_fmap. Qed.

(** Finding the entry at an index, or none. *)
Lemma at_index_spec {A} zl (ns : list node) c i (none : A) k : holds zl ns c -> - 2 ^ 31 < i ->
  entry_index ns.*2 i = None /\ at_index zl i none k = Some none \/
  exists a n b, ns = a ++ n :: b /\ entry_index ns.*2 i = Some (length a) /\ at_index zl i none k = k (10 + size a).
Proof.
  intros Hh Hi. unfold at_index. rewrite (index_spec _ _ _ _ Hh Hi), entry_index_fmap. bsimpl.
  destruct (entry_index ns.*2 i) as [j|] eqn:Hj; [right|by left].
  pose proof (entry_index_lt _ _ _ Hj) as Hlt. rewrite length_fmap in Hlt.
  destruct (lookup_lt_is_Some_2 ns j Hlt) as [n Hn]. exists (take j ns), n, (drop (S j) ns).
  split_and!; [by rewrite take_drop_middle| |done]. rewrite length_take. f_equal. lia.
Qed.

Lemma insert_packs zl a b c s : holds zl (a ++ b) c -> 11 + weight (a ++ b).*2 + (zlen s + 22) < 2 ^ 32 ->
  exists zl', __ziplistInsert fill zl (10 + size a) s = Some zl' /\ packs zl' (a.*2 ++ s :: b.*2).
Proof.
  intros Hh Hw. destruct (insert_spec fill zl a s b c Hh) as (zl' & -> & Hh'); [by apply weight_roomy|].
  exists zl'. split; [done|]. eexists _, _. split; [done|]. apply inserted_contents.
Qed.

Lemma delete_packs zl a d b c num : holds zl (a ++ d ++ b) c -> room (a ++ d ++ b).*2 -> d <> [] ->
  num = zlen d \/ b = [] /\ zlen d <= num ->
  exists zl', __ziplistDelete fill zl (10 + size a) num = Some zl' /\ packs zl' (a.*2 ++ b.*2).
Proof.
  intros Hh Hr Hd Hn. destruct (delete_spec fill zl a d b c num Hh Hd Hn) as (zl' & -> & Hh').
  { apply weight_roomy. unfold room in Hr. lia. }
  exists zl'. split; [done|]. eexists _, _. split; [done|]. by rewrite fmap_app, reprev_contents.
Qed.

(** Deleting nothing. *)
Lemma delete_none zl a n b c : holds zl (a ++ n :: b) c -> __ziplistDelete fill zl (10 + size a) 0 = Some zl.
Proof.
  intros Hh. unfold __ziplistDelete. rewrite (holds_entry _ _ _ _ _ Hh). bsimpl. cbn [skip_entries].
  rewrite (holds_not_end _ _ _ _ _ Hh). bsimpl. cbn [negb andb Z.ltb Z.compare]. bsimpl. cbn [ptr]. by rewrite Z.sub_diag.
Qed.

Lemma push_packs zl l s w : packs zl l -> room (if w =? ZIPLIST_HEAD then s :: l else l ++ [s]) ->
  exists zl', ziplistPush fill zl s w = Some zl' /\ packs zl' (if w =? ZIPLIST_HEAD then s :: l else l ++ [s]).
Proof.
  intros (ns & c & Hh & <-) Hr. unfold room in Hr. unfold ziplistPush. destruct (w =? ZIPLIST_HEAD).
  - bsimpl. change ZIPLIST_ENTRY_HEAD with (10 + size []). apply (insert_packs zl [] ns c s Hh). cbn [app]. rewrite weight_cons in Hr. lia.
  - unfold ZIPLIST_ENTRY_END. assert (ZIPLIST_BYTES zl = Some (11 + size ns)) as ->.
    { destruct Hh as [-> _ Hs _]. pose proof (size_nonneg ns). apply get_bytes. lia. }
    bsimpl. replace (11 + size ns - 1) with (10 + size ns) by lia. rewrite weight_app, weight_cons in Hr. change (weight []) with 0 in Hr.
    assert (holds zl (ns ++ []) c) as Hh' by by rewrite app_nil_r.
    destruct (insert_packs zl ns [] c s Hh') as (zl' & Hi & Hp); [rewrite app_nil_r; lia|]. exists zl'. by split.
Qed.

Lemma push_all_packs l2 : forall zl l, packs zl l -> room (l ++ l2) ->
  exists zl', push_all fill zl l2 = Some zl' /\ packs zl' (l ++ l2).
Proof.
  induction l2 as [|s l2 IH]; intros zl l Hp Hr; cbn [push_all].
  - exists zl. by rewrite app_nil_r.
  - assert (room (l ++ [s])) as Hr1.
    { unfold room in *. rewrite !weight_app, !weight_cons in *. pose proof (weight_nonneg l2). change (weight []) with 0. lia. }
    destruct (push_packs zl l s ZIPLIST_TAIL Hp Hr1) as (zl1 & -> & Hp1). bsimpl. cbn [Z.eqb] in Hp1.
    destruct (IH zl1 (l ++ [s]) Hp1) as (zl' & -> & Hp'); [by rewrite <- app_assoc|]. exists zl'. split; [done|]. by rewrite <- app_assoc in Hp'.
Qed.

(** The strings around an entry. *)
Lemma contents_split a (n : node) b : let l := (a ++ n :: b).*2 in
  take (length a) l = a.*2 /\ drop (length a) l = n.2 :: b.*2 /\ drop (S (length a)) l = b.*2 /\ l !! length a = Some n.2.
Proof.
  intros l. unfold l. rewrite fmap_app, <- (length_fmap snd a). cbn [fmap list_fmap].
  split_and!; [by rewrite take_app_length|by rewrite drop_app_length| |].
  - rewrite drop_app_ge by lia. by rewrite Nat.sub_succ_l, Nat.sub_diag by lia.
  - by rewrite list_lookup_middle.
Qed.

(** A range to delete. *)
Lemma delete_range zl ns a n b c num : holds zl ns c -> ns = a ++ n :: b -> room ns.*2 -> 0 <= num ->
  exists zl', __ziplistDelete fill zl (10 + size a) num = Some zl' /\
    packs zl' (a.*2 ++ drop (length a + Z.to_nat num) ns.*2).
Proof.
  intros Hh -> Hr Hnum. destruct (contents_split a n b) as (_ & Hd & _).
  rewrite <- drop_drop, Hd. destruct (Z.eq_dec num 0) as [->|Hne].
  - rewrite (delete_none _ _ _ _ _ Hh). exists zl. split; [done|]. eexists _, c. split; [done|]. by rewrite fmap_app.
  - set (d := take (Z.to_nat num) (n :: b)). set (r := drop (Z.to_nat num) (n :: b)).
    assert (a ++ n :: b = a ++ d ++ r) as Hns by (unfold d, r; by rewrite take_drop).
    assert (zlen d = num \/ r = [] /\ zlen d <= num) as Hdr.
    { unfold d, r. destruct (decide (Z.to_nat num <= length (n :: b))%nat).
      - left. rewrite length_take. lia.
      - right. split; [apply drop_ge; lia|rewrite length_take; lia]. }
    rewrite Hns in Hh, Hr. destruct (delete_packs zl a d r c num Hh Hr) as (zl' & Hdel & Hp).
    { unfold d. destruct (Z.to_nat num) eqn:?; [lia|done]. }
    { destruct Hdr as [Hdr|Hdr]; [by left|by right]. }
    exists zl'. split; [done|]. unfold r in Hp. change (n.2 :: b.*2) with ((n :: b).*2). by rewrite <- fmap_drop.
Qed.

Lemma merge_packs zl l l2 : packs zl l -> l2 <> [] -> room (l ++ l2) ->
  exists zl', run_op fill zl (Merge l2) = Some (zl', Unit) /\ packs zl' (l ++ l2).
Proof.
  intros (F & c1 & HF & Hl) Hl2 Hr. cbn [run_op]. unfold room in Hr. rewrite weight_app in Hr.
  pose proof (weight_nonneg l). pose proof (weight_nonneg l2).
  destruct (new_spec fill) as (z0 & -> & Hz0). bsimpl.
  destruct (push_all_packs l2 z0 []) as (z1 & -> & (S & c2 & HS & Hl')).
  { by exists [], 0. }
  { unfold room. cbn [app]. lia. }
  cbn [app] in Hl'. bsimpl.
  destruct (merge_spec fill zl z1 F S c1 c2 HF HS) as (zl' & c & app & -> & Hh').
  { intros ->. by subst l2. }
  { pose proof (weight_size F). pose proof (weight_size S). rewrite Hl in *. rewrite Hl' in *. pose proof (size_nonneg F). lia. }
  bsimpl. exists zl'. split; [done|]. eexists _, _. split; [done|]. unfold merged.
  by rewrite fmap_app, fixup_contents, Hl, Hl'.
Qed.

#[local] Ltac find_entry Hh Ho Hl :=
  match goal with
  | |- context [at_index ?zl ?i ?none ?k] =>
      destruct (at_index_spec zl _ _ i none k Hh Ho) as [[Hn ->]|(a & n & b & Hns & Hn & ->)];
      rewrite Hl in Hn; rewrite Hn in *; bsimpl
  end.

Lemma run_op_refines zl l o : packs zl l -> room l -> op_ok o -> room (abs_op l o).1 ->
  exists zl', run_op fill zl o = Some (zl', (abs_op l o).2) /\ packs zl' (abs_op l o).1.
Proof.
  intros Hp Hr Ho Hr'. pose proof Hp as (ns & c & Hh & Hl). destruct o as [s w|i s|i|i num|l2|i|i s|s skip|]; cbn [abs_op fst snd op_ok] in *;
    [| | | |by apply merge_packs|..]; cbn [run_op].
  - destruct (push_packs zl l s w Hp Hr') as (zl' & -> & Hp'). by exists zl'.
  - find_entry Hh Ho Hl; [by exists zl|]. subst ns. destruct (contents_split a n b) as (Ht & Hd & _). rewrite Hl in Ht, Hd.
    rewrite Ht, Hd in *. destruct (insert_packs zl a (n :: b) c s Hh) as (zl' & Hi & Hp').
    { unfold room in Hr'. rewrite weight_app, !weight_cons in Hr'. rewrite fmap_app, weight_app. cbn [fmap list_fmap]. rewrite weight_cons. lia. }
    unfold ziplistInsert. rewrite Hi. by exists zl'.
  - find_entry Hh Ho Hl; [by exists zl|]. rewrite <- Hl in Hr. destruct (delete_range zl ns a n b c 1 Hh Hns Hr) as (zl' & Hi & Hp'); [lia|].
    unfold ziplistDelete. rewrite Hi. bsimpl. exists zl'. split; [done|]. subst ns. destruct (contents_split a n b) as (Ht & _).
    rewrite Hl in *. rewrite Ht. by rewrite Nat.add_1_r in Hp'.
  - destruct Ho as [Ho Hnum]. unfold ziplistDeleteRange. rewrite (index_spec _ _ _ _ Hh Ho). bsimpl.
    rewrite entry_index_fmap, Hl. destruct (entry_index l i) as [j|] eqn:Hj; cbn [fmap option_fmap option_map]; [|by exists zl].
    pose proof (entry_index_lt _ _ _ Hj) as Hlt. rewrite <- Hl, length_fmap in Hlt.
    destruct (lookup_lt_is_Some_2 ns j Hlt) as [n Hn]. assert (ns = take j ns ++ n :: drop (S j) ns) as Hns by (by rewrite take_drop_middle).
    rewrite <- Hl in Hr. destruct (delete_range zl ns _ n _ c num Hh Hns Hr Hnum) as (zl' & -> & Hp').
    bsimpl. exists zl'. split; [done|]. rewrite length_take, Nat.min_l, fmap_take, Hl in Hp' by lia. done.
  - find_entry Hh Ho Hl; [by exists zl|]. subst ns. destruct (get_spec _ _ _ _ _ Hh) as (f & -> & Hf). bsimpl. rewrite Hf.
    cbn [fmap option_fmap option_map]. bsimpl. destruct (contents_split a n b) as (_ & _ & _ & Hlk). rewrite Hl in Hlk. rewrite Hlk. by exists zl.
  - find_entry Hh Ho Hl; [by exists zl|]. subst ns. rewrite (compare_spec _ _ _ _ _ s Hh). bsimpl.
    destruct (contents_split a n b) as (_ & _ & _ & Hlk). rewrite Hl in Hlk. rewrite Hlk. exists zl. split; [|done]. do 3 f_equal.
    apply bool_decide_ext. split; [by intros ->|by intros [= ->]].
  - change ZIPLIST_ENTRY_HEAD with (10 + size []). rewrite (find_spec zl [] ns c s skip Hh Ho), Hl. bsimpl. exists zl. split; [|done].
    do 3 f_equal. apply bool_decide_ext. by rewrite fmap_is_Some.
  - destruct (len_spec _ _ _ Hh) as (zl' & c' & -> & Hh'). bsimpl. exists zl'. split; [|by exists ns, c'].
    by rewrite <- Hl, length_fmap.
Qed.

Lemma run_refines os : forall zl l, packs zl l -> fits l os ->
  exists zl', run fill zl os = Some (zl', (abs_run l os).2) /\ packs zl' (abs_run l os).1.
Proof.
  induction os as [|o os IH]; intros zl l Hp Hf; cbn [run abs_run]; [by exists zl|].
  destruct Hf as (Hr & Ho & Hr' & Hf). destruct (run_op_refines zl l o Hp Hr Ho Hr') as (z1 & -> & Hp1). bsimpl.
  destruct (abs_op l o) as [l1 a1]. cbn [fst snd] in *. destruct (IH z1 l1 Hp1 Hf) as (zl' & -> & Hp'). bsimpl.
  destruct (abs_run l1 os) as [l2 as2]. by exists zl'.
Qed.

End refines.

(** ** Walking a list *)

(** The strings on the way of a step from entry to entry. *)
Fixpoint walk (step : list Z -> Z -> option (option Z)) (zl : list Z) (fuel : nat) (p : option Z) : option (list (list Z)) :=
  match fuel, p with
  | _, None => Some []
  | O, Some _ => None
  | S fuel, Some p =>
      f ← ziplistGet zl (Some p);
      match f with
      | None => None
      | Some f => s ← fetch zl f; p ← step zl p; l ← walk step zl fuel p; Some (s :: l)
      end
  end.

Definition walk_from (step : list Z -> Z -> option (option Z)) (zl : list Z) (i : Z) : option (list (list Z)) :=
  p ← ziplistIndex zl i; walk step zl (length zl) p.

Lemma walk_next zl c b : forall a n fuel, holds zl (a ++ n :: b) c -> (length b < fuel)%nat ->
  walk ziplistNext zl fuel (Some (10 + size a)) = Some (n.2 :: b.*2).
Proof.
  induction b as [|m b IH]; intros a n fuel Hh Hf; (destruct fuel as [|fuel]; [lia|]); cbn [walk].
  all: destruct (get_spec _ _ _ _ _ Hh) as (f & -> & Hfe); bsimpl; rewrite Hfe; bsimpl; rewrite (ziplistNext_at _ _ _ _ _ Hh); bsimpl.
  - by destruct fuel.
  - rewrite app_one in Hh. rewrite bool_decide_eq_false_2 by done. rewrite (IH (a ++ [n]) m fuel Hh) by (cbn [length] in *; lia). done.
Qed.

Lemma walk_prev zl c a : forall n b fuel, holds zl (a ++ n :: b) c -> (length a < fuel)%nat ->
  walk ziplistPrev zl fuel (Some (10 + size a)) = Some (n.2 :: reverse a.*2).
Proof.
  induction a as [|m a IH] using rev_ind; intros n b fuel Hh Hf; (destruct fuel as [|fuel]; [lia|]); cbn [walk].
  all: destruct (get_spec _ _ _ _ _ Hh) as (f & -> & Hfe); bsimpl; rewrite Hfe; bsimpl; rewrite (ziplistPrev_at _ _ _ _ Hh); bsimpl.
  - by destruct fuel.
  - rewrite length_app in Hf. cbn [length] in Hf. unfold entry_index. cbn [Z.leb Z.compare Z.opp]. rewrite length_app. cbn [length].
    rewrite (proj2 (Z.leb_le _ _)) by lia. cbn [fmap option_fmap option_map].
    replace (Z.to_nat (Z.of_nat (length a + 1) + -1)) with (length a) by lia. rewrite take_app_length.
    rewrite <- app_assoc in Hh. rewrite (IH m (n :: b) fuel Hh) by lia. bsimpl. by rewrite fmap_app, reverse_app.
Qed.

Lemma packs_walks zl l : packs zl l ->
  walk_from ziplistNext zl 0 = Some l /\ walk_from ziplistPrev zl (-1) = Some (reverse l).
Proof.
  intros (ns & c & Hh & <-). pose proof (holds_fuel _ _ _ Hh). unfold walk_from. rewrite !(index_spec _ _ _ _ Hh) by lia. bsimpl.
  unfold entry_index. cbn [Z.leb Z.compare Z.opp]. split.
  - destruct ns as [|n b]; [by destruct (length zl)|]. cbn [length] in *. rewrite (proj2 (Z.ltb_lt _ _)) by lia.
    cbn [fmap option_fmap option_map Z.to_nat take]. by apply (walk_next zl c b [] n); [|lia].
  - destruct ns as [|n a _] using rev_ind; [by destruct (length zl)|]. rewrite length_app in *. cbn [length] in *.
    rewrite (proj2 (Z.leb_le _ _)) by lia. cbn [fmap option_fmap option_map].
    replace (Z.to_nat (Z.of_nat (length a + 1) + -1)) with (length a) by lia. rewrite take_app_length.
    rewrite (walk_prev zl c a n [] _ Hh) by lia. by rewrite fmap_app, reverse_app.
Qed.

(** ** The claims *)

(** C7: a ziplist is a list of strings. Whatever program of pushes at both ends,
    insertions, deletions, deletions of ranges, merges with a ziplist that is
    not empty, reads, comparisons, searches and length queries starts from a
    new ziplist, with arguments in the range of their C types, no operation reads
    or writes outside the block or fails, each answers what it answers on the
    list of strings, and walking the result forwards and backwards gives that
    list and its reverse, so every cascade of previous lengths was right. The
    strings may be read back from any of the nine encodings. The program is
    bound to stay below the 4 GB the header can count; merges with an empty
    second list are left out because they break the tail offset, see
    [ziplistMerge_empty_tail]. *)
Theorem ziplist_run_refines fill os : fits [] os ->
  exists zl zl', ziplistNew fill = Some zl /\ run fill zl os = Some (zl', (abs_run [] os).2) /\
    walk_from ziplistNext zl' 0 = Some (abs_run [] os).1 /\
    walk_from ziplistPrev zl' (-1) = Some (reverse (abs_run [] os).1).
Proof.
  intros Hf. destruct (new_spec fill) as (zl & Hn & Hh). destruct (run_refines fill os zl []) as (zl' & Hr & Hp); [by exists [], 0|done|].
  exists zl, zl'. split_and!; [done|done|by apply packs_walks..].
Qed.

(** A long entry in front makes the entries behind it grow one by one. *)
Definition cascade : list op :=
  [Push (replicate 250 97) ZIPLIST_TAIL; Push (replicate 250 98) ZIPLIST_TAIL; Push (decimal 1024) ZIPLIST_TAIL;
   Push (replicate 300 99) ZIPLIST_HEAD; Insert 1 (decimal 7); Get (-1); Find (decimal 1024) 0; Delete 1;
   Merge [decimal (-5)]; DeleteRange 0 2; Compare 1 (decimal 1024); Len].

Lemma cascade_fits : fits [] cascade.
Proof. vm_compute. repeat split; done. Qed.

Lemma ziplist_run_refines_witness :
  fits [] cascade /\ exists zl zl', ziplistNew (fun _ => 0) = Some zl /\ run (fun _ => 0) zl cascade = Some (zl', (abs_run [] cascade).2) /\
    walk_from ziplistNext zl' 0 = Some (abs_run [] cascade).1 /\
    walk_from ziplistPrev zl' (-1) = Some (reverse (abs_run [] cascade).1).
Proof. split; [apply cascade_fits|]. apply (ziplist_run_refines (fun _ => 0) cascade), cascade_fits. Defined.

(** C38: merging an empty second ziplist loses the tail. The merge computes the
    tail offset from the second list alone, so the last entry of the first
    list is no longer found from the end, though it is found from the front. *)
Theorem ziplistMerge_empty_tail fill first second s l : packs first (s :: l) -> packs second [] ->
  exists zl append, ziplistMerge fill false (Some first) (Some second) = Some (Some (zl, append)) /\
    ziplistIndex zl (-1) = Some None /\ ziplistIndex first (-1) <> Some None.
Proof.
  intros (F & c1 & HF & Hl) (S & c2 & HS & HS0). apply fmap_nil_inv in HS0 as ->.
  destruct (merge_empty_tail fill first second F c1 c2 HF HS) as (zl & Hm & Ht & He); [by intros ->|].
  exists zl, (c1 >=? c2). split_and!; [done| |].
  - unfold ziplistIndex. change (-1 <? 0) with true. cbv iota. rewrite Ht. bsimpl. rewrite He. bsimpl. change (-1 <=? - 2 ^ 31) with false. cbn [negb]. bsimpl. by rewrite He.
  - rewrite (index_spec _ _ _ _ HF) by lia. unfold entry_index. cbn [Z.leb Z.compare Z.opp]. rewrite <- (length_fmap snd F), Hl.
    cbn [length]. by rewrite (proj2 (Z.leb_le _ _)) by lia.
Qed.

Lemma ziplistMerge_empty_tail_witness : exists first second,
  packs first [decimal 7] /\ packs second [] /\
  exists zl append, ziplistMerge (fun _ => 0) false (Some first) (Some second) = Some (Some (zl, append)) /\
    ziplistIndex zl (-1) = Some None /\ ziplistIndex first (-1) <> Some None.
Proof.
  destruct (new_spec (fun _ => 0)) as (z0 & _ & H0). assert (packs z0 []) as Hp0 by (by exists [], 0).
  destruct (push_packs (fun _ => 0) z0 [] (decimal 7) ZIPLIST_TAIL Hp0) as (z1 & _ & Hp1); [vm_compute; done|].
  exists z1, z0. split; [done|]. split; [done|]. exact (ziplistMerge_empty_tail (fun _ => 0) z1 z0 (decimal 7) [] Hp1 Hp0).
Defined.

End ZiplistRun.
