(* ===== verification/ZiplistPos.v ===== *)
(** What the operations of [Ziplist] promise to their callers, in terms of the
    strings a block packs and of the places of entries in it. *)

From S2P Require Import Prelude UtilNum Ziplist ZiplistFacts ZiplistOps ZiplistRun.

#[local] Open Scope Z_scope.

Module ZiplistPos.
Import UtilNum Ziplist ZiplistFacts ZiplistOps ZiplistRun.
#[local] Notation zlen l := (Z.of_nat (length l)) (only parsing).

(** [p] is the place of entry [k], or of the end mark, in a block that packs
    [l]. *)
Definition pos (zl : list Z) (l : list (list Z)) (k : nat) (p : Z) : Prop :=
  exists ns c, holds zl ns c /\ ns.*2 = l /\ (k <= length ns)%nat /\ p = 10 + size (take k ns).

Lemma pos_packs zl l k p : pos zl l k p -> packs zl l.
Proof. intros (ns & c & Hh & Hl & _). by exists ns, c. Qed.

(** Focus on the entry. *)
Lemma pos_focus zl l k p : pos zl l k p -> (k < length l)%nat ->
  exists a n b c, holds zl (a ++ n :: b) c /\ l = (a ++ n :: b).*2 /\ length a = k /\ p = 10 + size a.
Proof.
  intros (ns & c & Hh & Hl & Hk & ->) Hlt. rewrite <- Hl, length_fmap in Hlt.
  destruct (lookup_lt_is_Some_2 ns k Hlt) as [n Hn]. exists (take k ns), n, (drop (S k) ns), c.
  rewrite take_drop_middle by done. split_and!; [done|done|rewrite length_take; lia|done].
Qed.

Lemma focus_pos zl a b c : holds zl (a ++ b) c -> pos zl (a ++ b).*2 (length a) (10 + size a).
Proof. intros Hh. exists (a ++ b), c. split_and!; [done|done|rewrite length_app; lia|by rewrite take_app_length]. Qed.

(** ** Sizes and bytes *)

Lemma packs_size zl l : packs zl l -> 11 + 2 * zlen l <= zlen zl /\ zlen zl <= 11 + weight l /\ zlen zl < 2 ^ 32.
Proof.
  intros (ns & c & Hh & <-). rewrite (holds_length _ _ _ Hh), length_fmap. pose proof (size_nonneg ns). pose proof (weight_size ns).
  destruct Hh. lia.
Qed.

Lemma packs_blob zl l : packs zl l -> ziplistBlobLen zl = Some (zlen zl).
Proof.
  intros (ns & c & Hh & <-). rewrite (holds_length _ _ _ Hh). destruct Hh as [-> _ Hs _]. pose proof (size_nonneg ns).
  apply get_bytes. lia.
Qed.

Lemma packs_read zl l : packs zl l -> mread zl 0 (Z.to_nat (zlen zl)) = Some zl.
Proof. intros _. rewrite Nat2Z.id, <- (app_nil_r zl) at 1. by apply mread_head. Qed.

Lemma body_bytes s : Forall is_byte s -> zlen s < 2 ^ 32 -> Forall is_byte (body s).
Proof.
  intros Hs Hl. unfold body, header_of, data_of. destruct (string2ll s) as [v|] eqn:Hv.
  - apply string2ll_decimal in Hv as [Hv _].
    apply (int_cases v (fun e bs => Forall is_byte ([e] ++ bs))); [done|..]; intros;
      (apply Forall_app; split; [repeat constructor; unfold is_byte; lia|apply le_encode_bytes || constructor]).
  - apply Forall_app. split; [|done]. unfold str_header. set (n := zlen s) in *. assert (0 <= n) by (subst n; lia). clearbody n.
    destruct (Z.leb_spec n 63); [|destruct (Z.leb_spec n 16383)]; repeat constructor; unfold is_byte; dlia.
Qed.

Lemma ser_bytes ns : forall pv, wf pv ns -> Forall (Forall is_byte) ns.*2 -> size ns < 2 ^ 32 -> Forall is_byte (ser pv ns).
Proof.
  induction ns as [|n ns IH]; intros pv Hw Hb Hs; [constructor|]. destruct Hw as [[Hp Hs1] Hw]. cbn [fmap list_fmap] in Hb.
  apply Forall_cons in Hb as [Hb Hbs]. rewrite size_cons in Hs. pose proof (size_nonneg ns). pose proof (rawlen_min n).
  cbn [ser]. rewrite !Forall_app. split_and!; [| |by apply IH; [..|lia]].
  - destruct (n.1); cbn [field]; [constructor; [done|apply le_encode_bytes]|]. repeat constructor; unfold is_byte; [lia|].
    specialize (Hs1 eq_refl). lia.
  - destruct (decide (zlen n.2 < 2 ^ 32)); [by apply body_bytes|]. exfalso. unfold rawlen, body, data_of in Hs.
    destruct (string2ll n.2) as [v|] eqn:Hv; [|rewrite length_app in Hs; destruct (n.1); simpl in Hs; lia].
    apply string2ll_decimal in Hv as [Hv Hd]. pose proof (length_decimal v Hv). rewrite <- Hd in *. lia.
Qed.

Lemma packs_bytes zl l : packs zl l -> Forall (Forall is_byte) l -> Forall is_byte zl.
Proof.
  intros (ns & c & [-> Hw Hs _] & <-) Hb. unfold hdr. rewrite !Forall_app. split_and!; try apply le_encode_bytes.
  - apply ser_bytes; [done..|lia].
  - by repeat constructor.
Qed.

(** ** Reading *)

Lemma packs_index zl l i : packs zl l -> - 2 ^ 31 < i ->
  exists r, ziplistIndex zl i = Some r /\
    match entry_index l i with
    | Some k => exists p, r = Some p /\ pos zl l k p
    | None => r = None
    end.
Proof.
  intros (ns & c & Hh & <-) Hi. rewrite (index_spec _ _ _ _ Hh Hi), entry_index_fmap. eexists. split; [done|].
  destruct (entry_index ns.*2 i) as [k|] eqn:Hk; [|done]. apply entry_index_lt in Hk. rewrite length_fmap in Hk.
  eexists. split; [done|]. exists ns, c. split_and!; [done|done|lia|done].
Qed.

(** What [ziplistGet] delivers stands for the string. *)
Lemma pos_get zl l k p s : pos zl l k p -> l !! k = Some s ->
  exists f, ziplistGet zl (Some p) = Some (Some f) /\ fetch zl f = Some s /\
    match f with
    | FoundInt v => in_s 64 v /\ s = decimal v
    | FoundStr _ slen => slen = zlen s
    end.
Proof.
  intros Hp Hs. destruct (pos_focus zl l k p Hp) as (a & n & b & c & Hh & Hl & Ha & ->); [by eapply lookup_lt_Some|].
  destruct (get_spec _ _ _ _ _ Hh) as (f & Hg & Hf). assert (s = n.2) as ->.
  { subst. rewrite fmap_app, <- (length_fmap snd a) in Hs. cbn [fmap list_fmap] in Hs. rewrite list_lookup_middle in Hs by done. congruence. }
  exists f. split_and!; [done|done|]. unfold ziplistGet in Hg. rewrite (holds_not_end _ _ _ _ _ Hh), (holds_entry _ _ _ _ _ Hh) in Hg.
  bsimpl in Hg. cbn [encoding headersize len] in Hg. rewrite is_str_enc in Hg. destruct (string2ll n.2) as [v|] eqn:Hv.
  - rewrite (load_at _ _ _ _ _ v Hh Hv) in Hg. bsimpl in Hg. simplify_eq. by apply string2ll_decimal in Hv as [].
  - simplify_eq. unfold data_of. by rewrite Hv.
Qed.

Lemma pos_next zl l k p : pos zl l k p -> (k < length l)%nat ->
  exists r, ziplistNext zl p = Some r /\
    if decide (S k < length l)%nat then exists p', r = Some p' /\ pos zl l (S k) p' else r = None.
Proof.
  intros Hp Hk. destruct (pos_focus zl l k p Hp Hk) as (a & n & b & c & Hh & -> & Ha & ->). rewrite (ziplistNext_at _ _ _ _ _ Hh).
  eexists. split; [done|]. rewrite length_fmap, length_app. destruct b as [|m b]; cbn [length].
  - by rewrite decide_False by lia.
  - rewrite decide_True by lia. rewrite bool_decide_eq_false_2 by done. eexists. split; [done|]. rewrite app_one in *.
    subst k. rewrite <- Nat.add_1_r. replace (length a + 1)%nat with (length (a ++ [n])) by (rewrite length_app; simpl; lia).
    by apply (focus_pos zl (a ++ [n]) (m :: b) c).
Qed.

Lemma pos_prev zl l k p : pos zl l k p ->
  exists r, ziplistPrev zl p = Some r /\
    match k with S k => exists p', r = Some p' /\ pos zl l k p' | O => r = None end.
Proof.
  intros (ns & c & Hh & Hl & Hk & ->). rewrite <- (take_drop k ns) in Hh. rewrite (ziplistPrev_at _ _ _ _ Hh).
  eexists. split; [done|]. unfold entry_index. cbn [Z.leb Z.compare Z.opp]. rewrite length_take_le by lia. destruct k as [|k].
  - by rewrite (proj2 (Z.leb_gt _ _)) by lia.
  - rewrite (proj2 (Z.leb_le _ _)) by lia. eexists. split; [done|]. rewrite take_drop in Hh. exists ns, c.
    split_and!; [done|done|lia|]. rewrite take_take. do 3 f_equal. lia.
Qed.

Lemma pos_compare zl l k p s t : pos zl l k p -> l !! k = Some s ->
  ziplistCompare zl p t = Some (bool_decide (s = t)).
Proof.
  intros Hp Hs. destruct (pos_focus zl l k p Hp) as (a & n & b & c & Hh & -> & <- & ->); [by eapply lookup_lt_Some|].
  rewrite (compare_spec _ _ _ _ _ t Hh). destruct (contents_split a n b) as (_ & _ & _ & Hk). rewrite Hk in Hs. by simplify_eq.
Qed.

Lemma packs_len zl l : packs zl l -> exists zl', ziplistLen zl = Some (zl', zlen l) /\ packs zl' l /\ zlen zl' = zlen zl.
Proof.
  intros (ns & c & Hh & <-). destruct (len_spec _ _ _ Hh) as (zl' & c' & -> & Hh'). exists zl'.
  rewrite (holds_length _ _ _ Hh), (holds_length _ _ _ Hh'), length_fmap. split_and!; [done| |done]. by exists ns, c'.
Qed.

(** ** Changing *)

Section change.
Context (fill : nat -> Z).

Lemma new_packs : exists zl, ziplistNew fill = Some zl /\ packs zl [].
Proof. destruct (new_spec fill) as (zl & Hn & Hh). exists zl. split; [done|]. by exists [], 0. Qed.

Lemma pos_insert zl l k p s : pos zl l k p -> room (take k l ++ s :: drop k l) ->
  exists zl', ziplistInsert fill zl p s = Some zl' /\ packs zl' (take k l ++ s :: drop k l).
Proof.
  intros (ns & c & Hh & <- & Hk & ->) Hr. unfold ziplistInsert. rewrite <- (take_drop k ns) in Hh.
  destruct (insert_packs fill zl (take k ns) (drop k ns) c s Hh) as (zl' & Hi & Hp).
  { unfold room in Hr. rewrite weight_app, weight_cons in Hr. rewrite fmap_app, weight_app, fmap_take, fmap_drop. lia. }
  exists zl'. by rewrite <- fmap_take, <- fmap_drop.
Qed.

Lemma pos_delete zl l k p : pos zl l k p -> (k < length l)%nat -> room l ->
  exists zl', ziplistDelete fill zl p = Some (zl', p) /\ pos zl' (take k l ++ drop (S k) l) k p.
Proof.
  intros Hp Hk Hr. destruct (pos_focus zl l k p Hp Hk) as (a & n & b & c & Hh & -> & Ha & ->). unfold ziplistDelete.
  destruct (delete_spec fill zl a [n] b c 1 Hh) as (zl' & -> & Hh'); [done|by left|..].
  { apply weight_roomy. unfold room in Hr. cbn [app]. lia. }
  bsimpl. exists zl'. split; [done|]. destruct (contents_split a n b) as (Ht & _ & Hd & _). rewrite <- Ha, Ht, Hd.
  apply focus_pos in Hh'. by rewrite fmap_app, reprev_contents in Hh'.
Qed.

Lemma packs_delete_range zl l i num k : packs zl l -> - 2 ^ 31 < i -> room l -> 0 <= num -> entry_index l i = Some k ->
  exists zl', ziplistDeleteRange fill zl i num = Some zl' /\ packs zl' (take k l ++ drop (k + Z.to_nat num) l).
Proof.
  intros Hp Hi Hr Hn Hk. destruct Hp as (ns & c & Hh & Hl).
  destruct (run_op_refines fill zl l (DeleteRange i num)) as (zl' & Hrun & Hp'); [by exists ns, c|done|done| |].
  { cbn [abs_op fst]. rewrite Hk. unfold room in *. rewrite weight_app.
    pose proof (weight_app (take k l) (drop k l)) as Hw. rewrite take_drop in Hw.
    pose proof (weight_app (take (Z.to_nat num) (drop k l)) (drop (Z.to_nat num) (drop k l))) as Hw2.
    rewrite take_drop, drop_drop in Hw2. pose proof (weight_nonneg (take (Z.to_nat num) (drop k l))). lia. }
  exists zl'. cbn [run_op] in Hrun. destruct (ziplistDeleteRange fill zl i num); [|done]. bsimpl in Hrun.
  cbn [abs_op fst snd] in Hrun, Hp'. rewrite Hk in Hp'. by simplify_eq.
Qed.

Lemma packs_delete_none zl l i num : packs zl l -> - 2 ^ 31 < i -> entry_index l i = None ->
  ziplistDeleteRange fill zl i num = Some zl.
Proof.
  intros Hp Hi Hk. destruct (packs_index zl l i Hp Hi) as (r & Hx & Hr). rewrite Hk in Hr. subst r.
  unfold ziplistDeleteRange. by rewrite Hx.
Qed.

Lemma packs_merge z1 l1 z2 l2 : packs z1 l1 -> packs z2 l2 -> l2 <> [] -> room (l1 ++ l2) ->
  exists zl append, ziplistMerge fill false (Some z1) (Some z2) = Some (Some (zl, append)) /\ packs zl (l1 ++ l2).
Proof.
  intros (F & c1 & HF & <-) (S & c2 & HS & <-) Hne Hr. unfold room in Hr. rewrite weight_app in Hr.
  pose proof (weight_size F). pose proof (weight_size S).
  destruct (merge_spec fill z1 z2 F S c1 c2 HF HS) as (zl & c & append & Hm & Hh); [by intros ->|lia|].
  exists zl, append. split; [done|]. eexists _, c. split; [done|]. unfold merged. by rewrite fmap_app, fixup_contents.
Qed.

End change.
End ZiplistPos.
