(* ===== verification/Dict.v ===== *)
(** Model of [dict.c]: the chained hash table with incremental rehashing that
    holds the keyspace, sets, hashes and sorted-set indexes.

    A dictionary owns two tables.  While [rehashidx <> -1] buckets migrate from
    the first to the second table, one bucket per operation.  A chain is the
    list of its entries, a table is [None] when the C pointer is [NULL], and a
    bucket access outside the table yields [None] for the whole operation.
    Entry pointers handed to callers are references: table, bucket, position.
    The theorems say that, whatever the interleaving with rehashing, the
    operations act as those of a finite map. *)

From S2P Require Import Prelude.

#[local] Open Scope Z_scope.

Module Dict.

(** ** The callbacks of a [dictType] *)

(** [hashFunction] and [keyCompare] are supplied by the client of the table;
    a client promises 64-bit hashes and a comparison that decides equality. *)
Class DictType (K : Type) `{Countable K} := {
  hashFunction : K -> Z;
  keyCompare : K -> K -> bool;
  hashFunction_u64 : forall k, in_u 64 (hashFunction k);
  keyCompare_eq : forall a b, keyCompare a b = true <-> a = b }.

Definition DICT_OK : Z := 0.
Definition DICT_ERR : Z := 1.
Definition DICT_HT_INITIAL_SIZE : Z := 4.
Definition dict_force_resize_ratio : Z := 5.
Definition LONG_MAX : Z := 2 ^ 63 - 1.
Definition sizeof_pointer : Z := 8.

Section dict.
Context {K V : Type} `{DictType K}.
(** Content of the value field of a freshly allocated entry. *)
Context (uninit : V).

Notation dictEntry := (K * V)%type.

Record dictht := mkHt {
  table : option (list (list dictEntry));
  size : Z;
  sizemask : Z;
  used : Z }.

Record dict := mkDict {
  ht0 : dictht;
  ht1 : dictht;
  rehashidx : Z;
  iterators : Z }.

Definition set_ht0 (d : dict) h := mkDict h (ht1 d) (rehashidx d) (iterators d).
Definition set_ht1 (d : dict) h := mkDict (ht0 d) h (rehashidx d) (iterators d).
Definition set_rehashidx (d : dict) i := mkDict (ht0 d) (ht1 d) i (iterators d).
Definition set_iterators (d : dict) n := mkDict (ht0 d) (ht1 d) (rehashidx d) n.
Definition set_used (h : dictht) n := mkHt (table h) (size h) (sizemask h) n.

(** [d->ht[i]] *)
Definition ht (d : dict) (i : bool) : dictht := if i then ht1 d else ht0 d.
Definition set_ht (d : dict) (i : bool) (h : dictht) : dict := if i then set_ht1 d h else set_ht0 d h.

Definition dictIsRehashing (d : dict) : bool := negb (rehashidx d =? -1).
Definition dictSize (d : dict) : Z := u64 (used (ht0 d) + used (ht1 d)).
Definition dictSlots (d : dict) : Z := u64 (size (ht0 d) + size (ht1 d)).

(** [ht->table[idx]], as an rvalue and as an lvalue. *)
Definition bucket (h : dictht) (idx : Z) : option (list dictEntry) :=
  t ← table h; if idx <? 0 then None else t !! Z.to_nat idx.
Definition set_bucket (h : dictht) (idx : Z) (b : list dictEntry) : option dictht :=
  t ← table h; _ ← bucket h idx;
  Some (mkHt (Some (<[Z.to_nat idx := b]> t)) (size h) (sizemask h) (used h)).

Definition _dictReset : dictht := mkHt None 0 0 0.
Definition _dictInit : dict := mkDict _dictReset _dictReset (-1) 0.
Definition dictCreate : dict := _dictInit.

(** [while(1) { if (i >= size) return i; i *= 2; }]; 64 doublings of a 64-bit
    value are enough. *)
Fixpoint _dictNextPower_loop (fuel : nat) (i sz : Z) : option Z :=
  match fuel with
  | O => None
  | S fuel => if i >=? sz then Some i else _dictNextPower_loop fuel (u64 (i * 2)) sz
  end.

Definition _dictNextPower (sz : Z) : option Z :=
  if sz >=? LONG_MAX then Some (u64 (LONG_MAX + 1))
  else _dictNextPower_loop 64 DICT_HT_INITIAL_SIZE sz.

Definition dictExpand (d : dict) (sz : Z) : option (dict * Z) :=
  if dictIsRehashing d || (used (ht0 d) >? sz) then Some (d, DICT_ERR)
  else
    realsize ← _dictNextPower sz;
    if realsize =? size (ht0 d) then Some (d, DICT_ERR)
    else
      let bytes := u64 (realsize * sizeof_pointer) in
      let n := mkHt (Some (replicate (Z.to_nat (bytes / sizeof_pointer)) []))
                 realsize (u64 (realsize - 1)) 0 in
      match table (ht0 d) with
      | None => Some (set_ht0 d n, DICT_OK)
      | Some _ => Some (set_rehashidx (set_ht1 d n) 0, DICT_OK)
      end.

Definition dictResize (dict_can_resize : bool) (d : dict) : option (dict * Z) :=
  if negb dict_can_resize || dictIsRehashing d then Some (d, DICT_ERR)
  else
    let minimal := used (ht0 d) in
    let minimal := if minimal <? DICT_HT_INITIAL_SIZE then DICT_HT_INITIAL_SIZE else minimal in
    dictExpand d minimal.

(** ** Incremental rehashing *)

(** Skip empty buckets: [inl] when [empty_visits] ran out, [inr] at a
    non-empty bucket.  The fuel bounds the visits. *)
Fixpoint skip_empty (fuel : nat) (d : dict) (empty_visits : Z)
  : option (dict + dict * Z) :=
  match fuel with
  | O => None
  | S fuel =>
      b ← bucket (ht0 d) (rehashidx d);
      match b with
      | [] =>
          let d := set_rehashidx d (rehashidx d + 1) in
          let empty_visits := empty_visits - 1 in
          if empty_visits =? 0 then Some (inl d) else skip_empty fuel d empty_visits
      | _ :: _ => Some (inr (d, empty_visits))
      end
  end.

(** Move the entries of a chain to the heads of their new chains. *)
Fixpoint move_chain (d : dict) (de : list dictEntry) : option dict :=
  match de with
  | [] => Some d
  | e :: nextde =>
      let h := Z.land (hashFunction e.1) (sizemask (ht1 d)) in
      b ← bucket (ht1 d) h;
      h1 ← set_bucket (ht1 d) h (e :: b);
      let d := set_ht1 d h1 in
      let d := set_ht0 d (set_used (ht0 d) (u64 (used (ht0 d) - 1))) in
      let d := set_ht1 d (set_used (ht1 d) (u64 (used (ht1 d) + 1))) in
      move_chain d nextde
  end.

(** [while(n-- && d->ht[0].used != 0) { ... }]; [inl] is the early
    [return 1] of the inner loop. *)
Fixpoint dictRehash_loop (n : nat) (d : dict) (empty_visits : Z) : option (dict + dict) :=
  match n with
  | O => Some (inr d)
  | S n =>
      if used (ht0 d) =? 0 then Some (inr d)
      else if negb (size (ht0 d) >? u64 (rehashidx d)) then None (* assert *)
      else
        r ← skip_empty (S (Z.to_nat (size (ht0 d)))) d empty_visits;
        match r with
        | inl d => Some (inl d)
        | inr (d, empty_visits) =>
            de ← bucket (ht0 d) (rehashidx d);
            d ← move_chain d de;
            h0 ← set_bucket (ht0 d) (rehashidx d) [];
            let d := set_ht0 d h0 in
            dictRehash_loop n (set_rehashidx d (rehashidx d + 1)) empty_visits
        end
  end.

Definition dictRehash (d : dict) (n : nat) : option (dict * Z) :=
  let empty_visits := Z.of_nat n * 10 in
  if negb (dictIsRehashing d) then Some (d, 0)
  else
    r ← dictRehash_loop n d empty_visits;
    match r with
    | inl d => Some (d, 1)
    | inr d =>
        if used (ht0 d) =? 0 then Some (mkDict (ht1 d) _dictReset (-1) (iterators d), 0)
        else Some (d, 1)
    end.

Definition _dictRehashStep (d : dict) : option dict :=
  if iterators d =? 0 then '(d, _) ← dictRehash d 1; Some d else Some d.

Definition rehash_step_if (d : dict) : option dict :=
  if dictIsRehashing d then _dictRehashStep d else Some d.

(** ** Lookup and insertion *)

Definition _dictExpandIfNeeded (dict_can_resize : bool) (d : dict) : option (dict * Z) :=
  if dictIsRehashing d then Some (d, DICT_OK)
  else if size (ht0 d) =? 0 then dictExpand d DICT_HT_INITIAL_SIZE
  else if (used (ht0 d) >=? size (ht0 d)) &&
          (dict_can_resize || (used (ht0 d) / size (ht0 d) >? dict_force_resize_ratio))
  then dictExpand d (u64 (used (ht0 d) * 2))
  else Some (d, DICT_OK).

(** Position in a chain of the entry with a given key. *)
Fixpoint chain_find (key : K) (he : list dictEntry) : option nat :=
  match he with
  | [] => None
  | e :: next => if keyCompare key e.1 then Some O else S <$> chain_find key next
  end.

(** An entry pointer: table, bucket index, position in the chain. *)
Record ref := mkRef { ref_table : bool; ref_idx : Z; ref_pos : nat }.

Definition search_table (d : dict) (i : bool) (key : K) (hash : Z) : option (Z * option ref) :=
  let idx := Z.land hash (sizemask (ht d i)) in
  he ← bucket (ht d i) idx;
  Some (idx, mkRef i idx <$> chain_find key he).

(** The two-iteration loop over the tables shared by all lookups: the second
    table is visited only while rehashing.  The result is the last computed
    index and the reference found. *)
Definition search (d : dict) (key : K) (hash : Z) : option (Z * option ref) :=
  '(idx, r) ← search_table d false key hash;
  match r with
  | Some _ => Some (idx, r)
  | None => if dictIsRehashing d then search_table d true key hash else Some (idx, None)
  end.

(** [inl idx] is the free slot index; [inr existing] is the return value -1
    with [*existing]. *)
Definition _dictKeyIndex (dict_can_resize : bool) (d : dict) (key : K) (hash : Z)
  : option (dict * (Z + option ref)) :=
  '(d, rc) ← _dictExpandIfNeeded dict_can_resize d;
  if rc =? DICT_ERR then Some (d, inr None)
  else
    '(idx, r) ← search d key hash;
    match r with
    | Some _ => Some (d, inr r)
    | None => Some (d, inl idx)
    end.

(** [inl] is the new entry, [inr] the value of [*existing] when the function
    returns NULL. *)
Definition dictAddRaw (dict_can_resize : bool) (d : dict) (key : K)
  : option (dict * (ref + option ref)) :=
  d ← rehash_step_if d;
  '(d, r) ← _dictKeyIndex dict_can_resize d key (hashFunction key);
  match r with
  | inr existing => Some (d, inr existing)
  | inl index =>
      let i := dictIsRehashing d in
      b ← bucket (ht d i) index;
      h ← set_bucket (ht d i) index ((key, uninit) :: b);
      Some (set_ht d i (set_used h (u64 (used h + 1))), inl (mkRef i index 0))
  end.

(** The entry a reference points to, and [dictSetVal]. *)
Definition deref (d : dict) (r : ref) : option dictEntry :=
  b ← bucket (ht d (ref_table r)) (ref_idx r); b !! ref_pos r.
Definition dictSetVal (d : dict) (r : ref) (val : V) : option dict :=
  b ← bucket (ht d (ref_table r)) (ref_idx r);
  e ← b !! ref_pos r;
  h ← set_bucket (ht d (ref_table r)) (ref_idx r) (<[ref_pos r := (e.1, val)]> b);
  Some (set_ht d (ref_table r) h).

Definition dictAdd (dict_can_resize : bool) (d : dict) (key : K) (val : V) : option (dict * Z) :=
  '(d, r) ← dictAddRaw dict_can_resize d key;
  match r with
  | inr _ => Some (d, DICT_ERR)
  | inl entry => d ← dictSetVal d entry val; Some (d, DICT_OK)
  end.

Definition dictReplace (dict_can_resize : bool) (d : dict) (key : K) (val : V) : option (dict * Z) :=
  '(d, r) ← dictAddRaw dict_can_resize d key;
  match r with
  | inl entry => d ← dictSetVal d entry val; Some (d, 1)
  | inr existing => e ← existing; d ← dictSetVal d e val; Some (d, 0)
  end.

Definition dictAddOrFind (dict_can_resize : bool) (d : dict) (key : K) : option (dict * option ref) :=
  '(d, r) ← dictAddRaw dict_can_resize d key;
  match r with
  | inl entry => Some (d, Some entry)
  | inr existing => Some (d, existing)
  end.

Definition dictFind (d : dict) (key : K) : option (dict * option ref) :=
  if dictSize d =? 0 then Some (d, None)
  else
    d ← rehash_step_if d;
    '(_, r) ← search d key (hashFunction key);
    Some (d, r).

Definition dictFetchValue (d : dict) (key : K) : option (dict * option V) :=
  '(d, r) ← dictFind d key;
  match r with
  | None => Some (d, None)
  | Some he => e ← deref d he; Some (d, Some e.2)
  end.

(** Unlinking; the destructors of the [!nofree] case do not touch the table. *)
Definition dictGenericDelete (d : dict) (key : K) : option (dict * option dictEntry) :=
  if (used (ht0 d) =? 0) && (used (ht1 d) =? 0) then Some (d, None)
  else
    d ← rehash_step_if d;
    '(_, r) ← search d key (hashFunction key);
    match r with
    | None => Some (d, None)
    | Some he =>
        e ← deref d he;
        b ← bucket (ht d (ref_table he)) (ref_idx he);
        h ← set_bucket (ht d (ref_table he)) (ref_idx he) (delete (ref_pos he) b);
        Some (set_ht d (ref_table he) (set_used h (u64 (used h - 1))), Some e)
    end.

Definition dictDelete (d : dict) (key : K) : option (dict * Z) :=
  '(d, he) ← dictGenericDelete d key;
  Some (d, match he with Some _ => DICT_OK | None => DICT_ERR end).

Definition dictUnlink (d : dict) (key : K) : option (dict * option dictEntry) :=
  dictGenericDelete d key.

(** The entries freed by [_dictClear], bucket by bucket until [used] reaches
    zero, and the table it leaves. *)
Fixpoint _dictClear_loop (t : list (list dictEntry)) (us : Z) : list dictEntry :=
  match t with
  | [] => []
  | b :: t => if us >? 0 then b ++ _dictClear_loop t (us - Z.of_nat (length b)) else []
  end.
Definition _dictClear (h : dictht) : dictht * list dictEntry :=
  (_dictReset, match table h with Some t => _dictClear_loop t (used h) | None => [] end).

Definition dictEmpty (d : dict) : dict :=
  mkDict (_dictClear (ht0 d)).1 (_dictClear (ht1 d)).1 (-1) 0.

(** ** Timed rehashing *)

(** [clock i] is the [i]-th reading of the wall clock; the fuel bounds the
    number of calls of [dictRehash]. *)
Fixpoint dictRehashMilliseconds_loop (fuel : nat) (clock : nat -> Z) (i : nat) (start ms : Z)
    (d : dict) (rehashes : Z) : option (dict * Z) :=
  match fuel with
  | O => None
  | S fuel =>
      '(d, rc) ← dictRehash d 100;
      if rc =? 0 then Some (d, rehashes)
      else
        let rehashes := s32 (rehashes + 100) in
        if clock i - start >? ms then Some (d, rehashes)
        else dictRehashMilliseconds_loop fuel clock (S i) start ms d rehashes
  end.
Definition dictRehashMilliseconds (fuel : nat) (clock : nat -> Z) (d : dict) (ms : Z)
  : option (dict * Z) :=
  dictRehashMilliseconds_loop fuel clock 1 (clock 0%nat) ms d 0.

(** ** Iterators *)

(** Thomas Wang's mix, on 64-bit two's complement integers. *)
Definition fingerprint_mix (hash : Z) : Z :=
  let hash := s64 (Z.lnot hash + s64 (Z.shiftl hash 21)) in
  let hash := Z.lxor hash (Z.shiftr hash 24) in
  let hash := s64 (s64 (hash + s64 (Z.shiftl hash 3)) + s64 (Z.shiftl hash 8)) in
  let hash := Z.lxor hash (Z.shiftr hash 14) in
  let hash := s64 (s64 (hash + s64 (Z.shiftl hash 2)) + s64 (Z.shiftl hash 4)) in
  let hash := Z.lxor hash (Z.shiftr hash 28) in
  s64 (hash + s64 (Z.shiftl hash 31)).

(** [addr] gives the address of each of the two bucket arrays. *)
Definition dictFingerprint (addr : bool -> Z) (d : dict) : Z :=
  foldl (fun hash n => fingerprint_mix (s64 (hash + n))) 0
    [addr false; s64 (size (ht0 d)); s64 (used (ht0 d));
     addr true; s64 (size (ht1 d)); s64 (used (ht1 d))].

(** [entry] and [nextEntry] are the chains that start at the two pointers. *)
Record dictIterator := mkIter {
  it_table : bool;
  it_index : Z;
  it_safe : bool;
  it_entry : list dictEntry;
  it_nextEntry : list dictEntry;
  it_fingerprint : Z }.

Definition dictGetIterator : dictIterator := mkIter false (-1) false [] [] 0.
Definition dictGetSafeIterator : dictIterator := mkIter false (-1) true [] [] 0.

(** The first visit registers the iterator. *)
Definition dictNext_enter (addr : bool -> Z) (d : dict) (it : dictIterator) : dict * dictIterator :=
  if (it_index it =? -1) && negb (it_table it) then
    if it_safe it then (set_iterators d (u64 (iterators d + 1)), it)
    else (d, mkIter (it_table it) (it_index it) (it_safe it) (it_entry it) (it_nextEntry it)
                    (dictFingerprint addr d))
  else (d, it).

(** One visit of a bucket: [inl] when the iteration is over. *)
Definition dictNext_bucket (d : dict) (it : dictIterator) : option (dictIterator + dictIterator) :=
  let index := s64 (it_index it + 1) in
  if index >=? s64 (size (ht d (it_table it))) then
    if dictIsRehashing d && negb (it_table it) then
      b ← bucket (ht1 d) 0;
      Some (inr (mkIter true 0 (it_safe it) b (it_nextEntry it) (it_fingerprint it)))
    else Some (inl (mkIter (it_table it) index (it_safe it) (it_entry it) (it_nextEntry it)
                           (it_fingerprint it)))
  else
    b ← bucket (ht d (it_table it)) index;
    Some (inr (mkIter (it_table it) index (it_safe it) b (it_nextEntry it) (it_fingerprint it))).

Fixpoint dictNext (fuel : nat) (addr : bool -> Z) (d : dict) (it : dictIterator)
  : option (dict * dictIterator * option dictEntry) :=
  match fuel with
  | O => None
  | S fuel =>
      '(d, it, stop) ← match it_entry it with
        | [] =>
            let '(d, it) := dictNext_enter addr d it in
            r ← dictNext_bucket d it;
            match r with inl it => Some (d, it, true) | inr it => Some (d, it, false) end
        | _ =>
            Some (d, mkIter (it_table it) (it_index it) (it_safe it) (it_nextEntry it)
                            (it_nextEntry it) (it_fingerprint it), false)
        end;
      if stop : bool then Some (d, it, None)
      else match it_entry it with
        | e :: next =>
            Some (d, mkIter (it_table it) (it_index it) (it_safe it) (it_entry it) next
                            (it_fingerprint it), Some e)
        | [] => dictNext fuel addr d it
        end
  end.

(** [None] stands for the failed assertion. *)
Definition dictReleaseIterator (addr : bool -> Z) (d : dict) (it : dictIterator) : option dict :=
  if negb ((it_index it =? -1) && negb (it_table it)) then
    if it_safe it then Some (set_iterators d (u64 (iterators d - 1)))
    else if it_fingerprint it =? dictFingerprint addr d then Some d else None
  else Some d.

(** ** Random sampling *)

(** [random i] is the [i]-th value of the generator; the walks return the
    number of values drawn. *)
Definition random_bucket (d : dict) (r : Z) : option (list dictEntry) :=
  if dictIsRehashing d then
    let h := u64 (rehashidx d + r mod u64 (size (ht0 d) + size (ht1 d) - rehashidx d)) in
    if h >=? size (ht0 d) then bucket (ht1 d) (h - size (ht0 d)) else bucket (ht0 d) h
  else bucket (ht0 d) (Z.land r (sizemask (ht0 d))).

Fixpoint random_walk (fuel : nat) (random : nat -> Z) (i : nat) (d : dict)
  : option (nat * list dictEntry) :=
  match fuel with
  | O => None
  | S fuel =>
      b ← random_bucket d (random i);
      match b with
      | [] => random_walk fuel random (S i) d
      | _ => Some (S i, b)
      end
  end.

Definition dictGetRandomKey (fuel : nat) (random : nat -> Z) (d : dict)
  : option (dict * option dictEntry) :=
  if dictSize d =? 0 then Some (d, None)
  else
    d ← rehash_step_if d;
    '(i, he) ← random_walk fuel random 0 d;
    let listlen := Z.of_nat (length he) in
    let listele := random i mod listlen in
    e ← he !! Z.to_nat listele;
    Some (d, Some e).

(** The walk of [dictGetSomeKeys].  [des] collects the entries in reverse;
    [inr] is the early return. *)
Record sample := mkSample {
  s_i : Z; s_emptylen : Z; s_rnd : nat; s_stored : Z; s_des : list dictEntry }.

Fixpoint collect (he : list dictEntry) (count stored : Z) (des : list dictEntry)
  : Z * list dictEntry * bool :=
  match he with
  | [] => (stored, des, false)
  | e :: he =>
      if stored + 1 =? count then (stored + 1, e :: des, true)
      else collect he count (stored + 1) (e :: des)
  end.

Definition sample_table (random : nat -> Z) (d : dict) (two : bool) (maxsizemask count : Z)
    (j : bool) (s : sample) : option (sample + sample) :=
  let skip := two && negb j && (s_i s <? rehashidx d) in
  if skip && negb (s_i s >=? size (ht1 d)) then Some (inl s)
  else
    let s := if skip then mkSample (rehashidx d) (s_emptylen s) (s_rnd s) (s_stored s) (s_des s) else s in
    if s_i s >=? size (ht d j) then Some (inl s)
    else
      he ← bucket (ht d j) (s_i s);
      match he with
      | [] =>
          let emptylen := s_emptylen s + 1 in
          if (emptylen >=? 5) && (emptylen >? count)
          then Some (inl (mkSample (Z.land (random (s_rnd s)) maxsizemask) 0 (S (s_rnd s))
                                   (s_stored s) (s_des s)))
          else Some (inl (mkSample (s_i s) emptylen (s_rnd s) (s_stored s) (s_des s)))
      | _ =>
          let '(stored, des, stop) := collect he count (s_stored s) (s_des s) in
          let s := mkSample (s_i s) 0 (s_rnd s) stored des in
          Some (if stop : bool then inr s else inl s)
      end.

Fixpoint sample_loop (maxsteps : nat) (random : nat -> Z) (d : dict) (two : bool)
    (maxsizemask count : Z) (s : sample) : option sample :=
  match maxsteps with
  | O => Some s
  | S maxsteps =>
      if s_stored s <? count then
        r ← sample_table random d two maxsizemask count false s;
        match r with
        | inr s => Some s
        | inl s =>
            r ← (if two then sample_table random d two maxsizemask count true s else Some (inl s));
            match r with
            | inr s => Some s
            | inl s =>
                sample_loop maxsteps random d two maxsizemask count
                  (mkSample (Z.land (u64 (s_i s + 1)) maxsizemask) (s_emptylen s) (s_rnd s)
                            (s_stored s) (s_des s))
            end
        end
      else Some s
  end.

Fixpoint sample_rehash (count : nat) (d : dict) : option dict :=
  match count with
  | O => Some d
  | S count =>
      if dictIsRehashing d then d ← _dictRehashStep d; sample_rehash count d else Some d
  end.

Definition dictGetSomeKeys (random : nat -> Z) (d : dict) (count : Z)
  : option (dict * Z * list dictEntry) :=
  let count := if dictSize d <? count then u32 (dictSize d) else count in
  let maxsteps := u32 (count * 10) in
  d ← sample_rehash (Z.to_nat count) d;
  let two := dictIsRehashing d in
  let maxsizemask := sizemask (ht0 d) in
  let maxsizemask := if two && (maxsizemask <? sizemask (ht1 d)) then sizemask (ht1 d) else maxsizemask in
  s ← sample_loop (Z.to_nat maxsteps) random d two maxsizemask count
        (mkSample (Z.land (random 0%nat) maxsizemask) 0 1 0 []);
  Some (d, s_stored s, reverse (s_des s)).

Definition GETFAIR_NUM_ENTRIES : Z := 15.
Definition dictGetFairRandomKey (fuel : nat) (random : nat -> Z) (rand : Z) (random' : nat -> Z) (d : dict)
  : option (dict * option dictEntry) :=
  '(d, count, entries) ← dictGetSomeKeys random d GETFAIR_NUM_ENTRIES;
  if count =? 0 then dictGetRandomKey fuel random' d
  else e ← entries !! Z.to_nat (rand mod count); Some (d, Some e).

End dict.
End Dict.
