(* ===== verification/Siphash.v ===== *)
(** Model of [siphash.c], the keyed hash behind the hash tables, of the hash
    callbacks of [dict.c], and of the key callbacks of [server.c] for string
    keys.  The case-insensitive variant is proved to be the plain hash of the
    lower-cased input, and the string callbacks are shown to satisfy what the
    hash table asks of its client. *)

From S2P Require Import Prelude Dict.

#[local] Open Scope Z_scope.

Module Siphash.

(** ** The hash *)

Definition siptlw (c : Z) : Z := if (65 <=? c) && (c <=? 90) then c + (97 - 65) else c.

Definition ROTL (x b : Z) : Z := Z.lor (u64 (Z.shiftl x b)) (Z.shiftr x (64 - b)).

(** The load macros of a little-endian machine. *)
Definition U8TO64_LE (p : list Z) : Z := le_decode (take 8 p).
Definition U8TO64_LE_NOCASE (p : list Z) : Z :=
  let c i := siptlw (default 0 (p !! i)) in
  Z.lor (Z.lor (Z.lor (Z.lor (Z.lor (Z.lor (Z.lor (c 0%nat)
    (Z.shiftl (c 1%nat) 8)) (Z.shiftl (c 2%nat) 16)) (Z.shiftl (c 3%nat) 24))
    (Z.shiftl (c 4%nat) 32)) (Z.shiftl (c 5%nat) 40)) (Z.shiftl (c 6%nat) 48))
    (Z.shiftl (c 7%nat) 56).

Record state := mkState { v0 : Z; v1 : Z; v2 : Z; v3 : Z }.

Definition SIPROUND (s : state) : state :=
  let '(mkState v0 v1 v2 v3) := s in
  let v0 := u64 (v0 + v1) in
  let v1 := ROTL v1 13 in
  let v1 := Z.lxor v1 v0 in
  let v0 := ROTL v0 32 in
  let v2 := u64 (v2 + v3) in
  let v3 := ROTL v3 16 in
  let v3 := Z.lxor v3 v2 in
  let v0 := u64 (v0 + v3) in
  let v3 := ROTL v3 21 in
  let v3 := Z.lxor v3 v0 in
  let v2 := u64 (v2 + v1) in
  let v1 := ROTL v1 17 in
  let v1 := Z.lxor v1 v2 in
  let v2 := ROTL v2 32 in
  mkState v0 v1 v2 v3.

Definition sip_init (k : list Z) : state :=
  let k0 := U8TO64_LE k in
  let k1 := U8TO64_LE (drop 8 k) in
  mkState (Z.lxor 0x736f6d6570736575 k0) (Z.lxor 0x646f72616e646f6d k1)
          (Z.lxor 0x6c7967656e657261 k0) (Z.lxor 0x7465646279746573 k1).

(** Absorbing one word, with [c] rounds. *)
Definition sip_absorb (c : nat) (s : state) (m : Z) : state :=
  let s := mkState (v0 s) (v1 s) (v2 s) (Z.lxor (v3 s) m) in
  let s := Nat.iter c SIPROUND s in
  mkState (Z.lxor (v0 s) m) (v1 s) (v2 s) (v3 s).

(** The loop over whole words: [n] iterations; the state and the tail. *)
Fixpoint sip_words (c : nat) (load : list Z -> Z) (n : nat) (s : state) (inp : list Z) : state * list Z :=
  match n with
  | O => (s, inp)
  | S n => sip_words c load n (sip_absorb c s (load inp)) (drop 8 inp)
  end.

(** The switch over the remaining bytes, from the last to the first. *)
Fixpoint sip_left (byte : Z -> Z) (left : nat) (inp : list Z) (b : Z) : Z :=
  match left with
  | O => b
  | S i => sip_left byte i inp (Z.lor b (Z.shiftl (byte (default 0 (inp !! i))) (8 * Z.of_nat i)))
  end.

Definition sip_final (c f : nat) (s : state) (b : Z) : Z :=
  let s := sip_absorb c s b in
  let s := mkState (v0 s) (v1 s) (Z.lxor (v2 s) 0xff) (v3 s) in
  let s := Nat.iter f SIPROUND s in
  Z.lxor (Z.lxor (Z.lxor (v0 s) (v1 s)) (v2 s)) (v3 s).

(** The common body, with the number of compression and final rounds. *)
Definition sip_body (c f : nat) (load : list Z -> Z) (byte : Z -> Z) (inp k : list Z) : Z :=
  let inlen := Z.of_nat (length inp) in
  let left := Z.to_nat (Z.land inlen 7) in
  let b := u64 (Z.shiftl inlen 56) in
  let '(s, rest) := sip_words c load (Z.to_nat (inlen / 8)) (sip_init k) inp in
  sip_final c f s (sip_left byte left rest b).

Definition siphash (inp k : list Z) : Z := sip_body 1 2 U8TO64_LE (fun c => c) inp k.
Definition siphash_nocase (inp k : list Z) : Z := sip_body 1 2 U8TO64_LE_NOCASE siptlw inp k.

(** ** The callbacks of string keys *)

Section callbacks.
Context (dict_hash_function_seed : list Z).

Definition dictGenHashFunction (key : list Z) : Z := siphash key dict_hash_function_seed.
Definition dictGenCaseHashFunction (key : list Z) : Z := siphash_nocase key dict_hash_function_seed.
Definition dictSdsHash (key : list Z) : Z := dictGenHashFunction key.
Definition dictSdsCaseHash (key : list Z) : Z := dictGenCaseHashFunction key.
End callbacks.

(** [memcmp(a, b, n) == 0]; [None] when it reads past the end of a string. *)
Definition memeq (a b : list Z) (n : nat) : option bool :=
  if (n <=? length a)%nat && (n <=? length b)%nat
  then Some (bool_decide (take n a = take n b)) else None.

(** The lengths are narrowed to [int], and widened again by [memcmp]. *)
Definition dictSdsKeyCompare (key1 key2 : list Z) : option bool :=
  let l1 := s32 (Z.of_nat (length key1)) in
  let l2 := s32 (Z.of_nat (length key2)) in
  if negb (l1 =? l2) then Some false
  else memeq key1 key2 (Z.to_nat (u64 l1)).

(** ** Facts *)

Lemma siptlw_byte c : is_byte c -> is_byte (siptlw c).
Proof.
  unfold is_byte, siptlw. intros Hc. destruct (Z.leb_spec 65 c), (Z.leb_spec c 90); simpl; lia.
Qed.

(** *** The case-insensitive load *)

Lemma lor_bytes_decode (a b c d e f g h : Z) :
  is_byte a -> is_byte b -> is_byte c -> is_byte d -> is_byte e -> is_byte f -> is_byte g -> is_byte h ->
  Z.lor (Z.lor (Z.lor (Z.lor (Z.lor (Z.lor (Z.lor a (Z.shiftl b 8)) (Z.shiftl c 16)) (Z.shiftl d 24))
    (Z.shiftl e 32)) (Z.shiftl f 40)) (Z.shiftl g 48)) (Z.shiftl h 56) = le_decode [a; b; c; d; e; f; g; h].
Proof.
  unfold is_byte. intros. cbn [le_decode].
  repeat match goal with |- context [Z.lor ?x (Z.shiftl ?y ?n)] =>
    lazymatch x with context [Z.lor] => fail | _ => rewrite (lor_shift_add x y n) by mlia end end.
  mlia.
Qed.

Lemma nocase_load p :
  Forall is_byte p -> (8 <= length p)%nat -> U8TO64_LE_NOCASE p = U8TO64_LE (siptlw <$> p).
Proof.
  intros Hp Hl. do 8 (destruct p as [|? p]; [simpl in Hl; lia|]; apply Forall_cons in Hp as [? Hp]).
  unfold U8TO64_LE_NOCASE, U8TO64_LE. cbn [lookup list_lookup default fmap list_fmap take].
  apply lor_bytes_decode; by apply siptlw_byte.
Qed.

Lemma sip_words_nocase c n : forall s inp,
  Forall is_byte inp -> (8 * n <= length inp)%nat ->
  sip_words c U8TO64_LE n s (siptlw <$> inp) =
    ((sip_words c U8TO64_LE_NOCASE n s inp).1, siptlw <$> (sip_words c U8TO64_LE_NOCASE n s inp).2) /\
  (sip_words c U8TO64_LE_NOCASE n s inp).2 = drop (8 * n) inp.
Proof.
  induction n as [|n IH]; intros s inp Hb Hl; cbn [sip_words].
  { by rewrite drop_0. }
  rewrite (nocase_load inp) by (done || lia). rewrite <- fmap_drop.
  destruct (IH (sip_absorb c s (U8TO64_LE (siptlw <$> inp))) (drop 8 inp)) as [-> ->].
  - by apply Forall_drop.
  - rewrite length_drop. lia.
  - split; [done|]. rewrite drop_drop. f_equal. lia.
Qed.

Lemma sip_left_nocase n : forall inp b,
  (n <= length inp)%nat -> sip_left (fun c => c) n (siptlw <$> inp) b = sip_left siptlw n inp b.
Proof.
  induction n as [|n IH]; intros inp b Hl; cbn [sip_left]; [done|].
  rewrite IH by lia. rewrite list_lookup_fmap.
  destruct (lookup_lt_is_Some_2 inp n) as [x Hx]; [lia|]. by rewrite Hx.
Qed.

(** *** Range *)

Definition state_ok (s : state) : Prop :=
  in_u 64 (v0 s) /\ in_u 64 (v1 s) /\ in_u 64 (v2 s) /\ in_u 64 (v3 s).

Lemma lxor_u64 a b : in_u 64 a -> in_u 64 b -> in_u 64 (Z.lxor a b).
Proof. unfold in_u. intros. by apply lxor_range. Qed.

Lemma u64_range z : in_u 64 (u64 z).
Proof. by apply uwrap_range. Qed.

Lemma ROTL_u64 x b : 0 <= b <= 64 -> in_u 64 x -> in_u 64 (ROTL x b).
Proof.
  intros Hb Hx. unfold ROTL. apply lor_range; [done|apply u64_range|]. apply shiftr_range; [lia|done].
Qed.

Lemma SIPROUND_ok s : state_ok s -> state_ok (SIPROUND s).
Proof.
  destruct s as [a b c d]. intros (? & ? & ? & ?). simpl in *. unfold SIPROUND.
  repeat (split; cbn [v0 v1 v2 v3]);
    repeat first [apply ROTL_u64; [lia|] | apply lxor_u64 | apply u64_range | assumption].
Qed.

Lemma iter_SIPROUND_ok n s : state_ok s -> state_ok (Nat.iter n SIPROUND s).
Proof. intros Hs. induction n; simpl; [done|by apply SIPROUND_ok]. Qed.

Lemma sip_absorb_ok c s m : in_u 64 m -> state_ok s -> state_ok (sip_absorb c s m).
Proof.
  intros Hm (? & ? & ? & ?). unfold sip_absorb.
  assert (state_ok (mkState (v0 s) (v1 s) (v2 s) (Z.lxor (v3 s) m))) as Hs.
  { split_and!; cbn [v0 v1 v2 v3]; try done. by apply lxor_u64. }
  apply (iter_SIPROUND_ok c) in Hs as (? & ? & ? & ?). cbv zeta.
  split_and!; cbn [v0 v1 v2 v3]; try done. by apply lxor_u64.
Qed.

Lemma load_u64 p : Forall is_byte p -> in_u 64 (U8TO64_LE p).
Proof.
  intros Hp. unfold U8TO64_LE. pose proof (le_decode_range (take 8 p) (Forall_take _ 8 _ Hp)) as Hr.
  unfold in_u. split; [lia|]. eapply Z.lt_le_trans; [apply Hr|].
  apply Z.pow_le_mono_r; [lia|]. rewrite length_take. lia.
Qed.

Lemma sip_words_ok c n : forall s inp,
  Forall is_byte inp -> state_ok s -> state_ok (sip_words c U8TO64_LE n s inp).1 /\
  Forall is_byte (sip_words c U8TO64_LE n s inp).2.
Proof.
  induction n as [|n IH]; intros s inp Hb Hs; cbn [sip_words]; [done|].
  apply IH; [by apply Forall_drop|]. apply sip_absorb_ok; [by apply load_u64|done].
Qed.

Lemma sip_left_u64 n : forall inp b,
  (n <= 8)%nat -> Forall is_byte inp -> in_u 64 b -> in_u 64 (sip_left (fun c => c) n inp b).
Proof.
  induction n as [|n IH]; intros inp b Hn Hb Hu; cbn [sip_left]; [done|]. apply IH; [lia|done|].
  apply lor_range; [done|done|].
  assert (is_byte (default 0 (inp !! n))) as Hd.
  { destruct (inp !! n) eqn:Hx; simpl; [by eapply Forall_lookup_1|done]. }
  unfold is_byte in Hd. rewrite Z.shiftl_mul_pow2 by lia. change (2 ^ 64) with (2 ^ 8 * 2 ^ 56).
  pose proof (Z.pow_le_mono_r 2 (8 * Z.of_nat n) 56). pose proof (Z.pow_pos_nonneg 2 (8 * Z.of_nat n)). nia.
Qed.

Lemma siphash_u64 inp k : Forall is_byte inp -> Forall is_byte k -> in_u 64 (siphash inp k).
Proof.
  intros Hi Hk. unfold siphash, sip_body.
  assert (state_ok (sip_init k)) as Hs.
  { pose proof (load_u64 k Hk). pose proof (load_u64 (drop 8 k) (Forall_drop _ _ _ Hk)).
    split_and!; apply lxor_u64; try done; by vm_compute. }
  destruct (sip_words_ok 1 (Z.to_nat (Z.of_nat (length inp) / 8)) _ _ Hi Hs) as [Hw Hr].
  destruct (sip_words _ _ _ _ _) as [s rest]. simpl in Hw, Hr. unfold sip_final.
  set (b := sip_left _ _ _ _).
  assert (in_u 64 b) as Hb.
  { apply sip_left_u64; [|done|apply u64_range].
    pose proof (land_range 3 (Z.of_nat (length inp)) 7). lia. }
  pose proof (sip_absorb_ok 1 _ _ Hb Hw) as (? & ? & ? & ?).
  pose proof (iter_SIPROUND_ok 2 (mkState (v0 (sip_absorb 1 s b)) (v1 (sip_absorb 1 s b))
    (Z.lxor (v2 (sip_absorb 1 s b)) 255) (v3 (sip_absorb 1 s b)))) as (? & ? & ? & ?).
  { split_and!; try done. by apply lxor_u64. }
  cbv zeta. by do 3 (apply lxor_u64; [|done]).
Qed.

(** The case-insensitive hash of a byte string is the plain hash of the
    string in lower case, for every length and key: the unrolled loads, the
    word loop and the tail switch all fold the case byte by byte. *)
Theorem siphash_nocase_lower inp k :
  Forall is_byte inp -> siphash_nocase inp k = siphash (siptlw <$> inp) k.
Proof.
  intros Hb. unfold siphash_nocase, siphash, sip_body. rewrite length_fmap.
  set (n := Z.to_nat (Z.of_nat (length inp) / 8)).
  assert (8 * n <= length inp)%nat as Hn.
  { subst n. pose proof (Z.mul_div_le (Z.of_nat (length inp)) 8). lia. }
  destruct (sip_words_nocase 1 n (sip_init k) inp Hb Hn) as [Hw Hd]. rewrite Hw.
  destruct (sip_words 1 U8TO64_LE_NOCASE n (sip_init k) inp) as [s rest]. simpl in Hd. cbn [fst snd].
  f_equal. rewrite sip_left_nocase; [done|]. rewrite Hd, length_drop. subst n.
  change 7 with (Z.ones 3). rewrite Z.land_ones by lia. change (2 ^ 3) with 8.
  pose proof (Z.div_mod (Z.of_nat (length inp)) 8). pose proof (Z.mod_pos_bound (Z.of_nat (length inp)) 8). lia.
Qed.

Lemma siphash_nocase_lower_witness :
  siphash_nocase [72; 69; 76; 76; 79; 32; 119; 111; 114; 108; 100] (replicate 16 49) =
  siphash [104; 101; 108; 108; 111; 32; 119; 111; 114; 108; 100] (replicate 16 49).
Proof.
  apply (siphash_nocase_lower [72; 69; 76; 76; 79; 32; 119; 111; 114; 108; 100] (replicate 16 49)).
  repeat constructor; by vm_compute.
Defined.

(** With two and four rounds the body is SipHash-2-4: the test vectors of
    lengths 0, 1, 8 and 15. *)
Lemma siphash_2_4_vectors :
  let k := Z.of_nat <$> seq 0 16 in
  let h n := le_encode 8 (sip_body 2 4 U8TO64_LE (fun c => c) (Z.of_nat <$> seq 0 n) k) in
  h 0%nat = [0x31; 0x0e; 0x0e; 0xdd; 0x47; 0xdb; 0x6f; 0x72] /\
  h 1%nat = [0xfd; 0x67; 0xdc; 0x93; 0xc5; 0x39; 0xf8; 0x74] /\
  h 8%nat = [0x62; 0x24; 0x93; 0x9a; 0x79; 0xf5; 0xf5; 0x93] /\
  h 15%nat = [0xe5; 0x45; 0xbe; 0x49; 0x61; 0xca; 0x29; 0xa1].
Proof. vm_compute. auto. Qed.

(** ** String keys as a client of the hash table *)

(** A key is a byte string whose length fits an [int]. *)
Definition key_ok (l : list Z) : Prop := Forall is_byte l /\ Z.of_nat (length l) < 2 ^ 31.
#[export] Instance key_ok_dec l : Decision (key_ok l).
Proof. unfold key_ok. apply _. Defined.

Definition sdskey : Type := dsig key_ok.

Lemma dictSdsKeyCompare_eq a b :
  key_ok a -> key_ok b -> dictSdsKeyCompare a b = Some (bool_decide (a = b)).
Proof.
  intros [_ Ha] [_ Hb]. unfold dictSdsKeyCompare, memeq. rewrite !swrap_small by mlia.
  destruct (Z.eqb_spec (Z.of_nat (length a)) (Z.of_nat (length b))) as [He|Hne]; cbn [negb].
  - assert (length a = length b) as Hl by lia. rewrite uwrap_small by mlia. rewrite Nat2Z.id.
    rewrite Hl at 1. rewrite !(proj2 (Nat.leb_le _ _)) by lia. cbn [andb].
    rewrite firstn_all, Hl, firstn_all. done.
  - f_equal. symmetry. apply bool_decide_eq_false_2. intros ->. done.
Qed.

Definition sdskey_hash (seed : list Z) (k : sdskey) : Z := dictSdsHash seed (`k).
Definition sdskey_compare (a b : sdskey) : bool := default false (dictSdsKeyCompare (`a) (`b)).

Lemma sdskey_ok (k : sdskey) : key_ok (`k).
Proof. destruct k as [l Hl]. simpl. by apply bool_decide_unpack in Hl. Qed.

Lemma sdskey_compare_eq (a b : sdskey) : sdskey_compare a b = true <-> a = b.
Proof.
  unfold sdskey_compare. rewrite dictSdsKeyCompare_eq by apply sdskey_ok. simpl.
  rewrite bool_decide_eq_true. symmetry. apply dsig_eq.
Qed.

(** The seed is sixteen bytes drawn at start-up. *)
Definition sds_seed : Type := dsig (fun l => Forall is_byte l /\ length l = 16%nat).

Lemma sdskey_hash_u64 (seed : sds_seed) k : in_u 64 (sdskey_hash (`seed) k).
Proof.
  apply siphash_u64; [apply sdskey_ok|]. destruct seed as [l Hl]. simpl.
  by apply bool_decide_unpack in Hl as [? _].
Qed.

Definition sdsDictType (seed : sds_seed) : Dict.DictType sdskey := {|
  Dict.hashFunction := sdskey_hash (`seed);
  Dict.keyCompare := sdskey_compare;
  Dict.hashFunction_u64 := sdskey_hash_u64 seed;
  Dict.keyCompare_eq := sdskey_compare_eq |}.

End Siphash.
