(* ===== verification/DictFacts.v ===== *)
(** Correctness of the hash table of [Dict]: the representation invariant, its
    preservation by every operation (incremental rehashing included), and the
    refinement of a finite map. *)

From S2P Require Import Prelude Dict.
Import Dict.

#[local] Open Scope Z_scope.

Module DictFacts.

Section facts.
Context {K V : Type} `{DictType K}.
Context (uninit : V).
Notation dictEntry := (K * V)%type.
Notation dict := (@dict K V).
Notation dictht := (@dictht K V).
Implicit Types (d : dict) (h : dictht) (t : list (list dictEntry)) (b : list dictEntry) (v : V).

(** ** The representation invariant *)

Definition ents h : list dictEntry := match table h with Some t => concat t | None => [] end.
Definition entries d : list dictEntry := ents (ht0 d) ++ ents (ht1 d).

(** The finite map a dictionary stands for. *)
Definition abs d : gmap K V := list_to_map (entries d).

Definition slot (mask : Z) (k : K) : Z := Z.land (hashFunction k) mask.

(** Every entry is in the bucket its hash selects. *)
Definition placed (mask : Z) t : Prop :=
  forall i b e, t !! i = Some b -> e ∈ b -> slot mask e.1 = Z.of_nat i.

Definition MAX_ORDER : Z := 60.
Definition MAX_ENTRIES : Z := 2 ^ 58.

(** An allocated table: a power of two of buckets. *)
Record ht_alloc h t : Prop := mkAlloc {
  al_table : table h = Some t;
  al_size : exists k, 2 <= k <= MAX_ORDER /\ size h = 2 ^ k;
  al_len : Z.of_nat (length t) = size h;
  al_mask : sizemask h = size h - 1;
  al_placed : placed (sizemask h) t;
  al_used : used h = Z.of_nat (length (ents h)) }.

Definition ht_ok h : Prop := h = _dictReset \/ exists t, ht_alloc h t.

(** The buckets below [rehashidx] have been migrated. *)
Definition migrated h (idx : Z) : Prop :=
  forall i b, Z.of_nat i < idx -> bucket h (Z.of_nat i) = Some b -> b = [].

Record dict_ok d : Prop := mkOk {
  ok_ht0 : ht_ok (ht0 d);
  ok_ht1 : ht_ok (ht1 d);
  ok_nodup : NoDup (entries d).*1;
  ok_rehash : if dictIsRehashing d
    then 0 <= rehashidx d /\ table (ht0 d) <> None /\ table (ht1 d) <> None /\
         migrated (ht0 d) (rehashidx d)
    else ht1 d = _dictReset;
  ok_bound : Z.of_nat (length (entries d)) <= MAX_ENTRIES }.

(** ** Buckets *)

Lemma slot_range h t k : ht_alloc h t -> 0 <= slot (sizemask h) k < size h.
Proof.
  intros Ha. destruct (al_size _ _ Ha) as (o & Ho & Hs). unfold slot.
  rewrite (al_mask _ _ Ha), Hs. replace (2 ^ o - 1) with (Z.ones o) by (rewrite Z.ones_equiv; lia).
  rewrite Z.land_ones by lia. apply Z.mod_pos_bound. lia.
Qed.

Lemma bucket_alloc h t idx :
  ht_alloc h t -> 0 <= idx -> bucket h idx = t !! Z.to_nat idx.
Proof.
  intros Ha Hi. unfold bucket. rewrite (al_table _ _ Ha). bsimpl.
  by rewrite (proj2 (Z.ltb_ge _ _)).
Qed.

Lemma bucket_Some h t idx b :
  ht_alloc h t -> bucket h idx = Some b -> 0 <= idx < size h /\ t !! Z.to_nat idx = Some b.
Proof.
  intros Ha Hb. unfold bucket in Hb. rewrite (al_table _ _ Ha) in Hb. bsimpl in Hb.
  destruct (Z.ltb_spec idx 0); [done|]. split; [|done].
  pose proof (lookup_lt_Some _ _ _ Hb). rewrite <- (al_len _ _ Ha). lia.
Qed.

Lemma slot_bucket h t k : ht_alloc h t -> exists b, bucket h (slot (sizemask h) k) = Some b.
Proof.
  intros Ha. pose proof (slot_range h t k Ha) as Hr. rewrite (bucket_alloc h t) by (done || lia).
  apply lookup_lt_is_Some_2. pose proof (al_len _ _ Ha). lia.
Qed.

Lemma concat_insert_perm t i b b' :
  t !! i = Some b ->
  concat t ≡ₚ b ++ concat (delete i t) /\ concat (<[i := b']> t) ≡ₚ b' ++ concat (delete i t).
Proof.
  intros Hb. pose proof (lookup_lt_Some _ _ _ Hb) as Hl.
  rewrite delete_take_drop, concat_app. split.
  - rewrite <- (take_drop_middle t i b Hb) at 1. rewrite concat_app. simpl. solve_Permutation.
  - rewrite insert_take_drop, concat_app by done. simpl. solve_Permutation.
Qed.

(** The part of the entries a bucket update leaves alone. *)
Lemma set_bucket_ents h t idx b b' :
  ht_alloc h t -> bucket h idx = Some b ->
  exists h' rest, set_bucket h idx b' = Some h' /\
    h' = mkHt (Some (<[Z.to_nat idx := b']> t)) (size h) (sizemask h) (used h) /\
    ents h ≡ₚ b ++ rest /\ ents h' ≡ₚ b' ++ rest.
Proof.
  intros Ha Hb. destruct (bucket_Some h t idx b Ha Hb) as [Hr Ht].
  unfold set_bucket. rewrite Hb, (al_table _ _ Ha). bsimpl.
  destruct (concat_insert_perm t _ b b' Ht) as [P1 P2].
  eexists _, (concat (delete (Z.to_nat idx) t)). split_and!; [done|done| |done].
  unfold ents. by rewrite (al_table _ _ Ha).
Qed.

Lemma bucket_in_ents h t idx b e :
  ht_alloc h t -> bucket h idx = Some b -> e ∈ b -> e ∈ ents h.
Proof.
  intros Ha Hb He. destruct (set_bucket_ents h t idx b [] Ha Hb) as (? & rest & _ & _ & -> & _).
  set_solver.
Qed.

(** An entry of the table is in the bucket of its hash. *)
Lemma ents_in_bucket h t e :
  ht_alloc h t -> e ∈ ents h -> exists b, bucket h (slot (sizemask h) e.1) = Some b /\ e ∈ b.
Proof.
  intros Ha He. unfold ents in He. rewrite (al_table _ _ Ha) in He.
  apply list_elem_of_In, in_concat in He as (b & Hb & He).
  apply list_elem_of_In in Hb, He. apply list_elem_of_lookup in Hb as [i Hi].
  exists b. split; [|done]. rewrite (al_placed _ _ Ha i b e Hi He).
  rewrite (bucket_alloc h t) by (done || lia). by rewrite Nat2Z.id.
Qed.

Lemma ht_alloc_update h t idx b b' h' n :
  ht_alloc h t -> bucket h idx = Some b -> set_bucket h idx b' = Some h' ->
  (forall e, e ∈ b' -> slot (sizemask h) e.1 = idx) ->
  n = used h + Z.of_nat (length b') - Z.of_nat (length b) ->
  ht_alloc (set_used h' n) (<[Z.to_nat idx := b']> t).
Proof.
  intros Ha Hb Hs Hb' ->. destruct (bucket_Some h t idx b Ha Hb) as [Hr Ht].
  destruct (set_bucket_ents h t idx b b' Ha Hb) as (h'' & rest & Hs' & -> & P1 & P2).
  rewrite Hs in Hs'. injection Hs' as ->.
  constructor; simpl.
  - done.
  - apply (al_size _ _ Ha).
  - rewrite length_insert. apply (al_len _ _ Ha).
  - apply (al_mask _ _ Ha).
  - intros i c e Hc He. apply list_lookup_insert_Some in Hc as [(Hi & -> & _)|[_ Hc]].
    + rewrite Hb' by done. lia.
    + by eapply (al_placed _ _ Ha).
  - unfold ents in *. simpl in *. rewrite P2, length_app. rewrite (al_used _ _ Ha). unfold ents.
    rewrite P1, length_app. lia.
Qed.

(** ** Incremental rehashing *)

Definition rehashing_ok d : Prop := dict_ok d /\ dictIsRehashing d = true.

Lemma ht_ok_table h : ht_ok h -> table h <> None -> exists t, ht_alloc h t.
Proof. by intros [-> | ?]. Qed.

Lemma ht_alloc_table h t : ht_alloc h t -> table h <> None.
Proof. intros Ha. by rewrite (al_table _ _ Ha). Qed.

Lemma ents_bound d :
  dict_ok d ->
  Z.of_nat (length (ents (ht0 d))) + Z.of_nat (length (ents (ht1 d))) <= MAX_ENTRIES.
Proof. intros Hok. pose proof (ok_bound _ Hok) as Hb. unfold entries in Hb. rewrite length_app in Hb. lia. Qed.

Lemma ht_ok_used h : ht_ok h -> used h = Z.of_nat (length (ents h)).
Proof. intros [-> | [t Ha]]; [done|]. apply (al_used _ _ Ha). Qed.

Lemma set_bucket_set_used h n idx b :
  set_bucket (set_used h n) idx b = (h' ← set_bucket h idx b; Some (set_used h' n)).
Proof.
  unfold set_bucket, bucket. simpl. destruct (table h) as [t|]; [|done]. simpl.
  destruct (idx <? 0); [done|]. by destruct (t !! _).
Qed.

Lemma move_chain_spec de : forall d t1,
  ht_alloc (ht1 d) t1 ->
  Z.of_nat (length de) <= used (ht0 d) < 2 ^ 64 ->
  used (ht1 d) + Z.of_nat (length de) < 2 ^ 64 ->
  exists d' t1', move_chain d de = Some d' /\ ht_alloc (ht1 d') t1' /\
    size (ht1 d') = size (ht1 d) /\
    ents (ht1 d') ≡ₚ de ++ ents (ht1 d) /\
    ht0 d' = set_used (ht0 d) (used (ht0 d) - Z.of_nat (length de)) /\
    rehashidx d' = rehashidx d /\ iterators d' = iterators d.
Proof.
  induction de as [|e de IH]; intros d t1 Ha Hle0 Hle1.
  { exists d, t1. split_and!; try done. destruct d as [[tb sz sm us] ? ? ?]; simpl.
    unfold set_used; simpl. f_equal. lia. }
  simpl in Hle0, Hle1. cbn [move_chain].
  change (Z.land (hashFunction e.1) (sizemask (ht1 d))) with (slot (sizemask (ht1 d)) e.1).
  destruct (slot_bucket (ht1 d) t1 e.1 Ha) as [b Hb]. rewrite Hb. bsimpl.
  destruct (set_bucket_ents _ _ _ b (e :: b) Ha Hb) as (h1 & rest & Hs & Hh1 & P1 & P2).
  rewrite Hs. bsimpl. simpl.
  assert (ht_alloc (set_used h1 (u64 (used h1 + 1))) (<[Z.to_nat (slot (sizemask (ht1 d)) e.1) := e :: b]> t1)) as Ha'.
  { eapply ht_alloc_update; [done|done|done| |].
    - intros e' [->|He']%elem_of_cons; [done|].
      destruct (bucket_Some _ _ _ _ Ha Hb) as [Hr Ht].
      rewrite (al_placed _ _ Ha _ _ _ Ht He'). lia.
    - subst h1. simpl. rewrite (al_used _ _ Ha) in *. rewrite uwrap_small by mlia. lia. }
  assert (used h1 = used (ht1 d)) as Hu1 by by subst h1.
  pose proof (al_used _ _ Ha) as Hu.
  rewrite (uwrap_small 64 (used h1 + 1)), (uwrap_small 64 (used (ht0 d) - 1)) in * by mlia.
  destruct (IH (mkDict (set_used (ht0 d) (used (ht0 d) - 1)) (set_used h1 (used h1 + 1))
                 (rehashidx d) (iterators d)) _ Ha')
    as (d' & t1' & Hm & Ha'' & Hsz & P & Hh0' & Hri & Hit); simpl in *; [lia|lia|].
  exists d', t1'. split_and!; [done|done| | | |done|done].
  - rewrite Hsz. by subst h1.
  - rewrite P. change (ents (set_used h1 (used h1 + 1))) with (ents h1). rewrite P2, P1. simpl.
    solve_Permutation.
  - rewrite Hh0'. unfold set_used; simpl. f_equal. lia.
Qed.

(** Migrating the bucket at [rehashidx]. *)
Lemma rehash_bucket d de :
  rehashing_ok d -> bucket (ht0 d) (rehashidx d) = Some de ->
  exists d1 h0, move_chain d de = Some d1 /\ set_bucket (ht0 d1) (rehashidx d1) [] = Some h0 /\
    let d' := set_rehashidx (set_ht0 d1 h0) (rehashidx d1 + 1) in
    rehashing_ok d' /\ entries d' ≡ₚ entries d /\ iterators d' = iterators d /\
    rehashidx d' = rehashidx d + 1 /\ size (ht0 d') = size (ht0 d).
Proof.
  intros [Hok Hre] Hde. pose proof (ok_rehash _ Hok) as Hr. rewrite Hre in Hr.
  destruct Hr as (Hidx & Ht0 & Ht1 & Hmig).
  destruct (ht_ok_table _ (ok_ht0 _ Hok) Ht0) as [t0 Ha0].
  destruct (ht_ok_table _ (ok_ht1 _ Hok) Ht1) as [t1 Ha1].
  destruct (set_bucket_ents _ _ _ de [] Ha0 Hde) as (h0' & rest & Hs & Hh0 & P1 & P2).
  pose proof (ents_bound _ Hok) as Hb. pose proof (al_used _ _ Ha0) as Hu0.
  pose proof (al_used _ _ Ha1) as Hu1. unfold MAX_ENTRIES in *.
  assert (length (ents (ht0 d)) = (length de + length rest)%nat) as Hl0 by (rewrite P1; apply length_app).
  destruct (move_chain_spec de d t1 Ha1) as (d1 & t1' & Hm & Ha1' & Hsz & P & Hh0' & Hri & Hit); [mlia..|].
  exists d1, (set_used h0' (used (ht0 d) - Z.of_nat (length de))). rewrite Hm, Hh0', Hri, set_bucket_set_used, Hs.
  split; [done|]. split; [done|]. cbv zeta. simpl.
  assert (ents (set_used h0' (used (ht0 d) - Z.of_nat (length de))) ≡ₚ rest) as P2' by exact P2.
  assert (ht_alloc (set_used h0' (used (ht0 d) - Z.of_nat (length de)))
            (<[Z.to_nat (rehashidx d) := []]> t0)) as Ha0'.
  { eapply ht_alloc_update; [done|done|done|set_solver|simpl; lia]. }
  assert (entries (set_rehashidx (set_ht0 d1 (set_used h0' (used (ht0 d) - Z.of_nat (length de)))) (rehashidx d + 1))
          ≡ₚ entries d) as Pe.
  { unfold entries. simpl. rewrite P2', P, P1. solve_Permutation. }
  split_and!; [|done|done|done|by subst h0'].
  split; [constructor|].
  - right. eauto.
  - right. simpl. eauto.
  - by rewrite Pe; apply ok_nodup.
  - unfold dictIsRehashing in *. simpl. destruct (Z.eqb_spec (rehashidx d + 1) (-1)); [lia|]. simpl.
    split_and!; [lia|by apply ht_alloc_table in Ha0'|by apply ht_alloc_table in Ha1'|].
    intros i b Hi Hbk. destruct (decide (Z.of_nat i = rehashidx d)) as [He|Hne].
    + rewrite (bucket_alloc _ _ _ Ha0') in Hbk by lia. rewrite He in Hbk.
      apply list_lookup_insert_Some in Hbk as [(_ & -> & _)|[? _]]; [done|lia].
    + rewrite (bucket_alloc _ _ _ Ha0') in Hbk by lia. rewrite list_lookup_insert_ne in Hbk by lia.
      apply (Hmig i); [lia|]. by rewrite (bucket_alloc _ _ _ Ha0) by lia.
  - rewrite Pe. apply ok_bound, Hok.
  - unfold dictIsRehashing in *. simpl. destruct (Z.eqb_spec (rehashidx d + 1) (-1)); [lia|done].
Qed.

Lemma abs_perm d d' : dict_ok d -> entries d' ≡ₚ entries d -> abs d' = abs d.
Proof.
  intros Hok Hp. unfold abs. symmetry. apply list_to_map_proper; [by apply ok_nodup|done].
Qed.

(** A dictionary that is being rehashed and still has entries in the first
    table has a non-empty bucket at or after [rehashidx]. *)
Lemma nonempty_bucket d :
  rehashing_ok d -> used (ht0 d) <> 0 ->
  exists j b, rehashidx d <= j < size (ht0 d) /\ bucket (ht0 d) j = Some b /\ b <> [].
Proof.
  intros [Hok Hre] Hu. pose proof (ok_rehash _ Hok) as Hr. rewrite Hre in Hr.
  destruct Hr as (Hidx & Ht0 & _ & Hmig).
  destruct (ht_ok_table _ (ok_ht0 _ Hok) Ht0) as [t0 Ha0].
  rewrite (al_used _ _ Ha0) in Hu. destruct (ents (ht0 d)) as [|e l] eqn:He; [done|].
  destruct (ents_in_bucket _ _ e Ha0) as (b & Hb & Hin); [rewrite He; set_solver|].
  pose proof (slot_range _ _ e.1 Ha0) as Hsl.
  exists (slot (sizemask (ht0 d)) e.1), b. split_and!; [|lia|done|by intros ->; set_solver].
  destruct (decide (rehashidx d <= slot (sizemask (ht0 d)) e.1)); [done|].
  assert (b = []) as ->; [|set_solver].
  apply (Hmig (Z.to_nat (slot (sizemask (ht0 d)) e.1))); [lia|]. by rewrite Z2Nat.id by lia.
Qed.

Lemma skip_bucket_ok d :
  rehashing_ok d -> bucket (ht0 d) (rehashidx d) = Some [] ->
  rehashing_ok (set_rehashidx d (rehashidx d + 1)).
Proof.
  intros [Hok Hre] Hb. pose proof (ok_rehash _ Hok) as Hr. rewrite Hre in Hr.
  destruct Hr as (Hidx & Ht0 & Ht1 & Hmig). unfold dictIsRehashing in *. split.
  - destruct Hok as [H0' H1' Hn _ Hbd]. constructor; try done.
    unfold dictIsRehashing. simpl. destruct (Z.eqb_spec (rehashidx d + 1) (-1)); [lia|]. simpl.
    split_and!; [lia|done|done|]. intros i b Hi Hbk.
    destruct (decide (Z.of_nat i = rehashidx d)) as [He|Hne]; [|by apply (Hmig i); [lia|]].
    rewrite He in Hbk. congruence.
  - unfold dictIsRehashing. simpl. destruct (Z.eqb_spec (rehashidx d + 1) (-1)); [lia|done].
Qed.

(** What one migration phase may change. *)
Record migrates d d' : Prop := mkMig {
  mig_ok : rehashing_ok d';
  mig_ents : entries d' ≡ₚ entries d;
  mig_it : iterators d' = iterators d;
  mig_idx : rehashidx d <= rehashidx d';
  mig_size : size (ht0 d') = size (ht0 d) }.

Lemma migrates_trans d1 d2 d3 : migrates d1 d2 -> migrates d2 d3 -> migrates d1 d3.
Proof.
  intros [? P1 ? ? ?] [? P2 ? ? ?]. constructor; try done; [by rewrite P2|lia|lia|lia].
Qed.

Lemma skip_empty_spec fuel : forall d ev j b,
  rehashing_ok d -> bucket (ht0 d) j = Some b -> b <> [] ->
  rehashidx d <= j < rehashidx d + Z.of_nat fuel ->
  exists r, skip_empty fuel d ev = Some r /\
    match r with
    | inl d' => migrates d d' /\ rehashidx d < rehashidx d' /\ ht0 d' = ht0 d
    | inr (d', ev') => migrates d d' /\ ht0 d' = ht0 d /\
        exists e c, bucket (ht0 d') (rehashidx d') = Some (e :: c)
    end.
Proof.
  induction fuel as [|fuel IH]; intros d ev j b Hok Hb Hne Hj; [lia|]. cbn [skip_empty].
  assert (exists c, bucket (ht0 d) (rehashidx d) = Some c) as [c Hc].
  { destruct Hok as [Hok Hre]. pose proof (ok_rehash _ Hok) as Hr. rewrite Hre in Hr.
    destruct Hr as (Hidx & Ht0 & _ & _).
    destruct (ht_ok_table _ (ok_ht0 _ Hok) Ht0) as [t0 Ha0].
    destruct (bucket_Some _ _ _ _ Ha0 Hb) as [Hr Ht].
    rewrite (bucket_alloc _ _ _ Ha0) by lia. apply lookup_lt_is_Some_2.
    pose proof (lookup_lt_Some _ _ _ Ht). lia. }
  rewrite Hc. bsimpl. destruct c as [|e c].
  - assert (rehashidx d <> j) by congruence. pose proof (skip_bucket_ok d Hok Hc) as Hok'.
    assert (migrates d (set_rehashidx d (rehashidx d + 1))) as Hm by (constructor; try done; simpl; lia).
    destruct (ev - 1 =? 0).
    { eexists. split; [done|]. split_and!; [done|simpl; lia|done]. }
    destruct (IH (set_rehashidx d (rehashidx d + 1)) (ev - 1) j b Hok' Hb Hne) as (r & -> & Hr); [simpl; lia|].
    exists r. split; [done|]. destruct r as [d'|[d' ev']].
    + destruct Hr as (Hm' & Hlt & Hh). split_and!; [by eapply migrates_trans|simpl in Hlt; lia|done].
    + destruct Hr as (Hm' & Hh & He). split_and!; [by eapply migrates_trans|done|done].
  - eexists. split; [done|]. split_and!; [constructor; (done || lia)|done|eauto].
Qed.

Lemma dictRehash_loop_spec n : forall d ev,
  rehashing_ok d ->
  exists r, dictRehash_loop n d ev = Some r /\
    match r with
    | inl d' => migrates d d' /\ rehashidx d < rehashidx d' /\ used (ht0 d') <> 0
    | inr d' => migrates d d' /\ ((0 < n)%nat -> used (ht0 d') <> 0 -> rehashidx d < rehashidx d')
    end.
Proof.
  induction n as [|n IH]; intros d ev Hok; cbn [dictRehash_loop].
  { eexists. split; [done|]. split; [constructor; (done || lia)|lia]. }
  destruct (Z.eqb_spec (used (ht0 d)) 0) as [Hu|Hu].
  { eexists. split; [done|]. split; [constructor; (done || lia)|done]. }
  destruct (nonempty_bucket d Hok Hu) as (j & b & Hj & Hb & Hne).
  assert (0 <= rehashidx d) as Hidx.
  { destruct Hok as [Hok Hre]. pose proof (ok_rehash _ Hok) as Hr. rewrite Hre in Hr. lia. }
  assert (size (ht0 d) <= 2 ^ 60) as Hsz.
  { destruct Hok as [Hok Hre]. destruct (ok_ht0 _ Hok) as [-> | [t Ha]]; [done|].
    destruct (al_size _ _ Ha) as (k & Hk & ->). unfold MAX_ORDER in Hk. apply Z.pow_le_mono_r; lia. }
  rewrite uwrap_small by mlia. rewrite Z.gtb_ltb, (proj2 (Z.ltb_lt _ _)) by lia. cbn [negb].
  destruct (skip_empty_spec (S (Z.to_nat (size (ht0 d)))) d ev j b Hok Hb Hne) as (r & -> & Hr); [lia|].
  bsimpl. destruct r as [d1|[d1 ev1]].
  { destruct Hr as (Hm & Hlt & Hh). eexists. split; [done|]. split_and!; [done|done|by rewrite Hh]. }
  destruct Hr as (Hm1 & Hh1 & e & c & Hb1). rewrite Hb1. bsimpl.
  destruct (rehash_bucket d1 (e :: c) (mig_ok _ _ Hm1) Hb1)
    as (d2 & h0 & -> & Hs & Hok2 & P2 & Hit & Hri & Hsz2). bsimpl. rewrite Hs. bsimpl.
  change (rehashidx (set_ht0 d2 h0)) with (rehashidx d2).
  set (d3 := set_rehashidx (set_ht0 d2 h0) (rehashidx d2 + 1)) in *.
  assert (migrates d d3) as Hm3.
  { eapply migrates_trans; [done|]. constructor; (done || lia). }
  pose proof (mig_idx _ _ Hm1).
  destruct (IH d3 ev1 Hok2) as (r & -> & Hr). exists r. split; [done|].
  destruct r as [d'|d'].
  - destruct Hr as (Hm' & Hlt & Hu'). split_and!; [by eapply migrates_trans|lia|done].
  - destruct Hr as (Hm' & _). split; [by eapply migrates_trans|]. pose proof (mig_idx _ _ Hm'). lia.
Qed.

(** [dictRehash] keeps the map and the invariant, and makes progress. *)
Lemma dictRehash_spec d n :
  dict_ok d ->
  exists d' rc, dictRehash d n = Some (d', rc) /\ dict_ok d' /\ abs d' = abs d /\
    entries d' ≡ₚ entries d /\
    iterators d' = iterators d /\
    (table (ht0 d) <> None -> table (ht0 d') <> None) /\
    (rc = 0 /\ dictIsRehashing d' = false \/
     rc = 1 /\ dictIsRehashing d' = true /\ size (ht0 d') = size (ht0 d) /\
       used (ht0 d') <> 0 /\ ((0 < n)%nat -> rehashidx d < rehashidx d')).
Proof.
  intros Hok. unfold dictRehash. destruct (dictIsRehashing d) eqn:Hre; cbn [negb].
  2: { exists d, 0. split_and!; try done. by left. }
  destruct (dictRehash_loop_spec n d (Z.of_nat n * 10) (conj Hok Hre)) as (r & -> & Hr). bsimpl.
  assert (forall d', migrates d d' -> abs d' = abs d /\ (table (ht0 d) <> None -> table (ht0 d') <> None)) as Hmig.
  { intros d' [[Hok' Hre'] P _ _ _]. split; [by apply abs_perm|]. intros _.
    pose proof (ok_rehash _ Hok') as Hr'. rewrite Hre' in Hr'. tauto. }
  destruct r as [d'|d'].
  { destruct Hr as (Hm & Hlt & Hu). destruct (Hmig d' Hm) as [Ha Ht]. destruct Hm as [[Hok' Hre'] P Hit Hidx Hsz].
    exists d', 1. split_and!; try done. right. split_and!; done. }
  destruct Hr as (Hm & Hlt). destruct (Hmig d' Hm) as [Ha Ht]. pose proof Hm as [[Hok' Hre'] P Hit Hidx Hsz].
  destruct (Z.eqb_spec (used (ht0 d')) 0) as [Hu|Hu].
  - pose proof (ok_rehash _ Hok') as Hr'. rewrite Hre' in Hr'. destruct Hr' as (_ & _ & Ht1 & _).
    set (d'' := mkDict (ht1 d') _dictReset (-1) (iterators d')).
    assert (ents (ht0 d') = []) as He0.
    { apply nil_length_inv. rewrite (ht_ok_used _ (ok_ht0 _ Hok')) in Hu. lia. }
    assert (entries d'' = entries d') as He.
    { unfold entries. rewrite He0. simpl. by rewrite app_nil_r. }
    assert (dict_ok d'') as Hok''.
    { destruct Hok' as [H0' H1' Hn _ Hbd]. constructor; simpl; try done; [by left|by rewrite He..]. }
    exists d'', 0. split_and!; try done; [|by rewrite He|by left].
    rewrite <- Ha. apply abs_perm; [done|by rewrite He].
  - exists d', 1. split_and!; try done. right. split_and!; try done.
    intros Hn. by apply Hlt.
Qed.

(** ** Expansion *)

Lemma nextPower_loop_spec fuel : forall k sz,
  2 <= k <= MAX_ORDER -> sz <= 2 ^ MAX_ORDER -> MAX_ORDER - k < Z.of_nat fuel ->
  exists k', k <= k' <= MAX_ORDER /\ _dictNextPower_loop fuel (2 ^ k) sz = Some (2 ^ k') /\ sz <= 2 ^ k'.
Proof.
  unfold MAX_ORDER. induction fuel as [|fuel IH]; intros k sz Hk Hs Hf; [lia|]. cbn [_dictNextPower_loop].
  destruct (Z.geb_spec (2 ^ k) sz) as [Hge|Hlt].
  { exists k. split_and!; (done || lia). }
  assert (k <> 60) by (intros ->; lia).
  assert (u64 (2 ^ k * 2) = 2 ^ (k + 1)) as ->.
  { rewrite Z.pow_add_r by lia. change (2 ^ 1) with 2. apply uwrap_small.
    pose proof (Z.pow_le_mono_r 2 k 60 ltac:(lia) ltac:(lia)). mlia. }
  destruct (IH (k + 1) sz ltac:(lia) Hs ltac:(lia)) as (k' & ? & ? & ?).
  exists k'. split_and!; (done || lia).
Qed.

Lemma nextPower_spec sz :
  sz <= 2 ^ 59 ->
  exists k, 2 <= k <= MAX_ORDER /\ _dictNextPower sz = Some (2 ^ k) /\ sz <= 2 ^ k.
Proof.
  intros Hs. unfold _dictNextPower, LONG_MAX. rewrite Z.geb_leb, (proj2 (Z.leb_gt _ _)) by mlia.
  change DICT_HT_INITIAL_SIZE with (2 ^ 2). apply nextPower_loop_spec; unfold MAX_ORDER; mlia.
Qed.

Definition fresh_ht (k : Z) : dictht := mkHt (Some (replicate (Z.to_nat (2 ^ k)) [])) (2 ^ k) (2 ^ k - 1) 0.

Lemma ents_fresh k : ents (fresh_ht k) = [].
Proof. unfold ents. simpl. induction (Z.to_nat (2 ^ k)); simpl; done. Qed.

Lemma fresh_alloc k : 2 <= k <= MAX_ORDER -> ht_alloc (fresh_ht k) (replicate (Z.to_nat (2 ^ k)) []).
Proof.
  intros Hk. constructor; simpl; try done.
  - eauto.
  - rewrite length_replicate, Z2Nat.id by lia. done.
  - intros i b e Hb He. apply lookup_replicate in Hb as [-> _]. set_solver.
  - by rewrite ents_fresh.
Qed.

Lemma dictExpand_spec d sz :
  dict_ok d -> dictIsRehashing d = false -> used (ht0 d) <= sz <= 2 ^ 59 ->
  exists d' rc, dictExpand d sz = Some (d', rc) /\ dict_ok d' /\ entries d' = entries d /\
    iterators d' = iterators d /\
    (rc = DICT_OK /\ table (ht0 d') <> None \/ rc = DICT_ERR /\ d' = d /\ sz <= size (ht0 d)).
Proof.
  intros Hok Hre Hsz. unfold dictExpand. rewrite Hre, Z.gtb_ltb, (proj2 (Z.ltb_ge _ _)) by lia. cbn [orb].
  destruct (nextPower_spec sz) as (k & Hk & -> & Hle); [lia|]. bsimpl.
  destruct (Z.eqb_spec (2 ^ k) (size (ht0 d))) as [He|He].
  { exists d, DICT_ERR. split_and!; try done. right. split_and!; (done || lia). }
  assert (mkHt (Some (replicate (Z.to_nat (u64 (2 ^ k * sizeof_pointer) / sizeof_pointer)) []))
            (2 ^ k) (u64 (2 ^ k - 1)) 0 = fresh_ht k) as ->.
  { unfold fresh_ht, sizeof_pointer, MAX_ORDER in *.
    pose proof (Z.pow_le_mono_r 2 k 60 ltac:(lia) ltac:(lia)).
    pose proof (Z.pow_le_mono_r 2 2 k ltac:(lia) ltac:(lia)).
    rewrite !uwrap_small by mlia. by rewrite Z.div_mul by lia. }
  pose proof (fresh_alloc k Hk) as Hfr.
  destruct Hok as [H0' H1' Hn Hr Hb]. rewrite Hre in Hr.
  destruct (table (ht0 d)) as [t0|] eqn:Ht0.
  - eexists _, DICT_OK. split; [done|].
    assert (entries (set_rehashidx (set_ht1 d (fresh_ht k)) 0) = entries d) as Hent.
    { unfold entries. simpl. rewrite ents_fresh, Hr. done. }
    split_and!; [|done|done|left; split; [done|]; simpl; by rewrite Ht0].
    constructor; simpl; try (by rewrite Hent); [done|by right; eauto|].
    split_and!; [lia|by rewrite Ht0|done|]. intros i b Hi. lia.
  - eexists _, DICT_OK. split; [done|].
    assert (ents (ht0 d) = []) as He0 by (unfold ents; by rewrite Ht0).
    assert (entries (set_ht0 d (fresh_ht k)) = entries d) as Hent.
    { unfold entries. simpl. by rewrite ents_fresh, He0. }
    split_and!; [|done|done|by left].
    constructor; simpl; try (by rewrite Hent); [by right; eauto|done|].
    unfold dictIsRehashing in *. simpl. by rewrite Hre.
Qed.

Lemma expandIfNeeded_spec can_resize d :
  dict_ok d ->
  exists d', _dictExpandIfNeeded can_resize d = Some (d', DICT_OK) /\ dict_ok d' /\
    entries d' = entries d /\ iterators d' = iterators d /\ table (ht0 d') <> None.
Proof.
  intros Hok. unfold _dictExpandIfNeeded. destruct (dictIsRehashing d) eqn:Hre.
  { exists d. split_and!; try done. pose proof (ok_rehash _ Hok) as Hr. rewrite Hre in Hr. tauto. }
  pose proof (ents_bound _ Hok) as Hb. unfold MAX_ENTRIES in Hb.
  pose proof (ht_ok_used _ (ok_ht0 _ Hok)) as Hu.
  destruct (ok_ht0 _ Hok) as [Hz|[t Ha]].
  - rewrite Hz. simpl. destruct (dictExpand_spec d DICT_HT_INITIAL_SIZE Hok Hre) as (d' & rc & -> & Hok' & He & Hit & Hrc).
    { rewrite Hz. unfold DICT_HT_INITIAL_SIZE. simpl. lia. }
    destruct Hrc as [[-> Ht]|(-> & _ & Hle)]; [eauto 10|]. rewrite Hz in Hle. done.
  - destruct (al_size _ _ Ha) as (k & Hk & Hsz).
    assert (0 < size (ht0 d)) by (rewrite Hsz; lia).
    rewrite (proj2 (Z.eqb_neq _ _)) by lia.
    destruct (Z.geb_spec (used (ht0 d)) (size (ht0 d))) as [Hge|Hlt]; cbn [andb].
    2: { exists d. split_and!; try done. by eapply ht_alloc_table. }
    destruct (_ || _); [|exists d; split_and!; try done; by eapply ht_alloc_table].
    rewrite uwrap_small by mlia.
    destruct (dictExpand_spec d (used (ht0 d) * 2) Hok Hre) as (d' & rc & -> & Hok' & He & Hit & Hrc); [mlia|].
    destruct Hrc as [[-> Ht]|(-> & _ & Hle)]; [eauto 10|lia].
Qed.

(** ** Search *)

Lemma chain_find_Some key b p :
  chain_find key b = Some p -> exists v, b !! p = Some (key, v).
Proof.
  revert p. induction b as [|[k v] b IH]; intros p Hp; simpl in Hp; [done|].
  destruct (keyCompare key k) eqn:Hk.
  - injection Hp as <-. apply keyCompare_eq in Hk as <-. eauto.
  - destruct (chain_find key b) as [q|]; [|done]. injection Hp as <-. simpl. by apply IH.
Qed.

Lemma chain_find_None key b v : chain_find key b = None -> (key, v) ∉ b.
Proof.
  induction b as [|[k w] b IH]; simpl; intros Hn; [set_solver|].
  destruct (keyCompare key k) eqn:Hk; [done|]. destruct (chain_find key b); [done|].
  intros [[= <- <-]|Hin]%elem_of_cons; [|by apply IH].
  by rewrite (proj2 (keyCompare_eq key key)) in Hk.
Qed.

Lemma abs_lookup d k v : dict_ok d -> abs d !! k = Some v <-> (k, v) ∈ entries d.
Proof. intros Hok. symmetry. apply elem_of_list_to_map. by apply ok_nodup. Qed.

Lemma elem_entries d i e : e ∈ ents (ht d i) -> e ∈ entries d.
Proof. unfold entries. destruct i; simpl; set_solver. Qed.

Lemma search_table_spec d i key t :
  ht_alloc (ht d i) t ->
  exists r, search_table d i key (hashFunction key) = Some (slot (sizemask (ht d i)) key, r) /\
    match r with
    | Some rf => exists v, deref d rf = Some (key, v) /\ (key, v) ∈ ents (ht d i)
    | None => forall v, (key, v) ∉ ents (ht d i)
    end.
Proof.
  intros Ha. unfold search_table. fold (slot (sizemask (ht d i)) key).
  destruct (slot_bucket _ _ key Ha) as [b Hb]. rewrite Hb. bsimpl.
  destruct (chain_find key b) as [p|] eqn:Hf; simpl; (eexists; split; [done|]).
  - destruct (chain_find_Some _ _ _ Hf) as [v Hv]. exists v. split.
    + unfold deref. simpl. by rewrite Hb.
    + eapply bucket_in_ents; [done|done|]. by eapply list_elem_of_lookup_2.
  - intros v Hin. destruct (ents_in_bucket _ _ (key, v) Ha Hin) as (b' & Hb' & Hin').
    simpl in Hb'. rewrite Hb in Hb'. injection Hb' as <-. by eapply chain_find_None.
Qed.

Lemma search_spec d key :
  dict_ok d -> table (ht0 d) <> None ->
  exists idx r, search d key (hashFunction key) = Some (idx, r) /\
    match r with
    | Some rf => exists v, deref d rf = Some (key, v) /\ abs d !! key = Some v
    | None => abs d !! key = None /\ idx = slot (sizemask (ht d (dictIsRehashing d))) key
    end.
Proof.
  intros Hok Ht0. destruct (ht_ok_table _ (ok_ht0 _ Hok) Ht0) as [t0 Ha0].
  unfold search. destruct (search_table_spec d false key t0 Ha0) as (r0 & -> & Hr0). bsimpl.
  pose proof (ok_rehash _ Hok) as Hr.
  destruct r0 as [rf|].
  { destruct Hr0 as (v & Hd & Hin). eexists _, _. split; [done|]. exists v. split; [done|].
    apply abs_lookup; [done|]. by apply (elem_entries d false). }
  destruct (dictIsRehashing d).
  - destruct Hr as (_ & _ & Ht1 & _). destruct (ht_ok_table _ (ok_ht1 _ Hok) Ht1) as [t1 Ha1].
    destruct (search_table_spec d true key t1 Ha1) as (r1 & -> & Hr1).
    eexists _, _. split; [done|]. destruct r1 as [rf|].
    + destruct Hr1 as (v & Hd & Hin). exists v. split; [done|].
      apply abs_lookup; [done|]. by apply (elem_entries d true).
    + split; [|done]. apply eq_None_not_Some. intros [v Hv]. apply abs_lookup in Hv; [|done].
      unfold entries in Hv. apply elem_of_app in Hv as [Hv|Hv]; [by eapply Hr0|by eapply Hr1].
  - eexists _, _. split; [done|]. split; [|done].
    apply eq_None_not_Some. intros [v Hv]. apply abs_lookup in Hv; [|done].
    unfold entries in Hv. rewrite Hr in Hv. apply elem_of_app in Hv as [Hv|Hv]; [by eapply Hr0|set_solver].
Qed.

(** ** Bucket updates *)

Lemma bucket_rest d i t idx b :
  ht_alloc (ht d i) t -> bucket (ht d i) idx = Some b -> exists rest, entries d ≡ₚ b ++ rest.
Proof.
  intros Ha Hb. destruct (set_bucket_ents _ _ _ b [] Ha Hb) as (_ & rest & _ & _ & P & _).
  unfold entries. destruct i; simpl in *; [exists (ents (ht0 d) ++ rest)|exists (rest ++ ents (ht1 d))];
    rewrite P; solve_Permutation.
Qed.

Lemma set_ht_same d i h : ht (set_ht d i h) i = h.
Proof. by destruct i. Qed.

Lemma dict_update d i t idx b b' rest :
  dict_ok d -> ht_alloc (ht d i) t -> bucket (ht d i) idx = Some b ->
  (forall e, e ∈ b' -> slot (sizemask (ht d i)) e.1 = idx) ->
  (i = false -> dictIsRehashing d = true -> b <> [] \/ b' = []) ->
  entries d ≡ₚ b ++ rest -> NoDup (b' ++ rest).*1 ->
  Z.of_nat (length (b' ++ rest)) <= MAX_ENTRIES ->
  exists h', set_bucket (ht d i) idx b' = Some h' /\ used h' = used (ht d i) /\
    let d' := set_ht d i (set_used h' (used h' + Z.of_nat (length b') - Z.of_nat (length b))) in
    dict_ok d' /\ entries d' ≡ₚ b' ++ rest /\ iterators d' = iterators d /\
    bucket (ht d' i) idx = Some b' /\
    dictIsRehashing d' = dictIsRehashing d /\ table (ht d' i) <> None.
Proof.
  intros Hok Ha Hb Hpl Hmg P Hnd Hbd.
  destruct (set_bucket_ents _ _ _ b b' Ha Hb) as (h' & rest' & Hs & Hh' & P1 & P2).
  exists h'. split; [done|]. assert (used h' = used (ht d i)) as Hu by by subst h'. split; [done|].
  set (n := used h' + Z.of_nat (length b') - Z.of_nat (length b)). cbv zeta.
  assert (ht_alloc (set_used h' n) (<[Z.to_nat idx := b']> t)) as Ha'.
  { eapply ht_alloc_update; [done|done|done|done|]. subst n. by rewrite Hu. }
  assert (entries (set_ht d i (set_used h' n)) ≡ₚ b' ++ rest) as P'.
  { change (ents (set_used h' n)) with (ents h') in *. unfold entries in *. destruct i; simpl in *.
    - change (ents (set_used h' n)) with (ents h'). rewrite P1 in P.
      assert (rest ≡ₚ ents (ht0 d) ++ rest') as ->.
      { apply (Permutation_app_inv_l b). rewrite <- P. solve_Permutation. }
      rewrite P2. solve_Permutation.
    - change (ents (set_used h' n)) with (ents h'). rewrite P1 in P.
      assert (rest ≡ₚ rest' ++ ents (ht1 d)) as ->.
      { apply (Permutation_app_inv_l b). rewrite <- P. solve_Permutation. }
      rewrite P2. solve_Permutation. }
  destruct (bucket_Some _ _ _ _ Ha Hb) as [Hr Ht].
  assert (dictIsRehashing (set_ht d i (set_used h' n)) = dictIsRehashing d) as Hre by by destruct i.
  split_and!; [|done|by destruct i| |done|rewrite set_ht_same; by eapply ht_alloc_table].
  2: { rewrite set_ht_same, (bucket_alloc _ _ _ Ha') by lia. apply list_lookup_insert_eq.
       by eapply lookup_lt_Some. }
  destruct Hok as [Ok0 Ok1 _ Hrh _]. constructor.
  - destruct i; simpl; [done|right; eauto].
  - destruct i; simpl; [right; eauto|done].
  - by rewrite P'.
  - rewrite Hre. destruct (dictIsRehashing d) eqn:Hre'.
    + destruct Hrh as (Hidx & Ht0 & Ht1 & Hmig). pose proof (ht_alloc_table _ _ Ha') as Hnn.
      destruct i; simpl in *; split_and!; try done.
      intros j c Hj Hc. rewrite (bucket_alloc _ _ _ Ha'), Nat2Z.id in Hc by lia.
      apply list_lookup_insert_Some in Hc as [(Hj' & -> & _)|[Hne Hc]].
      * destruct (Hmg eq_refl eq_refl) as [Hbne|]; [|done]. exfalso. apply Hbne.
        apply (Hmig j); [done|]. rewrite <- Hj', Z2Nat.id by lia. done.
      * apply (Hmig j); [done|]. rewrite (bucket_alloc _ _ _ Ha), Nat2Z.id by lia. done.
    + destruct i; simpl; [|done]. simpl in Ha. rewrite Hrh in Ha.
      by apply ht_alloc_table in Ha.
  - by rewrite P'.
Qed.

(** A valid reference lies in an allocated table. *)
Lemma deref_inv d rf e :
  dict_ok d -> deref d rf = Some e ->
  exists t b, ht_alloc (ht d (ref_table rf)) t /\ bucket (ht d (ref_table rf)) (ref_idx rf) = Some b /\
    b !! ref_pos rf = Some e /\ slot (sizemask (ht d (ref_table rf))) e.1 = ref_idx rf /\
    (forall e', e' ∈ b -> slot (sizemask (ht d (ref_table rf))) e'.1 = ref_idx rf).
Proof.
  intros Hok Hd. unfold deref in Hd.
  destruct (bucket (ht d (ref_table rf)) (ref_idx rf)) as [b|] eqn:Hb; [|done]. simpl in Hd.
  assert (exists t, ht_alloc (ht d (ref_table rf)) t) as [t Ha].
  { assert (ht_ok (ht d (ref_table rf))) as [Hz|]; [|rewrite Hz in Hb|]; try done.
    destruct (ref_table rf); simpl; apply Hok. }
  destruct (bucket_Some _ _ _ _ Ha Hb) as [Hr Ht].
  assert (forall e', e' ∈ b -> slot (sizemask (ht d (ref_table rf))) e'.1 = ref_idx rf) as Hpl.
  { intros e' He'. rewrite (al_placed _ _ Ha _ _ _ Ht He'). lia. }
  exists t, b. split_and!; try done. apply Hpl. by eapply list_elem_of_lookup_2.
Qed.

Lemma set_used_id h n : n = used h -> set_used h n = h.
Proof. intros ->. by destruct h. Qed.

Lemma dictSetVal_spec d rf key v0 val :
  dict_ok d -> deref d rf = Some (key, v0) ->
  exists d', dictSetVal d rf val = Some d' /\ dict_ok d' /\ abs d' = <[key := val]> (abs d) /\
    iterators d' = iterators d.
Proof.
  intros Hok Hd. destruct (deref_inv d rf _ Hok Hd) as (t & b & Ha & Hb & Hp & Hsl & Hpl).
  destruct (bucket_rest _ _ _ _ _ Ha Hb) as [rest P].
  unfold dictSetVal. rewrite Hb. bsimpl. rewrite Hp. bsimpl.
  pose proof (take_drop_middle _ _ _ Hp) as Hmid.
  set (l1 := take (ref_pos rf) b) in *. set (l2 := drop (S (ref_pos rf)) b) in *.
  assert (<[ref_pos rf := (key, val)]> b = l1 ++ (key, val) :: l2) as Hins.
  { apply insert_take_drop. by eapply lookup_lt_Some. }
  cbn [fst]. rewrite Hins.
  assert (entries d ≡ₚ (key, v0) :: l1 ++ l2 ++ rest) as P0.
  { rewrite P, <- Hmid. solve_Permutation. }
  assert ((l1 ++ (key, val) :: l2) ++ rest ≡ₚ (key, val) :: l1 ++ l2 ++ rest) as P1 by solve_Permutation.
  pose proof (ok_nodup _ Hok) as Hnd. rewrite P0 in Hnd.
  destruct (dict_update d (ref_table rf) t (ref_idx rf) b (l1 ++ (key, val) :: l2) rest)
    as (h' & Hs & Hu & Hok' & P' & Hit & _); try done.
  - intros e He. apply elem_of_app in He as [He|[->|He]%elem_of_cons]; [apply Hpl..|done|apply Hpl];
      rewrite <- Hmid; set_solver.
  - intros _ _. left. intros ->. done.
  - by rewrite P1.
  - rewrite P1. pose proof (ok_bound _ Hok) as Hb'. by rewrite P0 in Hb'.
  - rewrite Hs. bsimpl. eexists. split; [done|].
    assert (length (l1 ++ (key, val) :: l2) = length b) as Hl.
    { rewrite <- Hmid, !length_app. done. }
    rewrite set_used_id in Hok', P', Hit by lia.
    split_and!; [done| |done].
    unfold abs. rewrite (list_to_map_proper (entries _) ((key, val) :: l1 ++ l2 ++ rest));
      [|by apply ok_nodup|by rewrite P', P1].
    rewrite (list_to_map_proper (entries d) ((key, v0) :: l1 ++ l2 ++ rest)); [|by apply ok_nodup|done].
    simpl. by rewrite insert_insert_eq.
Qed.

(** ** The operations *)

Lemma rehash_step_spec d :
  dict_ok d ->
  exists d', rehash_step_if d = Some d' /\ dict_ok d' /\ abs d' = abs d /\ entries d' ≡ₚ entries d /\
    iterators d' = iterators d /\ (table (ht0 d) <> None -> table (ht0 d') <> None).
Proof.
  intros Hok. unfold rehash_step_if, _dictRehashStep. destruct (dictIsRehashing d); [|eauto 10].
  destruct (iterators d =? 0); [|eauto 10].
  destruct (dictRehash_spec d 1 Hok) as (d' & rc & -> & ? & ? & ? & ? & ? & _). bsimpl. eauto 10.
Qed.

Lemma dictAddRaw_spec can_resize d key :
  dict_ok d -> Z.of_nat (length (entries d)) + 1 <= MAX_ENTRIES ->
  exists d' r, dictAddRaw uninit can_resize d key = Some (d', r) /\ dict_ok d' /\
    iterators d' = iterators d /\
    match r with
    | inl rf => abs d !! key = None /\ abs d' = <[key := uninit]> (abs d) /\
        deref d' rf = Some (key, uninit)
    | inr existing => exists rf v, existing = Some rf /\ abs d !! key = Some v /\ abs d' = abs d /\
        deref d' rf = Some (key, v)
    end.
Proof.
  intros Hok Hbd. unfold dictAddRaw.
  destruct (rehash_step_spec d Hok) as (d1 & -> & Hok1 & Habs1 & P1 & Hit1 & _). bsimpl.
  unfold _dictKeyIndex.
  destruct (expandIfNeeded_spec can_resize d1 Hok1) as (d2 & -> & Hok2 & He2 & Hit2 & Ht2). bsimpl.
  assert (abs d2 = abs d) as Habs2 by (rewrite <- Habs1; unfold abs; by rewrite He2).
  change (DICT_OK =? DICT_ERR) with false. cbv iota.
  destruct (search_spec d2 key Hok2 Ht2) as (idx & r & -> & Hr). bsimpl.
  destruct r as [rf|]; bsimpl.
  { destruct Hr as (v & Hd & Hv). eexists _, _. split; [done|]. split_and!; [done|congruence|].
    exists rf, v. split_and!; [done|by rewrite <- Habs2|done|done]. }
  destruct Hr as [Hno Hidx]. set (i := dictIsRehashing d2) in *.
  assert (exists t, ht_alloc (ht d2 i) t) as [t Ha].
  { destruct i eqn:Hi; simpl; apply ht_ok_table; try apply Hok2; [|done].
    pose proof (ok_rehash _ Hok2) as Hrh. subst i. rewrite Hi in Hrh. tauto. }
  destruct (slot_bucket _ _ key Ha) as [b Hb]. rewrite Hidx, Hb. bsimpl.
  destruct (bucket_rest _ _ _ _ _ Ha Hb) as [rest P].
  assert (forall w, (key, w) ∉ entries d2) as Hni.
  { intros w Hw%abs_lookup; [|done]. congruence. }
  destruct (dict_update d2 i t (slot (sizemask (ht d2 i)) key) b ((key, uninit) :: b) rest)
    as (h' & Hs & Hu & Hok' & P' & Hit' & Hb' & _); try done.
  - intros e [->|He]%elem_of_cons; [done|]. destruct (bucket_Some _ _ _ _ Ha Hb) as [Hrg Ht].
    rewrite (al_placed _ _ Ha _ _ _ Ht He). lia.
  - intros Hi Hre. subst i. congruence.
  - simpl. apply NoDup_cons. rewrite <- P. split; [|by apply ok_nodup].
    intros [[k' w] [-> Hw]]%list_elem_of_fmap. simpl in Hni. by eapply Hni.
  - simpl. rewrite <- P, He2, P1. lia.
  - rewrite Hs. bsimpl. eexists _, _. split; [done|].
    assert (u64 (used h' + 1) = used h' + Z.of_nat (length ((key, uninit) :: b)) - Z.of_nat (length b)) as ->.
    { pose proof (al_used _ _ Ha). pose proof (ents_bound _ Hok2). unfold MAX_ENTRIES in *.
      rewrite Hu. rewrite uwrap_small; [simpl; lia|]. destruct i; simpl in *; mlia. }
    split_and!; [done|congruence|congruence| |].
    + unfold abs at 1. rewrite (list_to_map_proper (entries _) ((key, uninit) :: b ++ rest));
        [|by apply ok_nodup|done].
      simpl. f_equal. rewrite <- Habs2. unfold abs. symmetry. apply list_to_map_proper; [by apply ok_nodup|done].
    + unfold deref. cbn [ref_table ref_idx ref_pos]. cbv zeta in Hb'. by rewrite Hb'.
Qed.

Lemma dictAdd_spec can_resize d key val :
  dict_ok d -> Z.of_nat (length (entries d)) + 1 <= MAX_ENTRIES ->
  exists d', dictAdd uninit can_resize d key val =
      Some (d', if abs d !! key then DICT_ERR else DICT_OK) /\ dict_ok d' /\
    abs d' = (if abs d !! key then abs d else <[key := val]> (abs d)) /\ iterators d' = iterators d.
Proof.
  intros Hok Hbd. unfold dictAdd.
  destruct (dictAddRaw_spec can_resize d key Hok Hbd) as (d1 & r & -> & Hok1 & Hit1 & Hr). bsimpl.
  destruct r as [rf|ex].
  - destruct Hr as (-> & Ha1 & Hd). destruct (dictSetVal_spec d1 rf key uninit val Hok1 Hd) as (d2 & -> & Hok2 & Ha2 & Hit2).
    bsimpl. exists d2. split_and!; [done|done| |congruence]. by rewrite Ha2, Ha1, insert_insert_eq.
  - destruct Hr as (rf & v & -> & -> & Ha1 & _). eauto.
Qed.

Lemma dictReplace_spec can_resize d key val :
  dict_ok d -> Z.of_nat (length (entries d)) + 1 <= MAX_ENTRIES ->
  exists d', dictReplace uninit can_resize d key val =
      Some (d', if abs d !! key then 0 else 1) /\ dict_ok d' /\
    abs d' = <[key := val]> (abs d) /\ iterators d' = iterators d.
Proof.
  intros Hok Hbd. unfold dictReplace.
  destruct (dictAddRaw_spec can_resize d key Hok Hbd) as (d1 & r & -> & Hok1 & Hit1 & Hr). bsimpl.
  destruct r as [rf|ex].
  - destruct Hr as (-> & Ha1 & Hd). destruct (dictSetVal_spec d1 rf key uninit val Hok1 Hd) as (d2 & -> & Hok2 & Ha2 & Hit2).
    bsimpl. exists d2. split_and!; [done|done| |congruence]. by rewrite Ha2, Ha1, insert_insert_eq.
  - destruct Hr as (rf & v & -> & -> & Ha1 & Hd). bsimpl.
    destruct (dictSetVal_spec d1 rf key v val Hok1 Hd) as (d2 & -> & Hok2 & Ha2 & Hit2).
    bsimpl. exists d2. split_and!; [done|done| |congruence]. by rewrite Ha2, Ha1.
Qed.

Lemma dict_ok_reset it : dict_ok (mkDict _dictReset _dictReset (-1) it).
Proof. constructor; simpl; [by left..|constructor|done|]. unfold entries, MAX_ENTRIES. simpl. lia. Qed.

Lemma size_length_abs d : dict_ok d -> base.size (abs d) = length (entries d).
Proof.
  intros Hok. unfold abs. rewrite <- (length_fmap fst (entries d)).
  rewrite <- (size_dom (D := gset K)), dom_list_to_map_L.
  apply size_list_to_set. by apply ok_nodup.
Qed.

Lemma dictSize_spec d : dict_ok d -> dictSize d = Z.of_nat (base.size (abs d)).
Proof.
  intros Hok. rewrite size_length_abs by done. unfold dictSize, entries.
  rewrite (ht_ok_used _ (ok_ht0 _ Hok)), (ht_ok_used _ (ok_ht1 _ Hok)), length_app.
  pose proof (ents_bound d Hok) as Hb. unfold MAX_ENTRIES in Hb. rewrite uwrap_small by mlia. lia.
Qed.

Lemma nonempty_table0 d : dict_ok d -> entries d <> [] -> table (ht0 d) <> None.
Proof.
  intros Hok Hne. pose proof (ok_rehash _ Hok) as Hr. destruct (dictIsRehashing d); [tauto|].
  intros Ht. apply Hne. unfold entries, ents. rewrite Hr, Ht. done.
Qed.

Lemma entries_nil d : dict_ok d -> used (ht0 d) + used (ht1 d) = 0 -> entries d = [].
Proof.
  intros Hok. rewrite (ht_ok_used _ (ok_ht0 _ Hok)), (ht_ok_used _ (ok_ht1 _ Hok)).
  intros Hz. apply nil_length_inv. unfold entries. rewrite length_app. lia.
Qed.

Lemma entries_not_nil d : dict_ok d -> used (ht0 d) + used (ht1 d) <> 0 -> entries d <> [].
Proof.
  intros Hok. rewrite (ht_ok_used _ (ok_ht0 _ Hok)), (ht_ok_used _ (ok_ht1 _ Hok)).
  intros Hz He. apply Hz. apply (f_equal length) in He. unfold entries in He.
  rewrite length_app in He. simpl in He. lia.
Qed.

Lemma dictFind_spec d key :
  dict_ok d ->
  exists d' r, dictFind d key = Some (d', r) /\ dict_ok d' /\ abs d' = abs d /\
    iterators d' = iterators d /\
    match r with
    | Some rf => exists v, deref d' rf = Some (key, v) /\ abs d !! key = Some v
    | None => abs d !! key = None
    end.
Proof.
  intros Hok. unfold dictFind. pose proof (dictSize_spec d Hok) as Hsz.
  rewrite size_length_abs in Hsz by done. destruct (Z.eqb_spec (dictSize d) 0) as [Hz|Hz].
  { exists d, None. split_and!; try done. unfold abs. by rewrite (nil_length_inv (entries d)) by lia. }
  destruct (rehash_step_spec d Hok) as (d' & -> & Hok' & Ha & P & Hit & Ht). bsimpl.
  destruct (search_spec d' key Hok') as (idx & r & -> & Hr).
  { apply Ht, nonempty_table0; [done|]. intros Hn. rewrite Hn in Hsz. simpl in Hsz. lia. }
  bsimpl. exists d', r. split_and!; try done. rewrite <- Ha. destruct r; [done|tauto].
Qed.

Lemma dictFetchValue_spec d key :
  dict_ok d ->
  exists d', dictFetchValue d key = Some (d', abs d !! key) /\ dict_ok d' /\ abs d' = abs d /\
    iterators d' = iterators d.
Proof.
  intros Hok. unfold dictFetchValue.
  destruct (dictFind_spec d key Hok) as (d' & r & -> & Hok' & Ha & Hit & Hr). bsimpl.
  destruct r as [rf|].
  - destruct Hr as (v & -> & ->). bsimpl. eauto.
  - rewrite Hr. eauto.
Qed.

Lemma dictGenericDelete_spec d key :
  dict_ok d ->
  exists d', dictGenericDelete d key = Some (d', (fun v => (key, v)) <$> abs d !! key) /\ dict_ok d' /\
    abs d' = delete key (abs d) /\ iterators d' = iterators d.
Proof.
  intros Hok. unfold dictGenericDelete. destruct (_ && _) eqn:Hz.
  { apply andb_true_iff in Hz as [Hz0%Z.eqb_eq Hz1%Z.eqb_eq].
    assert (abs d = ∅) as Hemp by (unfold abs; rewrite entries_nil by (done || lia); done).
    exists d. rewrite Hemp, lookup_empty, delete_empty. done. }
  assert (entries d <> []) as Hne.
  { apply entries_not_nil; [done|].
    pose proof (ht_ok_used _ (ok_ht0 _ Hok)). pose proof (ht_ok_used _ (ok_ht1 _ Hok)).
    destruct (Z.eqb_spec (used (ht0 d)) 0), (Z.eqb_spec (used (ht1 d)) 0); try done; lia. }
  destruct (rehash_step_spec d Hok) as (d1 & -> & Hok1 & Ha1 & P1 & Hit1 & Ht1). bsimpl. rewrite <- Ha1.
  destruct (search_spec d1 key Hok1) as (idx & r & -> & Hr); [by apply Ht1, nonempty_table0|]. bsimpl.
  destruct r as [rf|].
  2: { destruct Hr as [Hno _]. exists d1. rewrite Hno, delete_id by done. done. }
  destruct Hr as (v & Hd & Hv). rewrite Hd, Hv. bsimpl.
  destruct (deref_inv d1 rf _ Hok1 Hd) as (t & b & Ha & Hb & Hp & Hsl & Hpl).
  destruct (bucket_rest _ _ _ _ _ Ha Hb) as [rest P]. rewrite Hb. bsimpl.
  assert (b ≡ₚ (key, v) :: delete (ref_pos rf) b) as Pb by by apply delete_Permutation.
  assert (entries d1 ≡ₚ (key, v) :: delete (ref_pos rf) b ++ rest) as Pe by (rewrite P, Pb at 1; done).
  pose proof (ok_nodup _ Hok1) as Hnd. rewrite Pe in Hnd. simpl in Hnd. apply NoDup_cons in Hnd as [Hni Hnd].
  destruct (dict_update d1 (ref_table rf) t (ref_idx rf) b (delete (ref_pos rf) b) rest)
    as (h' & Hs & Hu & Hok' & P' & Hit' & _); try done.
  - intros e He. apply Hpl. rewrite Pb. set_solver.
  - intros _ _. left. intros ->. done.
  - pose proof (ok_bound _ Hok1) as Hbd. rewrite Pe in Hbd. simpl in Hbd. lia.
  - rewrite Hs. bsimpl. eexists. split; [done|].
    assert (u64 (used h' - 1) = used h' + Z.of_nat (length (delete (ref_pos rf) b)) - Z.of_nat (length b)) as ->.
    { rewrite Pb at 2. pose proof (al_used _ _ Ha). pose proof (ents_bound _ Hok1).
      pose proof (bucket_in_ents _ _ _ _ (key, v) Ha Hb ltac:(by eapply list_elem_of_lookup_2)) as Hin.
      apply list_elem_of_In, (in_split (key, v)) in Hin as (l1 & l2 & Hin).
      apply (f_equal length) in Hin. rewrite length_app in Hin. simpl in Hin. unfold MAX_ENTRIES in *.
      rewrite Hu. rewrite uwrap_small; [simpl; lia|]. destruct (ref_table rf); simpl in *; mlia. }
    split_and!; [done| |congruence]. unfold abs.
    rewrite (list_to_map_proper (entries _) (delete (ref_pos rf) b ++ rest)); [|by apply ok_nodup|done].
    rewrite (list_to_map_proper (entries d1) ((key, v) :: delete (ref_pos rf) b ++ rest)); [|by apply ok_nodup|done].
    simpl. rewrite delete_insert_id; [done|]. by apply not_elem_of_list_to_map_1.
Qed.

Lemma dictResize_spec can_resize d :
  dict_ok d ->
  exists d' rc, dictResize can_resize d = Some (d', rc) /\ dict_ok d' /\ abs d' = abs d /\
    iterators d' = iterators d.
Proof.
  intros Hok. unfold dictResize. destruct (negb can_resize || dictIsRehashing d) eqn:Hc; [eauto 10|].
  apply orb_false_iff in Hc as [_ Hre].
  pose proof (ht_ok_used _ (ok_ht0 _ Hok)). pose proof (ents_bound _ Hok).
  destruct (dictExpand_spec d (if used (ht0 d) <? DICT_HT_INITIAL_SIZE then DICT_HT_INITIAL_SIZE else used (ht0 d)))
    as (d' & rc & -> & Hok' & He & Hit & _); [done..| |].
  - unfold DICT_HT_INITIAL_SIZE, MAX_ENTRIES in *. destruct (Z.ltb_spec (used (ht0 d)) 4); mlia.
  - exists d', rc. split_and!; try done. unfold abs. by rewrite He.
Qed.

(** [_dictClear] frees every entry of the table. *)
Lemma dictClear_loop_spec t : forall us,
  us = Z.of_nat (length (concat t)) -> _dictClear_loop t us = concat t.
Proof.
  induction t as [|b t IH]; intros us Hus; simpl; [done|].
  simpl in Hus. rewrite length_app in Hus. rewrite Z.gtb_ltb. destruct (Z.ltb_spec 0 us).
  - f_equal. apply IH. lia.
  - rewrite (nil_length_inv b), (nil_length_inv (concat t)) by lia. done.
Qed.

(** ** Timed rehashing terminates *)

Lemma rehashidx_lt_size d : rehashing_ok d -> used (ht0 d) <> 0 -> rehashidx d < size (ht0 d).
Proof.
  intros Hok Hu. destruct (nonempty_bucket d Hok Hu) as (j & b & Hj & Hb & _).
  destruct Hok as [Hok Hre]. pose proof (ok_rehash _ Hok) as Hr. rewrite Hre in Hr.
  destruct Hr as (_ & Ht0 & _). destruct (ht_ok_table _ (ok_ht0 _ Hok) Ht0) as [t Ha].
  destruct (bucket_Some _ _ _ _ Ha Hb). lia.
Qed.

Lemma s32_add r x : s32 (s32 r + x) = s32 (r + x).
Proof.
  unfold swrap. replace ((r + 2 ^ (32 - 1)) mod 2 ^ 32 - 2 ^ (32 - 1) + x + 2 ^ (32 - 1))
    with ((r + 2 ^ (32 - 1)) mod 2 ^ 32 + x) by lia.
  rewrite Zplus_mod_idemp_l. do 2 f_equal. lia.
Qed.

(** [calls] rounds from reading [i] on: every reading before the last was
    within the budget, and the last round either passed it or completed the
    migration. *)
Lemma rehash_ms_loop clock start ms m : forall i d r,
  dict_ok d -> (dictIsRehashing d = true -> size (ht0 d) - rehashidx d <= Z.of_nat m + 1) ->
  exists calls d' n, (1 <= calls <= S m)%nat /\
    (forall fuel, dictRehashMilliseconds_loop fuel clock i start ms d (s32 r) =
      if decide (calls <= fuel)%nat then Some (d', n) else None) /\
    dict_ok d' /\ abs d' = abs d /\
    (forall j, (i <= j)%nat -> (S j < i + calls)%nat -> clock j - start <= ms) /\
    (if dictIsRehashing d' then ms < clock (i + calls - 1)%nat - start /\ n = s32 (r + 100 * Z.of_nat calls)
     else n = s32 (r + 100 * (Z.of_nat calls - 1))).
Proof.
  induction m as [|m IH]; intros i d r Hok Hf.
  all: destruct (dictRehash_spec d 100 Hok) as (d1 & rc & Hrun & Hok1 & Ha1 & _ & _ & _ & Hc).
  all: destruct Hc as [[-> Hre]|(-> & Hre & Hsz & Hu & Hlt)].
  1,3: exists 1%nat, d1, (s32 r); split_and!; [lia|lia| |done|done|lia|rewrite Hre; f_equal; lia];
       intros [|fuel]; cbn [dictRehashMilliseconds_loop]; [done|]; by rewrite Hrun.
  all: pose proof (rehashidx_lt_size d1 (conj Hok1 Hre) Hu); specialize (Hlt ltac:(lia)).
  all: assert (dictIsRehashing d = true) as Hre0
         by (destruct (dictIsRehashing d) eqn:Hx; [done|];
             unfold dictRehash in Hrun; rewrite Hx in Hrun; discriminate).
  all: specialize (Hf Hre0).
  { lia. }
  destruct (Z.ltb_spec ms (clock i - start)) as [Hpast|Hin].
  - exists 1%nat, d1, (s32 (r + 100)). split_and!; [lia|lia| |done|done|lia|].
    + intros [|fuel]; cbn [dictRehashMilliseconds_loop]; [done|]. rewrite Hrun. bsimpl.
      by rewrite Z.gtb_ltb, (proj2 (Z.ltb_lt _ _)), s32_add by lia.
    + rewrite Hre, Nat.add_sub. split; [lia|f_equal; lia].
  - destruct (IH (S i) d1 (r + 100) Hok1) as (calls & d2 & n & Hcalls & Hl & Hok2 & Ha2 & Hj & Hend); [lia|].
    exists (S calls), d2, n. split_and!; [lia|lia| |done|congruence| |].
    + intros [|fuel]; cbn [dictRehashMilliseconds_loop]; [done|]. rewrite Hrun. bsimpl.
      rewrite Z.gtb_ltb, (proj2 (Z.ltb_ge _ _)), s32_add, Hl by lia. repeat case_decide; done || lia.
    + intros j Hij Hjc. destruct (decide (j = i)) as [->|]; [lia|]. apply Hj; lia.
    + replace (i + S calls - 1)%nat with (S i + calls - 1)%nat by lia.
      destruct (dictIsRehashing d2); [destruct Hend as [? ->]; split; [done|]|rewrite Hend]; f_equal; lia.
Qed.

End facts.

(** ** Refinement to finite maps *)

Inductive dop (K V : Type) :=
  | DAdd (k : K) (v : V) | DReplace (k : K) (v : V) | DFetch (k : K) | DDelete (k : K)
  | DSize | DResize | DRehash (n : nat) | DEmpty.
Arguments DAdd {_ _}. Arguments DReplace {_ _}. Arguments DFetch {_ _}. Arguments DDelete {_ _}.
Arguments DSize {_ _}. Arguments DResize {_ _}. Arguments DRehash {_ _}. Arguments DEmpty {_ _}.

Inductive danswer (V : Type) := DStatus (rc : Z) | DValue (v : option V) | DCount (n : Z) | DDone.
Arguments DStatus {_}. Arguments DValue {_}. Arguments DCount {_}. Arguments DDone {_}.

Section run.
Context {K V : Type} `{DictType K}.
Context (uninit : V).

(** An operation runs under the current value of [dict_can_resize]. *)
Definition dexec (d : dict (K := K) (V := V)) (o : bool * dop K V) : option (dict * danswer V) :=
  match o.2 with
  | DAdd k v => '(d, rc) ← dictAdd uninit o.1 d k v; Some (d, DStatus rc)
  | DReplace k v => '(d, rc) ← dictReplace uninit o.1 d k v; Some (d, DStatus rc)
  | DFetch k => '(d, r) ← dictFetchValue d k; Some (d, DValue r)
  | DDelete k => '(d, rc) ← dictDelete d k; Some (d, DStatus rc)
  | DSize => Some (d, DCount (dictSize d))
  | DResize => '(d, _) ← dictResize o.1 d; Some (d, DDone)
  | DRehash n => '(d, _) ← dictRehash d n; Some (d, DDone)
  | DEmpty => Some (dictEmpty d, DDone)
  end.

Fixpoint drun (d : dict (K := K) (V := V)) (os : list (bool * dop K V)) : option (dict * list (danswer V)) :=
  match os with
  | [] => Some (d, [])
  | o :: os => '(d, a) ← dexec d o; '(d, r) ← drun d os; Some (d, a :: r)
  end.

(** The same operations on a finite map. *)
Definition dexec_spec (m : gmap K V) (o : dop K V) : gmap K V * danswer V :=
  match o with
  | DAdd k v => if m !! k then (m, DStatus DICT_ERR) else (<[k := v]> m, DStatus DICT_OK)
  | DReplace k v => (<[k := v]> m, DStatus (if m !! k then 0 else 1))
  | DFetch k => (m, DValue (m !! k))
  | DDelete k => (delete k m, DStatus (if m !! k then DICT_OK else DICT_ERR))
  | DSize => (m, DCount (Z.of_nat (base.size m)))
  | DResize | DRehash _ => (m, DDone)
  | DEmpty => (∅, DDone)
  end.

Fixpoint drun_spec (m : gmap K V) (os : list (bool * dop K V)) : gmap K V * list (danswer V) :=
  match os with
  | [] => (m, [])
  | o :: os =>
      let '(m, a) := dexec_spec m o.2 in
      let '(m, r) := drun_spec m os in (m, a :: r)
  end.

Lemma dexec_refines d o :
  dict_ok d -> Z.of_nat (base.size (abs d)) + 1 <= MAX_ENTRIES ->
  exists d', dexec d o = Some (d', (dexec_spec (abs d) o.2).2) /\ dict_ok d' /\
    abs d' = (dexec_spec (abs d) o.2).1.
Proof.
  intros Hok Hbd. pose proof Hbd as Hbd'. rewrite size_length_abs in Hbd' by done.
  destruct o as [cr [k v|k v|k|k| | |n|]]; unfold dexec; cbn [fst snd].
  - destruct (dictAdd_spec uninit cr d k v Hok Hbd') as (d' & -> & Hok' & Ha & _). bsimpl. simpl.
    exists d'. destruct (abs d !! k); done.
  - destruct (dictReplace_spec uninit cr d k v Hok Hbd') as (d' & -> & Hok' & Ha & _). bsimpl. by exists d'.
  - destruct (dictFetchValue_spec d k Hok) as (d' & -> & Hok' & Ha & _). bsimpl. by exists d'.
  - unfold dictDelete.
    destruct (dictGenericDelete_spec d k Hok) as (d' & -> & Hok' & Ha & _). bsimpl. exists d'.
    split; [|done]. simpl. by destruct (abs d !! k).
  - exists d. by rewrite dictSize_spec.
  - destruct (dictResize_spec cr d Hok) as (d' & rc & -> & Hok' & Ha & _). bsimpl. by exists d'.
  - destruct (dictRehash_spec d n Hok) as (d' & rc & -> & Hok' & Ha & _). bsimpl. by exists d'.
  - eexists. split; [done|]. split; [apply dict_ok_reset|done].
Qed.

Lemma dexec_spec_size m (o : dop K V) : (base.size (dexec_spec m o).1 <= base.size m + 1)%nat.
Proof.
  destruct o; simpl; try lia.
  - destruct (m !! k) eqn:Hk; simpl; [lia|]. rewrite map_size_insert_None by done. lia.
  - rewrite map_size_insert. destruct (m !! k); simpl; unfold id; lia.
  - rewrite map_size_delete. destruct (m !! k); simpl; unfold id; lia.
  - rewrite map_size_empty. lia.
Qed.

(** C5: The hash table implements a finite map.  Any sequence of additions,
    replacements, lookups, deletions, size queries, resizes, rehashing steps
    and flushes, started on a well-formed table and under any setting of
    [dict_can_resize], accesses no bucket out of range, answers as the finite
    map does, and ends in a well-formed table that holds the same map,
    whichever stage of an incremental rehashing each operation meets.  Entries
    and operations together are at most 2^58. *)
Theorem dict_run_refines d os :
  dict_ok d -> Z.of_nat (base.size (abs d)) + Z.of_nat (length os) <= MAX_ENTRIES ->
  exists d', drun d os = Some (d', (drun_spec (abs d) os).2) /\ dict_ok d' /\
    abs d' = (drun_spec (abs d) os).1.
Proof.
  revert d. induction os as [|o os IH]; intros d Hok Hbd; cbn [drun drun_spec]; [eauto|].
  cbn [length] in Hbd. destruct (dexec_refines d o Hok ltac:(lia)) as (d1 & -> & Hok1 & Ha1). bsimpl.
  pose proof (dexec_spec_size (abs d) o.2) as Hs. destruct (dexec_spec (abs d) o.2) as [m a]; simpl in *.
  subst m. destruct (IH d1 Hok1 ltac:(lia)) as (d2 & -> & Hok2 & Ha2). bsimpl.
  destruct (drun_spec (abs d1) os) as [m r]. eauto.
Qed.

(** C34: Timed rehashing terminates.  [dictRehashMilliseconds] returns after a
    definite number of [dictRehash] calls, at least one and at most one for
    every bucket of the old table; it keeps the map.  Every reading of the
    clock but the last was within the budget; the last call either completed
    the migration or was followed by a reading past the budget, and the result
    counts 100 for every call that left buckets behind. *)
Theorem dictRehashMilliseconds_terminates clock (d : dict (K := K) (V := V)) ms :
  dict_ok d ->
  exists calls d' n,
    1 <= Z.of_nat calls <= Z.max 1 (size (ht0 d)) /\
    (forall fuel, dictRehashMilliseconds fuel clock d ms = if decide (calls <= fuel)%nat then Some (d', n) else None) /\
    dict_ok d' /\ abs d' = abs d /\
    (forall j, (1 <= j < calls)%nat -> clock j - clock 0%nat <= ms) /\
    (if dictIsRehashing d' then ms < clock calls - clock 0%nat /\ n = s32 (100 * Z.of_nat calls)
     else n = s32 (100 * (Z.of_nat calls - 1))).
Proof.
  intros Hok. unfold dictRehashMilliseconds.
  destruct (rehash_ms_loop clock (clock 0%nat) ms (Z.to_nat (size (ht0 d) - 1)) 1 d 0 Hok)
    as (calls & d' & n & Hc & Hl & Hok' & Ha & Hj & Hend).
  { intros Hre. pose proof (ok_rehash _ Hok) as Hr. rewrite Hre in Hr. destruct Hr as (? & Ht0 & _). lia. }
  exists calls, d', n. split_and!; [lia|lia|exact Hl|done|done|intros j ?; apply Hj; lia|].
  by replace (1 + calls - 1)%nat with calls in Hend by lia.
Qed.

(** Emptying a table releases every entry exactly once and leaves an
    empty map. *)
Theorem dictEmpty_frees_all (d : dict (K := K) (V := V)) :
  dict_ok d ->
  (_dictClear (ht0 d)).2 ++ (_dictClear (ht1 d)).2 = entries d /\
  dict_ok (dictEmpty d) /\ abs (dictEmpty d) = ∅.
Proof.
  intros Hok. split; [|split; [apply dict_ok_reset|done]].
  unfold entries, _dictClear, ents. simpl. f_equal.
  - destruct (ok_ht0 _ Hok) as [-> |[t Ha]]; [done|]. rewrite (al_table _ _ Ha).
    apply dictClear_loop_spec. rewrite (al_used _ _ Ha). unfold ents. by rewrite (al_table _ _ Ha).
  - destruct (ok_ht1 _ Hok) as [-> |[t Ha]]; [done|]. rewrite (al_table _ _ Ha).
    apply dictClear_loop_spec. rewrite (al_used _ _ Ha). unfold ents. by rewrite (al_table _ _ Ha).
Qed.

End run.

(** ** A table with integer keys *)

Section examples.
#[local] Instance sample_type : DictType Z := {|
  hashFunction k := u64 k;
  keyCompare := Z.eqb;
  hashFunction_u64 k := uwrap_range 64 k ltac:(lia);
  keyCompare_eq := Z.eqb_eq |}.

(** Five additions: the fifth starts an incremental rehashing. *)
Definition sample_ops : list (bool * dop Z Z) :=
  (fun c => (true, DAdd c c)) <$> [97; 98; 99; 100; 101].
Definition sample_dict : dict (K := Z) (V := Z) :=
  match drun 0 dictCreate sample_ops with Some (d, _) => d | None => dictCreate end.

Definition small_dict : dict (K := Z) (V := Z) :=
  match drun 0 dictCreate [(true, DAdd 97 97)] with Some (d, _) => d | None => dictCreate end.

Lemma drun_ok (d : dict (K := Z) (V := Z)) os :
  dict_ok d -> Z.of_nat (base.size (abs d)) + Z.of_nat (length os) <= MAX_ENTRIES ->
  exists d' r, drun 0 d os = Some (d', r) /\ dict_ok d'.
Proof.
  revert d. induction os as [|o os IH]; intros d Hok Hb; cbn [drun]; [eauto|].
  cbn [length] in Hb. destruct (dexec_refines 0 d o Hok ltac:(lia)) as (d1 & -> & Hok1 & Ha1). bsimpl.
  pose proof (dexec_spec_size (abs d) o.2). destruct (IH d1 Hok1) as (d2 & r & -> & ?); [rewrite Ha1; lia|].
  bsimpl. eauto.
Qed.

Lemma sample_dict_ok : dict_ok sample_dict.
Proof.
  unfold sample_dict.
  destruct (drun_ok dictCreate sample_ops (dict_ok_reset 0)) as (d' & r & -> & Hok); [by vm_compute|done].
Qed.

Lemma small_dict_ok : dict_ok small_dict.
Proof.
  unfold small_dict.
  destruct (drun_ok dictCreate [(true, DAdd 97 97)] (dict_ok_reset 0)) as (d' & r & -> & Hok); [by vm_compute|done].
Qed.

Definition sample_run : list (bool * dop Z Z) :=
  [(true, DAdd 97 7); (false, DReplace 98 7); (true, DFetch 98);
   (true, DDelete 99); (true, DRehash 100); (true, DFetch 99); (true, DSize)].

Lemma sample_run_answers :
  (drun_spec (abs sample_dict) sample_run).2 =
  [DStatus DICT_ERR; DStatus 0; DValue (Some 7); DStatus DICT_OK; DDone; DValue None; DCount 4].
Proof. by vm_compute. Qed.

Lemma dict_run_refines_witness :
  dictIsRehashing sample_dict = true /\
  exists d', drun 0 sample_dict sample_run
    = Some (d', [DStatus DICT_ERR; DStatus 0; DValue (Some 7); DStatus DICT_OK; DDone; DValue None; DCount 4]).
Proof.
  split; [by vm_compute|].
  destruct (dict_run_refines 0 sample_dict sample_run) as (d' & Hrun & _).
  - apply sample_dict_ok.
  - by vm_compute.
  - exists d'. by rewrite Hrun, sample_run_answers.
Defined.

(** A clock that stands still: the migration is completed. *)
Lemma dictRehashMilliseconds_terminates_witness :
  exists d' n, dictRehashMilliseconds 4 (fun _ => 0) sample_dict 1 = Some (d', n) /\ dictIsRehashing d' = false.
Proof.
  destruct (dictRehashMilliseconds_terminates (fun _ => 0) sample_dict 1 sample_dict_ok)
    as (calls & d' & n & Hb & Hrun & _ & _ & _ & Hc).
  exists d', n. change (size (ht0 sample_dict)) with 4 in Hb. rewrite Hrun, decide_True by lia. split; [done|].
  destruct (dictIsRehashing d'); [|done]. destruct Hc. lia.
Defined.

Lemma dictEmpty_frees_all_witness :
  length ((_dictClear (ht0 sample_dict)).2 ++ (_dictClear (ht1 sample_dict)).2) = 5%nat /\
  abs (dictEmpty sample_dict) = ∅.
Proof.
  destruct (dictEmpty_frees_all sample_dict) as (-> & _ & ->); [apply sample_dict_ok|].
  split; [by vm_compute|done].
Defined.

End examples.
End DictFacts.
