(* ===== verification/DictLive.v ===== *)
(** Progress of the incremental rehashing of [dict.c].

    A rehashing table moves one bucket at the start of every insertion, lookup
    or deletion ([_dictRehashStep]).  The theorem bounds the number of
    operations after which the migration is over, whatever the operations are:
    no sequence of accesses keeps a table in the two-table state for ever. *)

From S2P Require Import Prelude Dict DictFacts.

#[local] Open Scope Z_scope.

Module DictLive.
Import Dict DictFacts.

Section live.
Context {K V : Type} `{DictType K}.
Context (uninit : V).
Implicit Types (d : dict (K := K) (V := V)) (h : dictht (K := K) (V := V)) (m : gmap K V).

(** The operations that take a rehashing step on a table that holds [m]:
    a lookup or deletion in an empty table returns before its step. *)
Definition takes_step m (o : dop K V) : bool :=
  match o with
  | DAdd _ _ | DReplace _ _ => true
  | DFetch _ | DDelete _ => negb (bool_decide (m = ∅))
  | _ => false
  end.

(** Every operation of a run takes a step. *)
Fixpoint all_step m (os : list (bool * dop K V)) : bool :=
  match os with
  | [] => true
  | o :: os => takes_step m o.2 && all_step (dexec_spec m o.2).1 os
  end.

(** The parts of a table only the rehashing steps, the iterators and
    expansions change. *)
Definition same_phase d d' : Prop :=
  rehashidx d' = rehashidx d /\ size (ht0 d') = size (ht0 d) /\ iterators d' = iterators d.

#[local] Instance same_phase_preorder : PreOrder same_phase.
Proof. split; [done|]. intros d1 d2 d3 (? & ? & ?) (? & ? & ?). unfold same_phase. split_and!; congruence. Qed.

Lemma set_bucket_phase d i idx b h us :
  set_bucket (ht d i) idx b = Some h ->
  same_phase d (set_ht d i h) /\ same_phase d (set_ht d i (set_used h us)).
Proof.
  unfold set_bucket. intros (t & Ht & (b0 & _ & [= <-])%bind_Some)%bind_Some. by destruct i.
Qed.

Lemma dictSetVal_phase d r v d' : dictSetVal d r v = Some d' -> same_phase d d'.
Proof.
  unfold dictSetVal. intros (b & _ & (e & _ & (h & Hs & [= <-])%bind_Some)%bind_Some)%bind_Some.
  exact (proj1 (set_bucket_phase _ _ _ _ _ 0 Hs)).
Qed.

Lemma dictAddRaw_phase cr d k d1 d' r :
  rehash_step_if d = Some d1 -> dictIsRehashing d1 = true ->
  dictAddRaw uninit cr d k = Some (d', r) -> same_phase d1 d'.
Proof.
  unfold dictAddRaw, _dictKeyIndex, _dictExpandIfNeeded. intros -> Hre. bsimpl. rewrite Hre. bsimpl.
  change (DICT_OK =? DICT_ERR) with false. cbv iota.
  destruct (search d1 k _) as [[idx [rf|]]|]; bsimpl; [by intros [= -> _]| |done].
  intros (b & _ & (h & Hs & [= <- _])%bind_Some)%bind_Some.
  exact (proj2 (set_bucket_phase _ _ _ _ _ _ Hs)).
Qed.

(** An operation that takes a step changes the phase of the table by that step
    alone, unless the step ends the migration. *)
Lemma dexec_phase d o d1 d' a :
  dict_ok d -> takes_step (abs d) o.2 = true ->
  rehash_step_if d = Some d1 -> dictIsRehashing d1 = true ->
  dexec uninit d o = Some (d', a) -> same_phase d1 d'.
Proof.
  intros Hok Ht Hs Hre. destruct o as [cr [k v|k v|k|k| | |n|]]; cbn [snd] in Ht; try done;
    unfold dexec; cbn [fst snd].
  - unfold dictAdd. intros ([d3 rc] & ([d2 r] & Hr & Hv)%bind_Some & [= -> _])%bind_Some.
    apply (dictAddRaw_phase cr d k d1) in Hr as Hp; [|done..]. destruct r as [e|ex]; [|by simplify_eq].
    apply bind_Some in Hv as (d4 & Hv & ?). simplify_eq. apply dictSetVal_phase in Hv. by etrans.
  - unfold dictReplace. intros ([d3 rc] & ([d2 r] & Hr & Hv)%bind_Some & [= -> _])%bind_Some.
    apply (dictAddRaw_phase cr d k d1) in Hr as Hp; [|done..]. destruct r as [e|[e|]]; [| |done].
    2: apply bind_Some in Hv as (e' & [= <-] & Hv).
    all: apply bind_Some in Hv as (d4 & Hv & ?); simplify_eq; apply dictSetVal_phase in Hv; by etrans.
  - apply negb_true_iff, bool_decide_eq_false in Ht. unfold dictFetchValue, dictFind.
    rewrite dictSize_spec by done.
    destruct (Z.eqb_spec (Z.of_nat (base.size (abs d))) 0) as [Hz|_].
    { destruct Ht. apply map_size_empty_inv. lia. }
    rewrite Hs. bsimpl. destruct (search d1 k _) as [[idx [rf|]]|]; bsimpl; [|by intros [= -> _]|done].
    destruct (deref d1 rf); bsimpl; [|done]. by intros [= -> _].
  - apply negb_true_iff, bool_decide_eq_false in Ht. unfold dictDelete, dictGenericDelete.
    destruct (_ && _) eqn:Hz.
    { destruct Ht. apply andb_true_iff in Hz as [Hz0%Z.eqb_eq Hz1%Z.eqb_eq].
      unfold abs. by rewrite entries_nil by (done || lia). }
    rewrite Hs. bsimpl. destruct (search d1 k _) as [[idx [rf|]]|]; bsimpl; [|by intros [= -> _]|done].
    destruct (deref d1 rf); bsimpl; [|done].
    destruct (bucket _ _) as [b|]; bsimpl; [|done].
    destruct (set_bucket _ _ _) as [h|] eqn:Hsb; bsimpl; [|done]. intros [= <- _].
    exact (proj2 (set_bucket_phase _ _ _ _ _ _ Hsb)).
Qed.

(** One step: the migration is over, or the index has advanced below the size
    of the old table. *)
Lemma step_advances d :
  dict_ok d -> iterators d = 0 -> dictIsRehashing d = true ->
  exists d', rehash_step_if d = Some d' /\ dict_ok d' /\ abs d' = abs d /\ iterators d' = 0 /\
    (dictIsRehashing d' = true ->
     size (ht0 d') = size (ht0 d) /\ rehashidx d < rehashidx d' < size (ht0 d)).
Proof.
  intros Hok Hit Hre. unfold rehash_step_if, _dictRehashStep. rewrite Hre, Hit. cbn [Z.eqb].
  destruct (dictRehash_spec d 1 Hok) as (d' & rc & -> & Hok' & Ha & _ & Hit' & _ & Hc). bsimpl.
  exists d'. split_and!; [done..|congruence|]. intros Hre'.
  destruct Hc as [[_ Hf]|(_ & _ & Hsz & Hu & Hlt)]; [congruence|].
  split; [done|]. rewrite <- Hsz. split; [by apply Hlt; lia|].
  by apply rehashidx_lt_size.
Qed.

(** C9: Incremental rehashing completes.  While a table is rehashing and has no
    safe iterator, let it serve any insertions, replacements, lookups and
    deletions, in any order and under any setting of [dict_can_resize] (the
    table not being empty at a lookup or deletion, which would return at once).
    As soon as there are as many of them as the old table has buckets left
    (one if none is left), one of them, met in a well-formed table, takes the
    step that moves the last entry and gives the old table up. *)
Theorem rehash_completes d os :
  dict_ok d -> iterators d = 0 -> dictIsRehashing d = true ->
  all_step (abs d) os = true ->
  Z.max 1 (size (ht0 d) - rehashidx d) <= Z.of_nat (length os) ->
  Z.of_nat (base.size (abs d)) + Z.of_nat (length os) <= MAX_ENTRIES ->
  exists pre o post d1 r d2,
    os = pre ++ o :: post /\ drun uninit d pre = Some (d1, r) /\ takes_step (abs d1) o.2 = true /\
    rehash_step_if d1 = Some d2 /\ dictIsRehashing d1 = true /\ dictIsRehashing d2 = false /\
    dict_ok d2 /\ abs d2 = (drun_spec (abs d) pre).1.
Proof.
  revert d. induction os as [|o os IH]; intros d Hok Hit Hre Hall Hn Hbd; [simpl in Hn; lia|].
  cbn [all_step length] in Hall, Hn, Hbd. apply andb_true_iff in Hall as [Ho Hall].
  destruct (step_advances d Hok Hit Hre) as (d1 & Hs & Hok1 & Ha1 & Hit1 & Hadv).
  destruct (dictIsRehashing d1) eqn:Hre1.
  2: { exists [], o, os, d, [], d1. by split_and!. }
  destruct (Hadv eq_refl) as [Hsz Hidx].
  destruct (dexec_refines uninit d o Hok ltac:(lia)) as (d' & Hx & Hok' & Ha').
  pose proof (dexec_phase d o d1 d' _ Hok Ho Hs Hre1 Hx) as (Hi' & Hz' & Hit').
  pose proof (dexec_spec_size (abs d) o.2) as Hsize. rewrite <- Ha' in Hall, Hsize.
  destruct (IH d') as (pre & o' & post & d3 & r & d4 & -> & Hrun & Ho' & Hs' & Hre3 & Hre4 & Hok4 & Ha4); try done.
  - congruence.
  - unfold dictIsRehashing in *. by rewrite Hi'.
  - lia.
  - lia.
  - exists (o :: pre), o', post, d3, ((dexec_spec (abs d) o.2).2 :: r), d4. split_and!; try done.
    + cbn [drun]. rewrite Hx. bsimpl. by rewrite Hrun.
    + rewrite Ha4. cbn [drun_spec]. destruct (dexec_spec (abs d) o.2) as [m a]. simpl in Ha'. subst m.
      by destruct (drun_spec (abs d') pre).
Qed.
End live.

Section examples.
#[local] Existing Instance sample_type.

(** The table of five entries of [DictFacts], in the course of its rehashing. *)
Definition sample_accesses : list (bool * dop Z Z) :=
  [(true, DFetch 97); (false, DAdd 110 7); (true, DDelete 99); (true, DReplace 98 8)].

Lemma rehash_completes_witness :
  dictIsRehashing sample_dict = true /\
  exists pre o post d1 r d2, sample_accesses = pre ++ o :: post /\
    drun 0 sample_dict pre = Some (d1, r) /\ rehash_step_if d1 = Some d2 /\
    dictIsRehashing d1 = true /\ dictIsRehashing d2 = false.
Proof.
  split; [by vm_compute|].
  destruct (rehash_completes 0 sample_dict sample_accesses)
    as (pre & o & post & d1 & r & d2 & Hos & Hrun & _ & Hs & Hr1 & Hr2 & _); [apply sample_dict_ok|by vm_compute..|].
  exists pre, o, post, d1, r, d2. by split_and!.
Defined.

End examples.
End DictLive.
