(* ===== verification/DictIter.v ===== *)
(** Iterators and random sampling over the hash table of [dict.c].

    A full iteration, safe or unsafe, of a table nobody modifies returns every
    entry exactly once, in bucket order, first table first, and the sampling
    functions never touch a bucket out of range and return entries of the
    table. *)

From S2P Require Import Prelude Dict DictFacts.

#[local] Open Scope Z_scope.

Module DictIter.
Import Dict DictFacts.

Section iter.
Context {K V : Type} `{DictType K}.
Context (addr : bool -> Z).

Notation dictEntry := (K * V)%type.
Implicit Types (d : dict (K := K) (V := V)) (h : dictht (K := K) (V := V)) (it : dictIterator (K := K) (V := V)).

(** Calls [dictNext] until it returns [NULL], at most [n] times. *)
Fixpoint iterate (n fuel : nat) d it : option (dict * dictIterator * list dictEntry) :=
  match n with
  | O => None
  | S n =>
      '(d, it, r) ← dictNext fuel addr d it;
      match r with
      | None => Some (d, it, [])
      | Some e => '(d, it, l) ← iterate n fuel d it; Some (d, it, e :: l)
      end
  end.

(** ** The entries an iterator still has to return *)

Definition tbl h : list (list dictEntry) := default [] (table h).

Definition rest d it : list dictEntry :=
  concat (drop (Z.to_nat (it_index it + 1)) (tbl (ht d (it_table it)))) ++
  (if dictIsRehashing d && negb (it_table it) then ents (ht1 d) else []).

Definition remaining d it : list dictEntry :=
  match it_entry it with [] => [] | _ => it_nextEntry it end ++ rest d it.

(** Buckets still to visit. *)
Definition togo d it : Z :=
  size (ht d (it_table it)) - it_index it - 1 +
  (if dictIsRehashing d && negb (it_table it) then size (ht1 d) else 0).

Record it_ok d it : Prop := mkItOk {
  io_index : -1 <= it_index it < Z.max 1 (size (ht d (it_table it)));
  io_empty : size (ht d (it_table it)) = 0 -> it_index it = -1;
  io_table : it_table it = true -> dictIsRehashing d = true }.

Definition registered it : Prop := it_index it <> -1 \/ it_table it = true.

Lemma tbl_length d i : dict_ok d -> Z.of_nat (length (tbl (ht d i))) = size (ht d i) /\ size (ht d i) <= 2 ^ 60.
Proof.
  intros Hok. assert (ht_ok (ht d i)) as [-> |[t Ha]] by (destruct i; apply Hok); [done|].
  unfold tbl. rewrite (al_table _ _ Ha). simpl. split; [apply (al_len _ _ Ha)|].
  destruct (al_size _ _ Ha) as (k & Hk & ->). unfold MAX_ORDER in Hk. apply Z.pow_le_mono_r; lia.
Qed.

Lemma bucket_tbl h idx b : 0 <= idx -> tbl h !! Z.to_nat idx = Some b -> bucket h idx = Some b.
Proof.
  unfold tbl, bucket. intros Hi Hb. destruct (table h) as [t|]; [|done]. bsimpl.
  by rewrite (proj2 (Z.ltb_ge _ _)).
Qed.

Lemma ents_tbl h : ents h = concat (tbl h).
Proof. unfold ents, tbl. by destruct (table h). Qed.

Lemma size_ht1_pos d : dict_ok d -> dictIsRehashing d = true -> 0 < size (ht1 d).
Proof.
  intros Hok Hre. pose proof (ok_rehash _ Hok) as Hr. rewrite Hre in Hr. destruct Hr as (_ & _ & Ht & _).
  destruct (ht_ok_table _ (ok_ht1 _ Hok) Ht) as [t Ha]. destruct (al_size _ _ Ha) as (k & Hk & ->). lia.
Qed.

(** One bucket visit. *)
Lemma dictNext_bucket_spec d it :
  dict_ok d -> it_ok d it -> it_entry it = [] ->
  exists r, dictNext_bucket d it = Some r /\
    match r with
    | inl it' => remaining d it = [] /\ it_safe it' = it_safe it /\
        it_fingerprint it' = it_fingerprint it /\ registered it'
    | inr it' => rest d it = it_entry it' ++ rest d it' /\ it_ok d it' /\ registered it' /\
        it_safe it' = it_safe it /\ it_fingerprint it' = it_fingerprint it /\
        togo d it' < togo d it
    end.
Proof.
  intros Hok [Hidx Hemp Htab] He. unfold dictNext_bucket, remaining, rest, togo. rewrite He.
  destruct (tbl_length d (it_table it) Hok) as [Hlen Hsz].
  rewrite !swrap_small by mlia.
  rewrite Z.geb_leb. destruct (Z.leb_spec (size (ht d (it_table it))) (it_index it + 1)) as [Hge|Hlt].
  - rewrite drop_ge by lia. simpl. destruct (dictIsRehashing d && negb (it_table it)) eqn:Hc.
    + apply andb_true_iff in Hc as [Hre Htb]. apply negb_true_iff in Htb. rewrite Htb in *.
      pose proof (size_ht1_pos d Hok Hre) as Hpos. destruct (tbl_length d true Hok) as [Hlen1 _]. simpl in Hlen1.
      destruct (lookup_lt_is_Some_2 (tbl (ht1 d)) 0%nat) as [b Hb]; [lia|].
      rewrite (bucket_tbl _ _ b) by (done || lia). bsimpl. eexists. split; [done|]. simpl.
      rewrite andb_false_r, app_nil_r. split_and!; try done; [|constructor; simpl; (done || lia)|by right|]. 2: { change (ht d false) with (ht0 d) in *. lia. }
      rewrite ents_tbl. destruct (tbl (ht1 d)) as [|c t] eqn:Ht; [done|].
      simpl in Hb. injection Hb as ->. simpl. by rewrite drop_0.
    + eexists. split; [done|]. simpl. split_and!; try done. unfold registered; simpl.
      left. lia.
  - destruct (lookup_lt_is_Some_2 (tbl (ht d (it_table it))) (Z.to_nat (it_index it + 1))) as [b Hb]; [lia|].
    rewrite (bucket_tbl _ _ b) by (done || lia). bsimpl. eexists. split; [done|]. simpl.
    split_and!; try done; [|constructor; simpl; (done || lia)|left; simpl; lia|lia].
    rewrite (drop_S _ b) by done. simpl. rewrite <- app_assoc.
    by replace (Z.to_nat (it_index it + 1 + 1)) with (S (Z.to_nat (it_index it + 1))) by lia.
Qed.

Lemma enter_registered d it : registered it -> dictNext_enter addr d it = (d, it).
Proof.
  intros Hr. unfold dictNext_enter. destruct (Z.eqb_spec (it_index it) (-1)) as [Hi|]; [|done].
  destruct Hr as [|Ht]; [done|]. by rewrite Ht.
Qed.

(** [it'] continues [it] in the table [d]. *)
Definition follows d it (it' : dictIterator (K := K) (V := V)) : Prop :=
  it_ok d it' /\ registered it' /\ it_safe it' = it_safe it /\ it_fingerprint it' = it_fingerprint it.

Definition next_result d it (r : option (dict * dictIterator * option dictEntry)) : Prop :=
  exists it', match remaining d it with
    | [] => r = Some (d, it', None) /\ registered it' /\ it_safe it' = it_safe it /\
        it_fingerprint it' = it_fingerprint it
    | e :: l => r = Some (d, it', Some e) /\ follows d it it' /\ remaining d it' = l /\
        it_entry it' <> []
    end.

Lemma next_result_ext d it it1 r :
  remaining d it = remaining d it1 -> it_safe it1 = it_safe it ->
  it_fingerprint it1 = it_fingerprint it ->
  next_result d it1 r -> next_result d it r.
Proof.
  intros Hr Hs Hf [it' Hit]. exists it'. rewrite Hr, <- Hs, <- Hf in *. unfold follows in *.
  by rewrite <- Hs, <- Hf.
Qed.

Definition with_chain it (entry next : list dictEntry) : dictIterator (K := K) (V := V) :=
  mkIter (it_table it) (it_index it) (it_safe it) entry next (it_fingerprint it).

(** The end of the loop body: return the entry, or go round. *)
Lemma next_return fuel d it it1 l :
  it_ok d it1 -> registered it1 -> it_safe it1 = it_safe it -> it_fingerprint it1 = it_fingerprint it ->
  remaining d it = it_entry it1 ++ rest d it1 ->
  (it_entry it1 = [] -> next_result d it1 (dictNext fuel addr d it1)) ->
  l = it_entry it1 ->
  next_result d it
    (match l with
     | e :: next => Some (d, with_chain it1 (it_entry it1) next, Some e)
     | [] => dictNext fuel addr d it1
     end).
Proof.
  intros Hok Hreg Hs Hf Hrem Hn ->. destruct (it_entry it1) as [|e l] eqn:He.
  - eapply next_result_ext; [|done..|by apply Hn]. rewrite Hrem. unfold remaining. by rewrite He.
  - exists (with_chain it1 (e :: l) l). rewrite Hrem. cbn [app]. split_and!; [done| |done|done].
    destruct Hok. split_and!; try done.
Qed.

Lemma dictNext_spec fuel : forall d it,
  dict_ok d -> it_ok d it -> registered it ->
  togo d it + match it_entry it with [] => 0 | _ => 1 end < Z.of_nat fuel ->
  next_result d it (dictNext fuel addr d it).
Proof.
  induction fuel as [|fuel IH]; intros d it Hok Hit Hreg Hf.
  { destruct Hit. unfold togo in Hf. exfalso.
    pose proof (proj1 (tbl_length d true Hok)). pose proof (proj1 (tbl_length d (it_table it) Hok)).
    simpl in *. destruct (it_entry it), (dictIsRehashing d && negb (it_table it)); lia. }
  cbn [dictNext]. destruct (it_entry it) as [|e0 l0] eqn:He.
  - rewrite enter_registered by done.
    destruct (dictNext_bucket_spec d it Hok Hit He) as ([it1|it1] & -> & Hr); bsimpl.
    { destruct Hr as (Hr & ? & ? & ?). exists it1. by rewrite Hr. }
    destruct Hr as (Hrest & Hit1 & Hreg1 & Hs1 & Hf1 & Hlt).
    apply next_return; try done; [unfold remaining; by rewrite He|]. intros He1. apply IH; try done.
    rewrite He1. lia.
  - bsimpl. cbn [it_table it_index it_safe it_entry it_nextEntry it_fingerprint].
    apply (next_return _ _ _ (with_chain it (it_nextEntry it) (it_nextEntry it))); try done.
    + by destruct Hit.
    + unfold remaining. by rewrite He.
    + intros Hn. apply IH; try done; [by destruct Hit|]. cbn [it_entry with_chain] in *. rewrite Hn.
      change (togo d (with_chain it [] [])) with (togo d it). lia.
Qed.

Lemma iterate_registered n : forall d it fuel,
  dict_ok d -> it_ok d it -> registered it -> (length (remaining d it) < n)%nat ->
  size (ht0 d) + size (ht1 d) + 1 < Z.of_nat fuel ->
  exists it', iterate n fuel d it = Some (d, it', remaining d it) /\ registered it' /\
    it_safe it' = it_safe it /\ it_fingerprint it' = it_fingerprint it.
Proof.
  induction n as [|n IH]; intros d it fuel Hok Hit Hreg Hn Hf; [lia|]. cbn [iterate].
  destruct (dictNext_spec fuel d it Hok Hit Hreg) as [it1 Hnext].
  { destruct Hit as [Hidx _ _]. unfold togo. pose proof (proj1 (tbl_length d true Hok)).
    pose proof (proj1 (tbl_length d false Hok)). simpl in *.
    destruct (it_entry it), (it_table it), (dictIsRehashing d); simpl in *; lia. }
  destruct (remaining d it) as [|e l] eqn:Hrem.
  - destruct Hnext as (-> & ? & ? & ?). bsimpl. eauto.
  - destruct Hnext as (-> & (Hit1 & Hreg1 & Hs1 & Hf1) & Hrem1 & _). bsimpl. simpl in Hn.
    destruct (IH d it1 fuel Hok Hit1 Hreg1) as (it2 & -> & ? & ? & ?); [rewrite Hrem1; lia|done|].
    bsimpl. exists it2. rewrite Hrem1. split_and!; [done|done|congruence..].
Qed.

(** The table and the iterator after the first call registered it. *)
Definition entered (safe : bool) d : dict (K := K) (V := V) :=
  if safe then set_iterators d (u64 (iterators d + 1)) else d.
Definition first_it (safe : bool) d : dictIterator (K := K) (V := V) :=
  mkIter false (-1) safe [] [] (if safe then 0 else dictFingerprint addr d).
Definition new_iterator (safe : bool) : dictIterator (K := K) (V := V) :=
  if safe then dictGetSafeIterator else dictGetIterator.

Lemma entered_ok safe d : dict_ok d -> dict_ok (entered safe d).
Proof. intros []. destruct safe; [|done]. by constructor. Qed.

Lemma enter_new safe d :
  dictNext_enter addr d (new_iterator safe) = (entered safe d, first_it safe d).
Proof. by destruct safe. Qed.

Lemma first_it_ok safe d : dict_ok d -> it_ok (entered safe d) (first_it safe d).
Proof.
  intros Hok. pose proof (proj1 (tbl_length _ false (entered_ok safe d Hok))).
  constructor; simpl in *; [lia|done|done].
Qed.

Lemma remaining_first safe d : dict_ok d -> remaining (entered safe d) (first_it safe d) = entries d.
Proof.
  intros Hok. unfold remaining, rest. simpl. rewrite drop_0, andb_true_r.
  assert (tbl (ht0 (entered safe d)) = tbl (ht0 d)) as -> by by destruct safe.
  assert (dictIsRehashing (entered safe d) = dictIsRehashing d) as -> by by destruct safe.
  assert (ents (ht1 (entered safe d)) = ents (ht1 d)) as -> by by destruct safe.
  rewrite <- ents_tbl. unfold entries. f_equal.
  pose proof (ok_rehash _ Hok) as Hr. destruct (dictIsRehashing d); [done|]. by rewrite Hr.
Qed.

(** The first call behaves as a call on the registered iterator. *)
Lemma dictNext_first safe d fuel :
  dict_ok d -> size (ht0 d) + size (ht1 d) + 1 < Z.of_nat fuel ->
  next_result (entered safe d) (first_it safe d) (dictNext (S fuel) addr d (new_iterator safe)).
Proof.
  intros Hok Hf. cbn [dictNext].
  assert (it_entry (new_iterator safe) = []) as -> by by destruct safe.
  rewrite enter_new.
  pose proof (entered_ok safe d Hok) as Hok'. pose proof (first_it_ok safe d Hok) as Hit.
  destruct (dictNext_bucket_spec _ _ Hok' Hit eq_refl) as ([it1|it1] & -> & Hr); bsimpl.
  { destruct Hr as (Hr & ? & ? & ?). exists it1. by rewrite Hr. }
  destruct Hr as (Hrest & Hit1 & Hreg1 & Hs1 & Hf1 & Hlt).
  apply next_return; try done. intros He1. apply dictNext_spec; try done.
  rewrite He1. assert (togo (entered safe d) (first_it safe d) <= size (ht0 d) + size (ht1 d)); [|lia].
  unfold togo. simpl. pose proof (proj1 (tbl_length d true Hok)). simpl in *.
  assert (ht0 (entered safe d) = ht0 d) as -> by by destruct safe.
  assert (ht1 (entered safe d) = ht1 d) as -> by by destruct safe.
  destruct (dictIsRehashing _); simpl; lia.
Qed.

(** C33: A complete iteration with a safe or an unsafe iterator over a table
    that is not modified meanwhile returns every entry of the two tables
    exactly once, in bucket order, then [NULL]; releasing the iterator passes
    the fingerprint assertion and leaves the table as it was. *)
Theorem dictNext_enumerates safe d :
  dict_ok d -> in_u 64 (iterators d) ->
  exists d' it',
    iterate (S (length (entries d))) (S (S (S (Z.to_nat (size (ht0 d) + size (ht1 d)))))) d (new_iterator safe)
      = Some (d', it', entries d) /\
    dictReleaseIterator addr d' it' = Some d.
Proof.
  intros Hok Hu.
  assert (0 <= size (ht0 d) /\ 0 <= size (ht1 d)) as [Hp0 Hp1].
  { pose proof (proj1 (tbl_length d false Hok)). pose proof (proj1 (tbl_length d true Hok)). simpl in *. lia. }
  assert (forall it', registered it' -> it_safe it' = safe ->
    it_fingerprint it' = it_fingerprint (first_it safe d) ->
    dictReleaseIterator addr (entered safe d) it' = Some d) as Hrel.
  { intros it' Hreg Hs Hfp. unfold dictReleaseIterator.
    replace (negb _) with true.
    - rewrite Hs, Hfp. destruct safe; cbn [entered first_it it_fingerprint].
      + f_equal. destruct d as [h0 h1 ri its]. unfold set_iterators. cbn [ht0 ht1 rehashidx iterators] in *. f_equal.
        unfold uwrap. rewrite Zminus_mod_idemp_l. replace (its + 1 - 1) with its by lia.
        apply Z.mod_small. by unfold in_u in Hu.
      + by rewrite Z.eqb_refl.
    - destruct Hreg as [Hi| ->]; [by rewrite (proj2 (Z.eqb_neq _ _))|by rewrite andb_false_r]. }
  set (fuel := S (S (Z.to_nat (size (ht0 d) + size (ht1 d))))).
  destruct (dictNext_first safe d fuel Hok ltac:(lia)) as [it1 Hn]. rewrite remaining_first in Hn by done.
  cbn [iterate]. destruct (entries d) as [|e l].
  - destruct Hn as (-> & Hreg & Hs & Hfp). bsimpl. eexists _, _. split; [done|]. by apply Hrel.
  - destruct Hn as (-> & (Hit1 & Hreg1 & Hs1 & Hf1) & Hrem & _). bsimpl.
    destruct (iterate_registered (length (e :: l)) (entered safe d) it1 (S fuel)) as (it2 & -> & Hr2 & Hs2 & Hf2).
    + by apply entered_ok.
    + done.
    + done.
    + rewrite Hrem. simpl. lia.
    + destruct safe; simpl; lia.
    + bsimpl. rewrite Hrem. eexists _, _. split; [done|]. apply Hrel; [done|by rewrite Hs2, Hs1|by rewrite Hf2, Hf1].
Qed.

End iter.

(** ** Sampling *)

Section sampling.
Context {K V : Type} `{DictType K}.

Notation dictEntry := (K * V)%type.
Implicit Types (d : dict (K := K) (V := V)).

Record sample_ok d (count : Z) (s : sample (K := K) (V := V)) : Prop := mkSampleOk {
  so_i : 0 <= s_i s;
  so_stored : s_stored s = Z.of_nat (length (s_des s)) /\ s_stored s <= count;
  so_in : forall e, e ∈ s_des s -> e ∈ entries d }.

Lemma collect_spec he : forall count des,
  Z.of_nat (length des) < count ->
  exists des' stop, collect he count (Z.of_nat (length des)) des = (Z.of_nat (length des'), des', stop) /\
    Z.of_nat (length des') <= count /\ (stop = false -> Z.of_nat (length des') < count) /\
    (forall e : dictEntry, e ∈ des' -> e ∈ des \/ e ∈ he).
Proof.
  induction he as [|e he IH]; intros count des Hlt; cbn [collect].
  { eexists _, _. split_and!; [done|lia|done|by left]. }
  destruct (Z.eqb_spec (Z.of_nat (length des) + 1) count) as [Heq|Hne].
  - exists (e :: des), true. cbn [length]. rewrite Nat2Z.inj_succ. split_and!; [done|lia|done|].
    intros e' [->|]%elem_of_cons; set_solver.
  - replace (Z.of_nat (length des) + 1) with (Z.of_nat (length (e :: des))) by (simpl; lia).
    destruct (IH count (e :: des)) as (des' & stop & -> & ? & ? & Hin); [simpl; lia|].
    eexists _, _. split_and!; [done..|]. intros e' He'. apply Hin in He'. set_solver.
Qed.

Lemma bucket_entries d j idx :
  dict_ok d -> 0 <= idx < size (ht d j) ->
  exists b, bucket (ht d j) idx = Some b /\ (forall e, e ∈ b -> e ∈ entries d).
Proof.
  intros Hok Hi. destruct (tbl_length d j Hok) as [Hl _].
  destruct (lookup_lt_is_Some_2 (tbl (ht d j)) (Z.to_nat idx)) as [b Hb]; [lia|].
  exists b. split; [apply bucket_tbl; [lia|done]|]. intros e He.
  apply (elem_entries d j). rewrite ents_tbl. apply list_elem_of_In, in_concat.
  exists b. split; apply list_elem_of_In; [by eapply list_elem_of_lookup_2|done].
Qed.

Lemma sample_table_spec random d mask count j s :
  dict_ok d -> 0 <= mask -> sample_ok d count s -> s_stored s < count ->
  exists r, sample_table random d (dictIsRehashing d) mask count j s = Some r /\
    match r with
    | inl s' => sample_ok d count s' /\ s_stored s' < count
    | inr s' => sample_ok d count s'
    end.
Proof.
  intros Hok Hm [Hi Hst Hin] Hlt. unfold sample_table.
  set (skip := dictIsRehashing d && negb j && (s_i s <? rehashidx d)).
  destruct (skip && _); [by eexists|].
  set (s1 := if skip then _ else s).
  assert (0 <= s_i s1 /\ s_stored s1 = s_stored s /\ s_des s1 = s_des s) as (Hi1 & Hst1 & Hd1).
  { subst s1. destruct skip eqn:Hsk; [|done]. simpl. split; [|done].
    subst skip. apply andb_true_iff in Hsk as [_ ?%Z.ltb_lt]. lia. }
  rewrite Z.geb_leb. destruct (Z.leb_spec (size (ht d j)) (s_i s1)).
  { eexists. split; [done|]. split; [constructor|]; rewrite ?Hst1, ?Hd1; done. }
  destruct (bucket_entries d j (s_i s1) Hok) as (b & -> & Hb); [lia|]. bsimpl.
  destruct b as [|e b].
  - destruct ((_ >=? 5) && _); (eexists; split; [done|split; [constructor|]]); simpl; rewrite ?Hst1, ?Hd1; try done.
    apply Z.land_nonneg. by right.
  - rewrite Hst1, Hd1. destruct Hst as [Hst Hle]. rewrite Hst in Hlt |- *.
    destruct (collect_spec (e :: b) count (s_des s) Hlt) as (des' & stop & -> & Hle' & Hns & Hin').
    assert (forall e, e ∈ des' -> e ∈ entries d) as Hin2 by (intros e' [?|?]%Hin'; auto).
    eexists. split; [done|]. destruct stop; [by constructor|]. split; [by constructor|]. simpl. auto.
Qed.

Lemma sample_loop_spec random d mask count n : forall s,
  dict_ok d -> 0 <= mask -> sample_ok d count s ->
  exists s', sample_loop n random d (dictIsRehashing d) mask count s = Some s' /\ sample_ok d count s'.
Proof.
  induction n as [|n IH]; intros s Hok Hm Hs; cbn [sample_loop]; [eauto|].
  destruct (Z.ltb_spec (s_stored s) count) as [Hlt|]; [|eauto].
  destruct (sample_table_spec random d mask count false s Hok Hm Hs Hlt) as ([s1|s1] & -> & Hr); bsimpl; [|eauto].
  destruct Hr as [Hs1 Hlt1].
  assert (exists r, (if dictIsRehashing d
      then sample_table random d (dictIsRehashing d) mask count true s1 else Some (inl s1)) = Some r /\
    match r with inl s' | inr s' => sample_ok d count s' end) as (r & -> & Hr).
  { destruct (dictIsRehashing d) eqn:Hre; [|by eexists].
    pose proof (sample_table_spec random d mask count true s1 Hok Hm Hs1 Hlt1) as ([s2|s2] & Hrun & ?);
      rewrite Hre in Hrun; eexists; (split; [done|]); tauto. }
  bsimpl. destruct r as [s2|s2]; [|eauto]. apply IH; [done..|].
  destruct Hr. constructor; simpl; try done. apply Z.land_nonneg. by right.
Qed.

Lemma sample_rehash_spec n : forall d,
  dict_ok d -> exists d', sample_rehash n d = Some d' /\ dict_ok d' /\ abs d' = abs d.
Proof.
  induction n as [|n IH]; intros d Hok; cbn [sample_rehash]; [eauto|].
  destruct (dictIsRehashing d) eqn:Hre; [|eauto].
  destruct (rehash_step_spec d Hok) as (d1 & Hrun & Hok1 & Ha1 & _).
  unfold rehash_step_if in Hrun. rewrite Hre in Hrun. rewrite Hrun. bsimpl.
  destruct (IH d1 Hok1) as (d2 & -> & Hok2 & Ha2). exists d2. split_and!; [done..|congruence].
Qed.

Lemma sizemask_nonneg d j : dict_ok d -> 0 <= sizemask (ht d j).
Proof.
  intros Hok. assert (ht_ok (ht d j)) as [-> |[t Ha]] by (destruct j; apply Hok); [done|].
  rewrite (al_mask _ _ Ha). destruct (al_size _ _ Ha) as (k & Hk & ->).
  pose proof (Z.pow_pos_nonneg 2 k). lia.
Qed.

(** Sampling is safe.  Whatever the random numbers, [dictGetSomeKeys]
    terminates without an out-of-range bucket access, keeps the map, and
    returns at most the requested number of entries, every one of them in the
    table. *)
Theorem dictGetSomeKeys_safe random d count :
  dict_ok d -> in_u 32 count ->
  exists d' des, dictGetSomeKeys random d count = Some (d', Z.of_nat (length des), des) /\
    dict_ok d' /\ abs d' = abs d /\
    Z.of_nat (length des) <= Z.min count (Z.of_nat (base.size (abs d))) /\
    (forall k v, (k, v) ∈ des -> abs d !! k = Some v).
Proof.
  intros Hok Hc. unfold dictGetSomeKeys. rewrite dictSize_spec by done.
  set (n := Z.of_nat (base.size (abs d))).
  set (c := if n <? count then u32 n else count).
  assert (c = Z.min count n) as Hcm.
  { subst c. destruct (Z.ltb_spec n count); [|lia]. rewrite uwrap_small; [lia|]. mlia. }
  destruct (sample_rehash_spec (Z.to_nat c) d Hok) as (d1 & -> & Hok1 & Ha1). bsimpl.
  pose proof (sizemask_nonneg d1 false Hok1) as Hm0. pose proof (sizemask_nonneg d1 true Hok1) as Hm1. simpl in *.
  set (mask := if dictIsRehashing d1 && _ then _ else _).
  assert (0 <= mask) as Hm by (subst mask; destruct (_ && _); done).
  destruct (sample_loop_spec random d1 mask c (Z.to_nat (u32 (c * 10)))
    (mkSample (Z.land (random 0%nat) mask) 0 1 0 [])) as (s & -> & [_ [Hst Hle] Hin]); [done..| |].
  - constructor; simpl; [apply Z.land_nonneg; by right|mlia|set_solver].
  - bsimpl. exists d1, (reverse (s_des s)). rewrite length_reverse, <- Hst. split_and!; [done..|lia|].
    intros k v Hkv. rewrite elem_of_reverse in Hkv. rewrite <- Ha1. by apply abs_lookup, Hin.
Qed.

End sampling.

#[local] Existing Instance sample_type.

Lemma dictNext_enumerates_witness :
  exists d' it',
    iterate (fun _ => 0) 6 15 sample_dict (new_iterator true) = Some (d', it', entries sample_dict) /\
    dictReleaseIterator (fun _ => 0) d' it' = Some sample_dict.
Proof.
  apply (dictNext_enumerates (fun _ => 0) true sample_dict); [apply sample_dict_ok|by vm_compute].
Defined.

Lemma dictGetSomeKeys_safe_witness :
  exists d' des, dictGetSomeKeys Z.of_nat sample_dict 3 = Some (d', Z.of_nat (length des), des) /\
    Z.of_nat (length des) <= 3 /\ (forall k v, (k, v) ∈ des -> abs sample_dict !! k = Some v).
Proof.
  destruct (dictGetSomeKeys_safe Z.of_nat sample_dict 3) as (d' & des & Hrun & _ & _ & Hle & Hin).
  - apply sample_dict_ok.
  - by vm_compute.
  - exists d', des. split; [exact Hrun|]. split; [lia|exact Hin].
Defined.

End DictIter.
