(* ===== verification/DictScan.v ===== *)
(** Model of [rev] and [dictScan] of [dict.c]: the stateless cursor iteration
    behind SCAN, HSCAN, SSCAN and ZSCAN.

    The cursor counts on its reversed bits.  The theorems show that [rev] is
    the 64-bit reversal, that a full scan returns every key that stays in the
    table, whatever resizes and rehashing steps happen between the calls, and
    that a scan ends.  The callback is the list of emitted entries; the
    optional bucket callback of the defragmenter is not modelled. *)

From S2P Require Import Prelude Dict DictFacts.

#[local] Open Scope Z_scope.

Module DictScan.
Import Dict DictFacts.

(** ** Bit reversal *)

Definition rev_step (s mask v : Z) : Z :=
  Z.lor (Z.land (Z.shiftr v s) mask) (Z.land (u64 (Z.shiftl v s)) (u64 (Z.lnot mask))).

Fixpoint rev_loop (fuel : nat) (s mask v : Z) : Z :=
  match fuel with
  | O => v
  | S fuel =>
      let s := Z.shiftr s 1 in
      if s >? 0 then
        let mask := Z.lxor mask (u64 (Z.shiftl mask s)) in
        rev_loop fuel s mask (rev_step s mask v)
      else v
  end.

(** Seven rounds: the shift runs through 32, 16, 8, 4, 2, 1, 0. *)
Definition rev (v : Z) : Z := rev_loop 7 64 (2 ^ 64 - 1) v.

Section scan.
Context {K V : Type} `{DictType K}.
Notation dictEntry := (K * V)%type.
Implicit Types (d : dict (K := K) (V := V)) (h : dictht (K := K) (V := V)).

(** [v |= ~m; v = rev(v); v++; v = rev(v);] *)
Definition next_cursor (v m : Z) : Z :=
  rev (u64 (rev (Z.lor v (u64 (Z.lnot m))) + 1)).

(** The walk over the expansions of the cursor in the larger table. *)
Fixpoint scan_expansions (fuel : nat) (t1 : dictht (K := K) (V := V)) (m0 m1 v : Z)
    (out : list dictEntry) : option (Z * list dictEntry) :=
  match fuel with
  | O => None
  | S fuel =>
      b ← bucket t1 (Z.land v m1);
      let v := next_cursor v m1 in
      if Z.land v (Z.lxor m0 m1) =? 0 then Some (v, out ++ b)
      else scan_expansions fuel t1 m0 m1 v (out ++ b)
  end.

(** Cursor 0 and nothing emitted on an empty table.  The fuel is one more
    than the larger table's size. *)
Definition dictScan d (v : Z) : option (dict * Z * list dictEntry) :=
  if dictSize d =? 0 then Some (d, 0, [])
  else
    let d := set_iterators d (u64 (iterators d + 1)) in
    '(v, out) ←
      (if negb (dictIsRehashing d) then
         let m0 := sizemask (ht0 d) in
         b ← bucket (ht0 d) (Z.land v m0);
         Some (next_cursor v m0, b)
       else
         let '(t0, t1) := if size (ht0 d) >? size (ht1 d) then (ht1 d, ht0 d) else (ht0 d, ht1 d) in
         let m0 := sizemask t0 in
         let m1 := sizemask t1 in
         b ← bucket t0 (Z.land v m0);
         scan_expansions (S (Z.to_nat (size t1))) t1 m0 m1 v b);
    Some (set_iterators d (u64 (iterators d - 1)), v, out).

End scan.

(** ** [rev] reverses the bits *)

(** Where a step takes bit [i] from. *)
Definition src (s mask i : Z) : Z := if Z.testbit mask i then i + s else i - s.

Lemma rev_step_bit s mask v i :
  0 <= s -> 0 <= i < 64 -> Z.testbit (rev_step s mask v) i = Z.testbit v (src s mask i).
Proof.
  intros Hs Hi. unfold rev_step, src.
  rewrite Z.lor_spec, !Z.land_spec, !uwrap_testbit, Z.lnot_spec, Z.shiftr_spec, Z.shiftl_spec by lia.
  destruct (Z.testbit mask i); simpl; by rewrite ?andb_true_r, ?andb_false_r, ?orb_false_r.
Qed.

Lemma rev_step_range s mask v :
  0 <= s -> in_u 64 v -> in_u 64 mask -> in_u 64 (rev_step s mask v).
Proof.
  intros Hs Hv Hm. unfold rev_step. apply lor_range; [done|by apply land_range|].
  apply land_range; [done|by apply uwrap_range].
Qed.

Definition masks : list (Z * Z) :=
  [(32, 0xffffffff); (16, 0xffff0000ffff); (8, 0xff00ff00ff00ff); (4, 0x0f0f0f0f0f0f0f0f);
   (2, 0x3333333333333333); (1, 0x5555555555555555)].

Lemma rev_steps v : rev v = foldl (fun v p => rev_step p.1 p.2 v) v masks.
Proof. reflexivity. Qed.

(** The composed permutation of bit positions. *)
Definition srcs (i : Z) : Z := foldr (fun p i => src p.1 p.2 i) i masks.

Lemma srcs_reverse : forall i, 0 <= i < 64 -> srcs i = 63 - i.
Proof.
  assert (forallb (fun n => srcs (Z.of_nat n) =? 63 - Z.of_nat n) (seq 0 64) = true) as Hall by by vm_compute.
  intros i Hi. rewrite forallb_forall in Hall. specialize (Hall (Z.to_nat i)).
  rewrite Z2Nat.id, Z.eqb_eq in Hall by lia. apply Hall, in_seq. lia.
Qed.

Lemma src_range p i : p ∈ masks -> 0 <= i < 64 -> 0 <= src p.1 p.2 i < 64.
Proof.
  assert (forallb (fun p => forallb (fun n => let j := src p.1 p.2 (Z.of_nat n) in
    (0 <=? j) && (j <? 64)) (seq 0 64)) masks = true) as Hall by by vm_compute.
  intros Hp Hi. rewrite forallb_forall in Hall. apply list_elem_of_In in Hp. specialize (Hall p Hp).
  rewrite forallb_forall in Hall. specialize (Hall (Z.to_nat i)). cbv zeta in Hall.
  rewrite Z2Nat.id in Hall by lia. apply andb_true_iff in Hall; [lia|]. apply in_seq. lia.
Qed.

Lemma foldl_steps_bit ps : forall v i,
  (forall p, p ∈ ps -> p ∈ masks) -> 0 <= i < 64 ->
  Z.testbit (foldl (fun v p => rev_step p.1 p.2 v) v ps) i = Z.testbit v (foldr (fun p i => src p.1 p.2 i) i ps).
Proof.
  induction ps as [|p ps IH] using rev_ind; intros v i Hps Hi; [done|].
  rewrite foldl_app, foldr_app. simpl. assert (p ∈ masks) as Hp by (apply Hps; set_solver).
  rewrite rev_step_bit; [|by repeat (apply elem_of_cons in Hp as [->|Hp]; [done|]); apply elem_of_nil in Hp|done].
  apply IH; [set_solver|by apply src_range].
Qed.

Lemma rev_bit v i : 0 <= i < 64 -> Z.testbit (rev v) i = Z.testbit v (63 - i).
Proof.
  intros Hi. rewrite rev_steps, foldl_steps_bit by done. f_equal. by apply srcs_reverse.
Qed.

Lemma rev_range v : in_u 64 v -> in_u 64 (rev v).
Proof.
  intros Hv. rewrite rev_steps.
  assert (forall ps u, (forall p, p ∈ ps -> p ∈ masks) -> in_u 64 u ->
    in_u 64 (foldl (fun v p => rev_step p.1 p.2 v) u ps)) as Hfold.
  { induction ps as [|p ps IH]; intros u Hps Hu; simpl; [done|]. apply IH; [set_solver|].
    assert (p ∈ masks) as Hp by (apply Hps; set_solver).
    repeat (apply elem_of_cons in Hp as [->|Hp]; [by apply rev_step_range|]). by apply elem_of_nil in Hp. }
  by apply Hfold.
Qed.

Lemma u64_bits_eq a b :
  in_u 64 a -> in_u 64 b -> (forall i, 0 <= i < 64 -> Z.testbit a i = Z.testbit b i) -> a = b.
Proof.
  intros Ha Hb Hi. apply Z.bits_inj'. intros i Hi0. destruct (Z.lt_ge_cases i 64); [by apply Hi|].
  by rewrite !(testbit_above _ 64).
Qed.

Lemma rev_0 : rev 0 = 0.
Proof. by vm_compute. Qed.

Lemma rev_involutive v : in_u 64 v -> rev (rev v) = v.
Proof.
  intros Hv. apply u64_bits_eq; [by apply rev_range, rev_range|done|].
  intros i Hi. rewrite !rev_bit by lia. f_equal. lia.
Qed.

(** ** Arithmetic of the reversed cursor *)

(** The first multiple of [2 ^ g] above [r]. *)
Definition ceil (g r : Z) : Z := (r / 2 ^ g + 1) * 2 ^ g.

Lemma ceil_gt g r : 0 <= g -> r < ceil g r <= r + 2 ^ g.
Proof.
  intros Hg. unfold ceil. pose proof (Z.pow_pos_nonneg 2 g ltac:(lia) Hg) as Hp.
  pose proof (Z.div_mod r (2 ^ g) ltac:(lia)). pose proof (Z.mod_pos_bound r (2 ^ g) Hp). nia.
Qed.

Lemma ceil_le_mult g r e : 0 <= g -> r < e -> e mod 2 ^ g = 0 -> ceil g r <= e.
Proof.
  intros Hg Hlt He. unfold ceil. pose proof (Z.pow_pos_nonneg 2 g ltac:(lia) Hg) as Hp.
  apply Z.div_exact in He; [|lia]. set (q := e / 2 ^ g) in *.
  assert (r / 2 ^ g < q) as Hq by (apply Z.div_lt_upper_bound; lia). nia.
Qed.

Lemma ceil_mod g r : 0 <= g -> ceil g r mod 2 ^ g = 0.
Proof. intros. apply Z.mod_mul. pose proof (Z.pow_pos_nonneg 2 g). lia. Qed.

Lemma pow2_mod_trans g0 g1 z : 0 <= g1 <= g0 -> z mod 2 ^ g0 = 0 -> z mod 2 ^ g1 = 0.
Proof.
  intros Hg Hz. apply Z.mod_divide in Hz; [|apply Z.pow_nonzero; lia].
  apply Z.mod_divide; [apply Z.pow_nonzero; lia|].
  eapply Z.divide_trans; [|done]. exists (2 ^ (g0 - g1)). rewrite <- Z.pow_add_r by lia. f_equal. lia.
Qed.

Lemma ceil_le_pow g r : 0 <= g <= 64 -> in_u 64 r -> ceil g r <= 2 ^ 64.
Proof.
  intros Hg Hr. apply ceil_le_mult; [lia|apply Hr|]. apply (pow2_mod_trans 64); [lia|]. by apply Z.mod_same.
Qed.

(** Keys whose reversed hashes agree on the high bits share the bucket. *)
Lemma same_bucket v w k :
  0 <= k <= 64 -> in_u 64 v -> in_u 64 w -> rev v / 2 ^ (64 - k) = rev w / 2 ^ (64 - k) ->
  Z.land v (2 ^ k - 1) = Z.land w (2 ^ k - 1).
Proof.
  intros Hk Hv Hw He. replace (2 ^ k - 1) with (Z.ones k) by (rewrite Z.ones_equiv; lia).
  apply Z.bits_inj'. intros i Hi. rewrite !Z.land_spec.
  destruct (Z.lt_ge_cases i k) as [Hlt|Hge]; [|by rewrite !Z.ones_spec_high, !andb_false_r by lia].
  f_equal. assert (forall u, Z.testbit u i = Z.testbit (rev u / 2 ^ (64 - k)) (k - 1 - i)) as Hbit.
  { intros u. rewrite Z.div_pow2_bits, rev_bit by lia. f_equal. lia. }
  by rewrite (Hbit v), (Hbit w), He.
Qed.

Lemma rev_set_high v k :
  0 <= k <= 64 -> in_u 64 v ->
  rev (Z.lor v (u64 (Z.lnot (2 ^ k - 1)))) = rev v / 2 ^ (64 - k) * 2 ^ (64 - k) + (2 ^ (64 - k) - 1).
Proof.
  intros Hk Hv. set (g := 64 - k). replace (2 ^ k - 1) with (Z.ones k) by (rewrite Z.ones_equiv; lia).
  pose proof (Z.pow_pos_nonneg 2 g). pose proof (rev_range v Hv) as Hr.
  assert (2 ^ g - 1 = Z.ones g) as -> by (rewrite Z.ones_equiv; lia).
  rewrite Z.add_comm, <- lor_shift_add; [|lia|rewrite Z.ones_equiv; lia].
  apply u64_bits_eq.
  - apply rev_range, lor_range; [done|done|by apply uwrap_range].
  - apply lor_range; [done| |].
    + rewrite Z.ones_equiv. pose proof (Z.pow_le_mono_r 2 g 64). unfold in_u. lia.
    + rewrite Z.shiftl_mul_pow2 by lia. pose proof (Z.mul_div_le (rev v) (2 ^ g)). unfold in_u in *.
      pose proof (Z.div_pos (rev v) (2 ^ g)). lia.
  - intros i Hi. rewrite rev_bit, Z.lor_spec, uwrap_testbit, Z.lnot_spec, Z.lor_spec by lia.
    destruct (Z.lt_ge_cases i g).
    + rewrite (Z.ones_spec_low g), (Z.ones_spec_high k) by lia. by rewrite orb_true_r.
    + rewrite (Z.ones_spec_high g), (Z.ones_spec_low k), Z.shiftl_spec, Z.div_pow2_bits, rev_bit by lia.
      simpl. rewrite orb_false_r. f_equal. lia.
Qed.

Lemma next_cursor_range v m : in_u 64 (next_cursor v m).
Proof. apply rev_range. by apply uwrap_range. Qed.

(** The reversed cursor moves to the next multiple. *)
Lemma next_cursor_rev v k :
  0 <= k <= 64 -> in_u 64 v ->
  rev (next_cursor v (2 ^ k - 1)) = u64 (ceil (64 - k) (rev v)).
Proof.
  intros Hk Hv. unfold next_cursor. rewrite rev_involutive by by apply uwrap_range.
  rewrite rev_set_high by done. unfold ceil. f_equal. lia.
Qed.

Lemma land_diff_zero v k0 k1 :
  0 <= k0 <= k1 -> k1 <= 64 -> in_u 64 v -> rev v mod 2 ^ (64 - k1) = 0 ->
  Z.land v (Z.lxor (2 ^ k0 - 1) (2 ^ k1 - 1)) = 0 <-> rev v mod 2 ^ (64 - k0) = 0.
Proof.
  intros Hk Hk1 Hv Hm.
  assert (forall k, 2 ^ k - 1 = Z.ones k) as Hones by (intros; rewrite Z.ones_equiv; lia). rewrite !Hones.
  assert (forall i, 0 <= i < 64 -> Z.testbit (Z.lxor (Z.ones k0) (Z.ones k1)) i = (k0 <=? i) && (i <? k1)) as Hx.
  { intros i Hi. rewrite Z.lxor_spec. destruct (Z.leb_spec k0 i), (Z.ltb_spec i k1);
      rewrite ?(Z.ones_spec_low k0), ?(Z.ones_spec_high k0), ?(Z.ones_spec_low k1), ?(Z.ones_spec_high k1) by lia; done. }
  assert (forall g u, 0 <= g -> u mod 2 ^ g = 0 <-> forall i, 0 <= i < g -> Z.testbit u i = false) as Hmod.
  { intros g u Hg. split.
    - intros Hz i Hi. rewrite <- (Z.mod_pow2_bits_low u g) by lia. rewrite Hz. apply Z.bits_0.
    - intros Hb. apply Z.bits_inj'. intros i Hi. rewrite Z.bits_0. destruct (Z.lt_ge_cases i g).
      + rewrite Z.mod_pow2_bits_low by lia. apply Hb. lia.
      + by apply Z.mod_pow2_bits_high. }
  rewrite Hmod in * by lia. split.
  - intros Hz i Hi. destruct (Z.lt_ge_cases i (64 - k1)); [apply Hm; lia|]. rewrite rev_bit by lia.
    assert (Z.testbit (Z.land v (Z.lxor (Z.ones k0) (Z.ones k1))) (63 - i) = false) as Hb by (rewrite Hz; apply Z.bits_0).
    rewrite Z.land_spec, Hx in Hb by lia.
    rewrite (proj2 (Z.leb_le _ _)), (proj2 (Z.ltb_lt _ _)), andb_true_r in Hb by lia. done.
  - intros Hb. apply Z.bits_inj'. intros i Hi. rewrite Z.land_spec, Z.bits_0.
    destruct (Z.lt_ge_cases i 64); [|by rewrite (testbit_above v 64) by done].
    rewrite Hx by lia. destruct (Z.leb_spec k0 i), (Z.ltb_spec i k1); rewrite ?andb_false_r; try done.
    rewrite andb_true_r. specialize (Hb (63 - i) ltac:(lia)). rewrite rev_bit in Hb by lia. rewrite <- Hb. f_equal. lia.
Qed.

(** ** One call *)

Section facts.
Context {K V : Type} `{DictType K}.
Notation dictEntry := (K * V)%type.
Implicit Types (d : dict (K := K) (V := V)) (h : dictht (K := K) (V := V)) (e : dictEntry).

(** The reversed hash of a key. *)
#[local] Notation rhash k := (rev (hashFunction k)).

Lemma rhash_u64 k : in_u 64 (rhash k).
Proof. apply rev_range, hashFunction_u64. Qed.

(** The bucket at the cursor holds every entry with the cursor's high bits. *)
Lemma bucket_at_cursor h t k v :
  ht_alloc h t -> size h = 2 ^ k -> 2 <= k <= MAX_ORDER -> in_u 64 v ->
  exists b, bucket h (Z.land v (sizemask h)) = Some b /\
    (forall e, e ∈ b -> e ∈ ents h) /\
    (forall e, e ∈ ents h -> rhash e.1 / 2 ^ (64 - k) = rev v / 2 ^ (64 - k) -> e ∈ b).
Proof.
  intros Ha Hs Hk Hv. unfold MAX_ORDER in *.
  assert (0 <= Z.land v (sizemask h) < size h) as Hr.
  { rewrite (al_mask _ _ Ha), Hs. replace (2 ^ k - 1) with (Z.ones k) by (rewrite Z.ones_equiv; lia).
    rewrite Z.land_ones by lia. apply Z.mod_pos_bound. apply Z.pow_pos_nonneg; lia. }
  rewrite (bucket_alloc _ _ _ Ha) by lia. pose proof (al_len _ _ Ha).
  destruct (lookup_lt_is_Some_2 t (Z.to_nat (Z.land v (sizemask h)))) as [b Hb]; [lia|].
  assert (bucket h (Z.land v (sizemask h)) = Some b) as Hb' by (rewrite (bucket_alloc _ _ _ Ha) by lia; done).
  exists b. split_and!; [done|intros e He; by eapply bucket_in_ents|].
  intros e He Heq. destruct (ents_in_bucket _ _ e Ha He) as (b' & Hb2 & He').
  assert (slot (sizemask h) e.1 = Z.land v (sizemask h)) as Hsl.
  { unfold slot. rewrite (al_mask _ _ Ha), Hs. apply same_bucket; [lia|apply hashFunction_u64|done|done]. }
  rewrite Hsl, Hb' in Hb2. by apply (inj Some) in Hb2; subst.
Qed.

Lemma ceil_div g r x : 0 <= g -> r <= x < ceil g r -> x / 2 ^ g = r / 2 ^ g.
Proof.
  intros Hg Hx. unfold ceil in Hx. pose proof (Z.pow_pos_nonneg 2 g ltac:(lia) Hg).
  pose proof (Z.mul_div_le r (2 ^ g) ltac:(lia)).
  symmetry. apply (Z.div_unique x (2 ^ g) (r / 2 ^ g) (x - 2 ^ g * (r / 2 ^ g))); lia.
Qed.

(** The end of the range a cursor value denotes: 0 stands for the top. *)
Definition cursor_end (r : Z) : Z := if r =? 0 then 2 ^ 64 else r.

Lemma cursor_end_wrap (e : Z) : 0 < e <= 2 ^ 64 -> cursor_end (u64 e) = e.
Proof.
  intros He. unfold cursor_end, uwrap. destruct (Z.eq_dec e (2 ^ 64)) as [->|]; [done|].
  rewrite Z.mod_small by lia. by destruct (Z.eqb_spec e 0); [lia|].
Qed.

Lemma u64_mod_pow2 g (e : Z) : 0 <= g <= 64 -> 0 <= e <= 2 ^ 64 -> e mod 2 ^ g = 0 -> u64 e mod 2 ^ g = 0.
Proof.
  intros Hg He Hm. unfold uwrap. destruct (Z.eq_dec e (2 ^ 64)) as [->|].
  - rewrite Z.mod_same by done. apply Z.mod_0_l. apply Z.pow_nonzero; lia.
  - by rewrite (Z.mod_small e) by lia.
Qed.

(** One round over the larger table of order [k1], for a cursor bound to a
    smaller table of order [k0]. *)
Lemma expansion_step v k0 k1 :
  2 <= k0 <= k1 -> k1 <= MAX_ORDER -> in_u 64 v ->
  let v' := next_cursor v (2 ^ k1 - 1) in
  let N := ceil (64 - k1) (rev v) in
  let E := ceil (64 - k0) (rev v) in
  rev v < N <= E /\
  if Z.land v' (Z.lxor (2 ^ k0 - 1) (2 ^ k1 - 1)) =? 0 then N = E /\ rev v' = u64 E
  else N < E /\ rev v' = N /\ ceil (64 - k0) N = E /\ N / 2 ^ (64 - k1) * 2 ^ (64 - k1) = N.
Proof.
  intros Hk Hk1 Hv v' N E. unfold MAX_ORDER in *.
  assert (in_u 64 v') as Hv' by apply next_cursor_range.
  assert (rev v' = u64 N) as Hrev by (by apply next_cursor_rev; [lia|]).
  pose proof (ceil_gt (64 - k1) (rev v) ltac:(lia)) as HN. fold N in HN.
  pose proof (ceil_gt (64 - k0) (rev v) ltac:(lia)) as HE. fold E in HE.
  pose proof (ceil_le_pow (64 - k0) (rev v) ltac:(lia) (rev_range v Hv)) as HE64. fold E in HE64.
  pose proof (ceil_mod (64 - k1) (rev v) ltac:(lia)) as HNm. fold N in HNm.
  pose proof (ceil_mod (64 - k0) (rev v) ltac:(lia)) as HEm. fold E in HEm.
  assert (N <= E) as HNE by (apply ceil_le_mult; [lia|lia|]; apply (pow2_mod_trans (64 - k0)); [lia|done]).
  pose proof (rev_range v Hv) as Hrv. unfold in_u in Hrv.
  pose proof (land_diff_zero v' k0 k1 ltac:(lia) ltac:(lia) Hv'
    ltac:(rewrite Hrev; apply u64_mod_pow2; [lia|lia|done])) as Hz.
  split; [lia|]. rewrite Hrev in Hz |- *.
  destruct (Z.eqb_spec (Z.land v' (Z.lxor (2 ^ k0 - 1) (2 ^ k1 - 1))) 0) as [Hd|Hd].
  - assert (N = E) as HNeq; [|by rewrite HNeq]. apply Hz in Hd.
    destruct (Z.eq_dec N (2 ^ 64)) as [Hn|Hn]; [lia|].
    rewrite uwrap_small in Hd by (unfold in_u; lia).
    pose proof (ceil_le_mult (64 - k0) (rev v) N ltac:(lia) ltac:(lia) Hd) as Hle. fold E in Hle. lia.
  - assert (N < E) as HNlt.
    { destruct (Z.eq_dec N E) as [Heq|]; [|lia]. exfalso. apply Hd, Hz. rewrite Heq.
      apply u64_mod_pow2; [lia|lia|done]. }
    split_and!; [done|apply uwrap_small; unfold in_u; lia| |].
    + subst E. unfold ceil. do 2 f_equal. apply ceil_div; [lia|]. lia.
    + apply Z.div_exact in HNm; [lia|]. apply Z.pow_nonzero; lia.
Qed.

Lemma scan_expansions_spec (t1 : dictht (K := K) (V := V)) t k0 k1 fuel : forall v out,
  ht_alloc t1 t -> size t1 = 2 ^ k1 -> 2 <= k0 <= k1 -> k1 <= MAX_ORDER -> in_u 64 v ->
  ceil (64 - k0) (rev v) - rev v / 2 ^ (64 - k1) * 2 ^ (64 - k1) <= Z.of_nat fuel * 2 ^ (64 - k1) ->
  exists v' out', scan_expansions fuel t1 (2 ^ k0 - 1) (sizemask t1) v out = Some (v', out ++ out') /\
    in_u 64 v' /\ rev v' = u64 (ceil (64 - k0) (rev v)) /\
    (forall e, e ∈ out' -> e ∈ ents t1) /\
    (forall e, e ∈ ents t1 -> rev v <= rhash e.1 < ceil (64 - k0) (rev v) -> e ∈ out').
Proof.
  induction fuel as [|fuel IH]; intros v out Ha Hs Hk Hk1 Hv Hf.
  { exfalso. unfold MAX_ORDER in *. pose proof (ceil_gt (64 - k0) (rev v)).
    pose proof (Z.mul_div_le (rev v) (2 ^ (64 - k1))). pose proof (Z.pow_pos_nonneg 2 (64 - k1)). lia. }
  cbn [scan_expansions].
  destruct (bucket_at_cursor t1 t k1 v Ha Hs ltac:(lia) Hv) as (b & -> & Hb & Hcov). bsimpl.
  assert (forall e, e ∈ ents t1 -> rev v <= rhash e.1 < ceil (64 - k1) (rev v) -> e ∈ b) as Hcov'.
  { intros e He Hr. apply Hcov; [done|]. apply ceil_div; [unfold MAX_ORDER in *; lia|done]. }
  rewrite (al_mask _ _ Ha), Hs.
  destruct (expansion_step v k0 k1 Hk Hk1 Hv) as [HN Hstep]. cbv zeta in Hstep.
  pose proof (next_cursor_range v (2 ^ k1 - 1)) as Hv'. set (v' := next_cursor v (2 ^ k1 - 1)) in *.
  destruct (_ =? 0).
  - destruct Hstep as [Heq Hrev]. exists v', b. split_and!; [done..|]. by rewrite <- Heq.
  - destruct Hstep as (Hlt & HrevN & HceilE & Hmul).
    rewrite <- Hs, <- (al_mask _ _ Ha).
    destruct (IH v' (out ++ b)) as (v'' & out' & -> & Hv2 & Hr2 & Hs2 & Hc2); [done|done|lia|lia|done| |].
    + rewrite HrevN, HceilE, Hmul. unfold ceil in *. lia.
    + rewrite HrevN, HceilE in *. exists v'', (b ++ out'). rewrite <- app_assoc.
      split_and!; [done|done|done|set_solver|]. intros e He Hr. rewrite elem_of_app.
      destruct (Z.lt_ge_cases (rhash e.1) (ceil (64 - k1) (rev v))); [left; apply Hcov'|right; apply Hc2]; (done || lia).
Qed.

(** What a call that moves the cursor from [v] to [v'] and emits [out]
    guarantees, for the entries [es] of tables of order at most [B]. *)
Record scanned (es : list dictEntry) (B v v' : Z) (out : list dictEntry) : Prop := mkScanned {
  sc_cursor : in_u 64 v';
  sc_progress : rev v < cursor_end (rev v');
  sc_grain : rev v' mod 2 ^ (64 - B) = 0;
  sc_sound : forall e, e ∈ out -> e ∈ es;
  sc_complete : forall e, e ∈ es -> rev v <= rhash e.1 < cursor_end (rev v') -> e ∈ out }.

Lemma order_of h t B : ht_alloc h t -> size h <= 2 ^ B -> 0 <= B -> exists k, 2 <= k <= MAX_ORDER /\ size h = 2 ^ k /\ k <= B.
Proof.
  intros Ha Hs HB. destruct (al_size _ _ Ha) as (k & Hk & He). exists k. split; [done|]. split; [done|].
  rewrite He in Hs. apply Z.pow_le_mono_r_iff in Hs; lia.
Qed.

Lemma scanned_ceil es B v v' out k :
  2 <= k <= MAX_ORDER -> k <= B <= 64 -> in_u 64 v -> in_u 64 v' -> rev v' = u64 (ceil (64 - k) (rev v)) ->
  (forall e, e ∈ out -> e ∈ es) ->
  (forall e, e ∈ es -> rev v <= rhash e.1 < ceil (64 - k) (rev v) -> e ∈ out) ->
  scanned es B v v' out.
Proof.
  intros Hk HB Hv Hv' Hr Hs Hc. unfold MAX_ORDER in *. pose proof (ceil_gt (64 - k) (rev v) ltac:(lia)).
  pose proof (ceil_le_pow (64 - k) (rev v) ltac:(lia) (rev_range v Hv)). pose proof (rev_range v Hv) as [? _].
  assert (cursor_end (rev v') = ceil (64 - k) (rev v)) as He by (rewrite Hr; apply cursor_end_wrap; lia).
  constructor; rewrite ?He; [done|lia| |done|done].
  rewrite Hr. apply (pow2_mod_trans (64 - k)); [lia|]. apply u64_mod_pow2; [lia|lia|]. apply ceil_mod. lia.
Qed.

Lemma two_tables_scanned (t0 t1 : dictht (K := K) (V := V)) l0 l1 B v :
  ht_alloc t0 l0 -> ht_alloc t1 l1 -> size t0 <= size t1 <= 2 ^ B -> 0 <= B <= 64 -> in_u 64 v ->
  exists v' out, (b ← bucket t0 (Z.land v (sizemask t0));
      scan_expansions (S (Z.to_nat (size t1))) t1 (sizemask t0) (sizemask t1) v b) = Some (v', out) /\
    scanned (ents t0 ++ ents t1) B v v' out.
Proof.
  intros Ha0 Ha1 Hsz HB Hv.
  destruct (order_of _ _ B Ha0) as (k0 & Hk0 & Hs0 & HB0); [lia|lia|].
  destruct (order_of _ _ B Ha1) as (k1 & Hk1 & Hs1 & HB1); [lia|lia|].
  assert (k0 <= k1) as Hk by (rewrite Hs0, Hs1 in Hsz; apply (Z.pow_le_mono_r_iff 2); lia).
  destruct (bucket_at_cursor t0 l0 k0 v Ha0 Hs0 Hk0 Hv) as (b & -> & Hb & Hcov). bsimpl.
  rewrite (al_mask _ _ Ha0), Hs0. unfold MAX_ORDER in *.
  destruct (scan_expansions_spec t1 l1 k0 k1 (S (Z.to_nat (size t1))) v b Ha1 Hs1 ltac:(lia)
    ltac:(unfold MAX_ORDER; lia) Hv) as (v' & out & -> & Hv' & Hr & Hso & Hco).
  { pose proof (ceil_le_pow (64 - k0) (rev v) ltac:(lia) (rev_range v Hv)).
    pose proof (rev_range v Hv) as [Hnn _]. pose proof (Z.div_pos (rev v) (2 ^ (64 - k1)) Hnn ltac:(lia)).
    rewrite Hs1, Nat2Z.inj_succ, Z2Nat.id by lia. rewrite Z.mul_succ_l, <- Z.pow_add_r by lia.
    replace (k1 + (64 - k1)) with 64 by lia. nia. }
  exists v', (b ++ out). split; [done|]. apply (scanned_ceil _ _ _ _ _ k0); try done; [lia|set_solver|].
  intros e [He|He]%elem_of_app Hre; apply elem_of_app; [left|right; by apply Hco].
  apply Hcov; [done|]. apply ceil_div; [lia|done].
Qed.

Lemma dictScan_spec d v B :
  dict_ok d -> size (ht0 d) <= 2 ^ B -> size (ht1 d) <= 2 ^ B -> 0 <= B <= 64 -> in_u 64 v ->
  exists d' v' out, dictScan d v = Some (d', v', out) /\ scanned (entries d) B v v' out /\
    (in_u 64 (iterators d) -> d' = d).
Proof.
  intros Hok HB0 HB1 HB Hv. unfold dictScan. pose proof (dictSize_spec d Hok) as Hsz.
  rewrite size_length_abs in Hsz by done. destruct (Z.eqb_spec (dictSize d) 0) as [Hz|Hz].
  { exists d, 0, []. split_and!; try done. rewrite (nil_length_inv (entries d)) by lia.
    pose proof (rev_range v Hv) as [_ ?].
    constructor; rewrite ?rev_0; [done|done|by apply Z.mod_0_l, Z.pow_nonzero; lia|set_solver|set_solver]. }
  set (d1 := set_iterators d _).
  assert (exists v' out, scanned (entries d) B v v' out /\
    (if negb (dictIsRehashing d1) then
       b ← bucket (ht0 d1) (Z.land v (sizemask (ht0 d1))); Some (next_cursor v (sizemask (ht0 d1)), b)
     else
       let '(t0, t1) := if size (ht0 d1) >? size (ht1 d1) then (ht1 d1, ht0 d1) else (ht0 d1, ht1 d1) in
       b ← bucket t0 (Z.land v (sizemask t0));
       scan_expansions (S (Z.to_nat (size t1))) t1 (sizemask t0) (sizemask t1) v b) = Some (v', out))
    as (v' & out & Hsc & ->).
  2: { bsimpl. eexists _, v', out. split_and!; [done|done|]. intros Hit. subst d1.
       destruct d as [h0 h1 ri its]. unfold set_iterators. cbn [ht0 ht1 rehashidx iterators] in *. f_equal.
       unfold uwrap. rewrite Zminus_mod_idemp_l. replace (its + 1 - 1) with its by lia. by apply Z.mod_small. }
  change (dictIsRehashing d1) with (dictIsRehashing d). change (ht0 d1) with (ht0 d). change (ht1 d1) with (ht1 d).
  assert (table (ht0 d) <> None) as Ht0.
  { apply nonempty_table0; [done|]. intros Hn. rewrite Hn in Hsz. simpl in Hsz. lia. }
  destruct (ht_ok_table _ (ok_ht0 _ Hok) Ht0) as [t0 Ha0].
  pose proof (ok_rehash _ Hok) as Hr. destruct (dictIsRehashing d); cbn [negb].
  - destruct Hr as (_ & _ & Ht1 & _). destruct (ht_ok_table _ (ok_ht1 _ Hok) Ht1) as [t1 Ha1].
    rewrite Z.gtb_ltb. destruct (Z.ltb_spec (size (ht1 d)) (size (ht0 d))).
    + destruct (two_tables_scanned _ _ _ _ B v Ha1 Ha0) as (v' & out & -> & []); [lia|lia|done|].
      exists v', out. split; [|done]. constructor; try done; unfold entries; set_solver.
    + destruct (two_tables_scanned _ _ _ _ B v Ha0 Ha1) as (v' & out & -> & ?); [lia|lia|done|]. eauto.
  - destruct (order_of _ _ B Ha0) as (k & Hk & Hs & Hkb); [lia|lia|].
    destruct (bucket_at_cursor _ _ k v Ha0 Hs Hk Hv) as (b & -> & Hb & Hcov). bsimpl.
    eexists _, b. split; [|done]. rewrite (al_mask _ _ Ha0), Hs. unfold entries. rewrite Hr. simpl. rewrite app_nil_r.
    unfold MAX_ORDER in *. apply (scanned_ceil _ _ _ _ _ k); try done; [lia|apply next_cursor_range|by apply next_cursor_rev; [lia|]|].
    intros e He Hre. apply Hcov; [done|]. apply ceil_div; [lia|done].
Qed.

(** ** A full scan *)

(** Call [dictScan] from cursor [v] until it returns 0; before the [i]-th call
    the rest of the program has brought the table to the state [ds i]. *)
Fixpoint full_scan (fuel : nat) (ds : nat -> dict (K := K) (V := V)) (i : nat) (v : Z)
  : option (list (list dictEntry)) :=
  match fuel with
  | O => None
  | S fuel =>
      '(_, v, out) ← dictScan (ds i) v;
      if v =? 0 then Some [out] else outs ← full_scan fuel ds (S i) v; Some (out :: outs)
  end.

Definition stages_ok (ds : nat -> dict (K := K) (V := V)) (B : Z) : Prop :=
  forall i, dict_ok (ds i) /\ size (ht0 (ds i)) <= 2 ^ B /\ size (ht1 (ds i)) <= 2 ^ B.

Lemma full_scan_from ds B fuel : stages_ok ds B -> 0 <= B <= 64 -> forall i v,
  in_u 64 v -> rev v mod 2 ^ (64 - B) = 0 -> 2 ^ 64 - rev v <= Z.of_nat fuel * 2 ^ (64 - B) ->
  exists outs, full_scan fuel ds i v = Some outs /\
    (forall j out k val, outs !! j = Some out -> (k, val) ∈ out -> abs (ds (i + j)%nat) !! k = Some val) /\
    (forall k, rev v <= rhash k ->
      (forall j, (j < length outs)%nat -> is_Some (abs (ds (i + j)%nat) !! k)) ->
      exists j out val, outs !! j = Some out /\ abs (ds (i + j)%nat) !! k = Some val /\ (k, val) ∈ out).
Proof.
  intros Hds HB. pose proof (Z.pow_pos_nonneg 2 (64 - B) ltac:(lia) ltac:(lia)) as Hp.
  induction fuel as [|fuel IH]; intros i v Hv Hg Hf.
  { pose proof (rev_range v Hv) as [_ ?]. lia. }
  cbn [full_scan]. destruct (Hds i) as (Hok & Hs0 & Hs1).
  destruct (dictScan_spec (ds i) v B Hok Hs0 Hs1 HB Hv) as (d' & v' & out & -> & [Hv' Hlt Hg' Hso Hco] & _). bsimpl.
  assert (forall k val, (k, val) ∈ out -> abs (ds (i + 0)%nat) !! k = Some val) as Hso'.
  { intros k val He. rewrite Nat.add_0_r. by apply abs_lookup, Hso. }
  assert (forall k, rev v <= rhash k < cursor_end (rev v') -> is_Some (abs (ds (i + 0)%nat) !! k) ->
    exists val, abs (ds (i + 0)%nat) !! k = Some val /\ (k, val) ∈ out) as Hemit.
  { intros k Hk [val Hval]. exists val. split; [done|]. rewrite Nat.add_0_r in Hval. apply abs_lookup in Hval; [|done].
    by apply (Hco (k, val)). }
  destruct (Z.eqb_spec v' 0) as [->|Hne].
  - exists [out]. split; [done|]. split.
    + intros [|j] o k val Ho; [injection Ho as <-; apply Hso'|done].
    + intros k Hk Hin. destruct (Hemit k) as (val & ? & ?); [split; [done|apply rhash_u64]|apply Hin; simpl; lia|].
      exists 0%nat, out, val. done.
  - assert (rev v' <> 0) as Hrne.
    { intros Hz. apply Hne. rewrite <- (rev_involutive v') by done. by rewrite Hz, rev_0. }
    assert (cursor_end (rev v') = rev v') as Hce by (unfold cursor_end; by rewrite (proj2 (Z.eqb_neq _ _))).
    rewrite Hce in *.
    assert (rev v + 2 ^ (64 - B) <= rev v').
    { pose proof (ceil_le_mult (64 - B) (rev v) (rev v') ltac:(lia) Hlt Hg') as Hle. unfold ceil in Hle.
      apply Z.div_exact in Hg; lia. }
    destruct (IH (S i) v' Hv' Hg') as (outs & -> & Hs & Hc); [lia|]. bsimpl. exists (out :: outs).
    split; [done|]. split.
    + intros [|j] o k val Ho; [injection Ho as <-; apply Hso'|]. rewrite Nat.add_succ_r. by apply (Hs j).
    + intros k Hk Hin. destruct (Z.lt_ge_cases (rhash k) (rev v')) as [Hl|Hge].
      * destruct (Hemit k) as (val & ? & ?); [done|apply Hin; simpl; lia|]. by exists 0%nat, out, val.
      * destruct (Hc k Hge) as (j & o & val & Hj & Hv1 & Hv2).
        { intros j Hj. specialize (Hin (S j)). rewrite Nat.add_succ_r in Hin. apply Hin. simpl. lia. }
        exists (S j), o, val. rewrite Nat.add_succ_r. done.
Qed.

(** C1: A scan misses no key.  Whatever happens to the table between the
    calls of a scan (insertions, deletions, growing, shrinking, any stage of
    rehashing), as long as it stays well formed and its tables have at most
    [2 ^ B] buckets, calling [dictScan] from cursor 0 returns to cursor 0 after
    at most [2 ^ B] calls; every entry reported is in the table at that call;
    and every key that is in the table at each call is reported. *)
Theorem full_scan_complete ds B :
  stages_ok ds B -> 0 <= B <= 64 ->
  exists outs, full_scan (Z.to_nat (2 ^ B)) ds 0 0 = Some outs /\
    (forall i out k val, outs !! i = Some out -> (k, val) ∈ out -> abs (ds i) !! k = Some val) /\
    (forall k, (forall i, (i < length outs)%nat -> is_Some (abs (ds i) !! k)) ->
      exists i out val, outs !! i = Some out /\ abs (ds i) !! k = Some val /\ (k, val) ∈ out).
Proof.
  intros Hds HB.
  destruct (full_scan_from ds B (Z.to_nat (2 ^ B)) Hds HB 0 0) as (outs & -> & Hs & Hc).
  - done.
  - rewrite rev_0. apply Z.mod_0_l, Z.pow_nonzero; lia.
  - rewrite rev_0, Z2Nat.id by lia. rewrite <- Z.pow_add_r by lia. by replace (B + (64 - B)) with 64 by lia.
  - exists outs. split; [done|]. split; [exact Hs|]. intros k Hk. apply Hc; [rewrite rev_0; apply rhash_u64|exact Hk].
Qed.

(** [rev] is the reversal of the 64 bits of a word, and its own inverse. *)
Theorem rev_reverses v :
  in_u 64 v ->
  (forall i, 0 <= i < 64 -> Z.testbit (rev v) i = Z.testbit v (63 - i)) /\ in_u 64 (rev v) /\ rev (rev v) = v.
Proof. intros Hv. split; [intros; by apply rev_bit|]. split; [by apply rev_range|by apply rev_involutive]. Qed.

Lemma rev_reverses_witness : rev 1 = 2 ^ 63 /\ rev (rev 1) = 1.
Proof. split; [by vm_compute|]. apply (rev_reverses 1). by vm_compute. Defined.

End facts.

(** The sample table, half migrated, at the first call; a smaller one from then on. *)
#[local] Existing Instance sample_type.

Definition sample_stages (i : nat) : dict (K := Z) (V := Z) :=
  match i with
  | O => sample_dict
  | _ => small_dict
  end.

Lemma sample_stages_ok : stages_ok sample_stages 3.
Proof. intros [|i]; [split; [exact sample_dict_ok|by vm_compute]|split; [exact small_dict_ok|by vm_compute]]. Qed.

Lemma full_scan_complete_witness :
  exists outs, full_scan 8 sample_stages 0 0 = Some outs /\
    exists i out val, outs !! i = Some out /\ abs (sample_stages i) !! 97 = Some val /\
      (97, val) ∈ out.
Proof.
  destruct (full_scan_complete sample_stages 3) as (outs & Hrun & _ & Hc).
  - apply sample_stages_ok.
  - lia.
  - exists outs. split; [exact Hrun|]. apply Hc. intros i _. exists 97. destruct i; by vm_compute.
Defined.

End DictScan.
