(* ===== verification/Crc.v ===== *)
(** Checksums: [crc16.c] and the hash slot of [cluster.c], [crc64.c] and the
    slice-by-eight evaluator of [crcspeed.c].

    The table-driven routines are proved equal to the bit-by-bit definition of
    the code, by linearity of the feedback shift registers over exclusive or.
    Table lookups are partial: an index outside the table would be [None]. *)

From Stdlib Require Import Btauto.
From S2P Require Import Prelude.

#[local] Open Scope Z_scope.

Module Crc.

(** ** CRC-16 (XMODEM) *)

Definition crc16tab : list Z :=
  [0x0000; 0x1021; 0x2042; 0x3063; 0x4084; 0x50a5; 0x60c6; 0x70e7;
   0x8108; 0x9129; 0xa14a; 0xb16b; 0xc18c; 0xd1ad; 0xe1ce; 0xf1ef;
   0x1231; 0x0210; 0x3273; 0x2252; 0x52b5; 0x4294; 0x72f7; 0x62d6;
   0x9339; 0x8318; 0xb37b; 0xa35a; 0xd3bd; 0xc39c; 0xf3ff; 0xe3de;
   0x2462; 0x3443; 0x0420; 0x1401; 0x64e6; 0x74c7; 0x44a4; 0x5485;
   0xa56a; 0xb54b; 0x8528; 0x9509; 0xe5ee; 0xf5cf; 0xc5ac; 0xd58d;
   0x3653; 0x2672; 0x1611; 0x0630; 0x76d7; 0x66f6; 0x5695; 0x46b4;
   0xb75b; 0xa77a; 0x9719; 0x8738; 0xf7df; 0xe7fe; 0xd79d; 0xc7bc;
   0x48c4; 0x58e5; 0x6886; 0x78a7; 0x0840; 0x1861; 0x2802; 0x3823;
   0xc9cc; 0xd9ed; 0xe98e; 0xf9af; 0x8948; 0x9969; 0xa90a; 0xb92b;
   0x5af5; 0x4ad4; 0x7ab7; 0x6a96; 0x1a71; 0x0a50; 0x3a33; 0x2a12;
   0xdbfd; 0xcbdc; 0xfbbf; 0xeb9e; 0x9b79; 0x8b58; 0xbb3b; 0xab1a;
   0x6ca6; 0x7c87; 0x4ce4; 0x5cc5; 0x2c22; 0x3c03; 0x0c60; 0x1c41;
   0xedae; 0xfd8f; 0xcdec; 0xddcd; 0xad2a; 0xbd0b; 0x8d68; 0x9d49;
   0x7e97; 0x6eb6; 0x5ed5; 0x4ef4; 0x3e13; 0x2e32; 0x1e51; 0x0e70;
   0xff9f; 0xefbe; 0xdfdd; 0xcffc; 0xbf1b; 0xaf3a; 0x9f59; 0x8f78;
   0x9188; 0x81a9; 0xb1ca; 0xa1eb; 0xd10c; 0xc12d; 0xf14e; 0xe16f;
   0x1080; 0x00a1; 0x30c2; 0x20e3; 0x5004; 0x4025; 0x7046; 0x6067;
   0x83b9; 0x9398; 0xa3fb; 0xb3da; 0xc33d; 0xd31c; 0xe37f; 0xf35e;
   0x02b1; 0x1290; 0x22f3; 0x32d2; 0x4235; 0x5214; 0x6277; 0x7256;
   0xb5ea; 0xa5cb; 0x95a8; 0x8589; 0xf56e; 0xe54f; 0xd52c; 0xc50d;
   0x34e2; 0x24c3; 0x14a0; 0x0481; 0x7466; 0x6447; 0x5424; 0x4405;
   0xa7db; 0xb7fa; 0x8799; 0x97b8; 0xe75f; 0xf77e; 0xc71d; 0xd73c;
   0x26d3; 0x36f2; 0x0691; 0x16b0; 0x6657; 0x7676; 0x4615; 0x5634;
   0xd94c; 0xc96d; 0xf90e; 0xe92f; 0x99c8; 0x89e9; 0xb98a; 0xa9ab;
   0x5844; 0x4865; 0x7806; 0x6827; 0x18c0; 0x08e1; 0x3882; 0x28a3;
   0xcb7d; 0xdb5c; 0xeb3f; 0xfb1e; 0x8bf9; 0x9bd8; 0xabbb; 0xbb9a;
   0x4a75; 0x5a54; 0x6a37; 0x7a16; 0x0af1; 0x1ad0; 0x2ab3; 0x3a92;
   0xfd2e; 0xed0f; 0xdd6c; 0xcd4d; 0xbdaa; 0xad8b; 0x9de8; 0x8dc9;
   0x7c26; 0x6c07; 0x5c64; 0x4c45; 0x3ca2; 0x2c83; 0x1ce0; 0x0cc1;
   0xef1f; 0xff3e; 0xcf5d; 0xdf7c; 0xaf9b; 0xbfba; 0x8fd9; 0x9ff8;
   0x6e17; 0x7e36; 0x4e55; 0x5e74; 0x2e93; 0x3eb2; 0x0ed1; 0x1ef0].

(** [*buf++] is a [char]; the mask keeps its eight bits. *)
Definition crc16_byte (crc b : Z) : option Z :=
  t ← crc16tab !! Z.to_nat (Z.land (Z.lxor (Z.shiftr crc 8) b) 0xFF);
  Some (u16 (Z.lxor (Z.shiftl crc 8) t)).

Fixpoint crc16_loop (crc : Z) (buf : list Z) : option Z :=
  match buf with
  | [] => Some crc
  | b :: buf => crc ← crc16_byte crc b; crc16_loop crc buf
  end.

Definition crc16 (buf : list Z) : option Z := crc16_loop 0 buf.

(** ** Hash slots *)

(** The index of the first [c] at or after [i], or the length. *)
Fixpoint find_char (c : Z) (l : list Z) (i : nat) : nat :=
  match l with
  | [] => i
  | x :: l => if x =? c then i else find_char c l (S i)
  end.

Definition keyHashSlot (key : list Z) : option Z :=
  let keylen := length key in
  let s := find_char 123 key 0 in
  if (s =? keylen)%nat then h ← crc16 key; Some (Z.land h 0x3FFF)
  else
    let e := find_char 125 (drop (S s) key) (S s) in
    if (e =? keylen)%nat || (e =? S s)%nat then h ← crc16 key; Some (Z.land h 0x3FFF)
    else h ← crc16 (take (e - s - 1) (drop (S s) key)); Some (Z.land h 0x3FFF).

(** ** CRC-64 (Jones), bit by bit *)

Definition POLY : Z := 0xad93d23594c935a9.

Fixpoint crc_reflect_loop (n : nat) (data ret : Z) : Z :=
  match n with
  | O => ret
  | S n =>
      let data := Z.shiftr data 1 in
      crc_reflect_loop n data (u64 (Z.lor (Z.shiftl ret 1) (Z.land data 1)))
  end.
Definition crc_reflect (data : Z) (data_len : nat) : Z :=
  crc_reflect_loop (data_len - 1) data (Z.land data 1).

(** One input bit, then the eight bits of a byte from the lowest. *)
Definition crc64_bit (crc : Z) (inbit : bool) : Z :=
  let bit := negb (Z.land crc 0x8000000000000000 =? 0) in
  let bit := if inbit then negb bit else bit in
  let crc := u64 (Z.shiftl crc 1) in
  if bit then Z.lxor crc POLY else crc.

Definition crc64_byte (crc c : Z) : Z :=
  foldl (fun crc i => crc64_bit crc (negb (Z.land c i =? 0))) crc [1; 2; 4; 8; 16; 32; 64; 128].

Definition _crc64 (crc : Z) (data : list Z) : Z :=
  crc_reflect (foldl crc64_byte crc data) 64.

(** ** Slice by eight *)

Definition tab (t : list (list Z)) (k : nat) (i : Z) : option Z :=
  row ← t !! k; if i <? 0 then None else row !! Z.to_nat i.

(** One row of the nested table from the previous one. *)
Definition next_entry (t0 : list Z) (crc : Z) : option Z :=
  x ← t0 !! Z.to_nat (Z.land crc 0xff); Some (Z.lxor x (Z.shiftr crc 8)).

Fixpoint nested_rows (k : nat) (t0 row : list Z) : option (list (list Z)) :=
  match k with
  | O => Some []
  | S k => row ← mapM (next_entry t0) row; rows ← nested_rows k t0 row; Some (row :: rows)
  end.

Definition crcspeed64little_init (crcfn : Z -> list Z -> Z) : option (list (list Z)) :=
  let t0 := (fun n => crcfn 0 [Z.of_nat n]) <$> seq 0 256 in
  rows ← nested_rows 7 t0 t0; Some (t0 :: rows).

Definition speed_byte (t : list (list Z)) (crc b : Z) : option Z :=
  x ← tab t 0 (Z.land (Z.lxor crc b) 0xff); Some (Z.lxor x (Z.shiftr crc 8)).

Definition speed_word (t : list (list Z)) (crc w : Z) : option Z :=
  let crc := Z.lxor crc w in
  a7 ← tab t 7 (Z.land crc 0xff);
  a6 ← tab t 6 (Z.land (Z.shiftr crc 8) 0xff);
  a5 ← tab t 5 (Z.land (Z.shiftr crc 16) 0xff);
  a4 ← tab t 4 (Z.land (Z.shiftr crc 24) 0xff);
  a3 ← tab t 3 (Z.land (Z.shiftr crc 32) 0xff);
  a2 ← tab t 2 (Z.land (Z.shiftr crc 40) 0xff);
  a1 ← tab t 1 (Z.land (Z.shiftr crc 48) 0xff);
  a0 ← tab t 0 (Z.shiftr crc 56);
  Some (Z.lxor (Z.lxor (Z.lxor (Z.lxor (Z.lxor (Z.lxor (Z.lxor a7 a6) a5) a4) a3) a2) a1) a0).

(** The bytes before an aligned address [next]. *)
Fixpoint speed_head (t : list (list Z)) (next : Z) (crc : Z) (buf : list Z) : option (Z * list Z) :=
  match buf with
  | [] => Some (crc, [])
  | b :: rest =>
      if Z.land next 7 =? 0 then Some (crc, buf)
      else crc ← speed_byte t crc b; speed_head t (next + 1) crc rest
  end.

(** [n] words. *)
Fixpoint speed_middle (t : list (list Z)) (n : nat) (crc : Z) (buf : list Z) : option (Z * list Z) :=
  match n with
  | O => Some (crc, buf)
  | S n => crc ← speed_word t crc (le_decode (take 8 buf)); speed_middle t n crc (drop 8 buf)
  end.

Fixpoint speed_tail (t : list (list Z)) (crc : Z) (buf : list Z) : option Z :=
  match buf with
  | [] => Some crc
  | b :: rest => crc ← speed_byte t crc b; speed_tail t crc rest
  end.

(** [addr] is the address of the buffer. *)
Definition crcspeed64little (t : list (list Z)) (crc : Z) (addr : Z) (buf : list Z) : option Z :=
  '(crc, buf) ← speed_head t addr crc buf;
  '(crc, buf) ← speed_middle t (length buf / 8) crc buf;
  speed_tail t crc buf.

(** On a little-endian machine, with the table filled by [crc64_init]. *)
Definition crc64_init : option (list (list Z)) := crcspeed64little_init _crc64.
Definition crc64 (t : list (list Z)) (crc addr : Z) (s : list Z) : option Z := crcspeed64little t crc addr s.

(** ** CRC-16 against the bit-by-bit register *)

Definition bit16 (c : Z) : Z :=
  Z.lxor (u16 (Z.shiftl c 1)) (if Z.testbit c 15 then 0x1021 else 0).
Definition step16 (c b : Z) : Z := Nat.iter 8 bit16 (Z.lxor c (Z.shiftl b 8)).

(** A linear map commutes with exclusive or. *)
Definition linear (f : Z -> Z) : Prop := forall x y, f (Z.lxor x y) = Z.lxor (f x) (f y).

Lemma linear_iter f n : linear f -> linear (Nat.iter n f).
Proof. intros Hf. induction n as [|n IH]; intros x y; simpl; [done|]. by rewrite IH, Hf. Qed.

Lemma linear_feedback (p : Z) (g : Z -> Z) i :
  linear g -> linear (fun c => Z.lxor (g c) (if Z.testbit c i then p else 0)).
Proof.
  intros Hg x y. rewrite Hg, Z.lxor_spec. apply Z.bits_inj'. intros j Hj. rewrite !Z.lxor_spec.
  destruct (Z.testbit x i), (Z.testbit y i); simpl; rewrite ?Z.bits_0; btauto.
Qed.

Lemma linear_bit16 : linear bit16.
Proof.
  apply (linear_feedback 0x1021 (fun c => u16 (Z.shiftl c 1))). intros x y.
  rewrite Z.shiftl_lxor. by apply uwrap_lxor.
Qed.

Lemma bit16_high b : is_byte b -> crc16tab !! Z.to_nat b = Some (Nat.iter 8 bit16 (Z.shiftl b 8)).
Proof.
  intros Hb. apply (bool_decide_eq_true_1 (_ = _)). revert b Hb.
  apply (forall_byte (fun b => bool_decide (crc16tab !! Z.to_nat b = Some (Nat.iter 8 bit16 (Z.shiftl b 8))))).
  by vm_compute.
Qed.

Lemma bit16_low b : is_byte b -> Nat.iter 8 bit16 b = Z.shiftl b 8.
Proof.
  intros Hb. apply Z.eqb_eq. revert b Hb.
  apply (forall_byte (fun b => Nat.iter 8 bit16 b =? Z.shiftl b 8)). by vm_compute.
Qed.

Lemma land_255_byte z : is_byte (Z.land z 0xff).
Proof. unfold is_byte. change 256 with (2 ^ 8). by apply land_range. Qed.

Lemma land_255_small z : is_byte z -> Z.land z 0xff = z.
Proof. intros Hz. change 0xff with (Z.ones 8). rewrite Z.land_ones by lia. by apply Z.mod_small. Qed.

Lemma lxor_byte a b : is_byte a -> is_byte b -> is_byte (Z.lxor a b).
Proof. unfold is_byte. change 256 with (2 ^ 8). by apply lxor_range. Qed.

Lemma u16_high_byte c : u16 (Z.shiftl c 8) = Z.shiftl (Z.land c 0xff) 8.
Proof.
  apply Z.bits_inj'. intros i Hi. rewrite Z.shiftl_spec, Z.land_spec by done. change 255 with (Z.ones 8).
  destruct (Z.lt_ge_cases i 16).
  - rewrite uwrap_testbit, Z.shiftl_spec by lia. destruct (Z.lt_ge_cases i 8).
    + by rewrite !(Z.testbit_neg_r _ (i - 8)) by lia.
    + by rewrite Z.ones_spec_low, andb_true_r by lia.
  - rewrite uwrap_testbit_high, Z.ones_spec_high by lia. by rewrite andb_false_r.
Qed.

Lemma crc16_byte_spec c b :
  in_u 16 c -> is_byte b -> crc16_byte c b = Some (step16 c b) /\ in_u 16 (step16 c b).
Proof.
  intros Hc Hb. unfold crc16_byte.
  assert (is_byte (Z.shiftr c 8)) as Hhi.
  { unfold is_byte, in_u in *. rewrite Z.shiftr_div_pow2 by done. dlia. }
  rewrite land_255_small by by apply lxor_byte.
  rewrite bit16_high by by apply lxor_byte. bsimpl.
  assert (step16 c b = u16 (Z.lxor (Z.shiftl c 8) (Nat.iter 8 bit16 (Z.shiftl (Z.lxor (Z.shiftr c 8) b) 8)))) as ->;
    [|split; [done|by apply uwrap_range]].
  unfold step16. rewrite (lxor_split c 8) at 1 by done. change (Z.ones 8) with 0xff.
  rewrite Z.lxor_assoc, <- Z.shiftl_lxor, (linear_iter _ 8 linear_bit16), bit16_low by apply land_255_byte.
  rewrite uwrap_lxor, u16_high_byte by done. f_equal.
  rewrite uwrap_small; [done|].
  change 8%nat with (S 7). cbn [Nat.iter]. unfold bit16 at 1. apply lxor_range; [done|by apply uwrap_range|].
  by destruct (Z.testbit _ 15).
Qed.

Lemma crc16_loop_spec buf : forall c,
  in_u 16 c -> Forall is_byte buf -> crc16_loop c buf = Some (foldl step16 c buf) /\ in_u 16 (foldl step16 c buf).
Proof.
  induction buf as [|b buf IH]; intros c Hc Hb; simpl; [done|].
  apply Forall_cons in Hb as [Hb Hbs]. destruct (crc16_byte_spec c b Hc Hb) as [-> Hr]. bsimpl. by apply IH.
Qed.

(** ** The reflected register of CRC-64 *)

Lemma crc_reflect_loop_bit n : forall m data ret i,
  0 <= ret < 2 ^ m -> 0 <= m -> m + Z.of_nat n <= 64 -> 0 <= i < 64 ->
  Z.testbit (crc_reflect_loop n data ret) i =
    if i <? Z.of_nat n then Z.testbit data (Z.of_nat n - i) else Z.testbit ret (i - Z.of_nat n).
Proof.
  induction n as [|n IH]; intros m data ret i Hr Hm Hn Hi; cbn [crc_reflect_loop].
  { rewrite (proj2 (Z.ltb_ge _ _)) by lia. f_equal. lia. }
  set (ret' := u64 (Z.lor (Z.shiftl ret 1) (Z.land (Z.shiftr data 1) 1))).
  assert (0 <= ret' < 2 ^ (m + 1)) as Hr'.
  { subst ret'. rewrite uwrap_small.
    - apply lor_range; [lia| |apply land_range; [lia|rewrite Z.pow_add_r by lia; lia]].
      rewrite Z.shiftl_mul_pow2, Z.pow_add_r by lia. lia.
    - apply lor_range; [done| |by apply land_range].
      rewrite Z.shiftl_mul_pow2 by lia. pose proof (Z.pow_le_mono_r 2 (m + 1) 64 ltac:(lia) ltac:(lia)).
      rewrite Z.pow_add_r in * by lia. lia. }
  rewrite (IH (m + 1)) by lia. rewrite Nat2Z.inj_succ.
  destruct (Z.ltb_spec i (Z.of_nat n)) as [Hlt|Hge]; destruct (Z.ltb_spec i (Z.succ (Z.of_nat n))); try lia.
  - rewrite Z.shiftr_spec by lia. f_equal. lia.
  - replace i with (Z.of_nat n) by lia. rewrite Z.sub_diag. subst ret'.
    rewrite uwrap_testbit, Z.lor_spec, Z.shiftl_spec_low, Z.land_spec, Z.shiftr_spec by lia.
    change (Z.testbit 1 0) with true. rewrite andb_true_r, orb_false_l. f_equal. lia.
  - subst ret'. rewrite uwrap_testbit, Z.lor_spec, Z.shiftl_spec, Z.land_spec by lia.
    rewrite (testbit_above 1 1) by lia. rewrite andb_false_r, orb_false_r. f_equal. lia.
Qed.

Lemma crc_reflect_bit c i : 0 <= i < 64 -> Z.testbit (crc_reflect c 64) i = Z.testbit c (63 - i).
Proof.
  intros Hi. unfold crc_reflect. change (64 - 1)%nat with 63%nat.
  rewrite (crc_reflect_loop_bit 63 1) by first [apply (land_range 1); lia|lia].
  change (Z.of_nat 63) with 63. destruct (Z.ltb_spec i 63); [done|].
  replace i with 63 by lia. change (63 - 63) with 0. rewrite Z.land_spec. change (Z.testbit 1 0) with true. by rewrite andb_true_r.
Qed.

Lemma crc_reflect_loop_range n : forall data ret,
  in_u 64 ret -> in_u 64 (crc_reflect_loop n data ret).
Proof. induction n as [|n IH]; intros data ret Hr; cbn [crc_reflect_loop]; [done|]. apply IH. by apply uwrap_range. Qed.

Lemma crc_reflect_range c n : in_u 64 (crc_reflect c n).
Proof. apply crc_reflect_loop_range. by apply land_range. Qed.

Lemma eq_by_bits64 a b :
  in_u 64 a -> in_u 64 b -> (forall i, 0 <= i < 64 -> Z.testbit a i = Z.testbit b i) -> a = b.
Proof.
  intros Ha Hb Hi. apply Z.bits_inj'. intros i Hi0. destruct (Z.lt_ge_cases i 64); [by apply Hi|].
  by rewrite !(testbit_above _ 64).
Qed.

Definition POLYR : Z := crc_reflect POLY 64.
Definition rbit (c : Z) : Z := Z.lxor (Z.shiftr c 1) (if Z.testbit c 0 then POLYR else 0).
Definition rstep (c b : Z) : Z := Nat.iter 8 rbit (Z.lxor c b).

Lemma linear_rbit : linear rbit.
Proof. apply (linear_feedback POLYR (fun c => Z.shiftr c 1)). intros x y. apply Z.shiftr_lxor. Qed.

Lemma rbit_u64 c : in_u 64 c -> in_u 64 (rbit c).
Proof.
  intros Hc. unfold rbit. apply lxor_range; [done|by apply shiftr_range|].
  destruct (Z.testbit c 0); [apply crc_reflect_range|done].
Qed.

Lemma iter_rbit_u64 n c : in_u 64 c -> in_u 64 (Nat.iter n rbit c).
Proof. intros Hc. induction n; simpl; [done|by apply rbit_u64]. Qed.

Lemma rbit_shift x k : 0 <= k -> rbit (Z.shiftl x (k + 1)) = Z.shiftl x k.
Proof.
  intros Hk. unfold rbit. rewrite Z.shiftl_spec, Z.testbit_neg_r, Z.lxor_0_r by lia.
  rewrite Z.shiftr_shiftl_l by lia. f_equal. lia.
Qed.

Lemma iter_rbit_shift n x k : 0 <= k -> Nat.iter n rbit (Z.shiftl x (k + Z.of_nat n)) = Z.shiftl x k.
Proof.
  revert k. induction n as [|n IH]; intros k Hk; [by rewrite Z.add_0_r|].
  rewrite Nat.iter_succ. replace (k + Z.of_nat (S n)) with (k + 1 + Z.of_nat n) by lia.
  by rewrite IH, rbit_shift by lia.
Qed.

Lemma iter_rbit_shift0 n x : Nat.iter n rbit (Z.shiftl x (Z.of_nat n)) = x.
Proof. rewrite <- (Z.add_0_l (Z.of_nat n)), iter_rbit_shift by done. apply Z.shiftl_0_r. Qed.

Lemma crc64_bit_reflect c b :
  in_u 64 c -> crc_reflect (crc64_bit c b) 64 = rbit (Z.lxor (crc_reflect c 64) (Z.b2z b)).
Proof.
  intros Hc. assert (in_u 64 (Z.b2z b)) as Hb by by destruct b.
  apply eq_by_bits64; [apply crc_reflect_range|apply rbit_u64, lxor_range; [done|apply crc_reflect_range|done]|].
  intros i Hi. rewrite crc_reflect_bit by done. unfold crc64_bit, rbit.
  assert (negb (Z.land c 0x8000000000000000 =? 0) = Z.testbit c 63) as ->.
  { change 0x8000000000000000 with (2 ^ 63). destruct (Z.testbit c 63) eqn:Hbit.
    - apply negb_true_iff, Z.eqb_neq. intros Hz. apply (f_equal (fun z => Z.testbit z 63)) in Hz.
      rewrite Z.land_spec, Hbit, Z.pow2_bits_true, Z.bits_0 in Hz by done. done.
    - apply negb_false_iff, Z.eqb_eq. apply Z.bits_inj'. intros j Hj. rewrite Z.land_spec, Z.bits_0, Z.pow2_bits_eqb by done.
      destruct (Z.eqb_spec 63 j) as [<-|]; [by rewrite Hbit|apply andb_false_r]. }
  rewrite !Z.lxor_spec, Z.shiftr_spec, Z.lxor_spec by lia.
  rewrite (crc_reflect_bit c 0) by done. change (63 - 0) with 63. rewrite Z.b2z_bit0.
  assert (Z.testbit (Z.b2z b) (i + 1) = false) as -> by (apply (testbit_above _ 1); [destruct b; simpl; lia|lia]).
  rewrite xorb_false_r.
  assert (Z.testbit (crc_reflect c 64) (i + 1) = Z.testbit (u64 (Z.shiftl c 1)) (63 - i)) as ->.
  { rewrite uwrap_testbit, Z.shiftl_spec by lia. destruct (Z.eq_dec i 63) as [->|].
    - rewrite (testbit_above _ 64) by (apply crc_reflect_range || lia). done.
    - rewrite crc_reflect_bit by lia. f_equal. lia. }
  destruct b, (Z.testbit c 63); simpl; rewrite ?Z.lxor_spec, ?Z.bits_0, ?xorb_false_r; try done;
    unfold POLYR; by rewrite crc_reflect_bit by done.
Qed.

Lemma crc64_bit_u64 c b : in_u 64 (crc64_bit c b).
Proof.
  unfold crc64_bit. destruct (if b then _ else _); [apply lxor_range; [done|by apply uwrap_range|done]|by apply uwrap_range].
Qed.

#[local] Opaque crc_reflect.

(** *** Feeding bits and bytes one by one or all at once *)

(** Input shifted in after [n] steps is input present from the start. *)
Lemma feed_late n c x :
  Z.lxor (Nat.iter n rbit c) x = Nat.iter n rbit (Z.lxor c (Z.shiftl x (Z.of_nat n))).
Proof. by rewrite (linear_iter _ n linear_rbit), iter_rbit_shift0. Qed.

Lemma feed_bits x n c :
  foldl (fun r k => rbit (Z.lxor r (Z.b2z (Z.testbit x (Z.of_nat k))))) c (seq 0 n) =
  Nat.iter n rbit (Z.lxor c (Z.land x (Z.ones (Z.of_nat n)))).
Proof.
  induction n as [|n IH].
  { simpl. by rewrite Z.land_0_r, Z.lxor_0_r. }
  rewrite seq_S, foldl_app, IH. cbn [foldl plus]. rewrite feed_late, <- Nat.iter_succ. f_equal.
  rewrite Z.lxor_assoc. f_equal. apply Z.bits_inj'. intros i Hi.
  rewrite Z.lxor_spec, !Z.land_spec, Z.shiftl_spec by done. set (m := Z.of_nat n).
  replace (Z.of_nat (S n)) with (m + 1) by lia. destruct (Z.lt_trichotomy i m) as [Hlt|[->|Hgt]].
  - rewrite (Z.testbit_neg_r _ (i - m)), !Z.ones_spec_low by lia. by rewrite xorb_false_r.
  - rewrite Z.sub_diag, Z.b2z_bit0, (Z.ones_spec_high m), (Z.ones_spec_low (m + 1)) by lia.
    by rewrite andb_false_r, andb_true_r, xorb_false_l.
  - rewrite !Z.ones_spec_high by lia. rewrite !andb_false_r. apply (testbit_above _ 1); [|lia].
    destruct (Z.testbit x m); simpl; lia.
Qed.

Lemma le_decode_lxor b bs :
  is_byte b -> Forall is_byte bs -> le_decode (b :: bs) = Z.lxor b (Z.shiftl (le_decode bs) 8).
Proof.
  intros Hb Hbs. pose proof (le_decode_range bs Hbs) as [? _]. unfold is_byte in Hb. cbn [le_decode].
  rewrite Z.lxor_lor by (apply land_shift_disjoint; [done|done]). rewrite lor_shift_add by done. lia.
Qed.

Lemma feed_bytes bs : forall c,
  Forall is_byte bs ->
  foldl rstep c bs = Nat.iter (8 * length bs) rbit (Z.lxor c (le_decode bs)).
Proof.
  induction bs as [|b bs IH]; intros c Hb.
  { simpl. by rewrite Z.lxor_0_r. }
  apply Forall_cons in Hb as [Hb Hbs]. cbn [foldl]. rewrite IH by done. unfold rstep. rewrite feed_late.
  rewrite Z.lxor_assoc. change (Z.of_nat 8) with 8. rewrite <- le_decode_lxor by done.
  rewrite <- Nat.iter_add. f_equal. cbn [length]. lia.
Qed.

Lemma crc64_byte_reflect c x :
  in_u 64 c -> is_byte x ->
  crc_reflect (crc64_byte c x) 64 = rstep (crc_reflect c 64) x /\ in_u 64 (crc64_byte c x).
Proof.
  intros Hc Hx. unfold crc64_byte, rstep.
  assert (forall k, 0 <= k -> negb (Z.land x (2 ^ k) =? 0) = Z.testbit x k) as Hmask.
  { intros k Hk. destruct (Z.testbit x k) eqn:Hbit.
    - apply negb_true_iff, Z.eqb_neq. intros Hz. apply (f_equal (fun z => Z.testbit z k)) in Hz.
      rewrite Z.land_spec, Hbit, Z.pow2_bits_true, Z.bits_0 in Hz by done. done.
    - apply negb_false_iff, Z.eqb_eq. apply Z.bits_inj'. intros j Hj.
      rewrite Z.land_spec, Z.bits_0, Z.pow2_bits_eqb by done.
      destruct (Z.eqb_spec k j) as [<-|]; [by rewrite Hbit|apply andb_false_r]. }
  assert (forall n d, in_u 64 d ->
    crc_reflect (foldl (fun crc k => crc64_bit crc (Z.testbit x (Z.of_nat k))) d (seq 0 n)) 64 =
    foldl (fun r k => rbit (Z.lxor r (Z.b2z (Z.testbit x (Z.of_nat k))))) (crc_reflect d 64) (seq 0 n) /\
    in_u 64 (foldl (fun crc k => crc64_bit crc (Z.testbit x (Z.of_nat k))) d (seq 0 n))) as Hfold.
  { induction n as [|n IH]; intros d Hd; [by split|]. rewrite seq_S, !foldl_app. destruct (IH d Hd) as [<- Hr].
    cbn [foldl plus]. split; [by apply crc64_bit_reflect|apply crc64_bit_u64]. }
  destruct (Hfold 8%nat c Hc) as [Heq Hr]. rewrite feed_bits in Heq.
  change (Z.of_nat 8) with 8 in Heq. change (Z.ones 8) with 0xff in Heq. rewrite land_255_small in Heq by done.
  rewrite <- Heq. assert (foldl (fun crc i => crc64_bit crc (negb (Z.land x i =? 0))) c [1; 2; 4; 8; 16; 32; 64; 128]
    = foldl (fun crc k => crc64_bit crc (Z.testbit x (Z.of_nat k))) c (seq 0 8)) as ->; [|done].
  cbn [foldl seq]. by rewrite <- !Hmask by lia.
Qed.

(** The bit-by-bit routine started at zero is the reflected register. *)
Lemma _crc64_rstep data : Forall is_byte data -> _crc64 0 data = foldl rstep 0 data.
Proof.
  intros Hd. unfold _crc64. change (foldl rstep 0 data) with (foldl rstep (crc_reflect 0 64) data).
  assert (in_u 64 0) as H0 by done. revert H0. generalize 0. induction Hd as [|b bs Hb Hbs IH]; intros c Hc; simpl; [done|].
  destruct (crc64_byte_reflect c b Hc Hb) as [<- Hr]. by apply IH.
Qed.

(** *** The tables *)

Lemma rstep_high c b :
  in_u 64 c -> is_byte b ->
  rstep c b = Z.lxor (Nat.iter 8 rbit (Z.land (Z.lxor c b) 0xff)) (Z.shiftr c 8).
Proof.
  intros Hc Hb. unfold rstep. rewrite (lxor_split (Z.lxor c b) 8) at 1 by done.
  rewrite (linear_iter _ 8 linear_rbit). f_equal.
  rewrite (iter_rbit_shift0 8), Z.shiftr_lxor. unfold is_byte in Hb.
  by rewrite (Z.shiftr_div_pow2 b), Z.div_small, Z.lxor_0_r by done.
Qed.

Definition row_ok (k : nat) (row : list Z) : Prop :=
  length row = 256%nat /\ forall i, (i < 256)%nat -> row !! i = Some (Nat.iter (8 * S k) rbit (Z.of_nat i)).

Lemma byte_of_nat i : (i < 256)%nat -> is_byte (Z.of_nat i).
Proof. unfold is_byte. lia. Qed.

Lemma row0_ok : row_ok 0 ((fun n => _crc64 0 [Z.of_nat n]) <$> seq 0 256).
Proof.
  split; [done|]. intros i Hi. rewrite list_lookup_fmap, lookup_seq_lt by done. simpl.
  rewrite _crc64_rstep by (constructor; [by apply byte_of_nat|done]). cbn [foldl]. unfold rstep.
  by rewrite Z.lxor_0_l.
Qed.

Lemma lookup_byte row k z :
  row_ok k row -> is_byte z -> row !! Z.to_nat z = Some (Nat.iter (8 * S k) rbit z).
Proof.
  intros [_ Hr] Hz. unfold is_byte in Hz. rewrite Hr by lia. by rewrite Z2Nat.id by lia.
Qed.

Lemma next_entry_spec t0 c : row_ok 0 t0 -> in_u 64 c -> next_entry t0 c = Some (Nat.iter 8 rbit c).
Proof.
  intros H0 Hc. unfold next_entry. rewrite (lookup_byte t0 0) by (done || apply land_255_byte). bsimpl.
  f_equal. change (8 * 1)%nat with 8%nat. pose proof (rstep_high c 0 Hc ltac:(done)) as Hr.
  rewrite Z.lxor_0_r in Hr. rewrite <- Hr. unfold rstep. by rewrite Z.lxor_0_r.
Qed.

Lemma next_row_ok k t0 row :
  row_ok 0 t0 -> row_ok k row -> exists row', mapM (next_entry t0) row = Some row' /\ row_ok (S k) row'.
Proof.
  intros H0 [Hl Hr]. exists (Nat.iter 8 rbit <$> row). split.
  - apply mapM_Some. rewrite Forall2_fmap_r. apply Forall_Forall2_diag, Forall_forall. intros c Hc.
    apply list_elem_of_lookup in Hc as [i Hi]. pose proof (lookup_lt_Some _ _ _ Hi).
    rewrite Hr in Hi by lia. apply (inj Some) in Hi. rewrite <- Hi. apply next_entry_spec; [done|]. apply iter_rbit_u64.
    unfold in_u. lia.
  - split; [by rewrite length_fmap|]. intros i Hi. rewrite list_lookup_fmap, Hr by done. cbn [fmap option_fmap option_map].
    rewrite <- Nat.iter_add. do 2 f_equal. lia.
Qed.

Lemma nested_rows_ok n : forall k t0 row,
  row_ok 0 t0 -> row_ok k row ->
  exists rows, nested_rows n t0 row = Some rows /\ length rows = n /\
    forall j r, rows !! j = Some r -> row_ok (S k + j) r.
Proof.
  induction n as [|n IH]; intros k t0 row H0 Hr; cbn [nested_rows].
  { exists []. split_and!; [done..|]. intros j r Hj. by rewrite lookup_nil in Hj. }
  destruct (next_row_ok k t0 row H0 Hr) as (row' & -> & Hr'). bsimpl.
  destruct (IH (S k) t0 row' H0 Hr') as (rows & -> & Hl & Hrows). bsimpl.
  exists (row' :: rows). split; [done|]. split; [by simpl; rewrite Hl|].
  intros [|j] r Hj; [injection Hj as <-; by rewrite Nat.add_0_r|].
  rewrite Nat.add_succ_r. by apply (Hrows j).
Qed.

Definition table_ok (t : list (list Z)) : Prop :=
  forall k z, (k < 8)%nat -> is_byte z -> tab t k z = Some (Nat.iter (8 * S k) rbit z).

Lemma crc64_init_ok : exists t, crc64_init = Some t /\ table_ok t.
Proof.
  unfold crc64_init, crcspeed64little_init. set (t0 := _ <$> seq 0 256). pose proof row0_ok as H0. fold t0 in H0.
  destruct (nested_rows_ok 7 0 t0 t0 H0 H0) as (rows & -> & Hl & Hrows). bsimpl.
  exists (t0 :: rows). split; [done|]. intros k z Hk Hz. unfold tab.
  assert (exists r, (t0 :: rows) !! k = Some r /\ row_ok k r) as (r & -> & Hr).
  { destruct k as [|k]; [by exists t0|]. destruct (lookup_lt_is_Some_2 rows k) as [r Hr]; [lia|].
    exists r. split; [done|]. by apply Hrows in Hr. }
  bsimpl. unfold is_byte in Hz. rewrite (proj2 (Z.ltb_ge _ _)) by lia. by apply lookup_byte.
Qed.

(** *** The evaluator *)

Section speed.
Context (t : list (list Z)) (Ht : table_ok t).

Lemma speed_byte_spec c b : in_u 64 c -> is_byte b -> speed_byte t c b = Some (rstep c b).
Proof using Ht.
  intros Hc Hb. unfold speed_byte. rewrite Ht by (lia || apply land_255_byte). bsimpl. by rewrite rstep_high.
Qed.

Lemma iter_split n x :
  Nat.iter (8 * S n) rbit x =
  Z.lxor (Nat.iter (8 * S n) rbit (Z.land x 0xff)) (Nat.iter (8 * n) rbit (Z.shiftr x 8)).
Proof.
  rewrite (lxor_split x 8) at 1 by done. rewrite (linear_iter _ _ linear_rbit). f_equal.
  replace (8 * S n)%nat with (8 * n + 8)%nat by lia. rewrite Nat.iter_add. f_equal. apply (iter_rbit_shift0 8).
Qed.

Lemma speed_word_spec c w :
  in_u 64 c -> in_u 64 w -> speed_word t c w = Some (Nat.iter 64 rbit (Z.lxor c w)).
Proof using Ht.
  intros Hc Hw. unfold speed_word. set (x := Z.lxor c w).
  assert (in_u 64 x) as Hx by by apply lxor_range.
  assert (is_byte (Z.shiftr x 56)) as H56.
  { unfold is_byte, in_u in *. rewrite Z.shiftr_div_pow2 by done. dlia. }
  rewrite !Ht by (lia || apply land_255_byte || done). bsimpl. f_equal.
  change 64%nat with (8 * 8)%nat. 
  rewrite (iter_split 7 x), (iter_split 6 (Z.shiftr x 8)), Z.shiftr_shiftr by done. change (8 + 8) with 16.
  rewrite (iter_split 5 (Z.shiftr x 16)), Z.shiftr_shiftr by done. change (16 + 8) with 24.
  rewrite (iter_split 4 (Z.shiftr x 24)), Z.shiftr_shiftr by done. change (24 + 8) with 32.
  rewrite (iter_split 3 (Z.shiftr x 32)), Z.shiftr_shiftr by done. change (32 + 8) with 40.
  rewrite (iter_split 2 (Z.shiftr x 40)), Z.shiftr_shiftr by done. change (40 + 8) with 48.
  rewrite (iter_split 1 (Z.shiftr x 48)), Z.shiftr_shiftr by done. change (48 + 8) with 56.
  rewrite (iter_split 0 (Z.shiftr x 56)), Z.shiftr_shiftr by done. change (56 + 8) with 64.
  rewrite (land_255_small (Z.shiftr x 56)) by done.
  assert (Z.shiftr x 64 = 0) as -> by (rewrite Z.shiftr_div_pow2 by done; by apply Z.div_small).
  change (Nat.iter (8 * 0) rbit 0) with 0. rewrite Z.lxor_0_r. by rewrite !Z.lxor_assoc.
Qed.

Lemma rstep_u64 c b : in_u 64 c -> is_byte b -> in_u 64 (rstep c b).
Proof. intros Hc Hb. apply iter_rbit_u64, lxor_range; [done|done|]. unfold is_byte in Hb. lia. Qed.

Lemma foldl_rstep_u64 bs : forall c, in_u 64 c -> Forall is_byte bs -> in_u 64 (foldl rstep c bs).
Proof.
  induction bs as [|b bs IH]; intros c Hc Hb; simpl; [done|]. apply Forall_cons in Hb as [Hb Hbs].
  apply IH; [by apply rstep_u64|done].
Qed.

Lemma speed_head_spec bs : forall next c,
  in_u 64 c -> Forall is_byte bs ->
  exists l1 l2, bs = l1 ++ l2 /\ speed_head t next c bs = Some (foldl rstep c l1, l2).
Proof using Ht.
  induction bs as [|b bs IH]; intros next c Hc Hb; cbn [speed_head]; [by exists [], []|].
  destruct (Z.land next 7 =? 0); [by exists [], (b :: bs)|]. apply Forall_cons in Hb as [Hb Hbs].
  rewrite speed_byte_spec by done. bsimpl.
  destruct (IH (next + 1) (rstep c b)) as (l1 & l2 & -> & ->); [by apply rstep_u64|done|].
  by exists (b :: l1), l2.
Qed.

Lemma speed_middle_spec n : forall c bs,
  in_u 64 c -> Forall is_byte bs -> (8 * n <= length bs)%nat ->
  speed_middle t n c bs = Some (foldl rstep c (take (8 * n) bs), drop (8 * n) bs).
Proof using Ht.
  induction n as [|n IH]; intros c bs Hc Hb Hl; cbn [speed_middle].
  { by rewrite Nat.mul_0_r, take_0, drop_0. }
  assert (Forall is_byte (take 8 bs)) as Hb8 by by apply Forall_take.
  assert (length (take 8 bs) = 8%nat) as Hl8 by (rewrite length_take; lia).
  rewrite speed_word_spec; [|done|].
  2: { pose proof (le_decode_range _ Hb8) as Hr. rewrite Hl8 in Hr. done. }
  bsimpl. pose proof (feed_bytes _ c Hb8) as Hf. rewrite Hl8 in Hf. change (8 * 8)%nat with 64%nat in Hf.
  rewrite <- Hf. rewrite IH.
  - rewrite drop_drop. replace (8 * S n)%nat with (8 + 8 * n)%nat by lia.
    rewrite <- (take_take_drop bs 8 (8 * n)), foldl_app. done.
  - by apply foldl_rstep_u64.
  - by apply Forall_drop.
  - rewrite length_drop. lia.
Qed.

Lemma speed_tail_spec bs : forall c,
  in_u 64 c -> Forall is_byte bs -> speed_tail t c bs = Some (foldl rstep c bs).
Proof using Ht.
  induction bs as [|b bs IH]; intros c Hc Hb; cbn [speed_tail]; [done|]. apply Forall_cons in Hb as [Hb Hbs].
  rewrite speed_byte_spec by done. bsimpl. rewrite IH; [done| |done].
  by apply rstep_u64.
Qed.

Lemma crcspeed64little_spec addr c bs :
  in_u 64 c -> Forall is_byte bs -> crcspeed64little t c addr bs = Some (foldl rstep c bs).
Proof using Ht.
  intros Hc Hb. unfold crcspeed64little.
  destruct (speed_head_spec bs addr c Hc Hb) as (l1 & l2 & -> & ->). bsimpl.
  apply Forall_app in Hb as [Hb1 Hb2]. pose proof (foldl_rstep_u64 l1 c Hc Hb1).
  rewrite speed_middle_spec; [|done|done|apply Nat.Div0.mul_div_le]. bsimpl.
  rewrite speed_tail_spec; [|by apply foldl_rstep_u64, Forall_take|by apply Forall_drop].
  by rewrite <- !foldl_app, take_drop.
Qed.

End speed.

(** C26: The slice-by-eight CRC-64 agrees with the bit-by-bit routine.  With
    the table of [crc64_init], [crc64] from zero returns the value of [_crc64]
    on every byte string at every address, and a checksum computed in pieces
    is the checksum of the whole, as the snapshot writer relies on. *)
Theorem crc64_correct :
  exists t, crc64_init = Some t /\
    (forall addr s, Forall is_byte s -> crc64 t 0 addr s = Some (_crc64 0 s)) /\
    (forall c addr addr1 addr2 s1 s2, in_u 64 c -> Forall is_byte s1 -> Forall is_byte s2 ->
      (c1 ← crc64 t c addr1 s1; crc64 t c1 addr2 s2) = crc64 t c addr (s1 ++ s2)).
Proof.
  destruct crc64_init_ok as (t & Hinit & Ht). exists t. split; [done|]. clear Hinit. unfold crc64. split.
  - intros addr s Hs. rewrite (crcspeed64little_spec t Ht) by done. by rewrite _crc64_rstep.
  - intros c addr addr1 addr2 s1 s2 Hc H1 H2. rewrite (crcspeed64little_spec t Ht addr1) by done. bsimpl.
    rewrite !(crcspeed64little_spec t Ht); [by rewrite foldl_app|done|by apply Forall_app|by apply foldl_rstep_u64|done].
Qed.

(** C35: The table-driven [crc16] equals the bit-by-bit CRC-16 with polynomial
    0x1021 and a zero start, on every byte string. *)
Theorem crc16_correct buf : Forall is_byte buf -> crc16 buf = Some (foldl step16 0 buf).
Proof. intros Hb. by apply crc16_loop_spec. Qed.

Lemma crc16_correct_witness : crc16 [49; 50; 51; 52; 53; 54; 55; 56; 57] = Some 0x31C3.
Proof.
  rewrite (crc16_correct [49; 50; 51; 52; 53; 54; 55; 56; 57]); [by vm_compute|].
  repeat constructor; by vm_compute.
Defined.

(** The bit-by-bit routine is not incremental: it takes the register as it is
    and returns it reflected. *)
Lemma _crc64_not_incremental : _crc64 (_crc64 0 [97]) [98] <> _crc64 0 [97; 98].
Proof. by vm_compute. Qed.

(** *** Hash tags *)

Lemma find_char_first c l1 l2 i : c ∉ l1 -> find_char c (l1 ++ c :: l2) i = (i + length l1)%nat.
Proof.
  revert i. induction l1 as [|x l1 IH]; intros i Hn; simpl.
  - rewrite Z.eqb_refl. lia.
  - apply not_elem_of_cons in Hn as [Hx Hn]. rewrite (proj2 (Z.eqb_neq _ _)) by done. rewrite IH by done. lia.
Qed.

Lemma find_char_none c l : forall i, c ∉ l -> find_char c l i = (i + length l)%nat.
Proof.
  induction l as [|x l IH]; intros i Hn; simpl; [lia|]. apply not_elem_of_cons in Hn as [Hx Hn].
  rewrite (proj2 (Z.eqb_neq _ _)), IH by done. lia.
Qed.

(** The first occurrence of a byte. *)
Lemma first_occurrence (c : Z) l : c ∈ l -> exists l1 l2, l = l1 ++ c :: l2 /\ c ∉ l1.
Proof. intros (l1 & l2 & -> & Hn)%list_elem_of_split_l. by exists l1, l2. Qed.

(** The hash tag of a key: the bytes between its first opening brace and the
    next closing brace, if there are any. *)
Definition hashtag (key tag : list Z) : Prop :=
  exists pre post, key = pre ++ 123 :: tag ++ 125 :: post /\ 123 ∉ pre /\ 125 ∉ tag /\ tag <> [].

Lemma keyHashSlot_tag key tag : hashtag key tag -> keyHashSlot key = (h ← crc16 tag; Some (Z.land h 0x3FFF)).
Proof.
  intros (pre & post & -> & Hpre & Htag & Hne). unfold keyHashSlot. rewrite find_char_first, Nat.add_0_l by done.
  assert (drop (S (length pre)) (pre ++ 123 :: tag ++ 125 :: post) = tag ++ 125 :: post) as ->.
  { change (123 :: tag ++ 125 :: post) with ([123] ++ (tag ++ 125 :: post)). rewrite app_assoc, drop_app_length'; [done|].
    rewrite length_app. simpl. lia. }
  rewrite find_char_first by done. rewrite length_app. cbn [length]. rewrite length_app. cbn [length].
  assert (length tag <> 0%nat) as Hl by by destruct tag.
  repeat rewrite (proj2 (Nat.eqb_neq _ _)) by lia. cbn [orb].
  replace (S (length pre) + length tag - length pre - 1)%nat with (length tag) by lia.
  by rewrite take_app_length.
Qed.

Lemma keyHashSlot_plain key : (forall tag, ~ hashtag key tag) -> keyHashSlot key = (h ← crc16 key; Some (Z.land h 0x3FFF)).
Proof.
  intros Hno. unfold keyHashSlot. destruct (decide (123 ∈ key)) as [(pre & l & -> & Hpre)%first_occurrence|Hn].
  2: { by rewrite find_char_none, Nat.add_0_l, Nat.eqb_refl. }
  rewrite find_char_first, Nat.add_0_l by done. destruct (_ =? _)%nat; [done|].
  assert (drop (S (length pre)) (pre ++ 123 :: l) = l) as ->.
  { change (123 :: l) with ([123] ++ l). rewrite app_assoc, drop_app_length'; [done|]. rewrite length_app. simpl. lia. }
  destruct (decide (125 ∈ l)) as [(tag & post & -> & Htag)%first_occurrence|Hn].
  - destruct tag as [|x tag]; [|exfalso; eapply Hno; by exists pre, post].
    cbn [app find_char]. by rewrite Z.eqb_refl, Nat.eqb_refl, orb_true_r.
  - rewrite find_char_none by done. rewrite length_app. cbn [length].
    by rewrite (proj2 (Nat.eqb_eq _ _)) by lia.
Qed.

(** C31: Hash slots.  Every key has a slot below 16384, the low 14 bits of a
    CRC-16: of the hash tag alone if the key has one (the bytes between its
    first opening brace and the next closing brace, if there are any), so that
    keys sharing a tag share a slot, and of the whole key otherwise. *)
Theorem keyHashSlot_hashtag key :
  Forall is_byte key ->
  exists slot, keyHashSlot key = Some slot /\ 0 <= slot < 16384 /\
    (forall tag, hashtag key tag -> slot = Z.land (foldl step16 0 tag) 0x3FFF) /\
    ((forall tag, ~ hashtag key tag) -> slot = Z.land (foldl step16 0 key) 0x3FFF).
Proof.
  intros Hk. assert (forall k, Forall is_byte k -> crc16 k = Some (foldl step16 0 k) /\ 0 <= Z.land (foldl step16 0 k) 0x3FFF < 16384) as Hc.
  { intros k Hb. unfold crc16. destruct (crc16_loop_spec k 0 ltac:(done) Hb) as [-> _]. split; [done|].
    change 16384 with (2 ^ 14). by apply land_range. }
  assert (forall tag, hashtag key tag -> Forall is_byte tag) as Hb.
  { intros tag (pre & post & -> & _). rewrite Forall_app, Forall_cons, Forall_app in Hk. naive_solver. }
  assert (exists slot, keyHashSlot key = Some slot /\ 0 <= slot < 16384) as (slot & Hs & Hr).
  { unfold keyHashSlot. assert (forall n m, Forall is_byte (take n (drop m key))) by (intros; by apply Forall_take, Forall_drop).
    destruct (_ =? _)%nat; [|destruct (_ || _)]; (edestruct Hc as [-> ?]; [|by eexists]); done. }
  exists slot. split_and!; [done|lia|lia|..].
  - intros tag Ht. rewrite (keyHashSlot_tag _ _ Ht), (proj1 (Hc _ (Hb _ Ht))) in Hs. by injection Hs.
  - intros Hno. rewrite (keyHashSlot_plain _ Hno), (proj1 (Hc _ Hk)) in Hs. by injection Hs.
Qed.

(** "foo{{bar}}zap" is hashed by "{bar". *)
Lemma keyHashSlot_hashtag_witness :
  keyHashSlot [102; 111; 111; 123; 123; 98; 97; 114; 125; 125; 122; 97; 112] =
    Some (Z.land (foldl step16 0 [123; 98; 97; 114]) 0x3FFF).
Proof.
  destruct (keyHashSlot_hashtag [102; 111; 111; 123; 123; 98; 97; 114; 125; 125; 122; 97; 112]) as (slot & -> & _ & Ht & _).
  - repeat constructor; by vm_compute.
  - f_equal. apply Ht. exists [102; 111; 111], [125; 122; 97; 112]. split_and!; [done|set_solver|set_solver|done].
Defined.

End Crc.
