(* ===== verification/Rand48.v ===== *)
(** Model of [rand.c]: the generator scripts use, a 48-bit linear congruential
    generator computed on sixteen-bit limbs.  The limb arithmetic with its
    carries is proved to be multiplication and addition modulo 2 ^ 48. *)

From S2P Require Import Prelude.

#[local] Open Scope Z_scope.

Module Rand48.

Definition N : Z := 16.
Definition MASK : Z := Z.shiftl 1 (N - 1) + Z.shiftl 1 (N - 1) - 1.
Definition LOW (x : Z) : Z := Z.land (u32 x) MASK.
Definition HIGH (x : Z) : Z := LOW (Z.shiftr x N).

(** The product is narrowed to an [int32_t] and split into two limbs. *)
Definition MUL (x y : Z) : Z * Z := let l := s32 (x * y) in (LOW l, HIGH l).
Definition CARRY (x y : Z) : Z := if s32 x + y >? MASK then 1 else 0.
(** The carry and the new value of [x]. *)
Definition ADDEQU (x y : Z) : Z * Z := (CARRY x y, LOW (u32 (x + y))).

Abbreviation X0 := 0x330E (only parsing).
Abbreviation X1 := 0xABCD (only parsing).
Abbreviation X2 := 0x1234 (only parsing).
Abbreviation A0 := 0xE66D (only parsing).
Abbreviation A1 := 0xDEEC (only parsing).
Abbreviation A2 := 0x5 (only parsing).
Abbreviation C := 0xB (only parsing).

(** The static variables [x], [a] and [c]. *)
Record state := mkState { x : Z * Z * Z; a : Z * Z * Z; c : Z }.

Definition SEED (x0 x1 x2 : Z) : state := mkState (x0, x1, x2) (A0, A1, A2) C.
Definition initial : state := SEED X0 X1 X2.

Definition next (s : state) : state :=
  let '(x0, x1, x2) := x s in
  let '(a0, a1, a2) := a s in
  let '(p0, p1) := MUL a0 x0 in
  let '(carry0, p0) := ADDEQU p0 (c s) in
  let '(carry1, p1) := ADDEQU p1 carry0 in
  let '(q0, q1) := MUL a0 x1 in
  let '(carry0, p1) := ADDEQU p1 q0 in
  let '(r0, r1) := MUL a1 x0 in
  let x2 := LOW (u32 (carry0 + carry1 + CARRY p1 r0 + q1 + r1 + a0 * x2 + a1 * x1 + a2 * x0)) in
  let x1 := LOW (u32 (p1 + r0)) in
  let x0 := LOW p0 in
  mkState (x0, x1, x2) (a s) (c s).

Definition redisLrand48 (s : state) : state * Z :=
  let s := next s in
  let '(_, x1, x2) := x s in
  (s, s32 (s32 (Z.shiftl (s32 x2) (N - 1)) + Z.shiftr x1 1)).

Definition redisSrand48 (seedval : Z) : state := SEED X0 (LOW seedval) (HIGH seedval).

(** ** The congruence *)

Definition limb (z : Z) : Prop := 0 <= z < 65536.

Record state_ok (s : state) : Prop := mkOk {
  ok_x : let '(x0, x1, x2) := x s in limb x0 /\ limb x1 /\ limb x2;
  ok_a : a s = (A0, A1, A2);
  ok_c : c s = C }.

(** The 48-bit number a state stands for. *)
Definition value (s : state) : Z := let '(x0, x1, x2) := x s in x0 + x1 * 2 ^ 16 + x2 * 2 ^ 32.

Definition multiplier : Z := 0x5DEECE66D.

Lemma LOW_mod z : LOW z = z mod 65536.
Proof.
  unfold LOW, MASK. change (Z.shiftl 1 (N - 1) + Z.shiftl 1 (N - 1) - 1) with (Z.ones 16).
  rewrite Z.land_ones by lia. unfold uwrap. change (2 ^ 16) with 65536. change (2 ^ 32) with (65536 * 65536).
  dlia.
Qed.

Lemma HIGH_mod z : HIGH z = (z / 65536) mod 65536.
Proof. unfold HIGH. rewrite LOW_mod. by rewrite Z.shiftr_div_pow2. Qed.

(** The two limbs of a product that fits 32 bits. *)
Lemma MUL_spec p q : 0 <= p * q < 2 ^ 32 -> MUL p q = ((p * q) mod 65536, p * q / 65536).
Proof.
  unfold MUL. rewrite LOW_mod, HIGH_mod. generalize (p * q). intros m Hm.
  pose proof (uwrap_swrap 32 m ltac:(lia)) as Hl. unfold uwrap in Hl. change (2 ^ 32) with 4294967296 in *.
  generalize dependent (s32 m). intros l Hl. f_equal; dlia.
Qed.

Lemma limb_product p q : limb p -> limb q -> 0 <= p * q < 2 ^ 32.
Proof. unfold limb. intros. change (2 ^ 32) with (65536 * 65536). nia. Qed.

Lemma CARRY_spec p q : limb p -> limb q -> CARRY p q = (p + q) / 65536.
Proof.
  unfold limb. intros Hp Hq. unfold CARRY. rewrite swrap_small by mlia. change MASK with 65535.
  rewrite Z.gtb_ltb. destruct (Z.ltb_spec 65535 (p + q)); dlia.
Qed.

Lemma ADDEQU_spec p q : limb p -> limb q -> ADDEQU p q = ((p + q) / 65536, (p + q) mod 65536).
Proof.
  intros Hp Hq. unfold ADDEQU. rewrite CARRY_spec, LOW_mod, uwrap_small by (done || unfold limb in *; mlia). done.
Qed.

Lemma low_u32 z : LOW (u32 z) = z mod 65536.
Proof. rewrite LOW_mod. unfold uwrap. change (2 ^ 32) with (65536 * 65536). dlia. Qed.

(** The schoolbook product of three limbs, with the carries of [next]. *)
Lemma limb_carries (x0 x1 x2 : Z) :
  let B := 65536 in
  let P := A0 * x0 in let Q := A0 * x1 in let R := A1 * x0 in
  let t0 := P mod B + C in
  let t1 := P / B + t0 / B in
  let t2 := t1 mod B + Q mod B in
  let t3 := t2 mod B + R mod B in
  let S := t2 / B + t1 / B + t3 / B + Q / B + R / B + A0 * x2 + A1 * x1 + A2 * x0 in
  t0 mod B + t3 mod B * B + S mod B * (B * B) =
  (multiplier * (x0 + x1 * B + x2 * (B * B)) + C) mod (B * B * B).
Proof.
  intros B P Q R t0 t1 t2 t3 S.
  pose proof (Z.div_mod P B ltac:(done)) as EP. pose proof (Z.div_mod Q B ltac:(done)) as EQ.
  pose proof (Z.div_mod R B ltac:(done)) as ER. pose proof (Z.div_mod t0 B ltac:(done)) as E0.
  pose proof (Z.div_mod t1 B ltac:(done)) as E1. pose proof (Z.div_mod t2 B ltac:(done)) as E2.
  pose proof (Z.div_mod t3 B ltac:(done)) as E3. pose proof (Z.div_mod S B ltac:(done)) as ES.
  pose proof (Z.mod_pos_bound t0 B ltac:(done)). pose proof (Z.mod_pos_bound t3 B ltac:(done)).
  pose proof (Z.mod_pos_bound S B ltac:(done)).
  apply (Z.mod_unique_pos _ _ (S / B + A1 * x2 + A2 * x1 + A2 * x2 * B)).
  - subst B. lia.
  - subst P Q R t0 t1 t2 t3 S B. unfold multiplier in *. lia.
Qed.

Lemma limb_mod z : limb (z mod 65536).
Proof. unfold limb. apply Z.mod_pos_bound. lia. Qed.

Lemma limb_sum p q : limb p -> limb q -> limb ((p + q) / 65536).
Proof. unfold limb. intros. dlia. Qed.

Lemma limb_prod p q : limb p -> limb q -> limb (p * q / 65536).
Proof.
  unfold limb. intros Hp Hq. split; [apply Z.div_pos; nia|]. apply Z.div_lt_upper_bound; nia.
Qed.

Lemma next_spec s :
  state_ok s -> state_ok (next s) /\ value (next s) = (multiplier * value s + C) mod 2 ^ 48.
Proof.
  intros [Hx Ha Hc]. unfold next, value. destruct s as [[[x0 x1] x2] sa sc]. cbn [x a c] in *. subst sa sc.
  destruct Hx as (H0 & H1 & H2). assert (limb A0 /\ limb A1 /\ limb C) as (HA0 & HA1 & HC) by by vm_compute.
  rewrite !MUL_spec by by apply limb_product.
  repeat rewrite ADDEQU_spec by auto using limb_mod, limb_sum, limb_prod.
  rewrite CARRY_spec, !low_u32, LOW_mod by auto using limb_mod, limb_sum, limb_prod. split.
  - constructor; [|done..]. cbn [x]. auto using limb_mod.
  - cbn [x]. rewrite Zmod_mod. pose proof (limb_carries x0 x1 x2) as Hl. cbv zeta in Hl.
    change (2 ^ 16) with 65536. change (2 ^ 32) with (65536 * 65536).
    change (2 ^ 48) with (65536 * 65536 * 65536). exact Hl.
Qed.

Lemma Lrand48_value x1 x2 : limb x1 -> limb x2 ->
  s32 (s32 (Z.shiftl (s32 x2) (N - 1)) + Z.shiftr x1 1) = swrap 32 ((x1 * 2 ^ 16 + x2 * 2 ^ 32) / 2 ^ 17).
Proof.
  unfold limb. intros H1 H2. rewrite (swrap_small 32 x2) by mlia.
  rewrite Z.shiftl_mul_pow2, Z.shiftr_div_pow2 by done. change (2 ^ (N - 1)) with 32768. change (2 ^ 1) with 2.
  rewrite (swrap_small 32 (x2 * 32768)) by mlia. f_equal. change (2 ^ 17) with 131072.
  change (2 ^ 16) with 65536. change (2 ^ 32) with 4294967296. dlia.
Qed.

(** The script random generator is the 48-bit linear congruential
    generator.  From a seeded state, every call of [redisLrand48] multiplies
    the 48-bit state by 0x5DEECE66D, adds 0xB modulo 2 ^ 48, returns the top
    31 bits of the new state, and leaves a well-formed state. *)
Theorem redisLrand48_lcg s :
  state_ok s ->
  let '(s', r) := redisLrand48 s in
  state_ok s' /\ value s' = (multiplier * value s + C) mod 2 ^ 48 /\ r = value s' / 2 ^ 17 /\ 0 <= r < 2 ^ 31.
Proof.
  intros Hok. unfold redisLrand48. destruct (next_spec s Hok) as [Hok' Hv].
  destruct (next s) as [[[x0 x1] x2] sa sc] eqn:Hn. pose proof (ok_x _ Hok') as Hx. cbn [x] in *.
  destruct Hx as (H0 & H1 & H2). rewrite Lrand48_value by done. split; [done|]. split; [done|].
  unfold value. cbn [x]. unfold limb in *.
  assert ((x1 * 2 ^ 16 + x2 * 2 ^ 32) / 2 ^ 17 = (x0 + x1 * 2 ^ 16 + x2 * 2 ^ 32) / 2 ^ 17 /\
    0 <= (x1 * 2 ^ 16 + x2 * 2 ^ 32) / 2 ^ 17 < 2 ^ 31) as [<- Hr].
  { change (2 ^ 17) with 131072. change (2 ^ 16) with 65536. change (2 ^ 32) with 4294967296.
    change (2 ^ 31) with 2147483648. dlia. }
  rewrite swrap_small by mlia. done.
Qed.

Lemma redisSrand48_ok seed : state_ok (redisSrand48 seed).
Proof.
  constructor; [|done..]. cbn [x redisSrand48 SEED]. rewrite HIGH_mod, LOW_mod. split; [by vm_compute|].
  split; apply limb_mod.
Qed.

Lemma redisLrand48_lcg_witness : (redisLrand48 (redisSrand48 0)).2 = 366850414.
Proof.
  pose proof (redisLrand48_lcg (redisSrand48 0) (redisSrand48_ok 0)) as H.
  destruct (redisLrand48 (redisSrand48 0)) as [s' r] eqn:E. destruct H as (_ & Hv & -> & _). rewrite Hv. by vm_compute.
Defined.

End Rand48.
