(* ===== verification/Endian.v ===== *)
(** Model of [endianconv.c]: the in-place byte reversals behind the portable
    encodings, on byte buffers. *)

From S2P Require Import Prelude.

#[local] Open Scope Z_scope.

Module Endian.

(** [t = x[i]; x[i] = x[j]; x[j] = t;] *)
Definition swap (i j : nat) (x : list Z) : option (list Z) :=
  t ← x !! i;
  u ← x !! j;
  Some (<[j := t]> (<[i := u]> x)).

Definition memrev16 (x : list Z) : option (list Z) := swap 0 1 x.
Definition memrev32 (x : list Z) : option (list Z) := x ← swap 0 3 x; swap 1 2 x.
Definition memrev64 (x : list Z) : option (list Z) :=
  x ← swap 0 7 x; x ← swap 1 6 x; x ← swap 2 5 x; swap 3 4 x.

(** On a little-endian machine the variable is its bytes, lowest first. *)
Definition intrev16 (v : Z) : option Z := x ← memrev16 (le_encode 2 v); Some (le_decode x).
Definition intrev32 (v : Z) : option Z := x ← memrev32 (le_encode 4 v); Some (le_decode x).
Definition intrev64 (v : Z) : option Z := x ← memrev64 (le_encode 8 v); Some (le_decode x).

(** Network order on a little-endian machine. *)
Definition htonu64 (v : Z) : option Z := intrev64 v.
Definition ntohu64 (v : Z) : option Z := intrev64 v.

(** The value of a big-endian byte string. *)
Definition be_decode (bs : list Z) : Z := le_decode (reverse bs).

Lemma split_length {A} (l : list A) n : (n <= length l)%nat -> exists l1 l2, l = l1 ++ l2 /\ length l1 = n.
Proof. intros Hn. exists (take n l), (drop n l). rewrite take_drop, length_take. split; [done|lia]. Qed.

Lemma memrev16_spec x rest : length x = 2%nat -> memrev16 (x ++ rest) = Some (reverse x ++ rest).
Proof. intros Hx. do 3 (destruct x as [|? x]; try done). Qed.
Lemma memrev32_spec x rest : length x = 4%nat -> memrev32 (x ++ rest) = Some (reverse x ++ rest).
Proof. intros Hx. do 5 (destruct x as [|? x]; try done). Qed.
Lemma memrev64_spec x rest : length x = 8%nat -> memrev64 (x ++ rest) = Some (reverse x ++ rest).
Proof. intros Hx. do 9 (destruct x as [|? x]; try done). Qed.

(** The reversals, by width in bytes. *)
Definition memrev (n : nat) : option (list Z -> option (list Z)) :=
  match n with 2%nat => Some memrev16 | 4%nat => Some memrev32 | 8%nat => Some memrev64 | _ => None end.

(** The byte reversals.  On a buffer of at least their width the three
    [memrev] routines reverse the first two, four or eight bytes, leave the
    rest alone, and undo themselves; the integer they denote is read in the
    opposite byte order. *)
Theorem memrev_reverses n f x rest :
  memrev n = Some f -> length x = n ->
  f (x ++ rest) = Some (reverse x ++ rest) /\ f (reverse x ++ rest) = Some (x ++ rest) /\
  le_decode (reverse x) = be_decode x.
Proof.
  intros Hf Hx.
  assert (forall y, length y = n -> f (y ++ rest) = Some (reverse y ++ rest)) as Hrev.
  { intros y Hy. unfold memrev in Hf.
    destruct n as [|[|[|[|[|[|[|[|[|n]]]]]]]]]; try done; injection Hf as <-;
      [by apply memrev16_spec|by apply memrev32_spec|by apply memrev64_spec]. }
  split; [by apply Hrev|]. split; [|done].
  rewrite Hrev by by rewrite length_reverse. by rewrite reverse_involutive.
Qed.

Lemma memrev_reverses_witness :
  memrev32 [1; 2; 3; 4; 99] = Some [4; 3; 2; 1; 99] /\ memrev32 [4; 3; 2; 1; 99] = Some [1; 2; 3; 4; 99].
Proof.
  destruct (memrev_reverses 4 memrev32 [1; 2; 3; 4] [99]) as (H1 & H2 & _); [done|done|]. done.
Defined.

(** [intrev64], the host-to-network conversion of 64-bit integers, is its
    own inverse on 64-bit values. *)
Lemma htonu64_ntohu64 v :
  in_u 64 v -> exists w, htonu64 v = Some w /\ in_u 64 w /\ ntohu64 w = Some v.
Proof.
  intros Hv. unfold htonu64, ntohu64, intrev64.
  pose proof (memrev64_spec (le_encode 8 v) [] (length_le_encode 8 v)) as Hr. rewrite !app_nil_r in Hr.
  rewrite Hr. bsimpl. eexists. split; [done|].
  assert (Forall is_byte (reverse (le_encode 8 v))) as Hb by apply Forall_reverse, le_encode_bytes.
  assert (length (reverse (le_encode 8 v)) = 8%nat) as Hl by (rewrite length_reverse; apply length_le_encode).
  split.
  - pose proof (le_decode_range _ Hb) as Hd. rewrite Hl in Hd. exact Hd.
  - rewrite <- Hl at 1. rewrite le_encode_decode by done.
    pose proof (memrev64_spec _ [] Hl) as Hr2. rewrite !app_nil_r, reverse_involutive in Hr2. rewrite Hr2. bsimpl.
    rewrite le_decode_encode. f_equal. by apply Z.mod_small.
Qed.

End Endian.
