(* ===== verification/Lzf.v ===== *)
(** Model of [lzf_c.c] and [lzf_d.c], the compressor of snapshots and list
    nodes, as configured by [lzfP.h] on a 64-bit machine: [VERY_FAST], offsets
    in the hash table, a hash table that is not initialised, and input checks
    in the decompressor.

    Pointers are offsets into their buffer; a read or write outside a buffer is
    [None].  The initial content of the hash table is a parameter: nothing may
    depend on it.  Decompressing what the compressor wrote gives the input
    back, and decompressing any bytes at all stays inside both buffers. *)

From S2P Require Import Prelude.

#[local] Open Scope Z_scope.

Module Lzf.

Definition HLOG : Z := 16.
Definition HSIZE : Z := Z.shiftl 1 HLOG.
Definition MAX_LIT : Z := Z.shiftl 1 5.
Definition MAX_OFF : Z := Z.shiftl 1 13.
Definition MAX_REF : Z := Z.shiftl 1 8 + Z.shiftl 1 3.

(** ** Decompression *)

(** [*op++ = *ref++], [n] times, where [op] is the end of [out]. *)
Fixpoint copy_bytes (n : nat) (out : list Z) (ref : Z) : option (list Z) :=
  match n with
  | O => Some out
  | S n => b ← rd out ref; copy_bytes n (out ++ [b]) (ref + 1)
  end.

(** The copy of a back reference: octet by octet, or by [memcpy] when the
    length is large and the areas do not overlap. *)
Definition copy_ref (out : list Z) (ref len : Z) : option (list Z) :=
  if len <=? 9 then copy_bytes (Z.to_nat (len + 2)) out ref
  else
    let len := len + 2 in
    if Z.of_nat (length out) >=? ref + len then
      b ← mread out ref (Z.to_nat len); Some (out ++ b)
    else copy_bytes (Z.to_nat len) out ref.

(** The rest of a back reference's header: the length field, the position
    referred to and the next input position; [inl] is the error return. *)
Definition ref_header (inp : list Z) (ip ctrl op : Z) : option (unit + Z * Z * Z) :=
  let in_end := Z.of_nat (length inp) in
  let len := Z.shiftr ctrl 5 in
  let ref := op - Z.shiftl (Z.land ctrl 0x1f) 8 - 1 in
  if ip >=? in_end then Some (inl tt)
  else if len =? 7 then
    b ← rd inp ip;
    let len := len + b in
    let ip := ip + 1 in
    if ip >=? in_end then Some (inl tt)
    else b ← rd inp ip; Some (inr (len, ref - b, ip + 1))
  else b ← rd inp ip; Some (inr (len, ref - b, ip + 1)).

(** One round: [inl] is the error return, [inr] the input position and the
    output so far. *)
Definition decompress_step (inp : list Z) (out_len : Z) (ip : Z) (out : list Z)
  : option (unit + Z * list Z) :=
  let op := Z.of_nat (length out) in
  ctrl ← rd inp ip;
  let ip := ip + 1 in
  if ctrl <? Z.shiftl 1 5 then
    let ctrl := ctrl + 1 in
    if op + ctrl >? out_len then Some (inl tt)
    else if ip + ctrl >? Z.of_nat (length inp) then Some (inl tt)
    else bs ← mread inp ip (Z.to_nat ctrl); Some (inr (ip + ctrl, out ++ bs))
  else
    r ← ref_header inp ip ctrl op;
    match r with
    | inl _ => Some (inl tt)
    | inr (len, ref, ip) =>
        if op + len + 2 >? out_len then Some (inl tt)
        else if ref <? 0 then Some (inl tt)
        else out ← copy_ref out ref len; Some (inr (ip, out))
    end.

(** The return value, 0 on error, and the bytes written. *)
Fixpoint decompress_loop (fuel : nat) (inp : list Z) (out_len ip : Z) (out : list Z) : option (Z * list Z) :=
  match fuel with
  | O => None
  | S fuel =>
      r ← decompress_step inp out_len ip out;
      match r with
      | inl _ => Some (0, out)
      | inr (ip, out) =>
          if ip <? Z.of_nat (length inp) then decompress_loop fuel inp out_len ip out
          else Some (Z.of_nat (length out), out)
      end
  end.

Definition lzf_decompress (inp : list Z) (out_len : Z) : option (Z * list Z) :=
  decompress_loop (S (length inp)) inp out_len 0 [].

(** ** Compression *)

Section compress.
Context (inp : list Z).
Notation in_end := (Z.of_nat (length inp)).

Definition FRST (p : Z) : option Z :=
  a ← rd inp p; b ← rd inp (p + 1); Some (Z.lor (Z.shiftl a 8) b).
Definition NEXT (v p : Z) : option Z := c ← rd inp (p + 2); Some (u32 (Z.lor (Z.shiftl v 8) c)).
Definition IDX (h : Z) : Z := Z.land (u32 (Z.shiftr h (3 * 8 - HLOG) - h * 5)) (HSIZE - 1).

Record cstate := mkC { ip : Z; op : Z; out : list Z; lit : Z; hval : Z; htab : Z -> Z }.

Definition hset (htab : Z -> Z) (i v : Z) : Z -> Z := fun j => if j =? i then v else htab j.

(** [op[i] = v], a byte store. *)
Definition wr (m : list Z) (i v : Z) : option (list Z) := mwrite m i [u8 v].

(** The test for a match; short-circuit order. *)
Definition matches (ip ref : Z) : option bool :=
  let off := u64 (ip - ref - 1) in
  if negb (off <? MAX_OFF) then Some false
  else if negb (ref >? 0) then Some false
  else
    a ← rd inp (ref + 2); b ← rd inp (ip + 2);
    if negb (a =? b) then Some false
    else
      a0 ← rd inp ref; a1 ← rd inp (ref + 1); b0 ← rd inp ip; b1 ← rd inp (ip + 1);
      Some ((a0 =? b0) && (a1 =? b1)).

(** [len++; if (ref[len] != ip[len]) break;], [n] times; [true] at the end. *)
Fixpoint unrolled (n : nat) (ref ip len : Z) : option (Z * bool) :=
  match n with
  | O => Some (len, true)
  | S n =>
      let len := len + 1 in
      a ← rd inp (ref + len); b ← rd inp (ip + len);
      if negb (a =? b) then Some (len, false) else unrolled n ref ip len
  end.

(** [do len++; while (len < maxlen && ref[len] == ip[len]);] *)
Fixpoint extend (fuel : nat) (ref ip len maxlen : Z) : option Z :=
  match fuel with
  | O => None
  | S fuel =>
      let len := len + 1 in
      if len <? maxlen then
        a ← rd inp (ref + len); b ← rd inp (ip + len);
        if a =? b then extend fuel ref ip len maxlen else Some len
      else Some len
  end.

Definition match_len (ref ip maxlen : Z) : option Z :=
  if maxlen >? 16 then
    '(len, full) ← unrolled 16 ref ip 2;
    if full : bool then extend (Z.to_nat MAX_REF) ref ip len maxlen else Some len
  else extend (Z.to_nat MAX_REF) ref ip 2 maxlen.

Definition b2i (b : bool) : Z := if b then 1 else 0.

(** Close the pending run and emit a back reference; [None] inside is the
    return of 0. *)
Definition emit_ref (out_len : Z) (s : cstate) (ref : Z) : option (option (cstate * Z)) :=
  let off := u64 (ip s - ref - 1) in
  let maxlen := in_end - ip s - 2 in
  let maxlen := if maxlen >? MAX_REF then MAX_REF else maxlen in
  let notlit := b2i (lit s =? 0) in
  if (op s + 3 + 1 >=? out_len) && (op s - notlit + 3 + 1 >=? out_len) then Some None
  else
    out ← wr (out s) (op s - lit s - 1) (lit s - 1);
    let op := op s - notlit in
    len ← match_len ref (ip s) maxlen;
    let len := len - 2 in
    let ip := ip s + 1 in
    '(out, op) ←
      (if len <? 7 then
         out ← wr out op (Z.shiftr off 8 + Z.shiftl len 5); Some (out, op + 1)
       else
         out ← wr out op (Z.shiftr off 8 + Z.shiftl 7 5);
         out ← wr out (op + 1) (len - 7); Some (out, op + 2));
    out ← wr out op off;
    let op := op + 1 in
    Some (Some (mkC (ip + len + 1) (op + 1) out 0 (hval s) (htab s), len)).

(** Re-seed the hash after a match: the two positions before [ip]. *)
Definition rehash (s : cstate) : option cstate :=
  let ip := ip s - 2 in
  h ← FRST ip;
  h ← NEXT h ip;
  let ht := hset (htab s) (IDX h) ip in
  let ip := ip + 1 in
  h ← NEXT h ip;
  let ht := hset ht (IDX h) ip in
  Some (mkC (ip + 1) (op s) (out s) (lit s) h ht).

(** [lit++; *op++ = *ip++;] and the end of a full run. *)
Definition put_literal (s : cstate) : option cstate :=
  b ← rd inp (ip s);
  out ← wr (out s) (op s) b;
  let lit := lit s + 1 in
  let op := op s + 1 in
  if lit =? MAX_LIT then
    out ← wr out (op - lit - 1) (lit - 1); Some (mkC (ip s + 1) (op + 1) out 0 (hval s) (htab s))
  else Some (mkC (ip s + 1) op out lit (hval s) (htab s)).

(** The main loop; [None] inside is the return of 0. *)
Fixpoint compress_loop (fuel : nat) (out_len : Z) (s : cstate) : option (option cstate) :=
  match fuel with
  | O => None
  | S fuel =>
      if ip s <? in_end - 2 then
        h ← NEXT (hval s) (ip s);
        let ref := u32 (htab s (IDX h)) in
        let s := mkC (ip s) (op s) (out s) (lit s) h (hset (htab s) (IDX h) (ip s)) in
        found ← matches (ip s) ref;
        if found : bool then
          r ← emit_ref out_len s ref;
          match r with
          | None => Some None
          | Some (s, _) =>
              if ip s >=? in_end - 2 then Some (Some s)
              else s ← rehash s; compress_loop fuel out_len s
          end
        else if op s >=? out_len then Some None
        else s ← put_literal s; compress_loop fuel out_len s
      else Some (Some s)
  end.

Fixpoint tail_loop (fuel : nat) (s : cstate) : option cstate :=
  match fuel with
  | O => None
  | S fuel =>
      if ip s <? in_end then s ← put_literal s; tail_loop fuel s else Some s
  end.

(** The return value and the output buffer; with a return value of 0 the
    buffer holds no output and none is reported. *)
Definition lzf_compress (htab0 : Z -> Z) (buf : list Z) (out_len : Z) : option (Z * list Z) :=
  if (in_end =? 0) || (out_len =? 0) then Some (0, [])
  else
    h ← FRST 0;
    r ← compress_loop (S (length inp)) out_len (mkC 0 1 buf 0 h htab0);
    match r with
    | None => Some (0, [])
    | Some s =>
        if op s + 3 >? out_len then Some (0, [])
        else
          s ← tail_loop (S (length inp)) s;
          buf ← wr (out s) (op s - lit s - 1) (lit s - 1);
          Some (op s - b2i (lit s =? 0), buf)
    end.

End compress.
(** ** The compressed format *)

(** A run of literals, or [len] octets starting [off + 1] octets back. *)
Inductive token := TLit (bs : list Z) | TRef (off len : Z).

Definition enc (t : token) : list Z :=
  match t with
  | TLit bs => (Z.of_nat (length bs) - 1) :: bs
  | TRef off len =>
      if len - 2 <? 7 then [Z.shiftr off 8 + Z.shiftl (len - 2) 5; off mod 256]
      else [Z.shiftr off 8 + Z.shiftl 7 5; len - 2 - 7; off mod 256]
  end.
Definition encs (ts : list token) : list Z := concat (enc <$> ts).

(** [slice x k n] is [x[k..k+n)]. *)
Definition slice (x : list Z) (k n : Z) : list Z := take (Z.to_nat n) (drop (Z.to_nat k) x).

Definition tok_len (t : token) : Z := match t with TLit bs => Z.of_nat (length bs) | TRef _ len => len end.

(** The token describes [x] at position [k]. *)
Definition tok_ok (x : list Z) (k : Z) (t : token) : Prop :=
  0 <= k /\ k + tok_len t <= Z.of_nat (length x) /\
  match t with
  | TLit bs => bs = slice x k (Z.of_nat (length bs)) /\ 1 <= Z.of_nat (length bs) <= 32
  | TRef off len => 0 <= off < 8192 /\ off + 1 <= k /\ 3 <= len <= 264 /\
      forall i, 0 <= i < len -> x !! Z.to_nat (k - off - 1 + i) = x !! Z.to_nat (k + i)
  end.

Fixpoint covers (x : list Z) (k : Z) (ts : list token) (k' : Z) : Prop :=
  match ts with
  | [] => k = k'
  | t :: ts => tok_ok x k t /\ covers x (k + tok_len t) ts k'
  end.

Lemma covers_app x ts1 : forall k k1 ts2 k2,
  covers x k ts1 k1 -> covers x k1 ts2 k2 -> covers x k (ts1 ++ ts2) k2.
Proof. induction ts1 as [|t ts1 IH]; simpl; intros k k1 ts2 k2 H1 H2; [by subst|]. destruct H1. eauto. Qed.

Lemma covers_le x ts : forall k k', covers x k ts k' -> k <= k'.
Proof.
  induction ts as [|t ts IH]; simpl; intros k k' Hc; [lia|]. destruct Hc as [(H0 & H1 & Ht) Hc].
  apply IH in Hc. destruct t; simpl in *; lia.
Qed.

Lemma encs_app ts1 ts2 : encs (ts1 ++ ts2) = encs ts1 ++ encs ts2.
Proof. unfold encs. by rewrite fmap_app, concat_app. Qed.

Lemma enc_bytes x k t : Forall is_byte x -> tok_ok x k t -> Forall is_byte (enc t).
Proof.
  intros Hx (_ & _ & Ht). destruct t as [bs|off len]; cbn [enc].
  - destruct Ht as [Hbs Hl]. constructor; [unfold is_byte; lia|]. rewrite Hbs. by apply Forall_take, Forall_drop.
  - destruct Ht as (Ho & _ & Hl & _). rewrite Z.shiftr_div_pow2, !Z.shiftl_mul_pow2 by lia.
    change (2 ^ 8) with 256. change (2 ^ 5) with 32.
    destruct (Z.ltb_spec (len - 2) 7); repeat (apply Forall_cons; split); try done; unfold is_byte; dlia.
Qed.

Lemma encs_bytes x ts : Forall is_byte x -> forall k k', covers x k ts k' -> Forall is_byte (encs ts).
Proof.
  intros Hx. induction ts as [|t ts IH]; intros k k' Hc; [by apply Forall_nil|]. destruct Hc as [Ht Hc].
  change (encs (t :: ts)) with (enc t ++ encs ts). apply Forall_app. split; [by eapply enc_bytes|by eapply IH].
Qed.

(** ** Decompression of a token *)

Lemma rd_app_r l1 l2 i : rd (l1 ++ l2) (Z.of_nat (length l1) + Z.of_nat i) = l2 !! i.
Proof.
  unfold rd. rewrite (proj2 (Z.ltb_ge _ _)) by lia. replace (Z.to_nat _) with (length l1 + i)%nat by lia.
  rewrite lookup_app_r by lia. f_equal. lia.
Qed.

Lemma take_S_Z (x : list Z) k b :
  0 <= k -> x !! Z.to_nat k = Some b -> take (Z.to_nat k) x ++ [b] = take (Z.to_nat (k + 1)) x.
Proof. intros Hk Hb. rewrite Z2Nat.inj_add by lia. rewrite Nat.add_1_r. symmetry. by apply take_S_r. Qed.

Lemma copy_bytes_spec x n : forall k ref,
  0 <= ref < k -> k + Z.of_nat n <= Z.of_nat (length x) ->
  (forall i, 0 <= i < Z.of_nat n -> x !! Z.to_nat (ref + i) = x !! Z.to_nat (k + i)) ->
  copy_bytes n (take (Z.to_nat k) x) ref = Some (take (Z.to_nat (k + Z.of_nat n)) x).
Proof.
  induction n as [|n IH]; intros k ref Hr Hk Heq; cbn [copy_bytes].
  { by rewrite Z.add_0_r. }
  destruct (lookup_lt_is_Some_2 x (Z.to_nat k)) as [b Hb]; [lia|].
  assert (rd (take (Z.to_nat k) x) ref = Some b) as ->.
  { unfold rd. rewrite (proj2 (Z.ltb_ge _ _)) by lia. rewrite lookup_take_lt by lia.
    specialize (Heq 0 ltac:(lia)). rewrite !Z.add_0_r in Heq. congruence. }
  bsimpl. rewrite (take_S_Z x k b) by (done || lia). rewrite (IH (k + 1) (ref + 1)).
  - do 3 f_equal. lia.
  - lia.
  - lia.
  - intros i Hi. specialize (Heq (i + 1) ltac:(lia)). replace (ref + 1 + i) with (ref + (i + 1)) by lia.
    by replace (k + 1 + i) with (k + (i + 1)) by lia.
Qed.

Lemma copy_bytes_disjoint n : forall out ref,
  0 <= ref -> ref + Z.of_nat n <= Z.of_nat (length out) ->
  copy_bytes n out ref = Some (out ++ take n (drop (Z.to_nat ref) out)).
Proof.
  induction n as [|n IH]; intros out ref Hr Hl; cbn [copy_bytes].
  { by rewrite take_0, app_nil_r. }
  destruct (rd_Some out ref) as (b & -> & Hb); [lia|]. bsimpl. rewrite IH by (rewrite ?length_app; simpl; lia).
  rewrite <- app_assoc. do 2 f_equal. rewrite (drop_S out b (Z.to_nat ref)) by done. simpl. f_equal.
  replace (Z.to_nat (ref + 1)) with (S (Z.to_nat ref)) by lia.
  rewrite drop_app_le by lia. rewrite take_app_le; [done|]. rewrite length_drop. lia.
Qed.

Lemma copy_ref_bytes out ref len :
  0 <= ref -> 0 <= len -> copy_ref out ref len = copy_bytes (Z.to_nat (len + 2)) out ref.
Proof.
  intros Hr Hl. unfold copy_ref. destruct (len <=? 9); [done|].
  rewrite Z.geb_leb. destruct (Z.leb_spec (ref + (len + 2)) (Z.of_nat (length out))); [|done].
  rewrite mread_Some by lia. bsimpl. by rewrite copy_bytes_disjoint by lia.
Qed.

(** The fields of a reference's first byte. *)
Lemma ctrl_fields hi len :
  0 <= hi < 32 -> 0 <= len < 8 ->
  Z.shiftr (hi + Z.shiftl len 5) 5 = len /\ Z.land (hi + Z.shiftl len 5) 0x1f = hi.
Proof.
  intros Hh Hl. rewrite Z.shiftl_mul_pow2, Z.shiftr_div_pow2 by done. change 0x1f with (Z.ones 5).
  rewrite Z.land_ones by done. change (2 ^ 5) with 32. split; dlia.
Qed.

Lemma off_split off : Z.shiftl (Z.shiftr off 8) 8 + off mod 256 = off.
Proof. rewrite Z.shiftl_mul_pow2, Z.shiftr_div_pow2 by done. change (2 ^ 8) with 256. dlia. Qed.

Lemma slice_take x k n : 0 <= k -> 0 <= n -> take (Z.to_nat k) x ++ slice x k n = take (Z.to_nat (k + n)) x.
Proof. intros Hk Hn. unfold slice. rewrite take_take_drop. f_equal. lia. Qed.

Lemma ref_header_enc pre off len post op :
  0 <= off < 8192 -> 3 <= len <= 264 ->
  exists ctrl, rd (pre ++ enc (TRef off len) ++ post) (Z.of_nat (length pre)) = Some ctrl /\ 32 <= ctrl /\
    ref_header (pre ++ enc (TRef off len) ++ post) (Z.of_nat (length pre) + 1) ctrl op =
    Some (inr (len - 2, op - off - 1, Z.of_nat (length pre) + Z.of_nat (length (enc (TRef off len))))).
Proof.
  intros Hoff Hlen. assert (0 <= Z.shiftr off 8 < 32) as Hhi.
  { rewrite Z.shiftr_div_pow2 by done. change (2 ^ 8) with 256. dlia. }
  pose proof (off_split off) as Hsp. pose proof (rd_app_r pre (enc (TRef off len) ++ post)) as R.
  pose proof (R 0%nat) as R0. pose proof (R 1%nat) as R1. pose proof (R 2%nat) as R2. rewrite Z.add_0_r in R0.
  unfold ref_header. rewrite R0. clear R0. unfold enc in *.
  destruct (Z.ltb_spec (len - 2) 7) as [Hs|Hs]; cbn [app lookup list_lookup] in *.
  - destruct (ctrl_fields (Z.shiftr off 8) (len - 2)) as [Hc1 Hc2]; [done|lia|]. eexists. split; [done|].
    split; [rewrite Z.shiftl_mul_pow2 by done; change (2 ^ 5) with 32; lia|].
    rewrite !length_app. cbn [length]. rewrite Z.geb_leb, (proj2 (Z.leb_gt _ _)) by lia.
    rewrite Hc1, Hc2, (proj2 (Z.eqb_neq _ _)) by lia. change (Z.of_nat 1) with 1 in R1. rewrite R1. bsimpl. do 3 f_equal; [f_equal; lia|lia].
  - destruct (ctrl_fields (Z.shiftr off 8) 7) as [Hc1 Hc2]; [done|lia|]. eexists. split; [done|].
    split; [change (Z.shiftl 7 5) with 224; lia|].
    rewrite !length_app. cbn [length]. rewrite Z.geb_leb, (proj2 (Z.leb_gt _ _)) by lia.
    rewrite Hc1, Hc2, Z.eqb_refl. change (Z.of_nat 1) with 1 in R1. rewrite R1. bsimpl. rewrite Z.geb_leb, (proj2 (Z.leb_gt _ _)) by lia.
    replace (Z.of_nat (length pre) + 1 + 1) with (Z.of_nat (length pre) + Z.of_nat 2) by lia. rewrite R2. bsimpl. do 3 f_equal; [f_equal; lia|lia].
Qed.

Lemma decompress_step_tok pre t post x k out_len :
  tok_ok x k t -> k + tok_len t <= out_len ->
  decompress_step (pre ++ enc t ++ post) out_len (Z.of_nat (length pre)) (take (Z.to_nat k) x) =
  Some (inr (Z.of_nat (length pre) + Z.of_nat (length (enc t)), take (Z.to_nat (k + tok_len t)) x)).
Proof.
  intros (Hk & Hkl & Ht) Hout. unfold decompress_step.
  assert (Z.of_nat (length (take (Z.to_nat k) x)) = k) as -> by (rewrite length_take; destruct t; simpl in *; lia).
  destruct t as [bs|off len]; cbn [tok_len] in *.
  - destruct Ht as [Hbs Hl].
    pose proof (rd_app_r pre (enc (TLit bs) ++ post) 0) as R0. rewrite Z.add_0_r in R0. rewrite R0. cbn [enc app lookup list_lookup]. bsimpl.
    change (Z.shiftl 1 5) with 32. rewrite (proj2 (Z.ltb_lt _ _)) by lia.
    replace (Z.of_nat (length bs) - 1 + 1) with (Z.of_nat (length bs)) by lia.
    rewrite Z.gtb_ltb, (proj2 (Z.ltb_ge _ _)) by lia.
    rewrite Z.gtb_ltb, (proj2 (Z.ltb_ge _ _)) by (rewrite length_app; cbn [length]; rewrite length_app; lia).
    rewrite Nat2Z.id. pose proof (mread_app_r (pre ++ [Z.of_nat (length bs) - 1]) bs post) as Hm.
    rewrite <- app_assoc, length_app in Hm. cbn [length app] in Hm.
    replace (Z.of_nat (length pre) + 1) with (Z.of_nat (length pre + 1)) by lia. rewrite Hm. bsimpl.
    do 2 f_equal. f_equal; [cbn [length]; lia|]. rewrite Hbs at 1. by rewrite slice_take by lia.
  - destruct Ht as (Hoff & Hk' & Hlen & Heq).
    destruct (ref_header_enc pre off len post k Hoff Hlen) as (ctrl & -> & Hctrl & Hh). bsimpl.
    change (Z.shiftl 1 5) with 32. rewrite (proj2 (Z.ltb_ge _ _)) by lia. rewrite Hh. bsimpl.
    rewrite Z.gtb_ltb, (proj2 (Z.ltb_ge _ _)), (proj2 (Z.ltb_ge _ _)) by lia.
    rewrite copy_ref_bytes by lia. replace (len - 2 + 2) with len by lia.
    rewrite (copy_bytes_spec x) by (rewrite ?Z2Nat.id; try lia; intros; apply Heq; lia). by rewrite Z2Nat.id by lia.
Qed.

Lemma decompress_tokens x out_len : Z.of_nat (length x) <= out_len ->
  forall ts pre k fuel,
  ts <> [] -> covers x k ts (Z.of_nat (length x)) -> (length ts <= fuel)%nat ->
  decompress_loop fuel (pre ++ encs ts) out_len (Z.of_nat (length pre)) (take (Z.to_nat k) x) =
  Some (Z.of_nat (length x), x).
Proof.
  intros Hout. induction ts as [|t ts IH]; intros pre k fuel Hne Hc Hf; [done|].
  destruct fuel as [|fuel]; [simpl in Hf; lia|]. cbn [decompress_loop]. destruct Hc as [Ht Hc].
  change (encs (t :: ts)) with (enc t ++ encs ts).
  rewrite decompress_step_tok; [|done|apply covers_le in Hc; lia]. bsimpl.
  rewrite !length_app. destruct ts as [|t' ts].
  - simpl in Hc. change (encs []) with (@nil Z). cbn [length]. rewrite (proj2 (Z.ltb_ge _ _)) by lia.
    rewrite Hc, Nat2Z.id, firstn_all. done.
  - assert (0 < length (encs (t' :: ts)))%nat as Hpos.
    { change (encs (t' :: ts)) with (enc t' ++ encs ts). rewrite length_app. unfold enc.
      destruct t' as [|o l]; [simpl; lia|]. destruct (l - 2 <? 7); simpl; lia. }
    rewrite (proj2 (Z.ltb_lt _ _)) by lia. rewrite app_assoc.
    rewrite <- Nat2Z.inj_add, <- length_app. apply IH; [done|done|simpl in *; lia].
Qed.

Lemma length_encs ts : (length ts <= length (encs ts))%nat.
Proof.
  induction ts as [|t ts IH]; [done|]. change (encs (t :: ts)) with (enc t ++ encs ts). rewrite length_app.
  assert (0 < length (enc t))%nat; [|simpl; lia]. unfold enc. destruct t as [|o l]; [simpl; lia|].
  destruct (l - 2 <? 7); simpl; lia.
Qed.

Lemma lzf_decompress_tokens x ts out_len :
  ts <> [] -> covers x 0 ts (Z.of_nat (length x)) -> Z.of_nat (length x) <= out_len ->
  lzf_decompress (encs ts) out_len = Some (Z.of_nat (length x), x).
Proof.
  intros Hne Hc Hout. unfold lzf_decompress.
  pose proof (length_encs ts).
  pose proof (decompress_tokens x out_len Hout ts [] 0 (S (length (encs ts))) Hne Hc ltac:(lia)) as Hd.
  by rewrite take_0 in Hd.
Qed.

(** ** The compressor *)

Lemma wr_app m i v : 0 <= i < Z.of_nat (length m) ->
  wr m i v = Some (take (Z.to_nat i) m ++ u8 v :: drop (Z.to_nat i + 1) m).
Proof. intros Hi. unfold wr. rewrite mwrite_Some by (simpl; lia). done. Qed.

(** [m] with [v] stored at [i]. *)
Definition upd (m : list Z) (i v : Z) : list Z := take (Z.to_nat i) m ++ v :: drop (Z.to_nat i + 1) m.

Lemma wr_upd m i v : 0 <= i < Z.of_nat (length m) -> is_byte v -> wr m i v = Some (upd m i v).
Proof. intros Hi Hv. rewrite wr_app by done. rewrite uwrap_small by done. done. Qed.

Lemma length_upd m i v : 0 <= i < Z.of_nat (length m) -> length (upd m i v) = length m.
Proof. intros Hi. unfold upd. rewrite length_app, length_take. simpl. rewrite length_drop. lia. Qed.

Lemma take_upd m i v n : (n <= Z.to_nat i)%nat -> 0 <= i < Z.of_nat (length m) -> take n (upd m i v) = take n m.
Proof.
  intros Hn Hi. unfold upd. rewrite take_app_le by (rewrite length_take; lia). rewrite take_take. f_equal. lia.
Qed.

Lemma take_upd_end m i v : 0 <= i < Z.of_nat (length m) -> take (Z.to_nat (i + 1)) (upd m i v) = take (Z.to_nat i) m ++ [v].
Proof.
  intros Hi. unfold upd. replace (Z.to_nat (i + 1)) with (length (take (Z.to_nat i) m) + 1)%nat by (rewrite length_take; lia).
  rewrite take_app_add. done.
Qed.

Lemma slice_upd_end m k n v : 0 <= k -> 0 <= n -> k + n < Z.of_nat (length m) ->
  slice (upd m (k + n) v) k (n + 1) = slice m k n ++ [v].
Proof.
  intros Hk Hn Hl. unfold slice. rewrite !take_drop_commute.
  replace (Z.to_nat k + Z.to_nat (n + 1))%nat with (Z.to_nat (k + n + 1)) by lia. rewrite take_upd_end by lia.
  rewrite drop_app_le by (rewrite length_take; lia). do 3 f_equal. lia.
Qed.

Lemma slice_upd_before m k n i v : 0 <= i < Z.of_nat (length m) -> i < k ->
  slice (upd m i v) k n = slice m k n.
Proof.
  intros Hi Hk. unfold slice, upd. f_equal. rewrite drop_app_ge by (rewrite length_take; lia).
  rewrite length_take. replace (Z.to_nat k - Z.to_nat i `min` length m)%nat with (S (Z.to_nat k - Z.to_nat i - 1)) by lia.
  cbn [drop]. rewrite drop_drop. f_equal. lia.
Qed.

Lemma slice_S x k n b : 0 <= k -> 0 <= n -> x !! Z.to_nat (k + n) = Some b -> slice x k (n + 1) = slice x k n ++ [b].
Proof.
  intros Hk Hn Hb. unfold slice. replace (Z.to_nat (n + 1)) with (S (Z.to_nat n)) by lia.
  apply take_S_r. rewrite lookup_drop. rewrite <- Hb. f_equal. lia.
Qed.

Lemma length_slice x k n : 0 <= k -> 0 <= n -> k + n <= Z.of_nat (length x) -> Z.of_nat (length (slice x k n)) = n.
Proof. intros. unfold slice. rewrite length_take, length_drop. lia. Qed.

Section facts.
Context (inp : list Z) (Hinp : Forall is_byte inp).
Notation in_end := (Z.of_nat (length inp)).
Context (out_len : Z).

(** Complete tokens [ts] are in place; a slot is reserved for the header of
    the pending run of [lit] literals behind it. *)
Record crun (s : cstate) (ts : list token) : Prop := mkRun {
  cr_len : out_len <= Z.of_nat (length (out s));
  cr_op : op s = Z.of_nat (length (encs ts)) + 1 + lit s;
  cr_done : take (length (encs ts)) (out s) = encs ts;
  cr_run : slice (out s) (op s - lit s) (lit s) = slice inp (ip s - lit s) (lit s);
  cr_lit : 0 <= lit s <= 32;
  cr_cov : covers inp 0 ts (ip s - lit s);
  cr_ip : ip s <= in_end;
  cr_room : 0 < lit s -> op s <= out_len }.

Definition cinv (s : cstate) (ts : list token) : Prop :=
  crun s ts /\ lit s < 32 /\ op s <= out_len + 1.

Definition close_tokens (s : cstate) (ts : list token) : list token :=
  if lit s =? 0 then ts else ts ++ [TLit (slice inp (ip s - lit s) (lit s))].

Lemma cr_start s ts : crun s ts -> 0 <= ip s - lit s.
Proof. intros Hc. pose proof (covers_le _ _ _ _ (cr_cov _ _ Hc)). lia. Qed.

(** Writing the header of the pending run. *)
Lemma close_run s ts :
  crun s ts -> op s - lit s - 1 < out_len ->
  exists out', wr (out s) (op s - lit s - 1) (lit s - 1) = Some out' /\ length out' = length (out s) /\
    covers inp 0 (close_tokens s ts) (ip s) /\
    take (length (encs (close_tokens s ts))) out' = encs (close_tokens s ts) /\
    Z.of_nat (length (encs (close_tokens s ts))) = op s - b2i (lit s =? 0).
Proof.
  intros Hc Hlt. pose proof (cr_start s ts Hc) as H0. destruct Hc as [Hlen Hop Hdone Hrun Hlit Hcov Hip Hroom].
  set (E := encs ts) in *. replace (op s - lit s - 1) with (Z.of_nat (length E)) by lia.
  unfold close_tokens. destruct (Z.eqb_spec (lit s) 0) as [Hz|Hnz].
  - rewrite wr_app by lia. eexists. split; [done|]. split; [by rewrite <- (length_upd (out s) (Z.of_nat (length E)) (u8 (lit s - 1))) by lia|].
    rewrite Hz, Z.sub_0_r in Hcov. split; [done|]. fold E. split; [|simpl; lia].
    etransitivity; [|exact Hdone]. apply (take_upd (out s) (Z.of_nat (length E))); lia.
  - rewrite wr_upd by (unfold is_byte; lia). eexists. split; [done|]. split; [apply length_upd; lia|].
    set (run := slice inp (ip s - lit s) (lit s)) in *.
    assert (Z.of_nat (length run) = lit s) as Hlr by (apply length_slice; lia).
    rewrite encs_app. fold E. change (encs [TLit run]) with (((Z.of_nat (length run) - 1) :: run) ++ []).
    rewrite app_nil_r, length_app. cbn [length]. split_and!; [| |simpl; lia].
    + eapply covers_app; [done|]. split; [|cbn [covers tok_len]; lia]. unfold tok_ok, tok_len. rewrite Hlr. split_and!; try lia. done.
    + unfold upd. rewrite Nat2Z.id, Hdone, take_app_add, Hlr. f_equal. cbn [take]. f_equal.
      etransitivity; [|exact Hrun]. unfold slice. f_equal; [lia|]. f_equal. lia.
Qed.

(** A fresh run behind complete tokens. *)
Lemma crun_fresh ip' op' out' h ht ts :
  out_len <= Z.of_nat (length out') -> op' = Z.of_nat (length (encs ts)) + 1 ->
  take (length (encs ts)) out' = encs ts -> covers inp 0 ts ip' -> ip' <= in_end -> op' <= out_len + 1 ->
  cinv (mkC ip' op' out' 0 h ht) ts.
Proof.
  intros Hl Hop Hd Hc Hip Hob. split; [|simpl; lia]. constructor; cbn [ip op out lit]; try done; try lia.
  by rewrite Z.sub_0_r.
Qed.

Lemma put_literal_spec s ts :
  cinv s ts -> ip s < in_end -> op s < out_len ->
  exists s' ts', put_literal inp s = Some s' /\ cinv s' ts' /\ ip s' = ip s + 1 /\
    (if lit s =? 31 then op s' = op s + 2 /\ lit s' = 0 else op s' = op s + 1 /\ lit s' = lit s + 1).
Proof using Hinp.
  intros (Hc & Hlit & Hob) Hip Hop. pose proof (cr_start s ts Hc) as H0. unfold put_literal.
  destruct (rd_Some inp (ip s)) as (b & -> & Hb); [pose proof (cr_lit _ _ Hc); lia|]. bsimpl.
  pose proof (cr_lit _ _ Hc). pose proof (cr_op _ _ Hc). pose proof (cr_len _ _ Hc).
  rewrite wr_upd; [|lia|by eapply Forall_lookup_1]. bsimpl.
  set (s1 := mkC (ip s + 1) (op s + 1) (upd (out s) (op s) b) (lit s + 1) (hval s) (htab s)).
  assert (crun s1 ts) as Hc1.
  { destruct Hc as [Hlen Hop' Hdone Hrun _ Hcov _ _]. constructor; cbn [ip op out lit s1]; try lia.
    - rewrite length_upd by lia. done.
    - rewrite take_upd by lia. done.
    - replace (op s + 1 - (lit s + 1)) with (op s - lit s) by lia. replace (ip s + 1 - (lit s + 1)) with (ip s - lit s) by lia.
      replace (op s) with (op s - lit s + lit s) at 1 by lia. rewrite slice_upd_end by lia. rewrite Hrun.
      symmetry. apply slice_S; [lia|lia|]. rewrite <- Hb. f_equal. lia.
    - by replace (ip s + 1 - (lit s + 1)) with (ip s - lit s) by lia. }
  change MAX_LIT with 32. destruct (Z.eqb_spec (lit s) 31) as [He|He].
  - rewrite He. cbn [Z.add Pos.add Z.eqb Pos.eqb]. 
    destruct (close_run s1 ts Hc1) as (out' & Hw & Hl' & Hcov' & Hd' & Hlen'); [cbn [op lit s1]; lia|].
    cbn [op lit out ip s1] in *. rewrite He in *. change (31 + 1 =? 32) with true. cbv iota. rewrite Hw. bsimpl.
    exists (mkC (ip s + 1) (op s + 1 + 1) out' 0 (hval s) (htab s)), (close_tokens s1 ts).
    split; [done|]. split; [|simpl; lia]. change (b2i (31 + 1 =? 0)) with 0 in Hlen'.
    apply crun_fresh; try done; [by rewrite Hl', length_upd by lia|lia|lia|lia].
  - rewrite (proj2 (Z.eqb_neq (lit s + 1) 32)) by lia. exists s1, ts. split; [done|]. split; [|done].
    split; [done|]. cbn [lit op s1]. lia.
Qed.

(** *** Finding a match *)

Definition same (ref ip n : Z) : Prop :=
  forall i, 0 <= i < n -> inp !! Z.to_nat (ref + i) = inp !! Z.to_nat (ip + i).

Lemma same_S ref ip n a b :
  same ref ip n -> rd inp (ref + n) = Some a -> rd inp (ip + n) = Some b -> a = b -> same ref ip (n + 1).
Proof.
  intros Hs Ha Hb -> i Hi. destruct (Z.eq_dec i n) as [->|]; [|apply Hs; lia].
  unfold rd in *. destruct (ref + n <? 0), (ip + n <? 0); congruence.
Qed.

Lemma matches_spec ip ref :
  0 <= ip -> ip + 3 <= in_end -> in_end < 2 ^ 32 -> in_u 32 ref ->
  exists b, matches inp ip ref = Some b /\
    (b = true -> 0 < ref < ip /\ ip - ref - 1 < 8192 /\ u64 (ip - ref - 1) = ip - ref - 1 /\ same ref ip 3).
Proof.
  intros H0 Hip Hlen Hr. unfold matches. change MAX_OFF with 8192. unfold in_u in Hr.
  destruct (Z.ltb_spec (u64 (ip - ref - 1)) 8192) as [Ho|]; cbn [negb]; [|by eexists].
  assert (ref < ip) as Hlt.
  { destruct (Z.lt_ge_cases ref ip); [done|]. exfalso. unfold uwrap in Ho.
    rewrite <- (Z.mod_unique_pos (ip - ref - 1) (2 ^ 64) (-1) (ip - ref - 1 + 2 ^ 64)) in Ho by lia. lia. }
  rewrite uwrap_small in Ho |- * by mlia.
  rewrite Z.gtb_ltb. destruct (Z.ltb_spec 0 ref); cbn [negb]; [|by eexists].
  destruct (rd_Some inp (ref + 2)) as (a2 & Ra2 & _); [lia|]. destruct (rd_Some inp (ip + 2)) as (b2 & Rb2 & _); [lia|].
  rewrite Ra2, Rb2. bsimpl. destruct (Z.eqb_spec a2 b2) as [E2|]; cbn [negb]; [|by eexists].
  destruct (rd_Some inp ref) as (a0 & Ra0 & _); [lia|]. destruct (rd_Some inp ip) as (b0 & Rb0 & _); [lia|].
  destruct (rd_Some inp (ref + 1)) as (a1 & Ra1 & _); [lia|]. destruct (rd_Some inp (ip + 1)) as (b1 & Rb1 & _); [lia|].
  rewrite Ra0, Ra1, Rb0, Rb1. bsimpl. eexists. split; [done|].
  intros [E0%Z.eqb_eq E1%Z.eqb_eq]%andb_true_iff. split_and!; try done.
  assert (same ref ip 0) as S0 by (intros i Hi; lia).
  pose proof (same_S ref ip 0 a0 b0 S0) as S1. rewrite !Z.add_0_r in S1. specialize (S1 Ra0 Rb0 E0).
  pose proof (same_S ref ip 1 a1 b1 S1 Ra1 Rb1 E1) as S2. exact (same_S ref ip 2 a2 b2 S2 Ra2 Rb2 E2).
Qed.

Lemma unrolled_spec n : forall ref ip len,
  0 <= ref < ip -> ip + len + Z.of_nat n < in_end -> 0 <= len -> same ref ip (len + 1) ->
  exists len' full, unrolled inp n ref ip len = Some (len', full) /\
    if full : bool then len' = len + Z.of_nat n /\ same ref ip (len' + 1)
    else len < len' <= len + Z.of_nat n /\ same ref ip len'.
Proof.
  induction n as [|n IH]; intros ref ip len Hr Hb Hl Hs; cbn [unrolled].
  { eexists _, _. split; [done|]. simpl. rewrite Z.add_0_r. done. }
  destruct (rd_Some inp (ref + (len + 1))) as (a & Ra & _); [lia|].
  destruct (rd_Some inp (ip + (len + 1))) as (b & Rb & _); [lia|]. rewrite Ra, Rb. bsimpl.
  destruct (Z.eqb_spec a b) as [E|]; cbn [negb].
  - destruct (IH ref ip (len + 1)) as (len' & full & -> & Hf); [lia|lia|lia|by eapply same_S|].
    eexists _, _. split; [done|]. destruct full; [|split; [lia|tauto]]. split; [lia|tauto].
  - eexists _, _. split; [done|]. simpl. split; [lia|done].
Qed.

Lemma extend_spec fuel : forall ref ip len maxlen,
  0 <= ref < ip -> 0 <= len -> ip + maxlen <= in_end -> same ref ip (len + 1) -> maxlen - len < Z.of_nat fuel ->
  (0 < fuel)%nat ->
  exists len', extend inp fuel ref ip len maxlen = Some len' /\ len < len' <= Z.max (len + 1) maxlen /\
    same ref ip len'.
Proof.
  induction fuel as [|fuel IH]; intros ref ip len maxlen Hr Hl Hm Hs Hf Hpos; [lia|]. cbn [extend].
  destruct (Z.ltb_spec (len + 1) maxlen) as [Hlt|]; [|eexists; split; [done|]; split; [lia|done]].
  destruct (rd_Some inp (ref + (len + 1))) as (a & Ra & _); [lia|].
  destruct (rd_Some inp (ip + (len + 1))) as (b & Rb & _); [lia|]. rewrite Ra, Rb. bsimpl.
  destruct (Z.eqb_spec a b) as [E|]; [|eexists; split; [done|]; split; [lia|done]].
  destruct (IH ref ip (len + 1) maxlen) as (len' & -> & Hb & Hs'); [lia|lia|lia|by eapply same_S|lia|lia|].
  eexists. split; [done|]. split; [lia|done].
Qed.

(** The number of equal octets found is what the input supports. *)
Lemma match_len_spec ref ip :
  0 <= ref < ip -> ip + 3 <= in_end -> same ref ip 3 ->
  let maxlen := in_end - ip - 2 in
  let maxlen := if maxlen >? MAX_REF then MAX_REF else maxlen in
  exists len, match_len inp ref ip maxlen = Some len /\ 3 <= len <= 264 /\ ip + len <= in_end /\ same ref ip len.
Proof.
  intros Hr Hip Hs m1 m2. change MAX_REF with 264 in m2.
  assert (1 <= m2 <= 264 /\ m2 <= in_end - ip - 2) as Hm2.
  { subst m2 m1. rewrite Z.gtb_ltb. destruct (Z.ltb_spec 264 (in_end - ip - 2)); lia. }
  unfold match_len. rewrite Z.gtb_ltb. change (Z.to_nat MAX_REF) with 264%nat. destruct (Z.ltb_spec 16 m2).
  - destruct (unrolled_spec 16 ref ip 2 Hr ltac:(lia) ltac:(lia) Hs) as (len & full & -> & Hf). bsimpl.
    destruct full.
    + destruct Hf as [-> Hf]. change (2 + Z.of_nat 16) with 18 in *.
      destruct (extend_spec 264 ref ip 18 m2 Hr ltac:(lia) ltac:(lia) Hf ltac:(lia) ltac:(lia)) as (len & -> & Hl & Hs').
      eexists. split; [done|]. split_and!; [lia|lia|lia|done].
    + eexists. split; [done|]. split_and!; [lia|lia|lia|tauto].
  - destruct (extend_spec 264 ref ip 2 m2 Hr ltac:(lia) ltac:(lia) Hs ltac:(lia) ltac:(lia)) as (len & -> & Hl & Hs').
    eexists. split; [done|]. split_and!; [lia|lia|lia|done].
Qed.

(** *** Emitting a match *)

(** One more byte behind [l]. *)
Lemma wr_append m l v :
  take (length l) m = l -> Z.of_nat (length l) < Z.of_nat (length m) -> is_byte v ->
  exists m', wr m (Z.of_nat (length l)) v = Some m' /\ length m' = length m /\
    take (length (l ++ [v])) m' = l ++ [v].
Proof.
  intros Ht Hl Hv. rewrite wr_upd by (done || lia). eexists. split; [done|]. split; [apply length_upd; lia|].
  pose proof (take_upd_end m (Z.of_nat (length l)) v ltac:(lia)) as He. rewrite Nat2Z.id, Ht in He.
  rewrite <- He at 2. f_equal. rewrite length_app. simpl. lia.
Qed.

Lemma emit_ref_bytes m l off len :
  take (length l) m = l -> Z.of_nat (length l) + 4 < Z.of_nat (length m) -> 0 <= off < 8192 -> 3 <= len <= 264 ->
  exists m', ('(out, op) ←
      (if len - 2 <? 7 then
         out ← wr m (Z.of_nat (length l)) (Z.shiftr off 8 + Z.shiftl (len - 2) 5); Some (out, Z.of_nat (length l) + 1)
       else
         out ← wr m (Z.of_nat (length l)) (Z.shiftr off 8 + Z.shiftl 7 5);
         out ← wr out (Z.of_nat (length l) + 1) (len - 2 - 7); Some (out, Z.of_nat (length l) + 2));
    out ← wr out op off; Some (out, op + 1)) =
    Some (m', Z.of_nat (length l) + Z.of_nat (length (enc (TRef off len)))) /\
    length m' = length m /\ take (length (l ++ enc (TRef off len))) m' = l ++ enc (TRef off len).
Proof.
  intros Ht Hl Hoff Hlen.
  assert (0 <= Z.shiftr off 8 < 32) as Hhi.
  { rewrite Z.shiftr_div_pow2 by done. change (2 ^ 8) with 256. dlia. }
  assert (forall m i, wr m i off = wr m i (off mod 256)) as Hoffw.
  { intros. unfold wr. do 2 f_equal. unfold uwrap. change (2 ^ 8) with 256. by rewrite Zmod_mod. }
  assert (is_byte (off mod 256)) as Hob by (apply Z.mod_pos_bound; lia).
  unfold enc. destruct (Z.ltb_spec (len - 2) 7) as [Hs|Hs].
  - destruct (wr_append m l (Z.shiftr off 8 + Z.shiftl (len - 2) 5)) as (m1 & -> & Hl1 & Ht1); [done|lia| |].
    { unfold is_byte. rewrite Z.shiftl_mul_pow2 by done. change (2 ^ 5) with 32. lia. }
    bsimpl. rewrite Hoffw. replace (Z.of_nat (length l) + 1) with (Z.of_nat (length (l ++ [Z.shiftr off 8 + Z.shiftl (len - 2) 5]))) by (rewrite length_app; simpl; lia).
    destruct (wr_append m1 _ (off mod 256) Ht1) as (m2 & -> & Hl2 & Ht2); [rewrite length_app; simpl; lia|done|].
    bsimpl. exists m2. rewrite <- app_assoc in Ht2. split; [|split; [congruence|exact Ht2]].
    do 2 f_equal. rewrite length_app. simpl. lia.
  - destruct (wr_append m l (Z.shiftr off 8 + Z.shiftl 7 5)) as (m1 & -> & Hl1 & Ht1); [done|lia| |].
    { unfold is_byte. change (Z.shiftl 7 5) with 224. lia. }
    bsimpl. replace (Z.of_nat (length l) + 1) with (Z.of_nat (length (l ++ [Z.shiftr off 8 + Z.shiftl 7 5]))) by (rewrite length_app; simpl; lia).
    destruct (wr_append m1 _ (len - 2 - 7) Ht1) as (m2 & -> & Hl2 & Ht2); [rewrite length_app; simpl; lia|unfold is_byte; lia|].
    bsimpl. rewrite Hoffw. replace (Z.of_nat (length l) + 2) with (Z.of_nat (length ((l ++ [Z.shiftr off 8 + Z.shiftl 7 5]) ++ [len - 2 - 7]))) by (rewrite !length_app; simpl; lia).
    destruct (wr_append m2 _ (off mod 256) Ht2) as (m3 & -> & Hl3 & Ht3); [rewrite !length_app; simpl; lia|done|].
    bsimpl. exists m3. rewrite <- !app_assoc in Ht3. split; [|split; [congruence|exact Ht3]].
    do 2 f_equal. rewrite !length_app. simpl. lia.
Qed.

Lemma emit_ref_spec s ts ref :
  cinv s ts -> 0 < ref < ip s -> ip s - ref - 1 < 8192 -> u64 (ip s - ref - 1) = ip s - ref - 1 ->
  same ref (ip s) 3 -> ip s + 3 <= in_end ->
  exists r, emit_ref inp out_len s ref = Some r /\
    match r with
    | None => True
    | Some (s', _) => ip s + 3 <= ip s' <= in_end /\ exists ts', ts' <> [] /\ cinv s' ts'
    end.
Proof.
  intros (Hc & Hlit & Hob) Hr Hoff Hu Hs Hip. unfold emit_ref. rewrite Hu.
  set (notlit := b2i (lit s =? 0)).
  assert (0 <= notlit <= 1) as Hnl by (subst notlit; unfold b2i; destruct (lit s =? 0); lia).
  destruct (_ && _) eqn:Hroom; [by eexists|]. rewrite !Z.geb_leb in Hroom.
  assert (op s - notlit + 4 < out_len) as Hlt.
  { apply andb_false_iff in Hroom as [Hx|Hx]; apply Z.leb_gt in Hx; lia. }
  pose proof (cr_lit _ _ Hc).
  destruct (close_run s ts Hc) as (out1 & -> & Hl1 & Hcov & Ht1 & Hlen); [lia|]. bsimpl. fold notlit in Hlen.
  destruct (match_len_spec ref (ip s) ltac:(lia) Hip Hs) as (len & -> & Hln & Hend & Hsame). bsimpl.
  set (ts1 := close_tokens s ts) in *. rewrite <- Hlen in *. pose proof (cr_len _ _ Hc) as Hol.
  destruct (emit_ref_bytes out1 (encs ts1) (ip s - ref - 1) len) as (out2 & He & Hl2 & Ht2);
    [done|rewrite Hl1; lia|lia|done|].
  set (tok := TRef (ip s - ref - 1) len) in *.
  destruct (if len - 2 <? 7 then _ else _) as [[o1 p1]|]; [|done]. bsimpl. bsimpl in He.
  destruct (wr o1 p1 (ip s - ref - 1)) as [o2|]; [|done]. bsimpl in He. apply (inj Some), pair_eq in He as [-> Hp].
  bsimpl. eexists. split; [done|]. cbn [ip]. split; [lia|]. exists (ts1 ++ [tok]). split; [by destruct ts1|].
  assert (encs (ts1 ++ [tok]) = encs ts1 ++ enc tok) as Henc.
  { rewrite encs_app. f_equal. unfold encs. simpl. by rewrite app_nil_r. }
  apply crun_fresh.
  - rewrite Hl2, Hl1. done.
  - rewrite Henc, length_app. lia.
  - by rewrite Henc.
  - eapply covers_app; [exact Hcov|]. split; [|cbn [covers tok_len tok]; lia].
    unfold tok_ok. cbn [tok_len tok]. split_and!; try lia. intros i Hi.
    replace (ip s - (ip s - ref - 1) - 1 + i) with (ref + i) by lia. by apply Hsame.
  - lia.
  - rewrite Hp. assert (length (enc tok) <= 3)%nat; [|lia]. unfold enc, tok. destruct (len - 2 <? 7); simpl; lia.
Qed.

Lemma cinv_hash s ts h ht : cinv s ts -> cinv (mkC (ip s) (op s) (out s) (lit s) h ht) ts.
Proof. intros ([] & ? & ?). by split_and!; [constructor|..]. Qed.

Lemma rehash_spec s : 2 <= ip s -> ip s + 2 < in_end ->
  exists h ht, rehash inp s = Some (mkC (ip s) (op s) (out s) (lit s) h ht).
Proof.
  intros Hlo Hhi. unfold rehash, FRST, NEXT.
  destruct (rd_Some inp (ip s - 2)) as (a & -> & _); [lia|]. destruct (rd_Some inp (ip s - 2 + 1)) as (b & -> & _); [lia|].
  destruct (rd_Some inp (ip s - 2 + 2)) as (c & -> & _); [lia|].
  destruct (rd_Some inp (ip s - 2 + 1 + 2)) as (e & -> & _); [lia|]. bsimpl.
  eexists _, _. do 2 f_equal. lia.
Qed.

Lemma compress_loop_spec fuel : in_end < 2 ^ 32 -> forall s ts,
  cinv s ts -> 0 <= ip s -> in_end - ip s < Z.of_nat fuel ->
  exists r, compress_loop inp fuel out_len s = Some r /\
    match r with
    | None => True
    | Some s' => exists ts', cinv s' ts' /\ in_end - 2 <= ip s'
    end.
Proof using Hinp.
  intros Hsz. induction fuel as [|fuel IH]; intros s ts Hc H0 Hf; cbn [compress_loop].
  { pose proof (cr_ip _ _ (proj1 Hc)). lia. }
  destruct (Z.ltb_spec (ip s) (in_end - 2)) as [Hlt|Hge]; [|eexists; split; [done|]; by exists ts].
  unfold NEXT at 1. destruct (rd_Some inp (ip s + 2)) as (b & -> & _); [lia|]. bsimpl.
  set (h := u32 _). set (s1 := mkC (ip s) (op s) (out s) (lit s) h _).
  assert (cinv s1 ts) as Hc1 by by apply cinv_hash. change (ip s1) with (ip s).
  destruct (matches_spec (ip s) (u32 (htab s (IDX h)))) as (found & -> & Hm); [done|lia|done|by apply uwrap_range|]. bsimpl.
  destruct found.
  - destruct (Hm eq_refl) as (Hr & Hoff & Hu & Hsame).
    destruct (emit_ref_spec s1 ts (u32 (htab s (IDX h))) Hc1 Hr Hoff Hu Hsame) as (r & -> & Hr'); [simpl; lia|]. bsimpl.
    destruct r as [[s2 len]|]; [|by eexists]. destruct Hr' as (Hip2 & ts2 & _ & Hc2). change (ip s1) with (ip s) in Hip2.
    rewrite Z.geb_leb. destruct (Z.leb_spec (in_end - 2) (ip s2)); [eexists; split; [done|]; by exists ts2|].
    destruct (rehash_spec s2) as (h' & ht' & ->); [lia|lia|]. bsimpl.
    apply (IH _ ts2); [by apply cinv_hash|simpl; lia|simpl; lia].
  - rewrite Z.geb_leb. destruct (Z.leb_spec out_len (op s1)); [by eexists|].
    destruct (put_literal_spec s1 ts Hc1) as (s2 & ts2 & -> & Hc2 & Hip2 & _); [simpl; lia|done|]. bsimpl.
    change (ip s1) with (ip s) in Hip2. apply (IH s2 ts2); [done|lia|lia].
Qed.

(** At most two literals are left; the run they join is closed at most once. *)
Lemma tail_loop_spec fuel : forall s ts,
  cinv s ts -> 0 <= ip s -> in_end - ip s <= 2 -> in_end - ip s < Z.of_nat fuel ->
  op s + (in_end - ip s) + b2i (32 <=? lit s + (in_end - ip s)) <= out_len ->
  exists s' ts', tail_loop inp fuel s = Some s' /\ cinv s' ts' /\ ip s' = in_end /\ op s' <= out_len.
Proof using Hinp.
  induction fuel as [|fuel IH]; intros s ts Hc H0 H2 Hf Hroom; pose proof (cr_ip _ _ (proj1 Hc)); cbn [tail_loop]; [lia|].
  unfold b2i in Hroom. destruct (Z.ltb_spec (ip s) in_end) as [Hlt|Hge].
  - destruct (put_literal_spec s ts Hc) as (s1 & ts1 & -> & Hc1 & Hip1 & Hop1); [done|destruct (32 <=? _); lia|]. bsimpl.
    apply (IH s1 ts1); [done|lia|lia|lia|]. unfold b2i.
    destruct Hc as (_ & Hlit & _), (Z.eqb_spec (lit s) 31) as [He|He], Hop1 as [-> ->];
      destruct (Z.leb_spec 32 (lit s + (in_end - ip s))); 
      [destruct (Z.leb_spec 32 (0 + (in_end - ip s1)))..|destruct (Z.leb_spec 32 (lit s + 1 + (in_end - ip s1)))|
       destruct (Z.leb_spec 32 (lit s + 1 + (in_end - ip s1)))]; lia.
  - exists s, ts. split_and!; [done|done|lia|]. destruct (32 <=? _); lia.
Qed.

(** A successful compression writes a token stream for the whole input. *)
Lemma lzf_compress_tokens htab0 buf :
  2 <= in_end < 2 ^ 32 -> 0 <= out_len <= Z.of_nat (length buf) ->
  exists n buf', lzf_compress inp htab0 buf out_len = Some (n, buf') /\
    (n = 0 \/ 0 < n <= out_len /\ n <= Z.of_nat (length buf') /\ exists ts, ts <> [] /\ covers inp 0 ts in_end /\
                take (Z.to_nat n) buf' = encs ts).
Proof using Hinp.
  intros Hsz Hbuf. unfold lzf_compress. rewrite (proj2 (Z.eqb_neq in_end 0)) by lia. cbn [orb].
  destruct (Z.eqb_spec out_len 0); [eexists _, _; by split; [|left]|].
  unfold FRST. destruct (rd_Some inp 0) as (a & -> & _); [lia|]. destruct (rd_Some inp (0 + 1)) as (b & -> & _); [lia|]. bsimpl.
  set (h := Z.lor _ _).
  assert (cinv (mkC 0 1 buf 0 h htab0) []) as Hc0 by (apply crun_fresh; (done || lia)).
  destruct (compress_loop_spec (S (length inp)) ltac:(lia) _ [] Hc0) as (r & -> & Hr); [done|simpl; lia|]. bsimpl.
  destruct r as [s|]; [|eexists _, _; by split; [|left]]. destruct Hr as (ts & Hc & Hend).
  rewrite Z.gtb_ltb. destruct (Z.ltb_spec out_len (op s + 3)) as [|Hroom]; [eexists _, _; by split; [|left]|].
  pose proof (cr_ip _ _ (proj1 Hc)).
  destruct (tail_loop_spec (S (length inp)) s ts Hc) as (s' & ts' & -> & Hc' & Hip' & Hop'); [lia|lia|lia| |].
  { unfold b2i. destruct (32 <=? _); lia. }
  bsimpl. destruct Hc' as (Hc' & _). pose proof (cr_lit _ _ Hc').
  destruct (close_run s' ts' Hc') as (buf' & -> & Hl & Hcov & Ht & Hlen); [lia|]. bsimpl.
  eexists _, _. split; [done|]. right. rewrite <- Hlen. rewrite Hip' in Hcov.
  assert (close_tokens s' ts' <> []) as Hne by (intros Hn; rewrite Hn in Hcov; simpl in Hcov; lia).
  pose proof (length_encs (close_tokens s' ts')).
  assert (0 < length (close_tokens s' ts'))%nat by (destruct (close_tokens s' ts'); [done|simpl; lia]).
  assert (op s' - b2i (lit s' =? 0) <= out_len) by (unfold b2i; destruct (lit s' =? 0); lia).
  pose proof (cr_len _ _ Hc'). split_and!; [lia|lia|lia|].
  - exists (close_tokens s' ts'). split_and!; [done|done|]. by rewrite Nat2Z.id.
Qed.

End facts.

(** What is compressed is restored, in a buffer of at least [out_len] bytes. *)
Lemma lzf_restores inp htab0 buf out_len :
  Forall is_byte inp -> 2 <= Z.of_nat (length inp) < 2 ^ 32 -> 0 <= out_len <= Z.of_nat (length buf) ->
  exists n buf', lzf_compress inp htab0 buf out_len = Some (n, buf') /\
    (n = 0 \/ 0 < n <= out_len /\ n <= Z.of_nat (length buf') /\ Forall is_byte (take (Z.to_nat n) buf') /\
      forall len, Z.of_nat (length inp) <= len ->
        lzf_decompress (take (Z.to_nat n) buf') len = Some (Z.of_nat (length inp), inp)).
Proof.
  intros Hb Hsz Hbuf.
  destruct (lzf_compress_tokens inp Hb out_len htab0 buf Hsz Hbuf) as (n & buf' & -> & Hn).
  exists n, buf'. split; [done|]. destruct Hn as [->|(Hn & Hl & ts & Hne & Hcov & Ht)]; [by left|right].
  split_and!; [lia|lia|done| |].
  - rewrite Ht. by eapply encs_bytes.
  - intros len Hol. rewrite Ht. by apply lzf_decompress_tokens.
Qed.

(** C13: LZF round trip.  For every input of at least two bytes, every output
    buffer and whatever the uninitialised hash table holds, [lzf_compress]
    terminates and touches no byte outside its buffers; it returns 0 or the
    length of an output that fits, and [lzf_decompress] restores from that
    output exactly the input, given room for it. *)
Theorem lzf_roundtrip inp htab0 buf :
  Forall is_byte inp -> 2 <= Z.of_nat (length inp) < 2 ^ 32 ->
  exists n buf', lzf_compress inp htab0 buf (Z.of_nat (length buf)) = Some (n, buf') /\
    (n = 0 \/ 0 < n <= Z.of_nat (length buf) /\
      forall out_len, Z.of_nat (length inp) <= out_len ->
        lzf_decompress (take (Z.to_nat n) buf') out_len = Some (Z.of_nat (length inp), inp)).
Proof.
  intros Hb Hsz.
  destruct (lzf_restores inp htab0 buf (Z.of_nat (length buf)) Hb Hsz) as (n & buf' & -> & Hn); [lia|].
  exists n, buf'. split; [done|]. destruct Hn as [->|(Hn & _ & _ & Hr)]; [by left|by right].
Qed.

Lemma lzf_roundtrip_witness :
  exists n buf', lzf_compress (replicate 40 97) (fun _ => 12345) (replicate 36 0) 36 = Some (n, buf') /\ n = 9 /\
    lzf_decompress (take (Z.to_nat n) buf') 40 = Some (40, replicate 40 97).
Proof.
  destruct (lzf_roundtrip (replicate 40 97) (fun _ => 12345) (replicate 36 0)) as (n & buf' & Hrun & Hn).
  - apply Forall_replicate. by vm_compute.
  - by vm_compute.
  - exists n, buf'. split; [exact Hrun|].
    assert (n = 9) as ->.
    { change (Z.of_nat (length (replicate 36 0))) with 36 in Hrun. vm_compute in Hrun. congruence. }
    clear Hrun. split; [reflexivity|]. destruct Hn as [Hn|[_ Hd]]; [discriminate Hn|]. apply (Hd 40). by vm_compute.
Defined.

(** ** Decompression of arbitrary bytes *)

Lemma copy_bytes_total n out ref : 0 <= ref < Z.of_nat (length out) ->
  exists out', copy_bytes n out ref = Some out' /\ length out' = (length out + n)%nat.
Proof.
  revert out ref. induction n as [|n IH]; intros out ref Hr; cbn [copy_bytes]; [eexists; split; [done|lia]|].
  destruct (rd_Some out ref) as (b & -> & _); [done|]. bsimpl.
  destruct (IH (out ++ [b]) (ref + 1)) as (out' & -> & Hl); rewrite length_app in *; simpl in *; [lia|].
  eexists. split; [done|lia].
Qed.

Lemma copy_ref_total out ref len : 0 <= ref < Z.of_nat (length out) -> 0 <= len ->
  exists out', copy_ref out ref len = Some out' /\ Z.of_nat (length out') = Z.of_nat (length out) + len + 2.
Proof.
  intros Hr Hlen. unfold copy_ref. rewrite Z.geb_leb.
  destruct (Z.leb_spec len 9); [|destruct (Z.leb_spec (ref + (len + 2)) (Z.of_nat (length out)))].
  - destruct (copy_bytes_total (Z.to_nat (len + 2)) out ref Hr) as (o & -> & Hl). eexists. split; [done|lia].
  - rewrite mread_Some by lia. bsimpl. eexists. split; [done|].
    rewrite length_app, length_take, length_drop. lia.
  - destruct (copy_bytes_total (Z.to_nat (len + 2)) out ref Hr) as (o & -> & Hl). eexists. split; [done|lia].
Qed.

Lemma ref_header_total inp ip ctrl op : Forall is_byte inp -> 0 <= ip -> 32 <= ctrl < 256 ->
  exists r, ref_header inp ip ctrl op = Some r /\
    match r with
    | inl _ => True
    | inr (len, ref, ip') => 0 <= len /\ ref < op /\ ip < ip' <= Z.of_nat (length inp)
    end.
Proof.
  intros Hb Hip Hc. unfold ref_header. rewrite !Z.geb_leb.
  assert (1 <= Z.shiftr ctrl 5) by (rewrite Z.shiftr_div_pow2 by lia; apply Z.div_le_lower_bound; mlia).
  assert (0 <= Z.shiftl (Z.land ctrl 31) 8) by (apply Z.shiftl_nonneg, Z.land_nonneg; lia).
  destruct (Z.leb_spec (Z.of_nat (length inp)) ip); [by eexists|].
  destruct (rd_byte inp ip Hb) as (b & -> & Hbb); [lia|]. unfold is_byte in Hbb.
  destruct (Z.shiftr ctrl 5 =? 7); bsimpl; [|eexists; split; [done|]; cbn beta iota; lia].
  destruct (Z.leb_spec (Z.of_nat (length inp)) (ip + 1)); [by eexists|].
  destruct (rd_byte inp (ip + 1) Hb) as (c & -> & Hcb); [lia|]. unfold is_byte in Hcb.
  bsimpl. eexists; split; [done|]; cbn beta iota; lia.
Qed.

Lemma decompress_step_total inp out_len ip out : Forall is_byte inp ->
  0 <= ip < Z.of_nat (length inp) -> Z.of_nat (length out) <= out_len ->
  exists r, decompress_step inp out_len ip out = Some r /\
    match r with
    | inl _ => True
    | inr (ip', out') => ip < ip' <= Z.of_nat (length inp) /\ Z.of_nat (length out) < Z.of_nat (length out') <= out_len
    end.
Proof.
  intros Hb Hip Ho. unfold decompress_step. change (Z.shiftl 1 5) with 32.
  destruct (rd_byte inp ip Hb Hip) as (c & -> & Hc). unfold is_byte in Hc. bsimpl.
  destruct (Z.ltb_spec c 32).
  - rewrite Z.gtb_ltb. destruct (Z.ltb_spec out_len (Z.of_nat (length out) + (c + 1))); [by eexists|].
    rewrite Z.gtb_ltb. destruct (Z.ltb_spec (Z.of_nat (length inp)) (ip + 1 + (c + 1))); [by eexists|].
    rewrite mread_Some by lia. bsimpl. eexists. split; [done|]. cbn beta iota.
    rewrite length_app, length_take, length_drop. lia.
  - destruct (ref_header_total inp (ip + 1) c (Z.of_nat (length out)) Hb) as (r & -> & Hr); [lia|lia|]. bsimpl.
    destruct r as [|[[len ref] ip']]; [by eexists|]. destruct Hr as (Hlen & Href & Hip'). rewrite Z.gtb_ltb.
    destruct (Z.ltb_spec out_len (Z.of_nat (length out) + len + 2)); [by eexists|].
    destruct (Z.ltb_spec ref 0); [by eexists|].
    destruct (copy_ref_total out ref len) as (o & -> & Hl); [lia|lia|]. bsimpl.
    eexists. split; [done|]. cbn beta iota. lia.
Qed.

Lemma decompress_loop_total fuel inp out_len : Forall is_byte inp -> forall ip out,
  0 <= ip < Z.of_nat (length inp) -> Z.of_nat (length inp) - ip <= Z.of_nat fuel ->
  Z.of_nat (length out) <= out_len ->
  exists n out', decompress_loop fuel inp out_len ip out = Some (n, out') /\
    Z.of_nat (length out') <= out_len /\ (n = 0 \/ 0 < n /\ n = Z.of_nat (length out')).
Proof.
  intros Hb. induction fuel as [|fuel IH]; intros ip out Hip Hf Ho; cbn [decompress_loop]; [lia|].
  destruct (decompress_step_total inp out_len ip out Hb Hip Ho) as (r & -> & Hr). bsimpl.
  destruct r as [|[ip' out']]; [eexists _, _; split_and!; [done|done|by left]|].
  destruct (Z.ltb_spec ip' (Z.of_nat (length inp))); [apply IH; lia|].
  eexists _, _. split_and!; [done|lia|right; lia].
Qed.

Lemma lzf_decompress_total inp out_len : Forall is_byte inp -> inp <> [] -> 0 <= out_len ->
  exists n out, lzf_decompress inp out_len = Some (n, out) /\
    Z.of_nat (length out) <= out_len /\ (n = 0 \/ 0 < n /\ n = Z.of_nat (length out)).
Proof.
  intros Hb Hne Ho. assert (length inp <> 0)%nat by by destruct inp.
  apply decompress_loop_total; [done|lia|lia|done].
Qed.

(** C15: decompression is safe on any bytes.  Whatever non-empty input
    [lzf_decompress] is given (a corrupted payload included), it terminates,
    reads no byte outside the input nor outside what it has written, writes at
    most [out_len] bytes, and returns 0 for an error or else the number of
    bytes written. *)
Theorem lzf_decompress_safe inp out_len :
  Forall is_byte inp -> inp <> [] -> 0 <= out_len ->
  exists n out, lzf_decompress inp out_len = Some (n, out) /\
    Z.of_nat (length out) <= out_len /\ (n = 0 \/ 0 < n /\ n = Z.of_nat (length out)).
Proof. apply lzf_decompress_total. Qed.

(** A back reference before the start of the output, after two good bytes. *)
Lemma lzf_decompress_safe_witness :
  exists n out, lzf_decompress [1; 97; 98; 32; 5] 20 = Some (n, out) /\ n = 0 /\
    Z.of_nat (length out) <= 20.
Proof.
  destruct (lzf_decompress_safe [1; 97; 98; 32; 5] 20) as (n & out & Hrun & Hl & _).
  - repeat constructor; by vm_compute.
  - done.
  - done.
  - exists n, out. split_and!; [exact Hrun| |exact Hl]. vm_compute in Hrun. congruence.
Defined.

(** The loop tests for the end of the input only after its first round: with
    an empty input the first control byte is read outside it. *)
Lemma lzf_decompress_empty out_len : lzf_decompress [] out_len = None.
Proof. reflexivity. Qed.

End Lzf.
