(* ===== verification/Effects.v ===== *)
(** State passing with the three ways a C routine can end: normally, by
    stopping the server on purpose (a failed assertion, [serverPanic],
    [exit]), or outside the semantics of C (an access to memory that is not
    there, a loop that outlives its fuel).  Components whose operations thread
    a state through many calls are written in this monad. *)

From S2P Require Import Prelude.

Inductive outcome (A : Type) : Type :=
| Done (a : A)
| Abort
| Undef.
Arguments Done {A} a.
Arguments Abort {A}.
Arguments Undef {A}.

Definition st (S A : Type) : Type := S -> outcome (S * A).

#[export] Instance st_ret S : MRet (st S) := fun A a s => Done (s, a).
#[export] Instance st_bind S : MBind (st S) := fun A B f m s =>
  match m s with
  | Done (s', a) => f a s'
  | Abort => Abort
  | Undef => Undef
  end.

Definition get {S} : st S S := fun s => Done (s, s).
Definition put {S} (s : S) : st S unit := fun _ => Done (s, tt).
Definition abort {S A} : st S A := fun _ => Abort.
Definition undef {S A} : st S A := fun _ => Undef.

(** A partial computation of the option monad, [None] being undefined. *)
Definition lift {S A} (o : option A) : st S A := fun s =>
  match o with Some a => Done (s, a) | None => Undef end.

(** [serverAssert]. *)
Definition assert {S} (b : bool) : st S unit := if b then mret tt else abort.

(** Unfold the monad one bind at a time. *)
Lemma bind_done {S A B} (m : st S A) (f : A -> st S B) s s' a :
  m s = Done (s', a) -> (m ≫= f) s = f a s'.
Proof. intros Hm. unfold mbind, st_bind. by rewrite Hm. Qed.

Lemma bind_ret {S A B} (a : A) (f : A -> st S B) s : (mret a ≫= f) s = f a s.
Proof. done. Qed.

Lemma bind_get {S B} (f : S -> st S B) s : (get ≫= f) s = f s s.
Proof. done. Qed.

Lemma bind_put {S B} (s' : S) (f : unit -> st S B) s : (put s' ≫= f) s = f tt s'.
Proof. done. Qed.

Lemma bind_lift {S A B} (a : A) (f : A -> st S B) s : (lift (Some a) ≫= f) s = f a s.
Proof. done. Qed.

Lemma bind_assoc {S A B C} (m : st S A) (f : A -> st S B) (g : B -> st S C) s :
  ((m ≫= f) ≫= g) s = (m ≫= (fun a => f a ≫= g)) s.
Proof. unfold mbind, st_bind. by destruct (m s) as [[? ?]| |]. Qed.

(** Run the steps of a computation that are known outright. *)
Ltac ssimpl := cbn [mbind mret st_bind st_ret get put lift assert].
