(* ===== verification/Quicklist.v ===== *)
(** Model of [quicklist.c] and [quicklist.h]: the lists of the server, doubly
    linked nodes that each hold a ziplist, the inner ones LZF-compressed.

    The nodes live on a heap; a pointer is an address, [None] is NULL.  What
    [node->zl] points to is a block of bytes, a ziplist or a [quicklistLZF]
    (four bytes of length and the compressed bytes), and nothing but the
    encoding of the node tells which: a ziplist operation on compressed bytes
    reads them as a ziplist.  Access to a freed node, NULL or bytes outside a
    block is [Undef].  The one quicklist of a state is its field [ql]. *)

From stdpp Require Import gmap.
From S2P Require Import Prelude UtilNum Ziplist Lzf Effects.

#[local] Open Scope Z_scope.

Module Quicklist.
Import UtilNum Ziplist.
#[local] Notation zlen l := (Z.of_nat (length l)) (only parsing).

Abbreviation QUICKLIST_HEAD := 0 (only parsing).
Abbreviation QUICKLIST_TAIL := (-1) (only parsing).
Abbreviation QUICKLIST_NODE_ENCODING_RAW := 1 (only parsing).
Abbreviation QUICKLIST_NODE_ENCODING_LZF := 2 (only parsing).
Abbreviation QUICKLIST_NODE_CONTAINER_ZIPLIST := 2 (only parsing).
Abbreviation AL_START_HEAD := 0 (only parsing).
Abbreviation AL_START_TAIL := 1 (only parsing).
Abbreviation SIZE_SAFETY_LIMIT := 8192 (only parsing).
Abbreviation MIN_COMPRESS_BYTES := 48 (only parsing).
Abbreviation MIN_COMPRESS_IMPROVE := 8 (only parsing).
Abbreviation QL_FILL_BITS := 16 (only parsing).
Abbreviation QL_COMP_BITS := 16 (only parsing).
Abbreviation QL_BM_BITS := 4 (only parsing).
Abbreviation QL_MAX_BM := (Z.shiftl 1 QL_BM_BITS - 1) (only parsing).
Abbreviation COMPRESS_MAX := (Z.shiftl 1 QL_COMP_BITS - 1) (only parsing).
Abbreviation FILL_MAX := (Z.shiftl 1 (QL_FILL_BITS - 1) - 1) (only parsing).

Abbreviation ptr := (option nat) (only parsing).

Record quicklistNode := mkNode {
  prev : ptr;
  next : ptr;
  zl : option (list Z);
  sz : Z;
  ncount : Z;
  encoding : Z;
  container : Z;
  recompress : bool }.

Record quicklistBookmark := mkBookmark { bnode : ptr; name : list Z }.

(** [bookmark_count] is the length of [bookmarks]. *)
Record quicklist := mkQl {
  head : ptr;
  tail : ptr;
  count : Z;
  len : Z;
  fill : Z;
  compress : Z;
  bookmarks : list quicklistBookmark }.

Record quicklistIter := mkIter { current : ptr; zi : option Z; ioffset : Z; direction : Z }.

(** [value] is a place in the block of the node. *)
Record quicklistEntry := mkEntry {
  enode : ptr; ezi : option Z; value : option Z; longval : Z; esz : Z; eoffset : Z }.

Definition initEntry : quicklistEntry := mkEntry None None None (-123456789) 0 123456789.

(** The heap of nodes, the next free address, and the quicklist. *)
Record store := mkStore { nodes : gmap nat quicklistNode; brk : nat; ql : quicklist }.

Abbreviation M := (st store).

(** Assignments to one field. *)
Definition set_prev (n : quicklistNode) (v : ptr) : quicklistNode :=
  mkNode v (next n) (zl n) (sz n) (ncount n) (encoding n) (container n) (recompress n).
Definition set_next (n : quicklistNode) (v : ptr) : quicklistNode :=
  mkNode (prev n) v (zl n) (sz n) (ncount n) (encoding n) (container n) (recompress n).
Definition set_zl (n : quicklistNode) (v : option (list Z)) : quicklistNode :=
  mkNode (prev n) (next n) v (sz n) (ncount n) (encoding n) (container n) (recompress n).
Definition set_sz (n : quicklistNode) (v : Z) : quicklistNode :=
  mkNode (prev n) (next n) (zl n) v (ncount n) (encoding n) (container n) (recompress n).
Definition set_ncount (n : quicklistNode) (v : Z) : quicklistNode :=
  mkNode (prev n) (next n) (zl n) (sz n) (u16 v) (encoding n) (container n) (recompress n).
Definition set_encoding (n : quicklistNode) (v : Z) : quicklistNode :=
  mkNode (prev n) (next n) (zl n) (sz n) (ncount n) v (container n) (recompress n).
Definition set_recompress (n : quicklistNode) (v : bool) : quicklistNode :=
  mkNode (prev n) (next n) (zl n) (sz n) (ncount n) (encoding n) (container n) v.

Definition set_head (q : quicklist) (v : ptr) : quicklist :=
  mkQl v (tail q) (count q) (len q) (fill q) (compress q) (bookmarks q).
Definition set_tail (q : quicklist) (v : ptr) : quicklist :=
  mkQl (head q) v (count q) (len q) (fill q) (compress q) (bookmarks q).
Definition set_count (q : quicklist) (v : Z) : quicklist :=
  mkQl (head q) (tail q) (u64 v) (len q) (fill q) (compress q) (bookmarks q).
Definition set_len (q : quicklist) (v : Z) : quicklist :=
  mkQl (head q) (tail q) (count q) (u64 v) (fill q) (compress q) (bookmarks q).
Definition set_bookmarks (q : quicklist) (v : list quicklistBookmark) : quicklist :=
  mkQl (head q) (tail q) (count q) (len q) (fill q) (compress q) v.

(** Access through pointers. *)
Definition load (p : nat) : M quicklistNode := s ← get; lift (nodes s !! p).
Definition modify (p : nat) (f : quicklistNode -> quicklistNode) : M unit :=
  n ← load p; s ← get; put (mkStore (<[p := f n]> (nodes s)) (brk s) (ql s)).
Definition alloc (n : quicklistNode) : M nat :=
  s ← get; _ ← put (mkStore (<[brk s := n]> (nodes s)) (S (brk s)) (ql s)); mret (brk s).
Definition zfree (p : nat) : M unit :=
  _ ← load p; s ← get; put (mkStore (delete p (nodes s)) (brk s) (ql s)).
Definition this : M quicklist := s ← get; mret (ql s).
Definition modify_ql (f : quicklist -> quicklist) : M unit :=
  s ← get; put (mkStore (nodes s) (brk s) (f (ql s))).

(** The block of a node. *)
Definition block (p : nat) : M (list Z) := n ← load p; lift (zl n).

(** ** Creation and options *)

Definition quicklistCreate : store := mkStore ∅ O (mkQl None None 0 0 (-2) 0 []).

Definition quicklistSetCompressDepth (q : quicklist) (c : Z) : quicklist :=
  let c := if c >? COMPRESS_MAX then COMPRESS_MAX else if c <? 0 then 0 else c in
  mkQl (head q) (tail q) (count q) (len q) (fill q) c (bookmarks q).

Definition quicklistSetFill (q : quicklist) (f : Z) : quicklist :=
  let f := if f >? FILL_MAX then FILL_MAX else if f <? -5 then -5 else f in
  mkQl (head q) (tail q) (count q) (len q) f (compress q) (bookmarks q).

Definition quicklistSetOptions (q : quicklist) (f depth : Z) : quicklist :=
  quicklistSetCompressDepth (quicklistSetFill q f) depth.

Definition quicklistNew (f c : Z) : store :=
  let s := quicklistCreate in mkStore (nodes s) (brk s) (quicklistSetOptions (ql s) f c).

Definition quicklistCreateNode : M nat :=
  alloc (mkNode None None None 0 0 QUICKLIST_NODE_ENCODING_RAW QUICKLIST_NODE_CONTAINER_ZIPLIST false).

Definition quicklistCount : M Z := q ← this; mret (count q).

(** ** Bookmarks *)

(** The index of the first bookmark that satisfies [f]. *)
Fixpoint find_bookmark (f : quicklistBookmark -> bool) (i : nat) (bs : list quicklistBookmark) : option nat :=
  match bs with
  | [] => None
  | b :: bs => if f b then Some i else find_bookmark f (S i) bs
  end.

Definition _quicklistBookmarkFindByName (q : quicklist) (nm : list Z) : option nat :=
  find_bookmark (fun b => bool_decide (name b = nm)) 0 (bookmarks q).

Definition _quicklistBookmarkFindByNode (q : quicklist) (p : nat) : option nat :=
  find_bookmark (fun b => bool_decide (bnode b = Some p)) 0 (bookmarks q).

Definition _quicklistBookmarkDelete (q : quicklist) (i : nat) : quicklist :=
  set_bookmarks q (take i (bookmarks q) ++ drop (S i) (bookmarks q)).

(** [bm->node = node]. *)
Definition set_bookmark (q : quicklist) (i : nat) (p : ptr) : quicklist :=
  set_bookmarks q (alter (fun b => mkBookmark p (name b)) i (bookmarks q)).

Definition quicklistBookmarkCreate (nm : list Z) (p : ptr) : M bool :=
  q ← this;
  if zlen (bookmarks q) >=? QL_MAX_BM then mret false
  else
    match _quicklistBookmarkFindByName q nm with
    | Some i => _ ← modify_ql (fun q => set_bookmark q i p); mret true
    | None => _ ← modify_ql (fun q => set_bookmarks q (bookmarks q ++ [mkBookmark p nm])); mret true
    end.

Definition quicklistBookmarkFind (nm : list Z) : M ptr :=
  q ← this;
  mret match _quicklistBookmarkFindByName q nm with
       | Some i => (b ← bookmarks q !! i; bnode b)
       | None => None
       end.

Definition quicklistBookmarkDelete (nm : list Z) : M bool :=
  q ← this;
  match _quicklistBookmarkFindByName q nm with
  | Some i => _ ← modify_ql (fun q => _quicklistBookmarkDelete q i); mret true
  | None => mret false
  end.

Definition quicklistBookmarksClear (q : quicklist) : quicklist := set_bookmarks q [].

(** The loop of [quicklistRelease]. *)
Fixpoint release_loop (n : nat) (cur : ptr) : M unit :=
  match n with
  | O => mret tt
  | S n =>
      p ← lift cur;
      x ← load p;
      _ ← modify_ql (fun q => set_count q (count q - ncount x));
      _ ← zfree p;
      _ ← modify_ql (fun q => set_len q (len q - 1));
      release_loop n (next x)
  end.

(** The struct itself goes with the state. *)
Definition quicklistRelease : M unit :=
  q ← this;
  _ ← release_loop (Z.to_nat (len q)) (head q);
  modify_ql quicklistBookmarksClear.

Section operations.
(** The contents of new memory, and of the hash table of the compressor. *)
Context (junk : nat -> Z) (htab : Z -> Z).

Definition zmalloc (n : Z) : list Z := junk <$> seq 0 (Z.to_nat n).

(** ** Compression of nodes *)

Definition __quicklistCompressNode (p : nat) : M bool :=
  n ← load p;
  if sz n <? MIN_COMPRESS_BYTES then mret false
  else
    b ← lift (zl n);
    inp ← lift (mread b 0 (Z.to_nat (sz n)));
    '(lsz, out) ← lift (Lzf.lzf_compress inp htab (zmalloc (sz n)) (sz n));
    if (lsz =? 0) || (u32 (lsz + MIN_COMPRESS_IMPROVE) >=? sz n) then mret false
    else
      c ← lift (mread out 0 (Z.to_nat lsz));
      _ ← modify p (fun n => set_zl n (Some (le_encode 4 lsz ++ c)));
      _ ← modify p (fun n => set_encoding n QUICKLIST_NODE_ENCODING_LZF);
      _ ← modify p (fun n => set_recompress n false);
      mret true.

Definition quicklistCompressNode (q : ptr) : M unit :=
  match q with
  | Some p =>
      n ← load p;
      if encoding n =? QUICKLIST_NODE_ENCODING_RAW then _ ← __quicklistCompressNode p; mret tt else mret tt
  | None => mret tt
  end.

Definition __quicklistDecompressNode (p : nat) : M bool :=
  n ← load p;
  b ← lift (zl n);
  lsz ← lift (le_decode <$> mread b 0 4);
  c ← lift (mread b 4 (Z.to_nat lsz));
  '(r, out) ← lift (Lzf.lzf_decompress c (sz n));
  if r =? 0 then mret false
  else
    b ← lift (mwrite (zmalloc (sz n)) 0 out);
    _ ← modify p (fun n => set_zl n (Some b));
    _ ← modify p (fun n => set_encoding n QUICKLIST_NODE_ENCODING_RAW);
    mret true.

Definition quicklistDecompressNode (q : ptr) : M unit :=
  match q with
  | Some p =>
      n ← load p;
      if encoding n =? QUICKLIST_NODE_ENCODING_LZF then _ ← __quicklistDecompressNode p; mret tt else mret tt
  | None => mret tt
  end.

Definition quicklistDecompressNodeForUse (q : ptr) : M unit :=
  match q with
  | Some p =>
      n ← load p;
      if encoding n =? QUICKLIST_NODE_ENCODING_LZF then
        _ ← __quicklistDecompressNode p; modify p (fun n => set_recompress n true)
      else mret tt
  | None => mret tt
  end.

(** The compressed bytes and their number. *)
Definition quicklistGetLzf (p : nat) : M (list Z * Z) :=
  b ← block p;
  lsz ← lift (le_decode <$> mread b 0 4);
  c ← lift (mread b 4 (Z.to_nat lsz));
  mret (c, lsz).

(** The loop of [__quicklistCompress]; [None] when the pointers meet. *)
Fixpoint compress_loop (n : nat) (node forward reverse : ptr) (in_depth : bool) : M (option (ptr * ptr * bool)) :=
  match n with
  | O => mret (Some (forward, reverse, in_depth))
  | S n =>
      _ ← quicklistDecompressNode forward;
      _ ← quicklistDecompressNode reverse;
      let in_depth := if bool_decide (forward = node) || bool_decide (reverse = node) then true else in_depth in
      if bool_decide (forward = reverse) then mret None
      else
        f ← lift forward; f ← load f;
        r ← lift reverse; r ← load r;
        compress_loop n node (next f) (prev r) in_depth
  end.

Definition __quicklistCompress (node : ptr) : M unit :=
  q ← this;
  if (compress q =? 0) || (len q <? u32 (compress q * 2)) then mret tt
  else
    r ← compress_loop (Z.to_nat (compress q)) node (head q) (tail q) false;
    match r with
    | None => mret tt
    | Some (forward, reverse, in_depth) =>
        let depth := compress q + 1 in
        _ ← (if in_depth : bool then mret tt else quicklistCompressNode node);
        if depth >? 2 then _ ← quicklistCompressNode forward; quicklistCompressNode reverse else mret tt
    end.

Definition quicklistCompress (p : nat) : M unit :=
  n ← load p;
  if recompress n then quicklistCompressNode (Some p) else __quicklistCompress (Some p).

Definition quicklistRecompressOnly (p : nat) : M unit :=
  n ← load p; if recompress n then quicklistCompressNode (Some p) else mret tt.

(** ** Linking nodes *)

Definition __quicklistInsertNode (old_node : ptr) (new_node : nat) (after : bool) : M unit :=
  _ ← (if after then
         _ ← modify new_node (fun n => set_prev n old_node);
         _ ← match old_node with
             | Some o =>
                 x ← load o;
                 _ ← modify new_node (fun n => set_next n (next x));
                 _ ← match next x with Some y => modify y (fun n => set_prev n (Some new_node)) | None => mret tt end;
                 modify o (fun n => set_next n (Some new_node))
             | None => mret tt
             end;
         modify_ql (fun q => if bool_decide (tail q = old_node) then set_tail q (Some new_node) else q)
       else
         _ ← modify new_node (fun n => set_next n old_node);
         _ ← match old_node with
             | Some o =>
                 x ← load o;
                 _ ← modify new_node (fun n => set_prev n (prev x));
                 _ ← match prev x with Some y => modify y (fun n => set_next n (Some new_node)) | None => mret tt end;
                 modify o (fun n => set_prev n (Some new_node))
             | None => mret tt
             end;
         modify_ql (fun q => if bool_decide (head q = old_node) then set_head q (Some new_node) else q));
  _ ← modify_ql (fun q => if len q =? 0 then set_tail (set_head q (Some new_node)) (Some new_node) else q);
  _ ← match old_node with Some o => quicklistCompress o | None => mret tt end;
  modify_ql (fun q => set_len q (len q + 1)).

Definition _quicklistInsertNodeBefore (old_node : ptr) (new_node : nat) : M unit :=
  __quicklistInsertNode old_node new_node false.

Definition _quicklistInsertNodeAfter (old_node : ptr) (new_node : nat) : M unit :=
  __quicklistInsertNode old_node new_node true.

Definition optimization_level : list Z := [4096; 8192; 16384; 32768; 65536].

Definition _quicklistNodeSizeMeetsOptimizationRequirement (sz fill : Z) : bool :=
  if fill >=? 0 then false
  else
    let offset := - fill - 1 in
    match optimization_level !! Z.to_nat offset with
    | Some level => sz <=? level
    | None => false
    end.

Definition _quicklistNodeAllowInsert (node : ptr) (fill vsz : Z) : M bool :=
  match node with
  | None => mret false
  | Some p =>
      n ← load p;
      let ziplist_overhead := if vsz <? 254 then 1 else 5 in
      let ziplist_overhead :=
        if vsz <? 64 then ziplist_overhead + 1
        else if vsz <? 16384 then ziplist_overhead + 2
        else ziplist_overhead + 5 in
      let new_sz := u32 (sz n + vsz + ziplist_overhead) in
      mret (if _quicklistNodeSizeMeetsOptimizationRequirement new_sz fill then true
            else if negb (new_sz <=? SIZE_SAFETY_LIMIT) then false
            else ncount n <? fill)
  end.

Definition _quicklistNodeAllowMerge (a b : ptr) (fill : Z) : M bool :=
  match a, b with
  | Some a, Some b =>
      a ← load a;
      b ← load b;
      let merge_sz := u32 (sz a + sz b - 11) in
      mret (if _quicklistNodeSizeMeetsOptimizationRequirement merge_sz fill then true
            else if negb (merge_sz <=? SIZE_SAFETY_LIMIT) then false
            else ncount a + ncount b <=? fill)
  | _, _ => mret false
  end.

Definition quicklistNodeUpdateSz (p : nat) : M unit :=
  b ← block p; v ← lift (ziplistBlobLen b); modify p (fun n => set_sz n v).

(** [node->zl = ziplistPush(node->zl, value, sz, where)]. *)
Definition push_zl (p : nat) (v : list Z) (where_ : Z) : M unit :=
  b ← block p; b ← lift (ziplistPush junk b v where_); modify p (fun n => set_zl n (Some b)).

(** [node->zl = ziplistPush(ziplistNew(), value, sz, where)]. *)
Definition new_zl (p : nat) (v : list Z) (where_ : Z) : M unit :=
  b ← lift (ziplistNew junk); b ← lift (ziplistPush junk b v where_); modify p (fun n => set_zl n (Some b)).

Definition quicklistPushHead (v : list Z) : M bool :=
  q ← this;
  let orig_head := head q in
  ok ← _quicklistNodeAllowInsert (head q) (fill q) (zlen v);
  _ ← (if ok : bool then
         p ← lift (head q); _ ← push_zl p v ZIPLIST_HEAD; quicklistNodeUpdateSz p
       else
         p ← quicklistCreateNode;
         _ ← new_zl p v ZIPLIST_HEAD;
         _ ← quicklistNodeUpdateSz p;
         _quicklistInsertNodeBefore (head q) p);
  _ ← modify_ql (fun q => set_count q (count q + 1));
  q ← this;
  p ← lift (head q);
  _ ← modify p (fun n => set_ncount n (ncount n + 1));
  mret (negb (bool_decide (orig_head = head q))).

Definition quicklistPushTail (v : list Z) : M bool :=
  q ← this;
  let orig_tail := tail q in
  ok ← _quicklistNodeAllowInsert (tail q) (fill q) (zlen v);
  _ ← (if ok : bool then
         p ← lift (tail q); _ ← push_zl p v ZIPLIST_TAIL; quicklistNodeUpdateSz p
       else
         p ← quicklistCreateNode;
         _ ← new_zl p v ZIPLIST_TAIL;
         _ ← quicklistNodeUpdateSz p;
         _quicklistInsertNodeAfter (tail q) p);
  _ ← modify_ql (fun q => set_count q (count q + 1));
  q ← this;
  p ← lift (tail q);
  _ ← modify p (fun n => set_ncount n (ncount n + 1));
  mret (negb (bool_decide (orig_tail = tail q))).

Definition quicklistPush (v : list Z) (where_ : Z) : M unit :=
  if where_ =? QUICKLIST_HEAD then _ ← quicklistPushHead v; mret tt
  else if where_ =? QUICKLIST_TAIL then _ ← quicklistPushTail v; mret tt
  else mret tt.

Definition quicklistAppendZiplist (b : list Z) : M unit :=
  p ← quicklistCreateNode;
  '(b, n) ← lift (ziplistLen b);
  v ← lift (ziplistBlobLen b);
  _ ← modify p (fun x => set_sz (set_ncount (set_zl x (Some b)) n) v);
  q ← this;
  _ ← _quicklistInsertNodeAfter (tail q) p;
  x ← load p;
  modify_ql (fun q => set_count q (count q + ncount x)).

(** What [ziplistGet] delivers, an integer printed into [longstr]. *)
Definition printed (b : list Z) (f : found) : option (list Z) :=
  match f with
  | FoundStr sstr slen => mread b sstr (Z.to_nat slen)
  | FoundInt v => '(buf, n) ← ll2string (replicate 32 0) 32 v; mread buf 0 (Z.to_nat n)
  end.

(** The loop of [quicklistAppendValuesFromZiplist]. *)
Fixpoint append_values (n : nat) (b : list Z) (p : option Z) : M unit :=
  match n with
  | O => undef
  | S n =>
      f ← lift (ziplistGet b p);
      match f with
      | None => mret tt
      | Some f =>
          v ← lift (printed b f);
          _ ← quicklistPushTail v;
          p ← lift p;
          p ← lift (ziplistNext b p);
          append_values n b p
      end
  end.

Definition quicklistAppendValuesFromZiplist (b : list Z) : M unit :=
  p ← lift (ziplistIndex b 0); append_values (S (length b)) b p.

Definition quicklistCreateFromZiplist (f c : Z) (b : list Z) : outcome (store * unit) :=
  quicklistAppendValuesFromZiplist b (quicklistNew f c).

(** ** Deletion *)

Definition __quicklistDelNode (p : nat) : M unit :=
  q ← this;
  n ← load p;
  _ ← match _quicklistBookmarkFindByNode q p with
      | Some i =>
          match next n with
          | Some y => modify_ql (fun q => set_bookmark q i (Some y))
          | None => modify_ql (fun q => _quicklistBookmarkDelete q i)
          end
      | None => mret tt
      end;
  _ ← match next n with Some y => modify y (fun x => set_prev x (prev n)) | None => mret tt end;
  _ ← match prev n with Some y => modify y (fun x => set_next x (next n)) | None => mret tt end;
  _ ← modify_ql (fun q => if bool_decide (Some p = tail q) then set_tail q (prev n) else q);
  _ ← modify_ql (fun q => if bool_decide (Some p = head q) then set_head q (next n) else q);
  _ ← __quicklistCompress None;
  n ← load p;
  _ ← modify_ql (fun q => set_count q (count q - ncount n));
  _ ← zfree p;
  modify_ql (fun q => set_len q (len q - 1)).

(** Whether the node was deleted, and the place after the entry. *)
Definition quicklistDelIndex (p : nat) (at_ : Z) : M (bool * Z) :=
  b ← block p;
  '(b, at_) ← lift (ziplistDelete junk b at_);
  _ ← modify p (fun n => set_zl n (Some b));
  _ ← modify p (fun n => set_ncount n (ncount n - 1));
  n ← load p;
  let gone := ncount n =? 0 in
  _ ← (if gone then __quicklistDelNode p else quicklistNodeUpdateSz p);
  _ ← modify_ql (fun q => set_count q (count q - 1));
  mret (gone, at_).

Definition quicklistDelEntry (iter : quicklistIter) (entry : quicklistEntry) : M quicklistIter :=
  p ← lift (enode entry);
  n ← load p;
  at_ ← lift (ezi entry);
  '(deleted_node, _) ← quicklistDelIndex p at_;
  mret (if deleted_node : bool then
          if direction iter =? AL_START_HEAD then mkIter (next n) None 0 (direction iter)
          else if direction iter =? AL_START_TAIL then mkIter (prev n) None (-1) (direction iter)
          else mkIter (current iter) None (ioffset iter) (direction iter)
        else mkIter (current iter) None (ioffset iter) (direction iter)).

(** ** Access by index *)

(** [ziplistGet] into the fields of an entry. *)
Definition fill_entry (e : quicklistEntry) (b : list Z) : option quicklistEntry :=
  f ← ziplistGet b (ezi e);
  Some match f with
       | Some (FoundStr sstr slen) => mkEntry (enode e) (ezi e) (Some sstr) (longval e) slen (eoffset e)
       | Some (FoundInt v) => mkEntry (enode e) (ezi e) None v (esz e) (eoffset e)
       | None => e
       end.

(** The loop of [quicklistIndex]: the node and the entries before it. *)
Fixpoint index_loop (fuel : nat) (forward : bool) (n : ptr) (accum index : Z) : M (ptr * Z) :=
  match fuel with
  | O => undef
  | S fuel =>
      match n with
      | None => mret (None, accum)
      | Some p =>
          x ← load p;
          if u64 (accum + ncount x) >? index then mret (Some p, accum)
          else index_loop fuel forward (if forward then next x else prev x) (u64 (accum + ncount x)) index
      end
  end.

Definition quicklistIndex (idx : Z) : M (bool * quicklistEntry) :=
  s ← get;
  let q := ql s in
  let forward := negb (idx <? 0) in
  let index := if forward then idx else - idx - 1 in
  if idx <=? - 2 ^ 63 then undef
  else if index >=? count q then mret (false, initEntry)
  else
    '(n, accum) ← index_loop (S (size (nodes s))) forward (if forward then head q else tail q) 0 index;
    match n with
    | None => mret (false, initEntry)
    | Some p =>
        let offset := s32 (if forward then u64 (index - accum) else u64 (- index - 1 + accum)) in
        _ ← quicklistDecompressNodeForUse (Some p);
        b ← block p;
        at_ ← lift (ziplistIndex b offset);
        e ← lift (fill_entry (mkEntry (Some p) at_ None (longval initEntry) (esz initEntry) offset) b);
        mret (true, e)
    end.

Definition quicklistReplaceAtIndex (index : Z) (data : list Z) : M bool :=
  '(ok, entry) ← quicklistIndex index;
  if ok : bool then
    p ← lift (enode entry);
    at_ ← lift (ezi entry);
    b ← block p;
    '(b, at_) ← lift (ziplistDelete junk b at_);
    b ← lift (ziplistInsert junk b at_ data);
    _ ← modify p (fun n => set_zl n (Some b));
    _ ← quicklistNodeUpdateSz p;
    _ ← quicklistCompress p;
    mret true
  else mret false.

(** ** Merging and splitting nodes *)

Definition _quicklistZiplistMerge (a b : nat) : M ptr :=
  _ ← quicklistDecompressNode (Some a);
  _ ← quicklistDecompressNode (Some b);
  x ← load a;
  y ← load b;
  r ← lift (ziplistMerge junk (bool_decide (a = b)) (zl x) (zl y));
  match r with
  | Some (z, append) =>
      _ ← modify a (fun n => set_zl n (if append : bool then Some z else None));
      _ ← modify b (fun n => set_zl n (if append : bool then None else Some z));
      let '(keep, nokeep) := if append : bool then (a, b) else (b, a) in
      '(z, n) ← lift (ziplistLen z);
      _ ← modify keep (fun x => set_ncount (set_zl x (Some z)) n);
      _ ← quicklistNodeUpdateSz keep;
      _ ← modify nokeep (fun x => set_ncount x 0);
      _ ← __quicklistDelNode nokeep;
      _ ← quicklistCompress keep;
      mret (Some keep)
  | None => mret None
  end.

Definition _quicklistMergeNodes (center : nat) : M unit :=
  q ← this;
  let fill := fill q in
  c ← load center;
  let prv := prev c in
  prev_prev ← match prv with Some p => (x ← load p; mret (prev x)) | None => mret None end;
  let nxt := next c in
  next_next ← match nxt with Some p => (x ← load p; mret (next x)) | None => mret None end;
  ok ← _quicklistNodeAllowMerge prv prev_prev fill;
  _ ← (if ok : bool then (a ← lift prev_prev; b ← lift prv; _quicklistZiplistMerge a b) else mret None);
  ok ← _quicklistNodeAllowMerge nxt next_next fill;
  _ ← (if ok : bool then (a ← lift nxt; b ← lift next_next; _quicklistZiplistMerge a b) else mret None);
  c ← load center;
  ok ← _quicklistNodeAllowMerge (Some center) (prev c) fill;
  target ← (if ok : bool then (a ← lift (prev c); _quicklistZiplistMerge a center) else mret (Some center));
  t ← lift target;
  x ← load t;
  ok ← _quicklistNodeAllowMerge (Some t) (next x) fill;
  if ok : bool then b ← lift (next x); _ ← _quicklistZiplistMerge t b; mret tt else mret tt.

(** [node->zl = ziplistDeleteRange(node->zl, start, extent);
    node->count = ziplistLen(node->zl); quicklistNodeUpdateSz(node)]. *)
Definition delete_zl (p : nat) (start extent : Z) : M unit :=
  b ← block p;
  b ← lift (ziplistDeleteRange junk b start (u32 extent));
  '(b, n) ← lift (ziplistLen b);
  _ ← modify p (fun x => set_ncount (set_zl x (Some b)) n);
  quicklistNodeUpdateSz p.

Definition _quicklistSplitNode (p : nat) (offset : Z) (after : bool) : M nat :=
  n ← load p;
  new_node ← quicklistCreateNode;
  b ← block p;
  c ← lift (mread b 0 (Z.to_nat (sz n)));
  _ ← modify new_node (fun x => set_zl x (Some c));
  let orig_start := if after then offset + 1 else 0 in
  let orig_extent := if after then -1 else offset in
  let new_start := if after then 0 else offset in
  let new_extent := if after then offset + 1 else -1 in
  _ ← delete_zl p orig_start orig_extent;
  _ ← delete_zl new_node new_start new_extent;
  mret new_node.

(** ** Insertion beside an entry *)

Definition _quicklistInsert (entry : quicklistEntry) (v : list Z) (after : bool) : M unit :=
  q ← this;
  let fill := fill q in
  match enode entry with
  | None =>
      new_node ← quicklistCreateNode;
      _ ← new_zl new_node v ZIPLIST_HEAD;
      _ ← __quicklistInsertNode None new_node after;
      _ ← modify new_node (fun n => set_ncount n (ncount n + 1));
      modify_ql (fun q => set_count q (count q + 1))
  | Some p =>
      ok ← _quicklistNodeAllowInsert (Some p) fill (zlen v);
      let full := negb ok in
      n ← load p;
      let at_tail := after && (eoffset entry =? ncount n) in
      full_next ← (if at_tail then (ok ← _quicklistNodeAllowInsert (next n) fill (zlen v); mret (negb ok)) else mret false);
      let at_head := negb after && (eoffset entry =? 0) in
      full_prev ← (if at_head then (ok ← _quicklistNodeAllowInsert (prev n) fill (zlen v); mret (negb ok)) else mret false);
      _ ← (if negb full && after then
             _ ← quicklistDecompressNodeForUse (Some p);
             b ← block p;
             at_ ← lift (ezi entry);
             nxt ← lift (ziplistNext b at_);
             b ← lift match nxt with
                      | None => ziplistPush junk b v ZIPLIST_TAIL
                      | Some nxt => ziplistInsert junk b nxt v
                      end;
             _ ← modify p (fun n => set_zl n (Some b));
             _ ← modify p (fun n => set_ncount n (ncount n + 1));
             _ ← quicklistNodeUpdateSz p;
             quicklistRecompressOnly p
           else if negb full && negb after then
             _ ← quicklistDecompressNodeForUse (Some p);
             b ← block p;
             at_ ← lift (ezi entry);
             b ← lift (ziplistInsert junk b at_ v);
             _ ← modify p (fun n => set_zl n (Some b));
             _ ← modify p (fun n => set_ncount n (ncount n + 1));
             _ ← quicklistNodeUpdateSz p;
             quicklistRecompressOnly p
           else if full && at_tail && bool_decide (is_Some (next n)) && negb full_next && after then
             y ← lift (next n);
             _ ← quicklistDecompressNodeForUse (Some y);
             _ ← push_zl y v ZIPLIST_HEAD;
             _ ← modify y (fun n => set_ncount n (ncount n + 1));
             _ ← quicklistNodeUpdateSz y;
             quicklistRecompressOnly y
           else if full && at_head && bool_decide (is_Some (prev n)) && negb full_prev && negb after then
             y ← lift (prev n);
             _ ← quicklistDecompressNodeForUse (Some y);
             _ ← push_zl y v ZIPLIST_TAIL;
             _ ← modify y (fun n => set_ncount n (ncount n + 1));
             _ ← quicklistNodeUpdateSz y;
             quicklistRecompressOnly y
           else if full && ((at_tail && bool_decide (is_Some (next n)) && full_next && after) ||
                            (at_head && bool_decide (is_Some (prev n)) && full_prev && negb after)) then
             new_node ← quicklistCreateNode;
             _ ← new_zl new_node v ZIPLIST_HEAD;
             _ ← modify new_node (fun n => set_ncount n (ncount n + 1));
             _ ← quicklistNodeUpdateSz new_node;
             __quicklistInsertNode (Some p) new_node after
           else if full then
             _ ← quicklistDecompressNodeForUse (Some p);
             new_node ← _quicklistSplitNode p (eoffset entry) after;
             _ ← push_zl new_node v (if after then ZIPLIST_HEAD else ZIPLIST_TAIL);
             _ ← modify new_node (fun n => set_ncount n (ncount n + 1));
             _ ← quicklistNodeUpdateSz new_node;
             _ ← __quicklistInsertNode (Some p) new_node after;
             _quicklistMergeNodes p
           else mret tt);
      modify_ql (fun q => set_count q (count q + 1))
  end.

Definition quicklistInsertBefore (entry : quicklistEntry) (v : list Z) : M unit := _quicklistInsert entry v false.
Definition quicklistInsertAfter (entry : quicklistEntry) (v : list Z) : M unit := _quicklistInsert entry v true.

(** ** Deletion of a range *)

Definition quicklistDeleteIfEmpty (p : nat) : M ptr :=
  n ← load p; if ncount n =? 0 then _ ← __quicklistDelNode p; mret None else mret (Some p).

(** The loop of [quicklistDelRange]; every round goes to the next node. *)
Fixpoint delrange_loop (fuel : nat) (node : ptr) (extent offset : Z) : M unit :=
  match fuel with
  | O => undef
  | S fuel =>
      if extent =? 0 then mret tt
      else
        p ← lift node;
        n ← load p;
        let '(delete_entire_node, del) :=
          if (offset =? 0) && (extent >=? ncount n) then (true, ncount n)
          else if (offset >=? 0) && (extent >=? ncount n) then (false, u64 (ncount n - offset))
          else if offset <? 0 then (false, if - offset >? extent then extent else - offset)
          else (false, extent) in
        _ ← (if delete_entire_node : bool then __quicklistDelNode p
             else
               _ ← quicklistDecompressNodeForUse (Some p);
               b ← block p;
               b ← lift (ziplistDeleteRange junk b offset (u32 del));
               _ ← modify p (fun n => set_zl n (Some b));
               _ ← quicklistNodeUpdateSz p;
               _ ← modify p (fun n => set_ncount n (ncount n - del));
               _ ← modify_ql (fun q => set_count q (count q - del));
               r ← quicklistDeleteIfEmpty p;
               match r with Some p => quicklistRecompressOnly p | None => mret tt end);
        delrange_loop fuel (next n) (u64 (extent - del)) 0
  end.

Definition quicklistDelRange (start cnt : Z) : M bool :=
  if cnt <=? 0 then mret false
  else
    q ← this;
    let extent :=
      if (start >=? 0) && (cnt >? u64 (count q - start)) then u64 (count q - start)
      else if (start <? 0) && (cnt >? - start) then - start
      else cnt in
    '(ok, entry) ← quicklistIndex start;
    if ok : bool then
      s ← get;
      _ ← delrange_loop (S (size (nodes s))) (enode entry) extent (eoffset entry);
      mret true
    else mret false.

Definition quicklistCompare (b : list Z) (p1 : Z) (p2 : list Z) : option bool := ziplistCompare b p1 p2.

(** ** Iterators *)

Definition quicklistGetIterator (dir : Z) : M quicklistIter :=
  q ← this;
  if dir =? AL_START_HEAD then mret (mkIter (head q) None 0 dir)
  else if dir =? AL_START_TAIL then mret (mkIter (tail q) None (-1) dir)
  else undef.

Definition quicklistGetIteratorAtIdx (dir idx : Z) : M (option quicklistIter) :=
  '(ok, entry) ← quicklistIndex idx;
  if ok : bool then
    base ← quicklistGetIterator dir;
    mret (Some (mkIter (enode entry) None (eoffset entry) (direction base)))
  else mret None.

Definition quicklistReleaseIterator (iter : quicklistIter) : M unit :=
  match current iter with Some p => quicklistCompress p | None => mret tt end.

(** The recursive calls go from node to node. *)
Fixpoint next_loop (fuel : nat) (iter : quicklistIter) : M (bool * quicklistIter * quicklistEntry) :=
  match fuel with
  | O => undef
  | S fuel =>
      match current iter with
      | None => mret (false, iter, initEntry)
      | Some p =>
          iter ← match zi iter with
                 | None =>
                     _ ← quicklistDecompressNodeForUse (Some p);
                     b ← block p;
                     at_ ← lift (ziplistIndex b (s32 (ioffset iter)));
                     mret (mkIter (current iter) at_ (ioffset iter) (direction iter))
                 | Some at_ =>
                     b ← block p;
                     if direction iter =? AL_START_HEAD then
                       at_ ← lift (ziplistNext b at_);
                       mret (mkIter (current iter) at_ (ioffset iter + 1) (direction iter))
                     else if direction iter =? AL_START_TAIL then
                       at_ ← lift (ziplistPrev b at_);
                       mret (mkIter (current iter) at_ (ioffset iter + -1) (direction iter))
                     else undef
                 end;
          match zi iter with
          | Some at_ =>
              b ← block p;
              e ← lift (fill_entry (mkEntry (Some p) (Some at_) None (longval initEntry) (esz initEntry) (s32 (ioffset iter))) b);
              mret (true, iter, e)
          | None =>
              _ ← quicklistCompress p;
              n ← load p;
              next_loop fuel
                (if direction iter =? AL_START_HEAD then mkIter (next n) None 0 (direction iter)
                 else if direction iter =? AL_START_TAIL then mkIter (prev n) None (-1) (direction iter)
                 else mkIter (current iter) None (ioffset iter) (direction iter))
          end
      end
  end.

Definition quicklistNext (iter : option quicklistIter) : M (bool * option quicklistIter * quicklistEntry) :=
  match iter with
  | None => mret (false, None, initEntry)
  | Some iter => s ← get; '(ok, iter, e) ← next_loop (S (size (nodes s))) iter; mret (ok, Some iter, e)
  end.

(** ** Copying, rotating, popping *)

(** The loop of [quicklistDup], over the nodes of [orig]. *)
Fixpoint dup_loop (fuel : nat) (orig : store) (cur : ptr) : M unit :=
  match fuel with
  | O => undef
  | S fuel =>
      match cur with
      | None => mret tt
      | Some c =>
          x ← lift (nodes orig !! c);
          node ← quicklistCreateNode;
          b ← lift (zl x);
          copy ← (if encoding x =? QUICKLIST_NODE_ENCODING_LZF then
                    lsz ← lift (le_decode <$> mread b 0 4); copy ← lift (mread b 0 (Z.to_nat (4 + lsz))); mret (Some copy)
                  else if encoding x =? QUICKLIST_NODE_ENCODING_RAW then
                    copy ← lift (mread b 0 (Z.to_nat (sz x))); mret (Some copy)
                  else mret None);
          _ ← modify node (fun n => set_zl n copy);
          _ ← modify node (fun n => set_ncount n (ncount x));
          _ ← modify_ql (fun q => set_count q (count q + ncount x));
          _ ← modify node (fun n => set_encoding (set_sz n (sz x)) (encoding x));
          q ← this;
          _ ← _quicklistInsertNodeAfter (tail q) node;
          dup_loop fuel orig (next x)
      end
  end.

Definition quicklistDup (orig : store) : outcome (store * unit) :=
  dup_loop (S (size (nodes orig))) orig (head (ql orig)) (quicklistNew (fill (ql orig)) (compress (ql orig))).

(** [value] still points into the block of the tail when it is pushed: if the
    head is the same node and takes the value, [ziplistPush] reallocates that
    block before it copies the value from it. *)
Definition quicklistRotate : M unit :=
  q ← this;
  if count q <=? 1 then mret tt
  else
    t ← lift (tail q);
    b ← block t;
    p ← lift (ziplistIndex b (-1));
    f ← lift (ziplistGet b p);
    f ← lift f;
    v ← lift (printed b f);
    ok ← _quicklistNodeAllowInsert (head q) (fill q) (zlen v);
    _ ← match f with
        | FoundStr _ slen => if ok && bool_decide (head q = tail q) && negb (slen =? 0) then undef else mret tt
        | FoundInt _ => mret tt
        end;
    _ ← quicklistPushHead v;
    q ← this;
    p ← (if len q =? 1 then (t ← lift (tail q); b ← block t; lift (ziplistIndex b (-1))) else mret p);
    t ← lift (tail q);
    p ← lift p;
    _ ← quicklistDelIndex t p;
    mret tt.

(** The return value, and [*data], [*sz] and [*sval] unless they are left alone. *)
Definition quicklistPopCustom {A} (saver : list Z -> A) (where_ : Z) : M (bool * option (option A * Z * Z)) :=
  q ← this;
  let pos := if where_ =? QUICKLIST_HEAD then 0 else -1 in
  if count q =? 0 then mret (false, None)
  else
    match (if (where_ =? QUICKLIST_HEAD) && bool_decide (is_Some (head q)) then head q
           else if (where_ =? QUICKLIST_TAIL) && bool_decide (is_Some (tail q)) then tail q
           else None) with
    | None => mret (false, Some (None, 0, -123456789))
    | Some p =>
        b ← block p;
        at_ ← lift (ziplistIndex b pos);
        f ← lift (ziplistGet b at_);
        match f with
        | None => mret (false, Some (None, 0, -123456789))
        | Some f =>
            r ← match f with
                | FoundStr sstr slen => (v ← lift (mread b sstr (Z.to_nat slen)); mret (true, Some (Some (saver v), slen, -123456789)))
                | FoundInt v => mret (true, Some (None, 0, v))
                end;
            at_ ← lift at_;
            _ ← quicklistDelIndex p at_;
            mret r
        end
    end.

Definition _quicklistSaver (data : list Z) : list Z := data.

Definition quicklistPop (where_ : Z) : M (bool * option (option (list Z) * Z * Z)) :=
  q ← this;
  if count q =? 0 then mret (false, None) else quicklistPopCustom _quicklistSaver where_.

End operations.
End Quicklist.
