(* ===== verification/QuicklistHeap.v ===== *)
(** The heap of a quicklist as a list of nodes: what the nodes hold, linked by
    their positions, and the rules for reading, changing, linking and
    unlinking a node. *)

From stdpp Require Import gmap.
From S2P Require Import Prelude UtilNum Ziplist Lzf Effects Quicklist.

#[local] Open Scope Z_scope.

Module QuicklistHeap.
Import Quicklist.
#[local] Notation zlen l := (Z.of_nat (length l)) (only parsing).

(** A node with its address and the strings it stands for; the pointers in
    [inode] do not count. *)
Record item := mkItem { iid : nat; inode : quicklistNode; iseg : list (list Z) }.

Abbreviation ids xs := (iid <$> xs) (only parsing).

Definition link (p n : ptr) (x : quicklistNode) : quicklistNode :=
  mkNode p n (zl x) (sz x) (ncount x) (encoding x) (container x) (recompress x).

Definition first_or (xs : list item) (e : ptr) : ptr := match xs with [] => e | x :: _ => Some (iid x) end.
Definition last_or (p : ptr) (xs : list item) : ptr := match last xs with Some x => Some (iid x) | None => p end.

(** The nodes [xs] in a row, between [p] and [e]. *)
Fixpoint heap_seg (p : ptr) (xs : list item) (e : ptr) : gmap nat quicklistNode :=
  match xs with
  | [] => ∅
  | x :: xs => <[iid x := link p (first_or xs e) (inode x)]> (heap_seg (Some (iid x)) xs e)
  end.

Lemma last_or_cons p x xs : last_or p (x :: xs) = last_or (Some (iid x)) xs.
Proof. unfold last_or. rewrite last_cons. by destruct (last xs). Qed.

Lemma last_or_snoc p xs x : last_or p (xs ++ [x]) = Some (iid x).
Proof. unfold last_or. by rewrite last_snoc. Qed.

Lemma first_or_app a b e : first_or (a ++ b) e = first_or a (first_or b e).
Proof. by destruct a. Qed.

Lemma last_or_app p a b : last_or p (a ++ b) = last_or (last_or p a) b.
Proof. unfold last_or. rewrite last_app. by destruct (last b). Qed.

Lemma heap_seg_app a : forall p b e,
  heap_seg p (a ++ b) e = heap_seg p a (first_or b e) ∪ heap_seg (last_or p a) b e.
Proof.
  induction a as [|x a IH]; intros p b e; cbn [app heap_seg].
  - by rewrite (left_id_L ∅ (∪)).
  - by rewrite IH, first_or_app, last_or_cons, insert_union_l.
Qed.

Lemma heap_seg_None xs i : forall p e, i ∉ ids xs -> heap_seg p xs e !! i = None.
Proof.
  induction xs as [|x xs IH]; intros p e Hi; cbn [heap_seg]; [done|]. cbn [fmap list_fmap] in Hi.
  apply not_elem_of_cons in Hi as [Hne Hi]. rewrite lookup_insert_ne by done. by apply IH.
Qed.

Lemma heap_seg_mid p a x b e : NoDup (ids (a ++ x :: b)) ->
  heap_seg p (a ++ x :: b) e !! iid x = Some (link (last_or p a) (first_or b e) (inode x)).
Proof.
  rewrite fmap_app, fmap_cons. intros [_ [Ha _]]%NoDup_app. rewrite heap_seg_app. cbn [heap_seg first_or].
  rewrite lookup_union_r; [by rewrite lookup_insert_eq|]. apply heap_seg_None. intros Hin. apply (Ha (iid x)); [done|]. constructor.
Qed.

(** Another node at the same address. *)
Lemma heap_seg_put p a x x' b e : iid x' = iid x -> NoDup (ids (a ++ x :: b)) ->
  <[iid x := link (last_or p a) (first_or b e) (inode x')]> (heap_seg p (a ++ x :: b) e) = heap_seg p (a ++ x' :: b) e.
Proof.
  intros Hid. rewrite fmap_app, fmap_cons. intros [_ [Ha _]]%NoDup_app. rewrite !heap_seg_app. cbn [heap_seg first_or]. rewrite Hid.
  rewrite insert_union_r by (apply heap_seg_None; intros Hin; apply (Ha (iid x)); [done|constructor]). by rewrite insert_insert_eq.
Qed.

(** Other pointers at the ends of a row. *)
Lemma heap_seg_first p p' x b e :
  <[iid x := link p' (first_or b e) (inode x)]> (heap_seg p (x :: b) e) = heap_seg p' (x :: b) e.
Proof. cbn [heap_seg]. by rewrite insert_insert_eq. Qed.

Lemma heap_seg_last p a x e e' : NoDup (ids (a ++ [x])) ->
  <[iid x := link (last_or p a) e' (inode x)]> (heap_seg p (a ++ [x]) e) = heap_seg p (a ++ [x]) e'.
Proof.
  rewrite fmap_app. intros [_ [Ha _]]%NoDup_app. rewrite !heap_seg_app. cbn [heap_seg first_or].
  rewrite insert_union_r by (apply heap_seg_None; intros Hin; apply (Ha (iid x)); [done|constructor]). by rewrite insert_insert_eq.
Qed.

(** ** States *)

(** Addresses of the row are distinct and not among the other nodes [R]. *)
Record apart (js : list nat) (R : gmap nat quicklistNode) : Prop := mkApart {
  ap_nodup : NoDup js;
  ap_rest : forall i, i ∈ js -> R !! i = None }.

(** The quicklist of the nodes [xs], with the remaining fields. *)
Definition qlist (xs : list item) (cnt ln fl c : Z) (bm : list quicklistBookmark) : quicklist :=
  mkQl (first_or xs None) (last_or None xs) cnt ln fl c bm.

(** A row on the heap beside [R]. *)
Definition row (xs : list item) (R : gmap nat quicklistNode) (k : nat) (q : quicklist) : store :=
  mkStore (heap_seg None xs None ∪ R) k q.

Section row.
Context (xs : list item) (R : gmap nat quicklistNode) (k : nat) (q : quicklist) (Hap : apart (ids xs) R).

Lemma row_lookup a x b : xs = a ++ x :: b ->
  nodes (row xs R k q) !! iid x = Some (link (last_or None a) (first_or b None) (inode x)).
Proof using Hap.
  intros ->. destruct Hap as [Hn _]. cbn [row nodes]. apply lookup_union_Some_l. by apply heap_seg_mid.
Qed.

Lemma row_load a x b : xs = a ++ x :: b ->
  load (iid x) (row xs R k q) = Done (row xs R k q, link (last_or None a) (first_or b None) (inode x)).
Proof using Hap. intros Hx. unfold load. rewrite bind_get. unfold lift. by rewrite (row_lookup _ _ _ Hx). Qed.

(** Changes that leave the pointers alone. *)
Lemma row_modify a x b f seg : xs = a ++ x :: b -> (forall p n y, f (link p n y) = link p n (f y)) ->
  modify (iid x) f (row xs R k q) = Done (row (a ++ mkItem (iid x) (f (inode x)) seg :: b) R k q, tt).
Proof using Hap.
  intros Hx Hf. unfold modify. rewrite (bind_done _ _ _ _ _ (row_load _ _ _ Hx)), bind_get. unfold put. do 2 f_equal.
  subst xs. destruct Hap as [Hn _]. unfold row. cbn [nodes brk ql]. f_equal. rewrite insert_union_l, Hf. f_equal.
  by apply (heap_seg_put None a x (mkItem (iid x) (f (inode x)) seg) b None).
Qed.

End row.

Lemma mkStore_eta s : mkStore (nodes s) (brk s) (ql s) = s.
Proof. by destruct s. Qed.

Lemma this_row xs R k q : this (row xs R k q) = Done (row xs R k q, q).
Proof. done. Qed.

Lemma modify_ql_row xs R k q f : modify_ql f (row xs R k q) = Done (row xs R k (f q), tt).
Proof. done. Qed.

Lemma apart_put a x x' b R : iid x' = iid x -> apart (ids (a ++ x :: b)) R -> apart (ids (a ++ x' :: b)) R.
Proof. intros Hid. by rewrite !fmap_app, !fmap_cons, Hid. Qed.

Lemma apart_drop a x b R : apart (ids (a ++ x :: b)) R -> apart (ids (a ++ b)) R /\ iid x ∉ ids (a ++ b) /\ R !! iid x = None.
Proof.
  rewrite !fmap_app, fmap_cons. intros [Hn HR]. rewrite <- Permutation_middle in Hn. apply NoDup_cons in Hn as [Hx Hn].
  split_and!; [|done|apply HR; set_solver]. split; [done|]. intros i Hi. apply HR. set_solver.
Qed.

Lemma apart_add a x b R : apart (ids (a ++ b)) R -> iid x ∉ ids (a ++ b) -> R !! iid x = None -> apart (ids (a ++ x :: b)) R.
Proof.
  rewrite !fmap_app, fmap_cons. intros [Hn HR] Hx HRx. split.
  - rewrite <- Permutation_middle. by constructor.
  - intros i Hi. destruct (decide (i = iid x)) as [->|Hne]; [done|]. apply HR. set_solver.
Qed.

(** ** Linking and unlinking *)

(** Two rows [a] and [b], with any pointers where they meet. *)
Definition two_rows (a : list item) (e p : ptr) (b : list item) (R : gmap nat quicklistNode) (k : nat) (q : quicklist) : store :=
  mkStore (heap_seg None a e ∪ (heap_seg p b None ∪ R)) k q.

Lemma row_two a b R k q : row (a ++ b) R k q = two_rows a (first_or b None) (last_or None a) b R k q.
Proof. unfold row, two_rows. by rewrite heap_seg_app, (assoc_L (∪)). Qed.

(** A node taken out of the row. *)
Lemma row_out a x b R k q : apart (ids (a ++ x :: b)) R ->
  row (a ++ x :: b) R k q = two_rows a (Some (iid x)) (Some (iid x)) b
    (<[iid x := link (last_or None a) (first_or b None) (inode x)]> R) k q.
Proof.
  intros Hap. destruct (apart_drop _ _ _ _ Hap) as (_ & Hx & _). rewrite row_two. unfold two_rows. f_equal. f_equal.
  cbn [heap_seg first_or]. rewrite <- insert_union_l. apply insert_union_r. apply heap_seg_None.
  rewrite fmap_app in Hx. set_solver.
Qed.

Section two.
Context (a b : list item) (R : gmap nat quicklistNode) (k : nat) (q : quicklist) (Hap : apart (ids (a ++ b)) R).

Lemma two_first e p p' :
  match first_or b None with Some y => modify y (fun n => set_prev n p') | None => mret tt end (two_rows a e p b R k q) =
  Done (two_rows a e p' b R k q, tt).
Proof using Hap.
  destruct b as [|y b']; [done|]. cbn [first_or]. destruct Hap as [Hn _]. rewrite fmap_app, fmap_cons in Hn.
  apply NoDup_app in Hn as (_ & Ha & Hb). apply NoDup_cons in Hb as [Hy _].
  assert (heap_seg None a e !! iid y = None) as Hya by (apply heap_seg_None; intros Hin; apply (Ha _ Hin); constructor).
  unfold modify, load. rewrite bind_assoc, bind_get. unfold two_rows at 1. cbn [nodes].
  rewrite lookup_union_r by done. rewrite lookup_union_l' by (cbn [heap_seg]; rewrite lookup_insert_eq; by eexists).
  cbn [heap_seg]. rewrite lookup_insert_eq, bind_lift, bind_get. unfold put, two_rows. cbn [nodes brk ql]. do 3 f_equal.
  rewrite insert_union_r by done. f_equal. rewrite insert_union_l. f_equal. apply (heap_seg_first p p').
Qed.

Lemma two_last e e' p :
  match last_or None a with Some y => modify y (fun n => set_next n e') | None => mret tt end (two_rows a e p b R k q) =
  Done (two_rows a e' p b R k q, tt).
Proof using Hap.
  destruct a as [|u a' _] using rev_ind; [done|]. rewrite last_or_snoc. destruct Hap as [Hn _]. rewrite fmap_app in Hn.
  apply NoDup_app in Hn as (Hn & _ & _).
  assert (heap_seg None (a' ++ [u]) e !! iid u = Some (link (last_or None a') e (inode u))) as Hu by (by apply (heap_seg_mid None a' u [] e)).
  unfold modify, load. rewrite bind_assoc, bind_get. unfold two_rows at 1. cbn [nodes].
  rewrite (lookup_union_Some_l _ _ _ _ Hu), bind_lift, bind_get. unfold put, two_rows. cbn [nodes brk ql]. do 3 f_equal.
  rewrite insert_union_l. f_equal. by apply heap_seg_last.
Qed.

Lemma two_load_last a' u e p : a = a' ++ [u] ->
  load (iid u) (two_rows a e p b R k q) = Done (two_rows a e p b R k q, link (last_or None a') e (inode u)).
Proof using Hap.
  intros ->. destruct Hap as [Hn _]. rewrite fmap_app in Hn. apply NoDup_app in Hn as (Hn & _ & _).
  unfold load. rewrite bind_get. cbn [two_rows nodes]. unfold lift.
  by rewrite (lookup_union_Some_l _ _ _ _ (heap_seg_mid None a' u [] e Hn)).
Qed.

Lemma two_load_first v b' e p : b = v :: b' ->
  load (iid v) (two_rows a e p b R k q) = Done (two_rows a e p b R k q, link p (first_or b' None) (inode v)).
Proof using Hap.
  intros ->. destruct Hap as [Hn _]. rewrite fmap_app in Hn. apply NoDup_app in Hn as (_ & Ha & Hn).
  unfold load. rewrite bind_get. cbn [two_rows nodes]. unfold lift.
  rewrite lookup_union_r by (apply heap_seg_None; intros Hin; apply (Ha _ Hin); constructor).
  by rewrite (lookup_union_Some_l _ _ _ _ (heap_seg_mid p [] v b' None Hn)).
Qed.

(** The node beside the rows. *)
Lemma two_rest e p i n f : R !! i = Some n -> modify i f (two_rows a e p b R k q) = Done (two_rows a e p b (<[i := f n]> R) k q, tt).
Proof using Hap.
  intros Hi. assert (i ∉ ids (a ++ b)) as Hni by (intros Hin; destruct Hap as [_ HR]; rewrite (HR _ Hin) in Hi; done).
  rewrite fmap_app in Hni. assert (heap_seg None a e !! i = None) as Ha by (apply heap_seg_None; set_solver).
  assert (heap_seg p b None !! i = None) as Hb by (apply heap_seg_None; set_solver).
  unfold modify, load. rewrite bind_assoc, bind_get. unfold two_rows at 1. cbn [nodes].
  rewrite !lookup_union_r, Hi, bind_lift, bind_get by done. unfold put, two_rows. cbn [nodes brk ql]. do 3 f_equal.
  by rewrite !insert_union_r.
Qed.

End two.

(** Back into the row. *)
Lemma row_in a x b R k q : apart (ids (a ++ b)) R -> iid x ∉ ids (a ++ b) ->
  two_rows a (Some (iid x)) (Some (iid x)) b (<[iid x := link (last_or None a) (first_or b None) (inode x)]> R) k q =
  row (a ++ x :: b) R k q.
Proof.
  intros [Hn HR] Hx. rewrite row_two. unfold two_rows. f_equal. f_equal. cbn [heap_seg first_or].
  rewrite <- insert_union_l. symmetry. apply insert_union_r. apply heap_seg_None. rewrite fmap_app in Hx. set_solver.
Qed.

Lemma last_is_first a u b : NoDup (ids ((a ++ [u]) ++ b)) -> last_or None ((a ++ [u]) ++ b) = Some (iid u) -> b = [].
Proof.
  intros Hn. destruct b as [|v b _] using rev_ind; [done|]. rewrite last_or_app, last_or_snoc. intros [= Huv].
  rewrite fmap_app in Hn. apply NoDup_app in Hn as (_ & Hd & _). exfalso. apply (Hd (iid u)); set_solver.
Qed.

Lemma first_is_last a v b : NoDup (ids (a ++ v :: b)) -> first_or (a ++ v :: b) None = Some (iid v) -> a = [].
Proof.
  intros Hn. destruct a as [|u a]; [done|]. cbn [app first_or]. intros [= Huv]. cbn [app fmap list_fmap] in Hn.
  apply NoDup_cons in Hn as [Hu _]. exfalso. apply Hu. rewrite Huv. set_solver.
Qed.

Lemma apart_beside js i n R : apart js R -> i ∉ js -> apart js (<[i := n]> R).
Proof.
  intros [Hn HR] Hi. split; [done|]. intros j Hj. rewrite lookup_insert_ne; [by apply HR|]. intros He. subst j. done.
Qed.

Lemma bind_modify_ql {B} f (g : unit -> M B) s :
  (modify_ql f ≫= g) s = g tt (mkStore (nodes s) (brk s) (f (ql s))).
Proof. done. Qed.

Lemma row_ql xs R k q q' : mkStore (nodes (row xs R k q)) (brk (row xs R k q)) q' = row xs R k q'.
Proof. done. Qed.

Lemma bind_modify_row {B} f (g : unit -> M B) xs R k q : (modify_ql f ≫= g) (row xs R k q) = g tt (row xs R k (f q)).
Proof. done. Qed.

Section insert.
Context (junk : nat -> Z) (htab : Z -> Z) (a b : list item) (x : item) (R : gmap nat quicklistNode) (k : nat).
Context (cnt fl c : Z) (bm : list quicklistBookmark).
Hypothesis (Hap : apart (ids (a ++ b)) R) (Hnew : iid x ∉ ids (a ++ b)).
Hypothesis (Hprev : prev (inode x) = None) (Hnext : next (inode x) = None).

(** The second half of [__quicklistInsertNode]. *)
Definition linked (old : ptr) : outcome (store * unit) :=
  (_ ← match old with Some o => quicklistCompress junk htab o | None => mret tt end; modify_ql (fun q => set_len q (len q + 1)))
  (row (a ++ x :: b) R k (qlist (a ++ x :: b) cnt (zlen (a ++ b)) fl c bm)).

Lemma insert_after : a <> [] \/ b = [] ->
  __quicklistInsertNode junk htab (last_or None a) (iid x) true
    (row (a ++ b) (<[iid x := inode x]> R) k (qlist (a ++ b) cnt (zlen (a ++ b)) fl c bm)) = linked (last_or None a).
Proof using Hap Hnew Hprev Hnext.
  intros Hab. pose proof (fun n => apart_beside _ _ n _ Hap Hnew) as Hapn.
  unfold __quicklistInsertNode, linked. rewrite <- (row_in a x b R) by done. rewrite row_two.
  rewrite bind_assoc, (bind_done _ _ _ _ _ (two_rest a b _ k _ (Hapn _) _ _ (iid x) (inode x) _ (lookup_insert_eq _ _ _))), insert_insert_eq.
  destruct a as [|u a' _] using rev_ind.
  { destruct Hab as [|Hb]; [done|]. subst b. assert (set_prev (inode x) None = link None None (inode x)) as Hs.
    { destruct (inode x). cbn in *. by subst. }
    change (last_or None []) with (@None nat). rewrite bind_assoc, bind_ret, Hs. done. }
  pose proof (two_last (a' ++ [u]) b) as HL. rewrite last_or_snoc in HL |- *.
  rewrite !bind_assoc, (bind_done _ _ _ _ _ (two_load_last _ b _ k _ (Hapn _) a' u _ _ eq_refl)). cbn [link next].
  rewrite bind_assoc, (bind_done _ _ _ _ _ (two_rest _ b _ k _ (Hapn _) _ _ (iid x) _ _ (lookup_insert_eq _ _ _))), insert_insert_eq.
  rewrite bind_assoc, (bind_done _ _ _ _ _ (two_first _ b _ k _ (Hapn _) _ _ _)).
  rewrite (bind_done _ _ _ _ _ (HL _ k _ (Hapn _) _ _ _)), !bind_modify_ql. cbn [two_rows nodes brk ql].
  destruct (Z.eqb_spec (len (if bool_decide (tail (qlist ((a' ++ [u]) ++ b) cnt (zlen ((a' ++ [u]) ++ b)) fl c bm) = Some (iid u))
    then set_tail (qlist ((a' ++ [u]) ++ b) cnt (zlen ((a' ++ [u]) ++ b)) fl c bm) (Some (iid x)) else
    qlist ((a' ++ [u]) ++ b) cnt (zlen ((a' ++ [u]) ++ b)) fl c bm)) 0) as [H0|_].
  { exfalso. destruct (bool_decide _) in H0; cbn [set_tail qlist len] in H0; rewrite !length_app in H0; cbn [length] in H0; lia. }
  cbn [qlist tail]. unfold two_rows. do 2 f_equal.
  destruct (bool_decide_reflect (last_or None ((a' ++ [u]) ++ b) = Some (iid u))) as [Hl|Hl].
  - apply last_is_first in Hl; [|by destruct Hap]. subst b. unfold set_tail, qlist. cbn.
    rewrite app_nil_r, !first_or_app, !last_or_app. done.
  - destruct b as [|v b']; [by rewrite app_nil_r, last_or_snoc in Hl|].
    unfold qlist. by rewrite !first_or_app, !last_or_app, !last_or_cons.
Qed.

Lemma insert_before : b <> [] \/ a = [] ->
  __quicklistInsertNode junk htab (first_or b None) (iid x) false
    (row (a ++ b) (<[iid x := inode x]> R) k (qlist (a ++ b) cnt (zlen (a ++ b)) fl c bm)) = linked (first_or b None).
Proof using Hap Hnew Hprev Hnext.
  intros Hab. pose proof (fun n => apart_beside _ _ n _ Hap Hnew) as Hapn.
  unfold __quicklistInsertNode, linked. rewrite <- (row_in a x b R) by done. rewrite row_two.
  rewrite bind_assoc, (bind_done _ _ _ _ _ (two_rest a b _ k _ (Hapn _) _ _ (iid x) (inode x) _ (lookup_insert_eq _ _ _))), insert_insert_eq.
  destruct b as [|v b'].
  { destruct Hab as [|Hb]; [done|]. subst a. assert (set_next (inode x) None = link None None (inode x)) as Hs.
    { destruct (inode x). cbn in *. by subst. }
    cbn [first_or]. change (last_or None []) with (@None nat). rewrite bind_assoc, bind_ret, Hs. done. }
  pose proof (two_first a (v :: b')) as HF. cbn [first_or] in HF |- *.
  rewrite !bind_assoc, (bind_done _ _ _ _ _ (two_load_first a _ _ k _ (Hapn _) v b' _ _ eq_refl)). cbn [link prev].
  rewrite bind_assoc, (bind_done _ _ _ _ _ (two_rest a _ _ k _ (Hapn _) _ _ (iid x) _ _ (lookup_insert_eq _ _ _))), insert_insert_eq.
  rewrite bind_assoc, (bind_done _ _ _ _ _ (two_last a _ _ k _ (Hapn _) _ _ _)).
  rewrite (bind_done _ _ _ _ _ (HF _ k _ (Hapn _) _ _ _)), !bind_modify_ql. cbn [two_rows nodes brk ql].
  destruct (Z.eqb_spec (len (if bool_decide (head (qlist (a ++ v :: b') cnt (zlen (a ++ v :: b')) fl c bm) = Some (iid v))
    then set_head (qlist (a ++ v :: b') cnt (zlen (a ++ v :: b')) fl c bm) (Some (iid x)) else
    qlist (a ++ v :: b') cnt (zlen (a ++ v :: b')) fl c bm)) 0) as [H0|_].
  { exfalso. destruct (bool_decide _) in H0; cbn [set_head qlist len] in H0; rewrite !length_app in H0; cbn [length] in H0; lia. }
  cbn [qlist head]. unfold two_rows. do 2 f_equal.
  destruct (bool_decide_reflect (first_or (a ++ v :: b') None = Some (iid v))) as [Hl|Hl].
  - apply first_is_last in Hl; [|by destruct Hap]. subst a. unfold set_head, qlist. cbn. by rewrite !last_or_cons.
  - destruct a as [|u a']; [done|]. unfold qlist. by rewrite !first_or_app, !last_or_app, !last_or_cons.
Qed.

End insert.

(** The first half of [__quicklistDelNode]: the bookmarks are not followed. *)
Lemma unlink_row junk htab a x b R k cnt ln fl c bm : apart (ids (a ++ x :: b)) R ->
  exists bm', __quicklistDelNode junk htab (iid x) (row (a ++ x :: b) R k (qlist (a ++ x :: b) cnt ln fl c bm)) =
    (_ ← __quicklistCompress junk htab None;
     n ← load (iid x);
     _ ← modify_ql (fun q => set_count q (count q - ncount n));
     _ ← zfree (iid x);
     modify_ql (fun q => set_len q (len q - 1)))
    (row (a ++ b) (<[iid x := link (last_or None a) (first_or b None) (inode x)]> R) k (qlist (a ++ b) cnt ln fl c bm')).
Proof.
  intros Hap. destruct (apart_drop _ _ _ _ Hap) as (Hap' & Hx & HR).
  set (q := qlist (a ++ x :: b) cnt ln fl c bm). unfold __quicklistDelNode.
  rewrite (bind_done _ _ _ _ _ (this_row _ _ _ _)), (bind_done _ _ _ _ _ (row_load _ _ k q Hap a x b eq_refl)). cbn [link next prev].
  assert (exists bm', forall (g : unit -> M unit),
    (match _quicklistBookmarkFindByNode q (iid x) with
     | Some i =>
         match first_or b None with
         | Some y => modify_ql (fun q => set_bookmark q i (Some y))
         | None => modify_ql (fun q => _quicklistBookmarkDelete q i)
         end
     | None => mret tt
     end ≫= g) (row (a ++ x :: b) R k q) = g tt (row (a ++ x :: b) R k (set_bookmarks q bm'))) as [bm' Hbm].
  { destruct (_quicklistBookmarkFindByNode q (iid x)) as [i|].
    - destruct (first_or b None); eexists; intros g; rewrite bind_modify_ql, row_ql; done.
    - exists bm. intros g. by rewrite bind_ret. }
  rewrite Hbm. exists bm'. rewrite (row_out a x b R k) by done.
  pose proof (apart_beside _ _ (link (last_or None a) (first_or b None) (inode x)) _ Hap' Hx) as Hapx.
  rewrite (bind_done _ _ _ _ _ (two_first a b _ k _ Hapx _ _ _)), (bind_done _ _ _ _ _ (two_last a b _ k _ Hapx _ _ _)).
  rewrite <- row_two, !bind_modify_ql, !row_ql. do 2 f_equal. subst q. unfold set_bookmarks, qlist. cbn [row ql tail head].
  assert (NoDup (ids (a ++ x :: b))) as Hn by (by destruct Hap).
  destruct (bool_decide_reflect (Some (iid x) = last_or None (a ++ x :: b))) as [Hl|Hl].
  all: cbn [set_tail tail head].
  all: destruct (bool_decide_reflect (Some (iid x) = first_or (a ++ x :: b) None)) as [Hf|Hf]; unfold set_tail, set_head; cbn [tail head count len fill compress bookmarks].
  - assert (a = []) as -> by (by apply (first_is_last _ x b)). assert (b = []) as -> by (by apply (last_is_first [] x b)). done.
  - assert (b = []) as ->. { apply (last_is_first a x b); [by rewrite <- app_assoc|]. by rewrite <- app_assoc. }
    destruct a as [|u a']; [done|]. by rewrite app_nil_r.
  - assert (a = []) as -> by (by apply (first_is_last _ x b)). destruct b as [|v b']; [by rewrite (last_or_snoc None []) in Hl|]. cbn [app]. by rewrite !last_or_cons.
  - destruct a as [|u a']; [done|]. destruct b as [|v b' _] using rev_ind; [by rewrite last_or_snoc in Hl|].
    by rewrite !first_or_app, !app_comm_cons, !app_assoc, !last_or_snoc.
Qed.

(** A node that is beside the row. *)
Lemma row_load_rest xs R k q i n : apart (ids xs) R -> R !! i = Some n -> load i (row xs R k q) = Done (row xs R k q, n).
Proof.
  intros [_ HR] Hi. unfold load. rewrite bind_get. cbn [row nodes]. unfold lift. rewrite lookup_union_r, Hi; [done|].
  apply heap_seg_None. intros Hin. by rewrite (HR _ Hin) in Hi.
Qed.

Lemma row_modify_rest xs R k q i n f : apart (ids xs) R -> R !! i = Some n ->
  modify i f (row xs R k q) = Done (row xs (<[i := f n]> R) k q, tt).
Proof.
  intros Hap Hi. pose proof Hap as [_ HR]. unfold modify. rewrite (bind_done _ _ _ _ _ (row_load_rest _ _ _ _ _ _ Hap Hi)), bind_get.
  unfold put, row. cbn [nodes brk ql]. rewrite insert_union_r; [done|]. apply heap_seg_None. intros Hin. by rewrite (HR _ Hin) in Hi.
Qed.

Lemma row_zfree xs R k q i n : apart (ids xs) (<[i := n]> R) -> R !! i = None ->
  zfree i (row xs (<[i := n]> R) k q) = Done (row xs R k q, tt).
Proof.
  intros Hap HR. unfold zfree. rewrite (bind_done _ _ _ _ _ (row_load_rest _ _ _ _ i n Hap (lookup_insert_eq _ _ _))), bind_get.
  unfold put, row. cbn [nodes brk ql]. do 3 f_equal. pose proof Hap as [_ H]. rewrite <- insert_union_r.
  - rewrite delete_insert_id; [done|]. rewrite lookup_union_r; [done|]. apply heap_seg_None. intros Hin. specialize (H _ Hin). by rewrite lookup_insert_eq in H.
  - apply heap_seg_None. intros Hin. specialize (H _ Hin). by rewrite lookup_insert_eq in H.
Qed.

(** A new node beside the row. *)
Lemma row_alloc xs R k q n : (forall i, i ∈ ids xs -> (i < k)%nat) ->
  alloc n (row xs R k q) = Done (row xs (<[k := n]> R) (S k) q, k).
Proof.
  intros Hk. unfold alloc. rewrite bind_get, bind_put. unfold mret, st_ret, row. cbn [nodes brk ql]. do 3 f_equal.
  apply insert_union_r, heap_seg_None. intros Hin. specialize (Hk _ Hin). lia.
Qed.

(** Two changes of one node are one. *)
Lemma modify_modify {B} p f g (K : unit -> M B) s :
  (modify p f ≫= (fun _ => modify p g ≫= K)) s = (modify p (fun n => g (f n)) ≫= K) s.
Proof.
  unfold modify, load. rewrite !bind_assoc, !bind_get. destruct (nodes s !! p) as [n|] eqn:Hp; [|done].
  rewrite !bind_lift, !bind_assoc, !bind_get, !bind_put, !bind_assoc, !bind_get. cbn [nodes]. rewrite lookup_insert_eq.
  rewrite !bind_lift, !bind_assoc, !bind_get, !bind_put. cbn [nodes brk ql]. by rewrite insert_insert_eq.
Qed.

(** ** Changes of one node, wherever it is *)

Definition put_node (p : nat) (n : quicklistNode) (s : store) : store := mkStore (<[p := n]> (nodes s)) (brk s) (ql s).

Lemma put_modify p f s n : nodes s !! p = Some n -> modify p f s = Done (put_node p (f n) s, tt).
Proof. intros Hp. unfold modify, load. rewrite bind_assoc, bind_get, Hp, bind_lift, bind_get. done. Qed.

Lemma put_load p s n : nodes s !! p = Some n -> load p s = Done (s, n).
Proof. intros Hp. unfold load. by rewrite bind_get, Hp. Qed.

Lemma put_block p s n z : nodes s !! p = Some n -> zl n = Some z -> block p s = Done (s, z).
Proof. intros Hp Hz. unfold block. by rewrite (bind_done _ _ _ _ _ (put_load _ _ _ Hp)), Hz. Qed.

Lemma put_lookup p n s : nodes (put_node p n s) !! p = Some n.
Proof. cbn [put_node nodes]. by rewrite lookup_insert_eq. Qed.

Lemma put_put p n m s : put_node p m (put_node p n s) = put_node p m s.
Proof. unfold put_node. cbn [nodes brk ql]. by rewrite insert_insert_eq. Qed.

Lemma put_row a x b R k q n seg : apart (ids (a ++ x :: b)) R ->
  put_node (iid x) (link (last_or None a) (first_or b None) n) (row (a ++ x :: b) R k q) = row (a ++ mkItem (iid x) n seg :: b) R k q.
Proof.
  intros [Hn _]. unfold put_node, row. cbn [nodes brk ql]. rewrite insert_union_l. do 2 f_equal.
  by apply (heap_seg_put None a x (mkItem (iid x) n seg) b None).
Qed.

Lemma put_rest xs R k q i n : i ∉ ids xs -> put_node i n (row xs R k q) = row xs (<[i := n]> R) k q.
Proof. intros Hi. unfold put_node, row. cbn [nodes brk ql]. by rewrite insert_union_r by (by apply heap_seg_None). Qed.

Lemma rest_lookup xs R k q i n : i ∉ ids xs -> nodes (row xs (<[i := n]> R) k q) !! i = Some n.
Proof. intros Hi. cbn [row nodes]. by rewrite lookup_union_r, lookup_insert_eq by (by apply heap_seg_None). Qed.

Lemma size_row xs k q : NoDup (ids xs) -> size (nodes (row xs ∅ k q)) = length xs.
Proof.
  cbn [row nodes]. rewrite (right_id_L ∅ (∪)). generalize (None : ptr) at 1. induction xs as [|x xs IH]; intros p Hn; [done|].
  cbn [heap_seg fmap list_fmap length] in *. apply NoDup_cons in Hn as [Hx Hn]. rewrite map_size_insert_None by (by apply heap_seg_None).
  f_equal. by apply IH.
Qed.

End QuicklistHeap.
