(* ===== verification/QuicklistFacts.v ===== *)
(** The nodes of a quicklist as lists of strings, and what compression does to
    them: every node stands for the same strings before and after, and the
    ends of the list stay uncompressed. *)

From stdpp Require Import gmap.
From S2P Require Import Prelude UtilNum Ziplist ZiplistRun ZiplistPos Lzf Effects Quicklist QuicklistHeap.

#[local] Open Scope Z_scope.

Module QuicklistFacts.
Import UtilNum Ziplist ZiplistRun ZiplistPos Quicklist QuicklistHeap.
#[local] Notation zlen l := (Z.of_nat (length l)) (only parsing).

(** ** Nodes *)

Abbreviation bytes l := (Forall (Forall is_byte) l) (only parsing).

(** The block [z] of a node, as it is or compressed. *)
Definition holds_block (nd : quicklistNode) (z : list Z) : Prop :=
  sz nd = zlen z /\
  (encoding nd = 1 /\ zl nd = Some z \/
   encoding nd = 2 /\ exists c, zl nd = Some (le_encode 4 (zlen c) ++ c) /\ zlen c < 2 ^ 32 /\
    Lzf.lzf_decompress c (zlen z) = Some (zlen z, z)).

Record node_ok (nd : quicklistNode) (seg : list (list Z)) : Prop := mkOk {
  no_seg : seg <> [];
  no_short : zlen seg <= 65535;
  no_bytes : bytes seg;
  no_flag : recompress nd = false;
  no_block : exists z, packs z seg /\ holds_block nd z }.

Definition item_ok (x : item) : Prop := node_ok (inode x) (iseg x).
(** A new node is linked before it is counted. *)
Definition counted (x : item) : Prop := ncount (inode x) = zlen (iseg x).
Definition raw (x : item) : Prop := encoding (inode x) = 1.

Lemma raw_block nd seg : node_ok nd seg -> encoding nd = 1 -> exists z, packs z seg /\ sz nd = zlen z /\ zl nd = Some z.
Proof.
  intros [_ _ _ _ (z & Hp & Hsz & Hb)] He. exists z. destruct Hb as [[_ Hz]|[He2 _]]; [done|]. rewrite He in He2. done.
Qed.

(** The same node, recoded. *)
Definition same (x y : item) : Prop := iid y = iid x /\ iseg y = iseg x /\ ncount (inode y) = ncount (inode x) /\ item_ok y /\
  forall z, holds_block (inode x) z -> holds_block (inode y) z.
Abbreviation recode xs ys := (Forall2 same xs ys) (only parsing).

Lemma recode_ids xs ys : recode xs ys -> ids ys = ids xs.
Proof. induction 1 as [|x y xs ys (Hi & _) _ IH]; [done|]. cbn [fmap list_fmap]. by rewrite Hi, IH. Qed.

Lemma recode_segs xs ys : recode xs ys -> iseg <$> ys = iseg <$> xs.
Proof. induction 1 as [|x y xs ys (_ & Hs & _ & _) _ IH]; [done|]. cbn [fmap list_fmap]. by rewrite Hs, IH. Qed.

Lemma recode_ok xs ys : recode xs ys -> Forall item_ok ys.
Proof. induction 1 as [|x y xs ys (_ & _ & _ & Ho & _) _ IH]; by constructor. Qed.

Lemma recode_refl xs : Forall item_ok xs -> recode xs xs.
Proof. induction 1; by constructor. Qed.

Lemma recode_trans xs ys zs : recode xs ys -> recode ys zs -> recode xs zs.
Proof.
  intros H1. revert zs. induction H1 as [|x y xs ys (Hi & Hs & Hn & _ & Hz) _ IH]; intros zs H2; inversion H2 as [|? z ? zs' (Hi2 & Hs2 & Hn2 & Ho & Hz2)]; subst; constructor.
  - split_and!; [congruence..|done|auto].
  - by apply IH.
Qed.

Lemma recode_put a x x' b : Forall item_ok (a ++ x :: b) -> same x x' -> recode (a ++ x :: b) (a ++ x' :: b).
Proof.
  rewrite Forall_app, Forall_cons. intros (Ha & _ & Hb) Hs. apply Forall2_app; [by apply recode_refl|].
  constructor; [done|by apply recode_refl].
Qed.

Lemma recode_counted xs ys : recode xs ys -> Forall counted xs -> Forall counted ys.
Proof.
  unfold counted. induction 1 as [|x y xs ys (_ & Hs & Hn & _) _ IH]; intros Hc; constructor; inversion Hc; [congruence|auto].
Qed.

Lemma recode_length xs ys : recode xs ys -> length ys = length xs.
Proof. intros H. symmetry. by eapply Forall2_length. Qed.

Section compress.
Context (junk : nat -> Z) (htab : Z -> Z).

(** ** One node *)

Section node.
Context (a b : list item) (x : item) (R : gmap nat quicklistNode) (k : nat) (q : quicklist).
Hypothesis (Hap : apart (ids (a ++ x :: b)) R) (Hok : item_ok x).

Lemma compress_raw : raw x -> exists x' r,
  __quicklistCompressNode junk htab (iid x) (row (a ++ x :: b) R k q) = Done (row (a ++ x' :: b) R k q, r) /\ same x x'.
Proof using Hap Hok.
  intros Hraw. destruct (raw_block _ _ Hok Hraw) as (z & Hp & Hsz & Hz). pose proof Hok as [Hs Hsh Hby Hfl _].
  assert (same x x) as Hxx by done.
  unfold __quicklistCompressNode. rewrite (bind_done _ _ _ _ _ (row_load _ R k q Hap a x b eq_refl)). cbn [link sz zl].
  destruct (Z.ltb_spec (sz (inode x)) 48); [by exists x, false|]. rewrite Hz, bind_lift, Hsz, (packs_read _ _ Hp), bind_lift.
  destruct (packs_size _ _ Hp) as (_ & _ & Hlt).
  destruct (Lzf.lzf_restores z htab (zmalloc junk (zlen z)) (zlen z) (packs_bytes _ _ Hp Hby)) as (n & out & -> & Hn);
    [lia|unfold zmalloc; rewrite length_fmap, length_seq; lia|]. rewrite bind_lift. cbv beta iota.
  destruct (Z.eqb_spec n 0) as [|Hn0]; [by exists x, false|]. cbn [orb].
  destruct (u32 (n + 8) >=? zlen z); [by exists x, false|]. destruct Hn as [|(Hn & Hno & Hbo & Hd)]; [done|].
  set (c := take (Z.to_nat n) out) in *. assert (zlen c = n) as Hc by (unfold c; rewrite length_take; lia).
  assert (mread out 0 (Z.to_nat n) = Some c) as ->.
  { rewrite <- (take_drop (Z.to_nat n) out). apply mread_head; [done|]. fold c. lia. }
  rewrite bind_lift, !modify_modify.
  rewrite (bind_done _ _ _ _ _ (row_modify _ R k q Hap a x b _ (iseg x) eq_refl (fun _ _ _ => eq_refl))).
  eexists _, true. split; [done|]. set (nd := set_recompress _ _). assert (holds_block nd z) as Hb.
  { split; [done|]. right. split; [done|]. exists c. cbn [nd set_recompress set_encoding set_zl zl]. rewrite Hc. split_and!; [done|lia|]. apply Hd. lia. }
  split_and!; [done|done|done| |]; cbn [inode iseg].
  - split; try done. by exists z.
  - intros z2 [_ [[_ Hz2]|[He _]]]; [by simplify_eq|]. by rewrite Hraw in He.
Qed.

Lemma compress_node : exists x',
  quicklistCompressNode junk htab (Some (iid x)) (row (a ++ x :: b) R k q) = Done (row (a ++ x' :: b) R k q, tt) /\ same x x'.
Proof using Hap Hok.
  unfold quicklistCompressNode. rewrite (bind_done _ _ _ _ _ (row_load _ R k q Hap a x b eq_refl)). cbn [link encoding].
  destruct (Z.eqb_spec (encoding (inode x)) 1) as [Hraw|]; [|by exists x].
  destruct (compress_raw Hraw) as (x' & r & Hc & Hs). exists x'. by rewrite (bind_done _ _ _ _ _ Hc).
Qed.

Lemma decompress_lzf : encoding (inode x) = 2 -> exists x',
  __quicklistDecompressNode junk (iid x) (row (a ++ x :: b) R k q) = Done (row (a ++ x' :: b) R k q, true) /\
  same x x' /\ raw x'.
Proof using Hap Hok.
  intros He. pose proof Hok as [Hs Hsh Hby Hfl (z & Hp & Hsz & Hb)].
  destruct Hb as [[He1 _]|(_ & c & Hz & Hc & Hd)]; [by rewrite He in He1|].
  unfold __quicklistDecompressNode. rewrite (bind_done _ _ _ _ _ (row_load _ R k q Hap a x b eq_refl)). cbn [link zl sz].
  rewrite Hz, bind_lift, (mread_head (le_encode 4 (zlen c))) by (by rewrite ?length_le_encode).
  cbn [fmap option_fmap option_map]. rewrite bind_lift, le_decode_encode, (Z.mod_small (zlen c)) by (change (8 * Z.of_nat 4) with 32; lia).
  assert (mread (le_encode 4 (zlen c) ++ c) 4 (Z.to_nat (zlen c)) = Some c) as ->.
  { rewrite <- (app_nil_r c) at 2. apply mread_mid; rewrite ?length_le_encode; lia. }
  rewrite bind_lift, Hsz, Hd, bind_lift. cbv beta iota.
  destruct (packs_size _ _ Hp) as (Hz11 & _ & _). rewrite (proj2 (Z.eqb_neq (zlen z) 0)) by lia.
  assert (mwrite (zmalloc junk (zlen z)) 0 z = Some z) as ->.
  { rewrite <- (app_nil_r (zmalloc junk (zlen z))), (mwrite_head (zmalloc junk (zlen z)) [] 0 z), app_nil_r
      by (unfold zmalloc; rewrite ?length_fmap, ?length_seq; lia). done. }
  rewrite bind_lift, modify_modify.
  rewrite (bind_done _ _ _ _ _ (row_modify _ R k q Hap a x b _ (iseg x) eq_refl (fun _ _ _ => eq_refl))).
  eexists. split; [done|]. split; [|done]. set (nd := set_encoding _ _). assert (holds_block nd z) as Hb by (split; [done|by left]).
  split_and!; [done|done|done| |]; cbn [inode iseg].
  - split; try done. by exists z.
  - intros z2 [Hsz2 [[He2 _]|(_ & c2 & Hz2 & _ & Hd2)]]; [by rewrite He in He2|]. rewrite Hz in Hz2. apply (inj Some) in Hz2.
    apply app_inj_1 in Hz2 as [_ <-]; [|by rewrite !length_le_encode]. rewrite <- Hsz2, Hsz, Hd in Hd2. by simplify_eq.
Qed.

Lemma decompress_node : exists x',
  quicklistDecompressNode junk (Some (iid x)) (row (a ++ x :: b) R k q) = Done (row (a ++ x' :: b) R k q, tt) /\
  same x x' /\ raw x' /\ (raw x -> x' = x).
Proof using Hap Hok.
  unfold quicklistDecompressNode. rewrite (bind_done _ _ _ _ _ (row_load _ R k q Hap a x b eq_refl)). cbn [link encoding].
  pose proof Hok as [_ _ _ _ (z & _ & _ & [[He _]|[He _]])]; rewrite He; cbn [Z.eqb Pos.eqb]; [by exists x|].
  destruct (decompress_lzf He) as (x' & Hd & Hs & Hr). rewrite (bind_done _ _ _ _ _ Hd). exists x'. split_and!; [done..|].
  unfold raw. by rewrite He.
Qed.

End node.
(** ** Nodes by position *)

Definition raw_at (xs : list item) (j : nat) : Prop := forall x, xs !! j = Some x -> raw x.

Lemma at_position xs j p : ids xs !! j = Some p -> exists x, iid x = p /\ xs = take j xs ++ x :: drop (S j) xs /\ xs !! j = Some x.
Proof. intros (x & Hx & Hj)%list_lookup_fmap_Some. exists x. by rewrite take_drop_middle. Qed.

Lemma raw_put xs j x' i : (j < length xs)%nat -> i <> j -> raw_at xs i -> raw_at (take j xs ++ x' :: drop (S j) xs) i.
Proof. intros Hj Hne Hr. rewrite <- insert_take_drop by done. intros x Hx. rewrite list_lookup_insert_ne in Hx by done. by apply Hr. Qed.

Lemma raw_put_eq xs j x' : (j < length xs)%nat -> raw x' -> raw_at (take j xs ++ x' :: drop (S j) xs) j.
Proof. intros Hj Hr. rewrite <- insert_take_drop by done. intros x Hx. rewrite list_lookup_insert_eq in Hx by done. by simplify_eq. Qed.

Section position.
Context (xs : list item) (R : gmap nat quicklistNode) (k : nat) (q : quicklist).
Hypothesis (Hap : apart (ids xs) R) (Hok : Forall item_ok xs).

Lemma compress_at j p : ids xs !! j = Some p -> exists ys,
  quicklistCompressNode junk htab (Some p) (row xs R k q) = Done (row ys R k q, tt) /\ recode xs ys /\
  forall i, i <> j -> raw_at xs i -> raw_at ys i.
Proof using Hap Hok.
  intros Hj. destruct (at_position _ _ _ Hj) as (x & <- & Hxs & Hl). pose proof (lookup_lt_Some _ _ _ Hl) as Hlt.
  rewrite Hxs in Hap, Hok. pose proof Hok as [_ [Hx _]%Forall_cons]%Forall_app.
  destruct (compress_node _ _ x R k q Hap Hx) as (x' & Hc & Hs). exists (take j xs ++ x' :: drop (S j) xs).
  rewrite Hxs at 1. split_and!; [done| |].
  - rewrite Hxs at 1. by apply recode_put.
  - intros i Hi. by apply raw_put.
Qed.

Lemma decompress_at j p : ids xs !! j = Some p -> exists ys,
  quicklistDecompressNode junk (Some p) (row xs R k q) = Done (row ys R k q, tt) /\ recode xs ys /\
  (forall i, raw_at xs i -> raw_at ys i) /\ raw_at ys j.
Proof using Hap Hok.
  intros Hj. destruct (at_position _ _ _ Hj) as (x & <- & Hxs & Hl). pose proof (lookup_lt_Some _ _ _ Hl) as Hlt.
  rewrite Hxs in Hap, Hok. pose proof Hok as [_ [Hx _]%Forall_cons]%Forall_app.
  destruct (decompress_node _ _ x R k q Hap Hx) as (x' & Hc & Hs & Hr & _). exists (take j xs ++ x' :: drop (S j) xs).
  rewrite Hxs at 1. split_and!; [done| | |by apply raw_put_eq].
  - rewrite Hxs at 1. by apply recode_put.
  - intros i Hi. destruct (decide (i = j)) as [->|Hne]; [by apply raw_put_eq|by apply raw_put].
Qed.

(** The neighbours of a node. *)
Lemma load_at_position j p : ids xs !! j = Some p -> exists n,
  load p (row xs R k q) = Done (row xs R k q, n) /\ next n = ids xs !! S j /\ prev n = match j with O => None | S i => ids xs !! i end.
Proof using Hap.
  intros Hj. destruct (at_position _ _ _ Hj) as (x & <- & Hxs & Hl). eexists. split; [by apply (row_load xs R k q Hap _ x _ Hxs)|].
  cbn [link next prev]. split.
  - rewrite list_lookup_fmap. replace (xs !! S j) with (drop (S j) xs !! 0%nat) by (rewrite lookup_drop; f_equal; lia).
    by destruct (drop (S j) xs).
  - unfold last_or. destruct j as [|i]; [done|]. apply lookup_lt_Some in Hl. rewrite last_lookup, length_take_le by lia. cbn [Nat.pred].
    rewrite lookup_take_lt, list_lookup_fmap by lia. by destruct (xs !! i).
Qed.

End position.

(** ** The depth of compression *)

(** The pointers walk to the middle from both ends, over uncompressed nodes. *)
Lemma depth_loop_spec R k q node m : forall xs d i0, apart (ids xs) R -> Forall item_ok xs ->
  (2 * (d + m) <= S (length xs))%nat ->
  exists ys r, compress_loop junk m node (ids xs !! d) (ids xs !! (length xs - 1 - d)%nat) i0 (row xs R k q) = Done (row ys R k q, r) /\
    recode xs ys /\ (forall i, raw_at xs i -> raw_at ys i) /\
    (forall j, (d <= j < d + m)%nat -> raw_at ys j /\ raw_at ys (length xs - 1 - j)) /\
    match r with
    | None => (length xs < 2 * (d + m))%nat
    | Some (f, r, i) => (m = O \/ 2 * (d + m) <= length xs)%nat /\
        f = ids xs !! (d + m)%nat /\ r = ids xs !! (length xs - 1 - (d + m))%nat /\
        (i = false -> i0 = false /\ forall j, (d <= j < d + m)%nat -> ids xs !! j <> node /\ ids xs !! (length xs - 1 - j)%nat <> node)
    end.
Proof.
  induction m as [|m IH]; intros xs d i0 Hap Hok Hlen; cbn [compress_loop].
  { eexists xs, _. split; [done|]. rewrite Nat.add_0_r. split_and!; [by apply recode_refl|done|lia|by left|done|done|]. intros Hi. split; [done|lia]. }
  set (n := length xs) in *. set (e := (n - 1 - d)%nat).
  assert (exists p, ids xs !! d = Some p) as [p Hp] by (apply lookup_lt_is_Some; rewrite length_fmap; subst n; lia).
  destruct (decompress_at xs R k q Hap Hok d p Hp) as (x1 & H1 & R1 & M1 & D1). pose proof (recode_ids _ _ R1) as I1.
  assert (apart (ids x1) R) as Hap1 by by rewrite I1. rewrite Hp, (bind_done _ _ _ _ _ H1).
  assert (exists p', ids xs !! e = Some p') as [p' Hp'] by (apply lookup_lt_is_Some; rewrite length_fmap; subst e n; lia).
  destruct (decompress_at x1 R k q Hap1 (recode_ok _ _ R1) e p') as (x2 & H2 & R2 & M2 & D2); [by rewrite I1|].
  pose proof (recode_ids _ _ R2) as I2. assert (apart (ids x2) R) as Hap2 by by rewrite I2, I1. rewrite Hp', (bind_done _ _ _ _ _ H2).
  pose proof (recode_trans _ _ _ R1 R2) as R12. pose proof (recode_length _ _ R12) as L2. rewrite I1 in I2.
  assert (raw_at x2 d) as Hd by by apply M2.
  destruct (bool_decide_reflect (Some p = Some p')) as [He|Hne].
  { assert (d = e) as Hde. { destruct Hap as [Hn _]. apply (NoDup_lookup (ids xs) d e p Hn Hp). by rewrite Hp', He. }
    exists x2, None. split; [done|]. split_and!; [done|auto| |subst e; lia]. intros j Hj. destruct (decide (j = d)) as [->|Hjd]; [by fold e|].
    split; intros y Hy; apply lookup_lt_Some in Hy; fold n in L2; subst e; lia. }
  assert (d <> e) as Hde by (intros Hde; rewrite <- Hde, Hp in Hp'; done).
  destruct (load_at_position x2 R k q Hap2 d p) as (f & Hf & Hfn & _); [by rewrite I2|].
  destruct (load_at_position x2 R k q Hap2 e p') as (r & Hr & _ & Hrp); [by rewrite I2|].
  rewrite bind_lift, (bind_done _ _ _ _ _ Hf), bind_lift, (bind_done _ _ _ _ _ Hr), Hfn, Hrp.
  destruct e as [|e'] eqn:He; [subst n; lia|].
  destruct (IH x2 (S d) (if bool_decide (Some p = node) || bool_decide (Some p' = node) then true else i0) Hap2 (recode_ok _ _ R12))
    as (ys & res & Hl & R3 & M3 & D3 & Hres); [lia|]. rewrite L2 in Hl, D3, Hres. fold n in Hl, D3, Hres.
  replace (n - 1 - S d)%nat with e' in Hl by lia. exists ys, res. split; [exact Hl|]. split_and!; [by eapply recode_trans|auto| |].
  - intros j Hj. destruct (decide (j = d)) as [->|Hjd]; [|apply D3; lia]. replace (n - 1 - d)%nat with (S e') by lia. auto.
  - replace (d + S m)%nat with (S d + m)%nat by lia. destruct res as [[[f' r'] i]|]; [|done]. rewrite I2 in Hres.
    destruct Hres as (Hm & Hf' & Hr' & Hi). split_and!; [right; lia|done|done|]. intros Hif. destruct (Hi Hif) as [Hi0 Hj'].
    destruct (bool_decide_reflect (Some p = node)), (bool_decide_reflect (Some p' = node)); try done. split; [done|].
    intros j Hj. destruct (decide (j = d)) as [->|Hjd]; [|apply Hj'; lia]. replace (n - 1 - d)%nat with (S e') by lia. by rewrite Hp, Hp'.
Qed.

(** Which nodes may be compressed. *)
Record ends_raw (c : Z) (xs : list item) : Prop := mkEnds {
  er_first : raw_at xs 0;
  er_last : raw_at xs (length xs - 1);
  er_all : c = 0 \/ zlen xs < 2 * c -> Forall raw xs }.

Lemma all_raw xs : (forall j, (j < length xs)%nat -> raw_at xs j) -> Forall raw xs.
Proof. intros H. apply Forall_lookup. intros j x Hx. by apply (H j); [eapply lookup_lt_Some|]. Qed.

Lemma raw_all xs j : Forall raw xs -> raw_at xs j.
Proof. intros H x Hx. by eapply Forall_lookup_1 in H. Qed.

Lemma compress_spec xs R k cnt ln fl c bm node : apart (ids xs) R -> Forall item_ok xs -> 0 <= c <= 65535 -> ln <= zlen xs + 1 ->
  node = None \/ (exists j p, node = Some p /\ ids xs !! j = Some p) ->
  exists ys, __quicklistCompress junk htab node (row xs R k (qlist xs cnt ln fl c bm)) = Done (row ys R k (qlist xs cnt ln fl c bm), tt) /\
    recode xs ys /\ (c = 0 \/ ln < 2 * c -> ys = xs) /\
    (c <> 0 -> 2 * c <= ln -> raw_at ys 0 /\ raw_at ys (length xs - 1) /\ (zlen xs < 2 * c -> Forall raw ys)).
Proof.
  intros Hap Hok Hc Hln Hnode. unfold __quicklistCompress. rewrite (bind_done _ _ _ _ _ (this_row _ _ _ _)). cbn [qlist compress len head tail].
  rewrite uwrap_small by (unfold in_u; lia).
  destruct (Z.eqb_spec c 0) as [Hc0|Hc0]; [exists xs; split_and!; [done|by apply recode_refl|done|done]|]. cbn [orb].
  destruct (Z.ltb_spec ln (c * 2)); [exists xs; split_and!; [done|by apply recode_refl|done|lia]|].
  set (q := qlist xs cnt ln fl c bm). set (n := length xs) in *.
  destruct (depth_loop_spec R k q node (Z.to_nat c) xs 0 false Hap Hok) as (ys & r & Hl & R1 & M1 & D1 & Hr); [fold n; lia|].
  fold n in Hl, D1, Hr. rewrite Nat.sub_0_r in Hl. rewrite Nat.add_0_l in *.
  assert (first_or xs None = ids xs !! 0%nat) as -> by (by destruct xs). assert (last_or None xs = ids xs !! (n - 1)%nat) as ->.
  { unfold last_or, n. rewrite last_lookup, list_lookup_fmap, Nat.sub_1_r. by destruct (xs !! Nat.pred (length xs)). }
  rewrite (bind_done _ _ _ _ _ Hl). pose proof (recode_length _ _ R1) as L1. fold n in L1. destruct r as [[[f r'] i]|].
  2: { assert (Forall raw ys) as Hall.
       { apply all_raw. intros j Hj. destruct (decide (j < Z.to_nat c)%nat); [apply D1; lia|].
         replace j with (n - 1 - (n - 1 - j))%nat by lia. apply D1. lia. }
       exists ys. split_and!; [done|done|lia|]. intros _ _. split_and!; [by apply raw_all..|done]. }
  destruct Hr as (Hn & -> & -> & Hi). cbv zeta. destruct (D1 0%nat) as [Hf0 Hl0]; [lia|]. rewrite Nat.sub_0_r in Hl0.
  set (P := fun zs => recode xs zs /\ raw_at zs 0 /\ raw_at zs (n - 1)). assert (P ys) as HP by done.
  assert (forall zs ptr, P zs -> ptr = None \/ (exists j, ptr = ids xs !! j /\ j <> O /\ j <> (n - 1)%nat) ->
    exists zs', quicklistCompressNode junk htab ptr (row zs R k q) = Done (row zs' R k q, tt) /\ P zs') as Hstep.
  { intros zs [p|] (Rz & Hz0 & Hz1) Hptr; [|by exists zs]. destruct Hptr as [|(j & Hj & Hj0 & Hj1)]; [done|].
    pose proof (recode_ids _ _ Rz) as Iz.
    destruct (compress_at zs R k q ltac:(by rewrite Iz) (recode_ok _ _ Rz) j p) as (zs' & Hz & Rz' & Mz); [by rewrite Iz|].
    exists zs'. split; [done|]. split_and!; [by eapply recode_trans|apply Mz; [lia|done]..]. }
  assert (exists zs, (if i : bool then mret tt else quicklistCompressNode junk htab node) (row ys R k q) = Done (row zs R k q, tt) /\ P zs)
    as (zs & Hz & HPz).
  { destruct i; [by exists ys|]. apply Hstep; [done|]. destruct Hnode as [->|(j & p & -> & Hj)]; [by left|right]. exists j.
    split; [done|]. destruct (Hi eq_refl) as [_ Hij]. specialize (Hij 0%nat ltac:(lia)). rewrite Nat.sub_0_r in Hij.
    split; intros ->; destruct Hij; congruence. }
  rewrite (bind_done _ _ _ _ _ Hz). destruct (Z.gtb_spec (c + 1) 2).
  - destruct (Hstep zs (ids xs !! Z.to_nat c) HPz) as (z1 & H1 & HP1); [right; exists (Z.to_nat c); split_and!; [done|lia|lia]|].
    rewrite (bind_done _ _ _ _ _ H1). destruct (Hstep z1 (ids xs !! (n - 1 - Z.to_nat c)%nat) HP1) as (z2 & H2 & R2 & Ha & Hb).
    { right. eexists. split_and!; [done|lia|lia]. }
    exists z2. split_and!; [done|done|lia|]. intros _ _. split_and!; [done|done|lia].
  - destruct HPz as (Rz & Ha & Hb). exists zs. split_and!; [done|done|lia|]. intros _ _. split_and!; [done|done|lia].
Qed.


End compress.
End QuicklistFacts.
