(* ===== verification/QuicklistOps.v ===== *)
(** Linking and unlinking nodes of a quicklist with the compression they cause,
    and the operations at the ends of the list. *)

From stdpp Require Import gmap.
From S2P Require Import Prelude UtilNum Ziplist ZiplistRun ZiplistPos Lzf Effects Quicklist QuicklistHeap QuicklistFacts.

#[local] Open Scope Z_scope.

Module QuicklistOps.
Import UtilNum Ziplist ZiplistRun ZiplistPos Quicklist QuicklistHeap QuicklistFacts.
#[local] Notation zlen l := (Z.of_nat (length l)) (only parsing).

Lemma qlist_ids (xs ys : list item) cnt ln fl c bm : ids ys = ids xs -> qlist ys cnt ln fl c bm = qlist xs cnt ln fl c bm.
Proof.
  intros Hi. unfold qlist. f_equal.
  - destruct xs, ys; try done. cbn in Hi |- *. congruence.
  - unfold last_or. rewrite !last_lookup. pose proof (f_equal length Hi) as Hl. rewrite !length_fmap in Hl. rewrite Hl.
    pose proof (f_equal (fun l => l !! Nat.pred (length xs)) Hi) as H. cbn in H. rewrite !list_lookup_fmap in H.
    by destruct (xs !! _), (ys !! _).
Qed.

Lemma ids_position (xs : list item) (p : nat) : p ∈ ids xs -> exists j q, Some p = Some q /\ ids xs !! j = Some q.
Proof. intros [j Hj]%list_elem_of_lookup_1. by exists j, p. Qed.

Section ops.
Context (junk : nat -> Z) (htab : Z -> Z).

(** ** Linking *)

Lemma compress_in_row xs R k cnt ln fl c bm p : apart (ids xs) R -> Forall item_ok xs -> 0 <= c <= 65535 -> ln <= zlen xs + 1 ->
  p ∈ ids xs ->
  exists ys, quicklistCompress junk htab p (row xs R k (qlist xs cnt ln fl c bm)) = Done (row ys R k (qlist ys cnt ln fl c bm), tt) /\
    recode xs ys /\ (c = 0 \/ ln < 2 * c -> ys = xs) /\
    (c <> 0 -> 2 * c <= ln -> raw_at ys 0 /\ raw_at ys (length xs - 1) /\ (zlen xs < 2 * c -> Forall raw ys)).
Proof.
  intros Hap Hok Hc Hln Hp. destruct (ids_position _ _ Hp) as (j & p' & [= <-] & Hj).
  destruct (at_position _ _ _ Hj) as (x & <- & Hxs & Hl). unfold quicklistCompress.
  rewrite (bind_done _ _ _ _ _ (row_load xs R k _ Hap _ x _ Hxs)). cbn [link recompress].
  pose proof (Forall_lookup_1 _ _ _ _ Hok Hl) as [_ _ _ -> _].
  destruct (compress_spec junk htab xs R k cnt ln fl c bm (Some (iid x)) Hap Hok Hc Hln) as (ys & Hs & Hr & He & Hd); [right; by exists j, (iid x)|].
  exists ys. rewrite Hs, (qlist_ids xs ys) by (by apply recode_ids). done.
Qed.

(** The state after a node was linked in. *)
Definition linked_in (c : Z) (old new ys : list item) : Prop :=
  recode new ys /\ (c = 0 \/ zlen old < 2 * c -> ys = new) /\
  (c <> 0 -> 2 * c <= zlen old -> raw_at ys 0 /\ raw_at ys (length new - 1)).

Lemma linked_ends c a x b ys : linked_in c (a ++ b) (a ++ x :: b) ys -> raw x -> ends_raw c (a ++ b) -> ends_raw c ys.
Proof.
  intros (Hr & He & Hd) Hx [_ _ Hall]. destruct (decide (c = 0 \/ zlen (a ++ b) < 2 * c)) as [Hsm|Hbig].
  - assert (Forall raw ys) as H.
    { rewrite (He Hsm). specialize (Hall Hsm). rewrite Forall_app in *. destruct Hall. split; [done|by constructor]. }
    split; [by apply raw_all..|done].
  - destruct Hd as [Hd0 Hd1]; [lia..|]. pose proof (recode_length _ _ Hr) as Hl. rewrite length_app in *. cbn [length] in *.
    split; [done|by rewrite Hl|]. rewrite Hl. lia.
Qed.

Section link.
Context (a b : list item) (x : item) (R : gmap nat quicklistNode) (k : nat) (cnt fl c : Z) (bm : list quicklistBookmark).
Hypothesis (Hap : apart (ids (a ++ b)) R) (Hnew : iid x ∉ ids (a ++ b)) (HR : R !! iid x = None).
Hypothesis (Hprev : prev (inode x) = None) (Hnext : next (inode x) = None).
Hypothesis (Hok : Forall item_ok (a ++ x :: b)) (Hc : 0 <= c <= 65535) (Hlen : zlen (a ++ b) + 1 < 2 ^ 64).

Lemma linked_spec old : old = None \/ (exists o, old = Some o /\ o ∈ ids (a ++ b)) -> (old = None -> a ++ b = []) ->
  exists ys, linked junk htab a b x R k cnt fl c bm old = Done (row ys R k (qlist ys cnt (zlen ys) fl c bm), tt) /\
    linked_in c (a ++ b) (a ++ x :: b) ys.
Proof using Hap Hnew HR Hprev Hnext Hok Hc Hlen.
  intros Hold Hnil. unfold linked. pose proof (apart_add a x b R Hap Hnew HR) as Hapx. set (n := zlen (a ++ b)) in *.
  assert (zlen (a ++ x :: b) = n + 1) as Hn by (subst n; rewrite !length_app; cbn [length]; lia).
  assert (forall ys, ids ys = ids (a ++ x :: b) -> set_len (qlist ys cnt n fl c bm) (n + 1) = qlist ys cnt (zlen ys) fl c bm) as Hset.
  { intros ys Hi. apply (f_equal length) in Hi. rewrite !length_fmap in Hi. unfold set_len, qlist. cbn. rewrite uwrap_small by (unfold in_u; lia).
    by rewrite Hi, Hn. }
  destruct Hold as [->|(o & -> & Ho)].
  - rewrite bind_ret, modify_ql_row. exists (a ++ x :: b). cbn [len qlist]. rewrite Hset by done. split; [done|].
    split_and!; [by apply recode_refl|done|]. specialize (Hnil eq_refl). unfold n. rewrite Hnil. cbn. lia.
  - destruct (compress_in_row (a ++ x :: b) R k cnt n fl c bm o Hapx Hok Hc) as (ys & Hs & Hr & He & Hd); [lia| |].
    { rewrite fmap_app in *. cbn [fmap list_fmap]. set_solver. }
    rewrite (bind_done _ _ _ _ _ Hs), modify_ql_row. exists ys. cbn [len qlist]. rewrite Hset by (by apply recode_ids).
    split; [done|]. split_and!; [done|done|]. intros H1 H2. destruct (Hd H1 H2) as (? & ? & _). done.
Qed.

Lemma link_after : a <> [] \/ b = [] ->
  exists ys, _quicklistInsertNodeAfter junk htab (last_or None a) (iid x)
      (row (a ++ b) (<[iid x := inode x]> R) k (qlist (a ++ b) cnt (zlen (a ++ b)) fl c bm)) =
    Done (row ys R k (qlist ys cnt (zlen ys) fl c bm), tt) /\ linked_in c (a ++ b) (a ++ x :: b) ys.
Proof using Hap Hnew HR Hprev Hnext Hok Hc Hlen.
  intros Hab. unfold _quicklistInsertNodeAfter. rewrite insert_after by done. apply linked_spec; clear - Hab; destruct a as [|u a' _] using rev_ind.
  - by left.
  - rewrite last_or_snoc. right. exists (iid u). split; [done|]. rewrite !fmap_app. set_solver.
  - destruct Hab; [done|by subst b].
  - by rewrite last_or_snoc.
Qed.

Lemma link_before : b <> [] \/ a = [] ->
  exists ys, _quicklistInsertNodeBefore junk htab (first_or b None) (iid x)
      (row (a ++ b) (<[iid x := inode x]> R) k (qlist (a ++ b) cnt (zlen (a ++ b)) fl c bm)) =
    Done (row ys R k (qlist ys cnt (zlen ys) fl c bm), tt) /\ linked_in c (a ++ b) (a ++ x :: b) ys.
Proof using Hap Hnew HR Hprev Hnext Hok Hc Hlen.
  intros Hab. unfold _quicklistInsertNodeBefore. rewrite insert_before by done. apply linked_spec; clear - Hab; destruct b as [|v b'].
  - by left.
  - cbn [first_or]. right. exists (iid v). split; [done|]. rewrite fmap_app. set_solver.
  - destruct Hab; [done|by subst a].
  - done.
Qed.

End link.

(** ** Unlinking *)

Lemma del_node a x b R k cnt fl c bm : apart (ids (a ++ x :: b)) R -> Forall item_ok (a ++ b) -> 0 <= c <= 65535 ->
  zlen (a ++ x :: b) < 2 ^ 64 ->
  exists ys bm', __quicklistDelNode junk htab (iid x) (row (a ++ x :: b) R k (qlist (a ++ x :: b) cnt (zlen (a ++ x :: b)) fl c bm)) =
    Done (row ys R k (qlist ys (u64 (cnt - ncount (inode x))) (zlen ys) fl c bm'), tt) /\
    recode (a ++ b) ys /\ (ends_raw c (a ++ x :: b) -> ends_raw c ys) /\ (c = 0 -> ys = a ++ b).
Proof.
  intros Hap Hok Hc Hlen. destruct (unlink_row junk htab a x b R k cnt (zlen (a ++ x :: b)) fl c bm Hap) as (bm' & ->).
  destruct (apart_drop _ _ _ _ Hap) as (Hap' & Hx & HR). set (nx := link (last_or None a) (first_or b None) (inode x)).
  pose proof (apart_beside _ _ nx _ Hap' Hx) as Hapx.
  assert (zlen (a ++ x :: b) = zlen (a ++ b) + 1) as Hn by (rewrite !length_app; cbn [length]; lia).
  destruct (compress_spec junk htab (a ++ b) _ k cnt (zlen (a ++ x :: b)) fl c bm' None Hapx Hok Hc) as (ys & Hs & Hr & He & Hd); [lia|by left|].
  pose proof (recode_ids _ _ Hr) as Hi. pose proof (recode_length _ _ Hr) as Hl.
  rewrite (bind_done _ _ _ _ _ Hs), <- (qlist_ids (a ++ b) ys) by done. rewrite <- Hi in Hapx.
  rewrite (bind_done _ _ _ _ _ (row_load_rest _ _ _ _ _ _ Hapx (lookup_insert_eq _ _ _))). cbn [nx link ncount].
  rewrite bind_modify_row, (bind_done _ _ _ _ _ (row_zfree _ _ _ _ _ _ Hapx HR)), modify_ql_row. exists ys, bm'. split_and!.
  - unfold set_len, set_count, qlist, row. cbn [count len head tail fill compress bookmarks]. rewrite (uwrap_small 64 (zlen (a ++ x :: b) - 1)) by (unfold in_u; lia).
    do 4 f_equal. lia.
  - done.
  - intros [_ _ Hall]. destruct (decide (c = 0 \/ zlen (a ++ x :: b) < 2 * c)) as [Hsm|Hbig].
    + assert (Forall raw ys) as H.
      { rewrite (He Hsm). specialize (Hall Hsm). rewrite Forall_app, Forall_cons in Hall. rewrite Forall_app. naive_solver. }
      split; [by apply raw_all..|done].
    + destruct Hd as (Hd0 & Hd1 & Hd2); [lia..|]. rewrite <- Hl in *. split; [done|done|]. intros [|]; [lia|auto].
  - auto.
Qed.

(** ** Lists of strings *)

Definition contents (xs : list item) : list (list Z) := concat (iseg <$> xs).

Lemma contents_app a b : contents (a ++ b) = contents a ++ contents b.
Proof. unfold contents. by rewrite fmap_app, concat_app. Qed.

Lemma contents_cons x b : contents (x :: b) = iseg x ++ contents b.
Proof. done. Qed.

Lemma recode_contents xs ys : recode xs ys -> contents ys = contents xs.
Proof. intros H. unfold contents. by rewrite (recode_segs _ _ H). Qed.

Record chain (c : Z) (xs : list item) (k : nat) : Prop := mkChain {
  ch_ok : Forall item_ok xs;
  ch_counted : Forall counted xs;
  ch_nodup : NoDup (ids xs);
  ch_brk : forall i, i ∈ ids xs -> (i < k)%nat;
  ch_ends : ends_raw c xs }.

(** The state of a quicklist between operations. *)
Definition quick (fl c : Z) (xs : list item) (k : nat) (bm : list quicklistBookmark) : store :=
  row xs ∅ k (qlist xs (zlen (contents xs)) (zlen xs) fl c bm).

Lemma chain_apart c xs k : chain c xs k -> apart (ids xs) ∅.
Proof. intros [_ _ Hn _ _]. by split. Qed.

Lemma weight_in a x b : weight (iseg x) <= weight (contents (a ++ x :: b)).
Proof.
  rewrite contents_app, contents_cons, !weight_app. pose proof (weight_nonneg (contents a)). pose proof (weight_nonneg (contents b)). lia.
Qed.

Lemma weight_length l : 22 * zlen l <= weight l.
Proof. induction l as [|s l IH]; [done|]. rewrite weight_cons. cbn [length]. lia. Qed.

Lemma contents_length xs : Forall item_ok xs -> (length xs <= length (contents xs))%nat.
Proof.
  induction 1 as [|x xs [Hne _ _ _ _] _ IH]; [done|]. rewrite contents_cons, length_app. cbn [length].
  destruct (iseg x); [done|]. cbn [length]. lia.
Qed.

(** Fewer than 2 ^ 32 nodes. *)
Lemma room_length xs : Forall item_ok xs -> room (contents xs) -> zlen xs < 2 ^ 32.
Proof. intros Hok Hr. pose proof (contents_length xs Hok). pose proof (weight_length (contents xs)). unfold room in Hr. lia. Qed.

(** ** Growing a node *)

Lemma update_sz p s n z seg : nodes s !! p = Some n -> zl n = Some z -> packs z seg ->
  quicklistNodeUpdateSz p s = Done (put_node p (set_sz n (zlen z)) s, tt).
Proof.
  intros Hp Hz Hpk. unfold quicklistNodeUpdateSz. rewrite (bind_done _ _ _ _ _ (put_block _ _ _ z Hp Hz)), (packs_blob _ _ Hpk), bind_lift.
  by apply (put_modify p (fun n => set_sz n (zlen z))).
Qed.

(** [ziplistPush] with the update of the size. *)
Lemma push_update p v w s n z seg : nodes s !! p = Some n -> zl n = Some z -> packs z seg ->
  room (if w =? ZIPLIST_HEAD then v :: seg else seg ++ [v]) ->
  exists z', packs z' (if w =? ZIPLIST_HEAD then v :: seg else seg ++ [v]) /\
    (_ ← push_zl junk p v w; quicklistNodeUpdateSz p) s = Done (put_node p (set_sz (set_zl n (Some z')) (zlen z')) s, tt).
Proof.
  intros Hp Hz Hpk Hr. destruct (push_packs junk z seg v w Hpk Hr) as (z' & Hpush & Hpk'). exists z'. split; [done|].
  assert (push_zl junk p v w s = Done (put_node p (set_zl n (Some z')) s, tt)) as H1.
  { unfold push_zl. rewrite (bind_done _ _ _ _ _ (put_block _ _ _ _ Hp Hz)), Hpush, bind_lift. by apply (put_modify p (fun n => set_zl n (Some z'))). }
  rewrite (bind_done _ _ _ _ _ H1), (update_sz p _ (set_zl n (Some z')) z' _ (put_lookup _ _ _) eq_refl Hpk'), put_put. done.
Qed.

(** A new node with one string. *)
Lemma new_update p v w s n : nodes s !! p = Some n -> room [v] ->
  exists z', packs z' [v] /\
    (_ ← new_zl junk p v w; quicklistNodeUpdateSz p) s = Done (put_node p (set_sz (set_zl n (Some z')) (zlen z')) s, tt).
Proof.
  intros Hp Hr. destruct (new_packs junk) as (z0 & Hn0 & Hpk0).
  destruct (push_packs junk z0 [] v w Hpk0) as (z' & Hpush & Hpk'); [by destruct (w =? ZIPLIST_HEAD)|]. exists z'.
  split; [by destruct (w =? ZIPLIST_HEAD)|].
  assert (new_zl junk p v w s = Done (put_node p (set_zl n (Some z')) s, tt)) as H1.
  { unfold new_zl. rewrite Hn0, bind_lift, Hpush, bind_lift. by apply (put_modify p (fun n => set_zl n (Some z'))). }
  rewrite (bind_done _ _ _ _ _ H1), (update_sz p _ (set_zl n (Some z')) z' _ (put_lookup _ _ _) eq_refl Hpk'), put_put. done.
Qed.

(** Room for one more entry. *)
Lemma level_bound i lv : optimization_level !! i = Some lv -> lv <= 65536.
Proof. do 5 (destruct i as [|i]; [intros [= <-]; lia|]). done. Qed.

Lemma fits_level n fl : (if _quicklistNodeSizeMeetsOptimizationRequirement n fl then true else negb (negb (n <=? 8192))) = true -> n <= 65536.
Proof.
  unfold _quicklistNodeSizeMeetsOptimizationRequirement. destruct (fl >=? 0); [rewrite negb_involutive; lia|].
  destruct (optimization_level !! _) as [lv|] eqn:Hl; [apply level_bound in Hl|rewrite negb_involutive; lia].
  destruct (Z.leb_spec n lv); [lia|]. rewrite negb_involutive. lia.
Qed.

Lemma allow_insert xs R k q a x b fl (v : list Z) : apart (ids xs) R -> xs = a ++ x :: b -> item_ok x -> counted x ->
  11 + weight (iseg x) + zlen v + 22 < 2 ^ 32 ->
  exists r, _quicklistNodeAllowInsert (Some (iid x)) fl (zlen v) (row xs R k q) = Done (row xs R k q, r) /\
    (r = true -> zlen (iseg x) + 1 <= 65535).
Proof.
  intros Hap Hxs Hok Hcn Hw. unfold _quicklistNodeAllowInsert. rewrite (bind_done _ _ _ _ _ (row_load _ R k q Hap a x b Hxs)). cbn [link sz ncount].
  eexists. split; [done|]. destruct Hok as [_ _ _ _ (z & Hp & Hsz & _)]. destruct (packs_size _ _ Hp) as (H1 & H2 & _).
  set (o := if zlen v <? 64 then _ else _). assert (2 <= o <= 10) as Ho by (subst o; repeat case_match; lia).
  rewrite Hsz, uwrap_small by (unfold in_u; lia). intros Hr. assert (zlen z + zlen v + o <= 65536); [|lia].
  apply (fits_level _ fl). destruct (_quicklistNodeSizeMeetsOptimizationRequirement _ _); [done|]. rewrite negb_involutive.
  destruct (zlen z + zlen v + o <=? 8192); done.
Qed.

(** ** Replacing a node of the chain *)

Lemma raw_at_put a x x' b j : (raw x -> raw x') -> raw_at (a ++ x :: b) j -> raw_at (a ++ x' :: b) j.
Proof.
  intros Hx Hr y Hy. destruct (decide (j = length a)) as [->|Hne].
  - rewrite list_lookup_middle in Hy by done. simplify_eq. apply Hx, Hr. by rewrite list_lookup_middle.
  - apply Hr. apply lookup_app_Some in Hy as [Hy|[Hj Hy]]; [by rewrite lookup_app_l by (by eapply lookup_lt_Some)|].
    rewrite lookup_app_r by done. destruct (j - length a)%nat eqn:He; [lia|done].
Qed.

Lemma ends_put c a x x' b : (raw x -> raw x') -> ends_raw c (a ++ x :: b) -> ends_raw c (a ++ x' :: b).
Proof.
  intros Hx [H0 H1 Hall]. assert (length (a ++ x' :: b) = length (a ++ x :: b)) as Hl by (by rewrite !length_app).
  split; [by apply (raw_at_put a x)|rewrite Hl; by apply (raw_at_put a x)|]. rewrite Hl. intros Hc. specialize (Hall Hc).
  rewrite Forall_app, Forall_cons in *. destruct Hall as (? & ? & ?). split_and!; auto.
Qed.

Lemma chain_put c a x x' b k : chain c (a ++ x :: b) k -> iid x' = iid x -> item_ok x' -> counted x' -> (raw x -> raw x') ->
  chain c (a ++ x' :: b) k.
Proof.
  intros [Hok Hcn Hn Hk He] Hi Ho Hc Hr. split.
  - rewrite Forall_app, Forall_cons in *. by destruct Hok as (? & ? & ?).
  - rewrite Forall_app, Forall_cons in *. by destruct Hcn as (? & ? & ?).
  - rewrite fmap_app in *. cbn [fmap list_fmap] in *. by rewrite Hi.
  - intros i Hin. apply Hk. rewrite fmap_app in *. cbn [fmap list_fmap] in *. by rewrite <- Hi.
  - by eapply ends_put.
Qed.

(** A node that got one entry more. *)
Definition grow (nd : quicklistNode) (z : list Z) : quicklistNode :=
  set_ncount (set_sz (set_zl nd (Some z)) (zlen z)) (ncount nd + 1).

Lemma grow_ok nd z (seg seg' : list (list Z)) : encoding nd = 1 -> recompress nd = false -> packs z seg' -> ncount nd = zlen seg ->
  zlen seg' = zlen seg + 1 -> zlen seg + 1 <= 65535 -> bytes seg' -> node_ok (grow nd z) seg' /\ ncount (grow nd z) = zlen seg'.
Proof.
  intros He Hf Hp Hn Hl Hs Hb. split.
  - split; [intros ->; cbn in Hl; lia|lia|done|done|]. exists z. split; [done|]. split; [done|by left].
  - cbn. rewrite uwrap_small by (unfold in_u; lia). lia.
Qed.

Lemma bytes_cons (v : list Z) l : Forall is_byte v -> bytes l -> bytes (v :: l).
Proof. by constructor. Qed.

Lemma set_count_qlist xs cnt cnt' ln fl c bm : 0 <= cnt' < 2 ^ 64 -> set_count (qlist xs cnt ln fl c bm) cnt' = qlist xs cnt' ln fl c bm.
Proof. intros H. unfold set_count, qlist. cbn. by rewrite uwrap_small by (unfold in_u; lia). Qed.

(** The new node of a push. *)
Definition fresh (z : list Z) : quicklistNode := mkNode None None (Some z) (zlen z) 0 1 2 false.

Lemma fresh_ok z v : packs z [v] -> Forall is_byte v -> node_ok (fresh z) [v].
Proof. intros Hp Hv. split; [done|simpl; lia|by repeat constructor|done|]. exists z. split; [done|]. split; [done|by left]. Qed.

Lemma create_node xs k q v w : (forall i, i ∈ ids xs -> (i < k)%nat) -> room [v] ->
  exists z, packs z [v] /\ forall B (K : unit -> nat -> M B),
    (p ← quicklistCreateNode; _ ← new_zl junk p v w; r ← quicklistNodeUpdateSz p; K r p) (row xs ∅ k q) =
    K tt k (row xs {[k := fresh z]} (S k) q).
Proof.
  intros Hk Hr. assert (k ∉ ids xs) as Hni by (intros Hin; specialize (Hk _ Hin); lia).
  destruct (new_update k v w (row xs {[k := mkNode None None None 0 0 1 2 false]} (S k) q) (mkNode None None None 0 0 1 2 false)) as (z & Hp & Hu);
    [by apply rest_lookup|done|]. exists z. split; [done|]. intros B K.
  unfold quicklistCreateNode. rewrite (bind_done _ _ _ _ _ (row_alloc xs ∅ k q _ Hk)). rewrite <- bind_assoc, (bind_done _ _ _ _ _ Hu).
  rewrite put_rest by done. by rewrite <- !insert_empty, insert_insert_eq.
Qed.

(** ** Pushing *)

(** An entry more. *)
Definition count_up (y : item) : item := mkItem (iid y) (set_ncount (inode y) (ncount (inode y) + 1)) (iseg y).

Lemma count_up_ok y : item_ok y -> item_ok (count_up y).
Proof. intros [? ? ? ? ?]. by split. Qed.

Lemma count_up_state a y b k cnt fl c bm : apart (ids (a ++ y :: b)) ∅ -> cnt + 1 = zlen (contents (a ++ y :: b)) -> cnt + 1 < 2 ^ 64 ->
  0 <= cnt ->
  modify_ql (fun q => set_count q (count q + 1)) (row (a ++ y :: b) ∅ k (qlist (a ++ y :: b) cnt (zlen (a ++ y :: b)) fl c bm)) =
    Done (row (a ++ y :: b) ∅ k (qlist (a ++ y :: b) (cnt + 1) (zlen (a ++ y :: b)) fl c bm), tt) /\
  modify (iid y) (fun n => set_ncount n (ncount n + 1)) (row (a ++ y :: b) ∅ k (qlist (a ++ y :: b) (cnt + 1) (zlen (a ++ y :: b)) fl c bm)) =
    Done (quick fl c (a ++ count_up y :: b) k bm, tt).
Proof.
  intros Hap Hcnt Hb H0. split.
  - rewrite modify_ql_row, set_count_qlist; [done|]. cbn. lia.
  - rewrite (row_modify _ ∅ k _ Hap a y b _ (iseg y) eq_refl (fun _ _ _ => eq_refl)). unfold quick. fold (count_up y).
    assert (contents (a ++ count_up y :: b) = contents (a ++ y :: b)) as -> by (by rewrite !contents_app).
    rewrite Hcnt. do 3 f_equal.
    rewrite <- (qlist_ids (a ++ y :: b) (a ++ count_up y :: b)) by (by rewrite !fmap_app). by rewrite !length_app.
Qed.

(** Either the node at the end of the chain takes the string, or a new one. *)
Lemma grown_chain c a x b k z seg' : chain c (a ++ x :: b) k -> raw x -> packs z seg' -> zlen seg' = zlen (iseg x) + 1 ->
  zlen (iseg x) + 1 <= 65535 -> bytes seg' ->
  let y := mkItem (iid x) (set_sz (set_zl (inode x) (Some z)) (zlen z)) seg' in
  chain c (a ++ count_up y :: b) k.
Proof.
  intros Hch Hraw Hp Hl Hs Hb y. pose proof Hch as [[_ [Hx _]%Forall_cons]%Forall_app [_ [Hcx _]%Forall_cons]%Forall_app _ _ _].
  pose proof Hx as [_ _ _ Hf _].
  destruct (grow_ok (inode x) z (iseg x) seg' Hraw Hf Hp Hcx Hl Hs Hb) as [Hg1 Hg2].
  by apply (chain_put c a x (count_up y) b k Hch).
Qed.

Lemma new_chain c xs k z v a b ys : xs = a ++ b -> chain c xs k -> packs z [v] -> Forall is_byte v ->
  linked_in c (a ++ b) (a ++ mkItem k (fresh z) [v] :: b) ys ->
  exists a' y b', ys = a' ++ y :: b' /\ recode a a' /\ recode b b' /\ chain c (a' ++ count_up y :: b') (S k) /\
    contents ys = contents a ++ v :: contents b.
Proof.
  clear junk htab. intros -> Hch Hp Hv Hl. pose proof (linked_ends _ _ _ _ _ Hl eq_refl (ch_ends _ _ _ Hch)) as Hends. destruct Hl as (Hr & _ & _).
  pose proof (recode_ids _ _ Hr) as Hi. pose proof (recode_ok _ _ Hr) as Hok. pose proof (recode_contents _ _ Hr) as Hco.
  apply Forall2_app_inv_l in Hr as (a' & r & Ha & Hb & ->). apply Forall2_cons_inv_l in Hb as (y & b' & Hy & Hb & ->).
  pose proof Hch as [Ho Hcn Hn Hk _]. apply Forall_app in Hcn as [Hca Hcb].
  exists a', y, b'. split_and!; [done|done|done| |by rewrite Hco, contents_app].
  destruct Hy as (Hyi & Hys & Hyn & Hyo & _). split.
  - rewrite Forall_app, Forall_cons in Hok |- *. destruct Hok as (? & ? & ?). split_and!; [done|by apply count_up_ok|done].
  - rewrite Forall_app, Forall_cons. split_and!; [by eapply recode_counted| |by eapply recode_counted].
    unfold counted, count_up. cbn [inode iseg set_ncount ncount]. by rewrite Hyn, Hys.
  - rewrite fmap_app in Hi |- *. cbn [fmap list_fmap count_up iid] in *. rewrite Hi, fmap_app. cbn [fmap list_fmap iid].
    rewrite <- Permutation_middle, <- fmap_app. constructor; [|done]. intros Hin. specialize (Hk _ Hin). lia.
  - intros i Hin. rewrite fmap_app in Hi, Hin. cbn [fmap list_fmap count_up iid] in *. rewrite Hi, fmap_app in Hin. cbn [fmap list_fmap iid] in Hin.
    assert (i = k \/ i ∈ ids (a ++ b)) as [->|H] by (rewrite fmap_app; set_solver); [lia|]. specialize (Hk _ H). lia.
  - eapply ends_put; [|exact Hends]. done.
Qed.

Lemma first_raw c x b k : chain c (x :: b) k -> raw x.
Proof. intros [_ _ _ _ [H0 _ _]]. by apply H0. Qed.

Lemma last_raw_item c a x k : chain c (a ++ [x]) k -> raw x.
Proof. intros [_ _ _ _ [_ H1 _]]. apply H1. rewrite length_app. cbn [length]. replace (length a + 1 - 1)%nat with (length a) by lia. by apply list_lookup_middle. Qed.

Lemma chain_bytes c xs k : chain c xs k -> bytes (contents xs).
Proof.
  intros [Hok _ _ _ _]. induction Hok as [|x xs [_ _ Hb _ _] _ IH]; [constructor|]. rewrite contents_cons. by apply Forall_app.
Qed.

Section ends.
Context (fl c : Z) (Hc : 0 <= c <= 65535).

(** The end of the list the string goes to, and the two ways it is stored. *)
Definition end_of (hd : bool) (xs : list item) : ptr := if hd then first_or xs None else last_or None xs.
Definition add (hd : bool) (v : list Z) (l : list (list Z)) : list (list Z) := if hd then v :: l else l ++ [v].

Definition push_in (hd : bool) (xs : list item) (v : list Z) : M unit :=
  p ← lift (end_of hd xs); _ ← push_zl junk p v (if hd then ZIPLIST_HEAD else ZIPLIST_TAIL); quicklistNodeUpdateSz p.
Definition push_node (hd : bool) (xs : list item) (v : list Z) : M unit :=
  p ← quicklistCreateNode; _ ← new_zl junk p v (if hd then ZIPLIST_HEAD else ZIPLIST_TAIL); _ ← quicklistNodeUpdateSz p;
  (if hd then _quicklistInsertNodeBefore junk htab (end_of hd xs) p else _quicklistInsertNodeAfter junk htab (end_of hd xs) p).

Lemma weight_add hd v l : weight (add hd v l) = zlen v + 22 + weight l.
Proof. destruct hd; cbn [add]; rewrite ?weight_app, weight_cons; change (weight []) with 0; lia. Qed.

Lemma push_new hd xs k bm v : chain c xs k -> Forall is_byte v -> room (add hd v (contents xs)) ->
  let q := qlist xs (zlen (contents xs)) (zlen xs) fl c bm in
  exists a y b k', push_node hd xs v (row xs ∅ k q) =
      Done (row (a ++ y :: b) ∅ k' (qlist (a ++ y :: b) (zlen (contents xs)) (zlen (a ++ y :: b)) fl c bm), tt) /\
    (if hd then a = [] else b = []) /\ chain c (a ++ count_up y :: b) k' /\ contents (a ++ y :: b) = add hd v (contents xs) /\
    recode xs (a ++ b).
Proof using Hc.
  intros Hch Hv Hr q. pose proof (chain_apart _ _ _ Hch) as Hap. pose proof Hch as [Hok Hcn Hn Hk _].
  unfold room in Hr. rewrite weight_add in Hr. pose proof (weight_nonneg (contents xs)).
  assert (room (contents xs)) as Hr0 by (unfold room; lia). pose proof (room_length _ Hok Hr0) as Hlen.
  destruct (create_node xs k q v (if hd then ZIPLIST_HEAD else ZIPLIST_TAIL) Hk) as (z & Hp & Hcr).
  { unfold room. rewrite weight_cons. change (weight []) with 0. lia. }
  assert (k ∉ ids xs) as Hni by (intros Hin; specialize (Hk _ Hin); lia). unfold push_node. rewrite Hcr.
  set (x := mkItem k (fresh z) [v]). assert (item_ok x) as Hx by by apply fresh_ok.
  destruct hd; cbn [end_of add].
  - destruct (link_before [] xs x ∅ (S k) (zlen (contents xs)) fl c bm) as (ys & Hl & Hli);
      [done|done|done|done|done|by constructor|done|cbn; lia|destruct xs; [by right|by left]|].
    destruct (new_chain c xs k z v [] xs ys eq_refl Hch Hp Hv Hli) as (a' & y & b' & -> & Ha & Hb & Hc' & Hco).
    apply Forall2_nil_inv_l in Ha as ->. exists [], y, b', (S k). split; [exact Hl|done].
  - destruct (link_after xs [] x ∅ (S k) (zlen (contents xs)) fl c bm) as (ys & Hl & Hli);
      rewrite ?app_nil_r; [done|done|done|done|done|apply Forall_app; split; [done|by constructor]|done|lia|by right|].
    rewrite app_nil_r in Hl, Hli.
    destruct (new_chain c xs k z v xs [] ys (eq_sym (app_nil_r _)) Hch Hp Hv) as (a' & y & b' & -> & Ha & Hb & Hc' & Hco); [by rewrite app_nil_r|].
    apply Forall2_nil_inv_l in Hb as ->. exists a', y, [], (S k). split; [exact Hl|]. by rewrite app_nil_r.
Qed.

Lemma push_old hd xs k bm v a x b : chain c xs k -> Forall is_byte v -> room (add hd v (contents xs)) ->
  xs = a ++ x :: b -> (if hd then a = [] else b = []) -> zlen (iseg x) + 1 <= 65535 ->
  let q := qlist xs (zlen (contents xs)) (zlen xs) fl c bm in
  exists y, push_in hd xs v (row xs ∅ k q) =
      Done (row (a ++ y :: b) ∅ k (qlist (a ++ y :: b) (zlen (contents xs)) (zlen (a ++ y :: b)) fl c bm), tt) /\
    chain c (a ++ count_up y :: b) k /\ contents (a ++ y :: b) = add hd v (contents xs).
Proof.
  intros Hch Hv Hr Hxs Hab Hs q. pose proof (chain_apart _ _ _ Hch) as Hap.
  assert (raw x) as Hraw. { destruct hd; subst; [by eapply first_raw|by eapply last_raw_item]. }
  pose proof (weight_in a x b) as Hw. rewrite <- Hxs in Hw. unfold room in Hr. rewrite weight_add in Hr.
  pose proof (ch_ok _ _ _ Hch) as Hok. rewrite Hxs in Hok. apply Forall_app in Hok as [_ [Hx _]%Forall_cons].
  destruct (raw_block _ _ Hx Hraw) as (z & Hp & Hsz & Hz).
  assert (end_of hd xs = Some (iid x)) as He. { unfold end_of. destruct hd; subst; [done|by rewrite last_or_snoc]. }
  unfold push_in. rewrite He, bind_lift.
  set (w := if hd then ZIPLIST_HEAD else ZIPLIST_TAIL). assert (forall l, (if w =? ZIPLIST_HEAD then v :: l else l ++ [v]) = add hd v l) as Hadd by (by destruct hd).
  destruct (push_update (iid x) v w (row xs ∅ k q) _ z (iseg x) (row_lookup _ _ _ _ Hap a x b Hxs) Hz Hp) as (z' & Hp' & Hu).
  { rewrite Hadd. unfold room. rewrite weight_add. lia. }
  rewrite Hadd in Hp'. rewrite Hu. set (nd := set_sz (set_zl (inode x) (Some z')) (zlen z')).
  exists (mkItem (iid x) nd (add hd v (iseg x))). subst xs. split_and!.
  - change (set_sz _ _) with (link (last_or None a) (first_or b None) nd). rewrite (put_row a x b ∅ k q nd (add hd v (iseg x))) by done.
    unfold q. do 3 f_equal. rewrite (qlist_ids (a ++ x :: b) (a ++ mkItem (iid x) nd (add hd v (iseg x)) :: b)) by (by rewrite !fmap_app).
    by rewrite !length_app.
  - apply (grown_chain c a x b k z' (add hd v (iseg x)) Hch Hraw Hp'); [|done|].
    + destruct hd; cbn [add]; rewrite ?length_app; cbn [length]; lia.
    + destruct Hx as [_ _ Hb _ _]. destruct hd; cbn [add]; [by constructor|]. apply Forall_app. split; [done|by constructor].
  - rewrite !contents_app, !contents_cons. cbn [iseg]. destruct hd; cbn [add]; subst; [done|]. by rewrite !app_nil_r, app_assoc.
Qed.

(** Both ways together with the test that chooses between them. *)
Lemma push_either hd xs k bm v : chain c xs k -> Forall is_byte v -> room (add hd v (contents xs)) ->
  let q := qlist xs (zlen (contents xs)) (zlen xs) fl c bm in
  exists ok a y b k', _quicklistNodeAllowInsert (end_of hd xs) fl (zlen v) (row xs ∅ k q) = Done (row xs ∅ k q, ok) /\
    (if ok : bool then push_in hd xs v else push_node hd xs v) (row xs ∅ k q) =
      Done (row (a ++ y :: b) ∅ k' (qlist (a ++ y :: b) (zlen (contents xs)) (zlen (a ++ y :: b)) fl c bm), tt) /\
    (if hd then a = [] else b = []) /\ chain c (a ++ count_up y :: b) k' /\ contents (a ++ y :: b) = add hd v (contents xs) /\
    (recode xs (a ++ b) \/ exists x, xs = a ++ x :: b).
Proof using Hc.
  intros Hch Hv Hr q. destruct (push_new hd xs k bm v Hch Hv Hr) as (a & y & b & k' & Hn & Hab & Hc' & Hco & Hre).
  destruct (decide (xs = [])) as [->|Hne].
  { exists false, a, y, b, k'. split_and!; [|done..|by left]. by destruct hd. }
  assert (exists a0 x b0, xs = a0 ++ x :: b0 /\ (if hd then a0 = [] else b0 = []) /\ end_of hd xs = Some (iid x)) as (a0 & x & b0 & Hxs & Hab0 & He).
  { destruct hd.
    - destruct xs as [|x xs]; [done|]. by exists [], x, xs.
    - destruct xs as [|x xs _] using rev_ind; [done|]. exists xs, x, []. split_and!; [done|done|]. cbn [end_of]. by rewrite last_or_snoc. }
  pose proof (weight_in a0 x b0) as Hw. rewrite <- Hxs in Hw. pose proof Hr as Hr'. unfold room in Hr'. rewrite weight_add in Hr'.
  pose proof (ch_ok _ _ _ Hch) as Hok. pose proof (ch_counted _ _ _ Hch) as Hcn. rewrite Hxs in Hok, Hcn.
  apply Forall_app in Hok as [_ [Hx _]%Forall_cons]. apply Forall_app in Hcn as [_ [Hcx _]%Forall_cons].
  destruct (allow_insert xs ∅ k q a0 x b0 fl v (chain_apart _ _ _ Hch) Hxs Hx Hcx) as (ok & Ha & Hle); [lia|]. rewrite <- He in Ha.
  destruct ok; [|exists false, a, y, b, k'; split_and!; [done..|by left]].
  destruct (push_old hd xs k bm v a0 x b0 Hch Hv Hr Hxs Hab0 (Hle eq_refl)) as (y' & Ho & Hc2 & Hco2).
  exists true, a0, y', b0, k. split_and!; [done..|]. right. by exists x.
Qed.

Lemma push_head xs k bm v : chain c xs k -> Forall is_byte v -> room (v :: contents xs) ->
  exists ys k' r, quicklistPushHead junk htab v (quick fl c xs k bm) = Done (quick fl c ys k' bm, r) /\
    chain c ys k' /\ contents ys = v :: contents xs /\ exists y b, ys = y :: b /\ (recode xs b \/ exists x, xs = x :: b).
Proof using Hc.
  intros Hch Hv Hr. destruct (push_either true xs k bm v Hch Hv Hr) as (ok & a & y & b & k' & Ha & Hp & -> & Hc' & Hco & Hre).
  unfold quicklistPushHead, quick. rewrite (bind_done _ _ _ _ _ (this_row _ _ _ _)). cbn [head fill qlist].
  fold (qlist xs (zlen (contents xs)) (zlen xs) fl c bm). cbn [end_of] in Ha. rewrite (bind_done _ _ _ _ _ Ha).
  unfold push_in, push_node in Hp. cbn [end_of] in Hp. rewrite (bind_done _ _ _ _ _ Hp). cbn [add app] in *.
  pose proof (weight_length (contents xs)). unfold room in Hr. rewrite weight_cons in Hr. pose proof (weight_nonneg (contents xs)).
  destruct (count_up_state [] y b k' (zlen (contents xs)) fl c bm) as [H1 H2].
  { split; [apply (ch_nodup _ _ _ Hc')|done]. }
  { cbn [app]. rewrite Hco. cbn [length]. lia. }
  { lia. }
  { lia. }
  cbn [app] in H1, H2. rewrite (bind_done _ _ _ _ _ H1), (bind_done _ _ _ _ _ (this_row _ _ _ _)). cbn [qlist head first_or]. rewrite bind_lift.
  fold (qlist (y :: b) (zlen (contents xs) + 1) (zlen (y :: b)) fl c bm).
  rewrite (bind_done _ _ _ _ _ H2). eexists _, _, _. split; [done|]. split_and!; [done|by rewrite <- Hco|]. by exists (count_up y), b.
Qed.

Lemma push_tail xs k bm v : chain c xs k -> Forall is_byte v -> room (contents xs ++ [v]) ->
  exists ys k' r, quicklistPushTail junk htab v (quick fl c xs k bm) = Done (quick fl c ys k' bm, r) /\
    chain c ys k' /\ contents ys = contents xs ++ [v].
Proof using Hc.
  intros Hch Hv Hr. destruct (push_either false xs k bm v Hch Hv Hr) as (ok & a & y & b & k' & Ha & Hp & -> & Hc' & Hco & _).
  unfold quicklistPushTail, quick. rewrite (bind_done _ _ _ _ _ (this_row _ _ _ _)). cbn [tail fill qlist].
  fold (qlist xs (zlen (contents xs)) (zlen xs) fl c bm). cbn [end_of] in Ha. rewrite (bind_done _ _ _ _ _ Ha).
  unfold push_in, push_node in Hp. cbn [end_of] in Hp. rewrite (bind_done _ _ _ _ _ Hp). cbn [add] in *.
  pose proof (weight_length (contents xs)). unfold room in Hr. rewrite weight_app, weight_cons in Hr. change (weight []) with 0 in Hr.
  pose proof (weight_nonneg (contents xs)).
  destruct (count_up_state a y [] k' (zlen (contents xs)) fl c bm) as [H1 H2].
  { split; [|done]. pose proof (ch_nodup _ _ _ Hc') as Hn. by rewrite fmap_app in Hn |- *. }
  { rewrite Hco, length_app. cbn [length]. lia. }
  { lia. }
  { lia. }
  rewrite (bind_done _ _ _ _ _ H1), (bind_done _ _ _ _ _ (this_row _ _ _ _)). cbn [qlist tail]. rewrite last_or_snoc, bind_lift.
  fold (qlist (a ++ [y]) (zlen (contents xs) + 1) (zlen (a ++ [y])) fl c bm).
  rewrite (bind_done _ _ _ _ _ H2). eexists _, _, _. split; [done|]. split; [done|]. rewrite <- Hco. by rewrite !contents_app.
Qed.

End ends.

End ops.
End QuicklistOps.
