(* ===== verification/QuicklistEdit.v ===== *)
(** The operations of a quicklist that delete, append, copy and pop, for every
    depth of compression. *)

From stdpp Require Import gmap.
From S2P Require Import Prelude UtilNum Ziplist ZiplistRun ZiplistPos Lzf Effects Quicklist QuicklistHeap QuicklistFacts QuicklistOps.

#[local] Open Scope Z_scope.

Module QuicklistEdit.
Import UtilNum Ziplist ZiplistRun ZiplistPos Quicklist QuicklistHeap QuicklistFacts QuicklistOps.
#[local] Notation zlen l := (Z.of_nat (length l)) (only parsing).

Lemma weight_sub (l : list (list Z)) j n : weight (take j l ++ drop (j + n) l) <= weight l.
Proof.
  rewrite weight_app. pose proof (weight_app (take j l) (drop j l)) as H. rewrite take_drop in H.
  pose proof (weight_app (take n (drop j l)) (drop n (drop j l))) as H2. rewrite take_drop, drop_drop in H2.
  pose proof (weight_nonneg (take n (drop j l))). lia.
Qed.

Lemma bytes_sub (l : list (list Z)) j n : bytes l -> bytes (take j l ++ drop (j + n) l).
Proof. intros H. apply Forall_app. split; [by apply Forall_take|by apply Forall_drop]. Qed.

Lemma room_le l l' : room l -> weight l' <= weight l -> room l'.
Proof. unfold room. lia. Qed.

Lemma length_del {A} (l : list A) j : (j < length l)%nat -> zlen (take j l ++ drop (S j) l) = zlen l - 1.
Proof. intros H. rewrite length_app, length_take, length_drop. lia. Qed.

(** Dropping a node, or its entries, from a chain. *)
Lemma chain_drop c a x b k ys : chain c (a ++ x :: b) k -> recode (a ++ b) ys -> ends_raw c ys -> chain c ys k.
Proof.
  intros [Hok Hcn Hn Hk _] Hr He. pose proof (recode_ids _ _ Hr) as Hi.
  assert (Forall counted (a ++ b)) as Hcn'. { rewrite Forall_app, Forall_cons in *. by destruct Hcn as (? & ? & ?). }
  rewrite fmap_app, fmap_cons, <- Permutation_middle in Hn. apply NoDup_cons in Hn as [_ Hn]. rewrite <- fmap_app in Hn.
  split; [by eapply recode_ok|by eapply recode_counted|by rewrite Hi| |done].
  intros i. rewrite Hi. intros Hin. apply Hk. rewrite fmap_app in *. cbn [fmap list_fmap]. set_solver.
Qed.

Section edit.
Context (junk : nat -> Z) (htab : Z -> Z) (fl c : Z) (Hc : 0 <= c <= 65535).

(** ** Deleting an entry *)

(** A node with the entries that are left. *)
Definition shrunk (x : item) (z : list Z) (seg : list (list Z)) : item :=
  mkItem (iid x) (set_sz (set_ncount (set_zl (inode x) (Some z)) (zlen seg)) (zlen z)) seg.

Lemma shrunk_ok x z seg : item_ok x -> raw x -> packs z seg -> seg <> [] -> zlen seg <= 65535 -> bytes seg ->
  item_ok (shrunk x z seg) /\ counted (shrunk x z seg) /\ raw (shrunk x z seg).
Proof.
  intros [_ _ _ Hf _] Hr Hp Hne Hl Hb. split_and!; [|by unfold counted; cbn; rewrite uwrap_small by (unfold in_u; lia)|done].
  split; [done|done|done|done|]. exists z. split; [done|]. split; [done|by left].
Qed.

Lemma shrunk_chain a x b k z seg : chain c (a ++ x :: b) k -> raw x -> packs z seg -> seg <> [] -> zlen seg <= 65535 -> bytes seg ->
  chain c (a ++ shrunk x z seg :: b) k.
Proof.
  intros Hch Hr Hp Hne Hl Hb. pose proof (ch_ok _ _ _ Hch) as Hok. apply Forall_app in Hok as [_ [Hx _]%Forall_cons].
  destruct (shrunk_ok x z seg) as (? & ? & ?); [done..|]. by apply (chain_put c a x _ b k Hch).
Qed.

(** The state after a node was replaced. *)
Lemma quick_put a x x' b k cnt bm : iid x' = iid x -> cnt = zlen (contents (a ++ x' :: b)) ->
  row (a ++ x' :: b) ∅ k (qlist (a ++ x :: b) cnt (zlen (a ++ x :: b)) fl c bm) = quick fl c (a ++ x' :: b) k bm.
Proof.
  intros Hi ->. unfold quick. f_equal. rewrite (qlist_ids (a ++ x :: b) (a ++ x' :: b)); [by rewrite !length_app|].
  rewrite !fmap_app. cbn [fmap list_fmap]. by rewrite Hi.
Qed.

Lemma del_index a x b k bm z j p : chain c (a ++ x :: b) k -> raw x -> zl (inode x) = Some z -> pos z (iseg x) j p ->
  (j < length (iseg x))%nat -> room (contents (a ++ x :: b)) ->
  let seg := take j (iseg x) ++ drop (S j) (iseg x) in
  exists ys bm' gone, quicklistDelIndex junk htab (iid x) p (quick fl c (a ++ x :: b) k bm) = Done (quick fl c ys k bm', (gone, p)) /\
    chain c ys k /\ contents ys = contents a ++ seg ++ contents b /\
    (if gone : bool then seg = [] /\ recode (a ++ b) ys /\ (c = 0 -> ys = a ++ b)
     else exists z', packs z' seg /\ ys = a ++ shrunk x z' seg :: b).
Proof using Hc.
  intros Hch Hraw Hz Hpos Hj Hroom seg. pose proof (chain_apart _ _ _ Hch) as Hap. pose proof (ch_ok _ _ _ Hch) as Hok.
  pose proof Hok as [Ha [Hx Hb]%Forall_cons]%Forall_app. pose proof Hx as [_ Hsh Hby _ _].
  pose proof (ch_counted _ _ _ Hch) as [_ [Hcx _]%Forall_cons]%Forall_app. pose proof (weight_in a x b) as Hw.
  assert (room (iseg x)) as Hrx by (by eapply room_le). pose proof (room_length _ Hok Hroom) as Hlen.
  destruct (pos_delete junk z (iseg x) j p Hpos Hj Hrx) as (z' & Hd & Hpos'). fold seg in Hpos'. pose proof (pos_packs _ _ _ _ Hpos') as Hp'.
  pose proof (length_del (iseg x) j Hj) as Hlseg. fold seg in Hlseg.
  assert (bytes seg) as Hbs by (unfold seg; rewrite <- (Nat.add_1_r j); by apply bytes_sub).
  unfold quicklistDelIndex, quick. set (q := qlist (a ++ x :: b) _ _ fl c bm).
  rewrite (bind_done _ _ _ _ _ (put_block _ _ _ z (row_lookup _ ∅ k q Hap a x b eq_refl) Hz)), Hd, bind_lift. cbv beta iota.
  rewrite modify_modify. rewrite (bind_done _ _ _ _ _ (row_modify _ ∅ k q Hap a x b _ seg eq_refl (fun _ _ _ => eq_refl))).
  set (x1 := mkItem (iid x) _ seg). assert (ncount (inode x1) = zlen seg) as Hn1.
  { cbn. rewrite Hcx, uwrap_small by (unfold in_u; lia). lia. }
  assert (apart (ids (a ++ x1 :: b)) ∅) as Hap1 by (by apply (apart_put a x)).
  rewrite (bind_done _ _ _ _ _ (row_load _ ∅ k q Hap1 a x1 b eq_refl)). cbn [link ncount]. rewrite Hn1. cbv zeta.
  assert (zlen (contents (a ++ x :: b)) = zlen (contents a ++ seg ++ contents b) + 1) as Hcnt.
  { rewrite contents_app, contents_cons, !length_app. lia. }
  pose proof (weight_length (contents (a ++ x :: b))) as Hwl. pose proof Hroom as Hroom'. unfold room in Hroom'.
  assert (q = qlist (a ++ x1 :: b) (zlen (contents (a ++ x :: b))) (zlen (a ++ x1 :: b)) fl c bm) as Hq.
  { unfold q. rewrite <- (qlist_ids (a ++ x :: b) (a ++ x1 :: b)) by (by rewrite !fmap_app). by rewrite !length_app. }
  destruct (Z.eqb_spec (zlen seg) 0) as [H0|H0].
  - assert (seg = []) as Hnil by (destruct seg; [done|cbn in H0; lia]). rewrite Hq.
    destruct (del_node junk htab a x1 b ∅ k (zlen (contents (a ++ x :: b))) fl c bm Hap1) as (ys & bm' & Hdel & Hr & He & He0);
      [by apply Forall_app|done|by rewrite length_app in Hlen |- *; cbn [length] in Hlen |- *; lia|].
    rewrite (bind_done _ _ _ _ _ Hdel), bind_modify_row. exists ys, bm', true.
    assert (contents ys = contents a ++ seg ++ contents b) as Hco by (by rewrite (recode_contents _ _ Hr), Hnil, contents_app).
    split_and!; [|eapply chain_drop; [exact Hch|done|]|done|done..].
    + rewrite Hn1, H0, Z.sub_0_r, !uwrap_small by (unfold in_u; lia). unfold quick. rewrite Hco.
      cbn [count qlist]. rewrite set_count_qlist by lia. unfold mret, st_ret. do 4 f_equal. unfold qlist. f_equal. lia.
    + apply He. eapply ends_put; [|exact (ch_ends _ _ _ Hch)]. done.
  - rewrite (bind_done _ _ _ _ _ (update_sz _ _ _ z' seg (row_lookup _ ∅ k q Hap1 a x1 b eq_refl) eq_refl Hp')).
    change (set_sz (link ?p ?n ?y) ?v) with (link p n (set_sz y v)). rewrite (put_row a x1 b ∅ k q _ seg Hap1). cbn [iid x1].
    assert (mkItem (iid x) (set_sz (inode x1) (zlen z')) seg = shrunk x z' seg) as ->.
    { unfold shrunk, x1. cbn [inode]. do 3 f_equal. unfold counted in Hcx. cbn [set_zl ncount]. lia. }
    assert (seg <> []) as Hne by (intros Hne; rewrite Hne in H0; done).
    rewrite bind_modify_row. exists (a ++ shrunk x z' seg :: b), bm, false. split_and!.
    + unfold q. cbn [count qlist]. fold (qlist (a ++ x :: b) (zlen (contents (a ++ x :: b))) (zlen (a ++ x :: b)) fl c bm).
      rewrite set_count_qlist, quick_put; [done|done| |lia]. rewrite Hcnt, (contents_app a (shrunk x z' seg :: b)), contents_cons. cbn [iseg shrunk]. lia.
    + apply shrunk_chain; [done..|lia|done].
    + by rewrite contents_app, contents_cons.
    + by exists z'.
Qed.

(** ** Popping *)

(** The string a pop delivers. *)
Definition popped (r : bool * option (option (list Z) * Z * Z)) : option (list Z) :=
  match r with
  | (true, Some (Some s, _, _)) => Some s
  | (true, Some (None, _, v)) => Some (decimal v)
  | _ => None
  end.

Lemma contents_nil xs : Forall item_ok xs -> contents xs = [] -> xs = [].
Proof. intros Hok Hn. pose proof (contents_length xs Hok) as H. rewrite Hn in H. by destruct xs; [|cbn in H; lia]. Qed.

(** The entry at the end of the list. *)
Lemma end_entry (hd : bool) xs k : chain c xs k -> xs <> [] ->
  exists (a : list item) (x : item) (b : list item) (z : list Z) (p : Z) (j : nat) (s : list Z), xs = a ++ x :: b /\ (if hd then a = [] else b = []) /\ end_of hd xs = Some (iid x) /\ raw x /\ zl (inode x) = Some z /\
    packs z (iseg x) /\ ziplistIndex z (if hd then 0 else -1) = Some (Some p) /\ pos z (iseg x) j p /\ iseg x !! j = Some s /\
    (if hd then contents xs = s :: (drop 1 (iseg x) ++ contents b) /\ j = O
     else contents xs = (contents a ++ take j (iseg x)) ++ [s] /\ S j = length (iseg x)).
Proof.
  intros Hch Hne.
  assert (exists a x b, xs = a ++ x :: b /\ (if hd then a = [] else b = []) /\ end_of hd xs = Some (iid x) /\ raw x) as (a & x & b & Hxs & Hab & He & Hraw).
  { destruct hd.
    - destruct xs as [|x xs]; [done|]. exists [], x, xs. split_and!; try done. by eapply first_raw.
    - destruct xs as [|x xs _] using rev_ind; [done|]. exists xs, x, []. split_and!; [done|done|cbn [end_of]; by rewrite last_or_snoc|by eapply last_raw_item]. }
  pose proof (ch_ok _ _ _ Hch) as Hok. rewrite Hxs in Hok. apply Forall_app in Hok as [_ [Hx _]%Forall_cons].
  destruct (raw_block _ _ Hx Hraw) as (z & Hp & _ & Hz). pose proof Hx as [Hseg _ _ _ _].
  set (i := if hd then 0 else -1). set (j := if hd then O else Nat.pred (length (iseg x))).
  assert (0 < length (iseg x))%nat as Hl by (destruct (iseg x); [done|cbn; lia]).
  assert (entry_index (iseg x) i = Some j) as Hi.
  { unfold entry_index, i, j. destruct hd; cbn [Z.leb Z.compare Z.opp]; [rewrite (proj2 (Z.ltb_lt _ _)) by lia; done|].
    rewrite (proj2 (Z.leb_le _ _)) by lia. f_equal. lia. }
  destruct (packs_index z (iseg x) i Hp) as (r & Hr & Hpos); [unfold i; destruct hd; lia|]. rewrite Hi in Hpos. destruct Hpos as (p & -> & Hpos).
  destruct (lookup_lt_is_Some_2 (iseg x) j) as [s Hs]; [unfold j; destruct hd; lia|].
  exists a, x, b, z, p, j, s. split_and!; try done. destruct hd.
  - subst a. split; [|done]. rewrite Hxs. cbn [app]. rewrite contents_cons. destruct (iseg x); [done|]. cbn in Hs |- *. by simplify_eq.
  - subst b. split; [|unfold j; lia]. rewrite Hxs, contents_app, contents_cons, app_nil_r. rewrite <- (app_assoc (contents a)). f_equal.
    rewrite <- (take_drop_middle (iseg x) j s Hs) at 1. rewrite drop_ge by (unfold j; lia). done.
Qed.

Lemma pop_spec (hd : bool) xs k bm : chain c xs k -> room (contents xs) -> contents xs <> [] ->
  exists ys bm' r s, quicklistPop junk htab (if hd then QUICKLIST_HEAD else QUICKLIST_TAIL) (quick fl c xs k bm) = Done (quick fl c ys k bm', r) /\
    chain c ys k /\ popped r = Some s /\ contents xs = add hd s (contents ys).
Proof using Hc.
  intros Hch Hr Hne. assert (xs <> []) as Hxne by (by intros ->).
  destruct (end_entry hd xs k Hch Hxne) as (a & x & b & z & p & j & s & Hxs & Hab & He & Hraw & Hz & Hp & Hi & Hpos & Hs & Hco).
  destruct (pos_get z (iseg x) j p s Hpos Hs) as (f & Hg & Hfe & Hf). pose proof (lookup_lt_Some _ _ _ Hs) as Hj.
  pose proof (chain_apart _ _ _ Hch) as Hap.
  assert (0 < zlen (contents xs)) by (destruct (contents xs); [done|cbn; lia]).
  subst xs. destruct (del_index a x b k bm z j p Hch Hraw Hz Hpos Hj Hr) as (ys & bm' & gone & Hd & Hch' & Hco' & _).
  exists ys, bm', (match f with FoundStr _ slen => (true, Some (Some s, slen, -123456789)) | FoundInt v => (true, Some (None, 0, v)) end), s.
  split_and!; [|done| |].
  - unfold quicklistPop, quick. rewrite (bind_done _ _ _ _ _ (this_row _ _ _ _)). cbn [qlist count].
    rewrite (proj2 (Z.eqb_neq _ _)) by lia. unfold quicklistPopCustom. rewrite (bind_done _ _ _ _ _ (this_row _ _ _ _)).
    cbn [qlist count head tail]. rewrite (proj2 (Z.eqb_neq _ _)) by lia.
    fold (qlist (a ++ x :: b) (zlen (contents (a ++ x :: b))) (zlen (a ++ x :: b)) fl c bm).
    assert ((if ((if hd then 0 else -1) =? 0) && bool_decide (is_Some (first_or (a ++ x :: b) None)) then first_or (a ++ x :: b) None
      else if ((if hd then 0 else -1) =? -1) && bool_decide (is_Some (last_or None (a ++ x :: b))) then last_or None (a ++ x :: b) else None) = Some (iid x)) as ->.
    { destruct hd; cbn [end_of Z.eqb Pos.eqb andb] in *; rewrite He; by rewrite bool_decide_eq_true_2. }
    cbv zeta. replace (if (if hd then 0 else -1) =? 0 then 0 else -1) with (if hd then 0 else -1) by (by destruct hd).
    rewrite (bind_done _ _ _ _ _ (put_block _ _ _ z (row_lookup _ ∅ k _ Hap a x b eq_refl) Hz)), Hi, bind_lift, Hg, bind_lift.
    fold (quick fl c (a ++ x :: b) k bm). destruct f as [sstr slen|v]; cbn [fetch] in Hfe.
    + rewrite Hfe, bind_assoc, bind_lift, bind_ret, bind_lift, (bind_done _ _ _ _ _ Hd). done.
    + rewrite bind_ret, bind_lift, (bind_done _ _ _ _ _ Hd). done.
  - destruct f as [sstr slen|v]; [done|]. cbn. by destruct Hf as [_ ->].
  - rewrite Hco'. destruct hd; destruct Hco as [-> Hj']; subst; cbn [add].
    + done.
    + rewrite drop_ge by lia. by rewrite !app_nil_r.
Qed.

Lemma pop_empty w xs k bm : contents xs = [] ->
  exists r, quicklistPop junk htab w (quick fl c xs k bm) = Done (quick fl c xs k bm, r) /\ popped r = None.
Proof.
  intros He. unfold quicklistPop, quick. rewrite (bind_done _ _ _ _ _ (this_row _ _ _ _)). cbn [qlist count]. rewrite He. by eexists.
Qed.

(** ** Appending *)

Lemma linked_chain a b x k ys : chain c (a ++ b) k -> iid x = k -> item_ok x -> counted x -> raw x ->
  linked_in c (a ++ b) (a ++ x :: b) ys -> chain c ys (S k).
Proof.
  clear Hc. clear junk htab. intros Hch Hi Hx Hcx Hrx Hl. pose proof (linked_ends _ _ _ _ _ Hl Hrx (ch_ends _ _ _ Hch)) as Hends.
  destruct Hl as (Hr & _ & _). pose proof (recode_ids _ _ Hr) as Hids. destruct Hch as [Hok Hcn Hn Hk _]. split; [by eapply recode_ok| | | |done].
  - eapply recode_counted; [done|]. rewrite Forall_app, Forall_cons in *. by destruct Hcn.
  - rewrite Hids, fmap_app, fmap_cons, <- Permutation_middle, <- fmap_app. constructor; [|done]. intros Hin. specialize (Hk _ Hin). lia.
  - intros i. rewrite Hids, fmap_app, fmap_cons. intros Hin. assert (i = k \/ i ∈ ids (a ++ b)) as [->|H]; [|lia|].
    + rewrite fmap_app. set_solver.
    + specialize (Hk _ H). lia.
Qed.

Lemma append_spec xs k bm z l : chain c xs k -> packs z l -> l <> [] -> zlen l <= 65535 -> bytes l -> room (contents xs ++ l) ->
  exists ys, quicklistAppendZiplist junk htab z (quick fl c xs k bm) = Done (quick fl c ys (S k) bm, tt) /\
    chain c ys (S k) /\ contents ys = contents xs ++ l.
Proof using Hc.
  intros Hch Hp Hne Hl Hb Hr. pose proof (chain_apart _ _ _ Hch) as Hap. pose proof Hch as [Hok _ _ Hk _].
  unfold room in Hr. rewrite weight_app in Hr. pose proof (weight_nonneg l). pose proof (weight_length (contents xs)). pose proof (weight_length l).
  assert (room (contents xs)) as Hr0 by (unfold room; lia). pose proof (room_length _ Hok Hr0) as Hlen.
  assert (k ∉ ids xs) as Hni by (intros Hin; specialize (Hk _ Hin); lia).
  destruct (packs_len z l Hp) as (z' & Hzl & Hp' & Hz'). unfold quicklistAppendZiplist, quicklistCreateNode, quick.
  set (q := qlist xs _ _ fl c bm). rewrite (bind_done _ _ _ _ _ (row_alloc xs ∅ k q _ Hk)), Hzl, bind_lift. cbv beta iota.
  rewrite (packs_blob _ _ Hp'), bind_lift. set (n0 := mkNode _ _ _ _ _ _ _ _).
  rewrite (bind_done _ _ _ _ _ (put_modify _ _ _ n0 (rest_lookup xs ∅ (S k) q k n0 Hni))), put_rest, insert_insert_eq by done.
  rewrite (bind_done _ _ _ _ _ (this_row _ _ _ _)). set (nd := set_sz _ _). set (x := mkItem k nd l).
  assert (item_ok x) as Hx.
  { split; [done|done|done|done|]. exists z'. split; [done|]. split; [done|by left]. }
  assert (counted x) as Hcx by (unfold counted; cbn; rewrite uwrap_small by (unfold in_u; lia); done).
  destruct (link_after junk htab xs [] x ∅ (S k) (zlen (contents xs)) fl c bm) as (ys & Hlk & Hli);
    rewrite ?app_nil_r; [done|done|done|done|done|apply Forall_app; split; [done|by constructor]|done|lia|by right|].
  rewrite app_nil_r in Hlk. change (tail q) with (last_or None xs). rewrite (bind_done _ _ _ _ _ Hlk).
  assert (chain c ys (S k)) as Hchy by (apply (linked_chain xs [] x k ys); [by rewrite app_nil_r|done..]).
  destruct Hli as (Hre & _). pose proof (recode_contents _ _ Hre) as Hco. rewrite contents_app, contents_cons, app_nil_r in Hco. cbn [iseg x] in Hco.
  apply Forall2_app_inv_l in Hre as (ys1 & r & _ & Hyr & ->). apply Forall2_cons_inv_l in Hyr as (y & r' & (Hyi & _ & Hyn & _) & Hnil & ->).
  apply Forall2_nil_inv_l in Hnil as ->. cbn [iid x] in Hyi.
  pose proof (row_load _ ∅ (S k) (qlist (ys1 ++ [y]) (zlen (contents xs)) (zlen (ys1 ++ [y])) fl c bm) (chain_apart _ _ _ Hchy) ys1 y [] eq_refl) as Hld.
  rewrite Hyi in Hld. change (iid x) with k. rewrite (bind_done _ _ _ _ _ Hld). cbn [link ncount]. rewrite modify_ql_row.
  exists (ys1 ++ [y]). split_and!; [|done|done]. cbn [count qlist]. rewrite Hyn, Hcx. cbn [iseg x]. fold (qlist (ys1 ++ [y]) (zlen (contents xs)) (zlen (ys1 ++ [y])) fl c bm).
  rewrite set_count_qlist by lia. unfold quick. by rewrite Hco, (length_app (contents xs)), Nat2Z.inj_add.
Qed.

(** An integer is printed as it was stored. *)
Lemma printed_fetch z f s : fetch z f = Some s -> match f with FoundInt v => in_s 64 v /\ s = decimal v | FoundStr _ slen => slen = zlen s end ->
  printed z f = Some s.
Proof.
  destruct f as [sstr slen|v]; cbn [fetch printed]; [done|]. intros _ [Hv ->].
  destruct (ll2string_fits (replicate 32 0) 32 v Hv) as (rest & -> & _); [rewrite length_replicate; lia|done|]. bsimpl.
  apply mread_head; [done|]. by rewrite Nat2Z.id.
Qed.

(** A cursor: at entry [j], or past the last one. *)
Definition cursor (z : list Z) (l : list (list Z)) (j : nat) (r : option Z) : Prop :=
  if decide (j < length l)%nat then exists p, r = Some p /\ pos z l j p else r = None.

Lemma append_values_spec z l : bytes l -> forall n j r xs k bm, (length l - j < n)%nat -> cursor z l j r ->
  chain c xs k -> room (contents xs ++ drop j l) ->
  exists ys k', append_values junk htab n z r (quick fl c xs k bm) = Done (quick fl c ys k' bm, tt) /\
    chain c ys k' /\ contents ys = contents xs ++ drop j l.
Proof using Hc.
  intros Hb n. induction n as [|n IH]; intros j r xs k bm Hn Hcu Hch Hr; [lia|]. cbn [append_values]. unfold cursor in Hcu.
  destruct (decide (j < length l)%nat) as [Hlt|Hge].
  2: { subst r. rewrite drop_ge by lia. exists xs, k. split_and!; [done|done|by rewrite app_nil_r]. }
  destruct Hcu as (p & -> & Hpos).
  destruct (lookup_lt_is_Some_2 l j Hlt) as [s Hs]. destruct (pos_get z l j p s Hpos Hs) as (f & Hg & Hfe & Hf).
  rewrite Hg, bind_lift, (printed_fetch _ _ _ Hfe Hf), bind_lift. rewrite (drop_S _ _ _ Hs) in Hr |- *.
  assert (Forall is_byte s) as Hbs by (by eapply Forall_lookup_1 in Hs).
  destruct (push_tail junk htab fl c Hc xs k bm s Hch Hbs) as (ys & k' & r & Hpt & Hch' & Hco).
  { unfold room in *. rewrite weight_app in *. rewrite !weight_cons in *. pose proof (weight_nonneg (drop (S j) l)). change (weight []) with 0. lia. }
  rewrite (bind_done _ _ _ _ _ Hpt), bind_lift. destruct (pos_next z l j p Hpos Hlt) as (r' & Hnx & Hr'). rewrite Hnx, bind_lift.
  destruct (IH (S j) r' ys k' bm) as (zs & k2 & Hav & Hch2 & Hco2); [lia|done|done|by rewrite Hco, <- app_assoc|].
  exists zs, k2. split_and!; [done|done|]. by rewrite Hco2, Hco, <- app_assoc.
Qed.

Lemma append_values_from xs k bm z l : chain c xs k -> packs z l -> bytes l -> room (contents xs ++ l) ->
  exists ys k', quicklistAppendValuesFromZiplist junk htab z (quick fl c xs k bm) = Done (quick fl c ys k' bm, tt) /\
    chain c ys k' /\ contents ys = contents xs ++ l.
Proof using Hc.
  intros Hch Hp Hb Hr. unfold quicklistAppendValuesFromZiplist. destruct (packs_index z l 0 Hp) as (r & Hi & Hr0); [lia|].
  rewrite Hi, bind_lift. destruct (packs_size _ _ Hp) as (Hs & _ & _).
  apply (append_values_spec z l Hb _ 0); [lia| |done|done]. unfold cursor. unfold entry_index in Hr0. cbn [Z.leb Z.compare] in Hr0.
  destruct (Z.ltb_spec 0 (zlen l)) as [?|?]; [rewrite decide_True by lia|rewrite decide_False by lia]; done.
Qed.

End edit.
End QuicklistEdit.
