(* ===== verification/QuicklistDup.v ===== *)
(** Copying and releasing a quicklist, for every depth of compression. *)

From stdpp Require Import gmap.
From S2P Require Import Prelude UtilNum Ziplist ZiplistRun ZiplistPos Lzf Effects Quicklist QuicklistHeap QuicklistFacts QuicklistOps QuicklistEdit.

#[local] Open Scope Z_scope.

Module QuicklistDup.
Import UtilNum Ziplist ZiplistRun ZiplistPos Quicklist QuicklistHeap QuicklistFacts QuicklistOps QuicklistEdit.
#[local] Notation zlen l := (Z.of_nat (length l)) (only parsing).

(** The copy of a node. *)
Definition twin (k : nat) (x : item) : item :=
  let n := inode x in mkItem k (mkNode None None (zl n) (sz n) (ncount n) (encoding n) 2 false) (iseg x).

Lemma twin_ok k x : item_ok x -> item_ok (twin k x).
Proof. intros [H1 H2 H3 _ H5]. by split. Qed.

Abbreviation codes xs := ((fun x => encoding (inode x)) <$> xs) (only parsing).

(** The chain while it grows: the nodes as they are in the original, or, past
    the depth, some of them recoded. *)
Record copied (c : Z) (xs ys : list item) (k : nat) : Prop := mkCopied {
  cp_ok : Forall item_ok ys;
  cp_counted : Forall counted ys;
  cp_nodup : NoDup (ids ys);
  cp_brk : forall i, i ∈ ids ys -> (i < k)%nat;
  cp_segs : iseg <$> ys = iseg <$> xs;
  cp_codes : c = 0 \/ zlen xs <= 2 * c -> codes ys = codes xs;
  cp_ends : c <> 0 -> 2 * c < zlen xs -> raw_at ys 0 /\ raw_at ys (length xs - 1) }.

Lemma raw_codes xs ys j : codes ys = codes xs -> raw_at xs j -> raw_at ys j.
Proof.
  intros Hc Hr y Hy. pose proof (f_equal (fun l => l !! j) Hc) as He. cbn in He. rewrite !list_lookup_fmap, Hy in He. cbn in He.
  destruct (xs !! j) as [x|] eqn:Hx; [|done]. cbn in He. unfold raw. injection He as ->. by apply Hr.
Qed.

Lemma copied_chain c xs ys k j : 0 <= c -> copied c xs ys k -> chain c xs j -> chain c ys k /\ contents ys = contents xs.
Proof.
  intros Hc [Ho Hcn Hn Hk Hs Hco He] [_ _ _ _ [H0 H1 Ha]]. assert (length ys = length xs) as Hl by (apply (f_equal length) in Hs; by rewrite !length_fmap in Hs).
  split; [|unfold contents; by rewrite Hs]. split; [done..|]. destruct (decide (c = 0 \/ zlen xs <= 2 * c)) as [Hsm|Hbig].
  - specialize (Hco Hsm). split; [by eapply raw_codes|rewrite Hl; by eapply raw_codes|]. rewrite Hl. intros Hall. apply all_raw. intros i _.
    eapply raw_codes; [exact Hco|]. apply raw_all. auto.
  - destruct He as [E0 E1]; [lia..|]. split; [done|by rewrite Hl|]. rewrite Hl. lia.
Qed.

(** A new quicklist, its options brought into their ranges. *)
Lemma new_quick f c : quicklistNew f c = quick (Z.max (-5) (Z.min f 32767)) (Z.max 0 (Z.min c 65535)) [] 0 [].
Proof.
  unfold quicklistNew, quicklistSetOptions, quicklistSetCompressDepth, quicklistSetFill, quick, row, qlist. change (Z.shiftl 1 16 - 1) with 65535.
  change (Z.shiftl 1 (16 - 1) - 1) with 32767. cbn [quicklistCreate nodes brk ql head tail count len fill compress bookmarks heap_seg]. rewrite !Z.gtb_ltb.
  f_equal. f_equal; [destruct (Z.ltb_spec 32767 f), (Z.ltb_spec f (-5)); lia|destruct (Z.ltb_spec 65535 c), (Z.ltb_spec c 0); lia].
Qed.

Section dup.
Context (junk : nat -> Z) (htab : Z -> Z) (fl c : Z) (Hc : 0 <= c <= 65535).

(** ** One node *)

(** The bytes copied. *)
Lemma copy_block x b (s : store) : item_ok x -> zl (inode x) = Some b ->
  (if encoding (inode x) =? QUICKLIST_NODE_ENCODING_LZF then
     lsz ← lift (le_decode <$> mread b 0 4); copy ← lift (mread b 0 (Z.to_nat (4 + lsz))); mret (Some copy)
   else if encoding (inode x) =? QUICKLIST_NODE_ENCODING_RAW then
     copy ← lift (mread b 0 (Z.to_nat (sz (inode x)))); mret (Some copy)
   else mret None) s = Done (s, Some b).
Proof.
  intros [_ _ _ _ (z & Hp & Hsz & [[He Hz]|(He & d & Hz & Hd & _)])] Hb; rewrite He; cbn [Z.eqb Pos.eqb].
  - rewrite Hz in Hb. apply (inj Some) in Hb as <-. rewrite Hsz, (packs_read _ _ Hp), bind_lift. done.
  - rewrite Hz in Hb. apply (inj Some) in Hb as <-. rewrite (mread_head (le_encode 4 (zlen d))) by (by rewrite ?length_le_encode).
    cbn [fmap option_fmap option_map]. rewrite bind_lift, le_decode_encode, (Z.mod_small (zlen d)) by (change (8 * Z.of_nat 4) with 32; lia).
    assert (mread (le_encode 4 (zlen d) ++ d) 0 (Z.to_nat (4 + zlen d)) = Some (le_encode 4 (zlen d) ++ d)) as ->; [|done].
    rewrite <- (app_nil_r (le_encode 4 (zlen d) ++ d)) at 1. apply mread_head; [done|]. rewrite length_app, length_le_encode. lia.
Qed.

Lemma dup_step orig a xs ys k cnt x n nx : copied c xs ys k -> item_ok x -> counted x -> nodes orig !! a = Some n -> n = link (prev n) nx (inode x) ->
  zlen xs + 1 < 2 ^ 64 -> 0 <= cnt -> cnt + ncount (inode x) < 2 ^ 64 ->
  exists zs, copied c (xs ++ [x]) zs (S k) /\ forall fuel,
    dup_loop junk htab (S fuel) orig (Some a) (row ys ∅ k (qlist ys cnt (zlen ys) fl c [])) =
    dup_loop junk htab fuel orig nx (row zs ∅ (S k) (qlist zs (cnt + ncount (inode x)) (zlen zs) fl c [])).
Proof using Hc.
  intros [Ho Hcn Hn Hk Hs Hco He] Hx Hcx Hl Hnx Hlen Hcnt0 Hcnt. assert (length ys = length xs) as Hly by (apply (f_equal length) in Hs; by rewrite !length_fmap in Hs).
  assert (k ∉ ids ys) as Hni by (intros Hin; specialize (Hk _ Hin); lia). pose proof Hx as [_ Hsh _ _ (z & _ & Hsz & Hb)].
  assert (apart (ids ys) ∅) as Hap by (by split). set (y := twin k x).
  destruct (link_after junk htab ys [] y ∅ (S k) (cnt + ncount (inode x)) fl c []) as (zs & Hli & (Hr & Heq & Hd));
    rewrite ?app_nil_r; [done|done|by apply lookup_empty|done|done|apply Forall_app; split; [done|by repeat constructor; apply twin_ok]|done|lia|by right|].
  rewrite app_nil_r in *. pose proof (recode_ids _ _ Hr) as Hi. rewrite fmap_app in Hi. cbn [fmap list_fmap] in Hi. exists zs. split.
  - split.
    + by eapply recode_ok.
    + eapply recode_counted; [exact Hr|]. apply Forall_app. split; [done|by repeat constructor].
    + rewrite Hi. apply NoDup_app. split_and!; [done| |apply NoDup_singleton]. intros i Hin ->%list_elem_of_singleton. done.
    + rewrite Hi. intros i [Hin| ->%list_elem_of_singleton]%elem_of_app; [specialize (Hk _ Hin); lia|cbn; lia].
    + rewrite (recode_segs _ _ Hr), !fmap_app, Hs. done.
    + rewrite length_app. cbn [length]. intros Hsm. rewrite Heq by (rewrite Hly; lia). rewrite !fmap_app, Hco by lia. done.
    + rewrite !length_app. cbn [length]. intros Hc0 Hbig. destruct Hd as [H0 H1]; [done|rewrite Hly; lia|]. split; [done|]. rewrite length_app, Hly in H1. done.
  - intros fuel. cbn [dup_loop]. rewrite Hl, bind_lift. unfold quicklistCreateNode.
    rewrite (bind_done _ _ _ _ _ (row_alloc ys ∅ k _ _ Hk)). assert (exists w, zl (inode x) = Some w) as [w Hw] by (destruct Hb as [[_ ?]|(_ & d & ? & _)]; eauto).
    rewrite Hnx. cbn [link zl encoding sz ncount next]. rewrite Hw, bind_lift, (bind_done _ _ _ _ _ (copy_block x w _ Hx Hw)).
    rewrite modify_modify. erewrite bind_done by (eapply put_modify; by apply rest_lookup). rewrite put_rest, insert_insert_eq by done.
    rewrite bind_modify_row. cbn [count qlist]. fold (qlist ys cnt (zlen ys) fl c []). rewrite set_count_qlist by (unfold counted in Hcx; lia).
    erewrite bind_done by (eapply put_modify; by apply rest_lookup). rewrite put_rest, insert_insert_eq by done.
    rewrite (bind_done _ _ _ _ _ (this_row _ _ _ _)). cbn [tail qlist]. fold (qlist ys (cnt + ncount (inode x)) (zlen ys) fl c []).
    match goal with |- context [<[k := ?m]> ∅] => assert (m = inode y) as -> end.
    { unfold y, twin, set_encoding, set_sz, set_ncount, set_zl. cbn. rewrite Hw, uwrap_small by (unfold counted in Hcx; unfold in_u; lia). done. }
    by rewrite (bind_done _ _ _ _ _ Hli).
Qed.

(** ** The copy *)

Lemma dup_loop_spec orig k0 bm : chain c orig k0 -> room (contents orig) -> forall b a ys k fuel, orig = a ++ b -> copied c a ys k -> (length b < fuel)%nat ->
  exists zs k', dup_loop junk htab fuel (quick fl c orig k0 bm) (first_or b None) (row ys ∅ k (qlist ys (zlen (contents a)) (zlen ys) fl c [])) =
    Done (row zs ∅ k' (qlist zs (zlen (contents orig)) (zlen zs) fl c []), tt) /\ copied c orig zs k'.
Proof using Hc.
  intros Hch Hr. pose proof (room_length _ (ch_ok _ _ _ Hch) Hr) as Hlen. pose proof (weight_length (contents orig)) as Hw. pose proof Hr as Hr'. unfold room in Hr'.
  induction b as [|x b IH]; intros a ys k fuel Heq Hcp Hf; (destruct fuel as [|fuel]; [cbn in Hf; lia|]).
  - rewrite app_nil_r in Heq. subst a. by exists ys, k.
  - cbn [first_or]. pose proof Hch as Hchx. rewrite Heq in Hchx. pose proof Hchx as [[_ [Hx _]%Forall_cons]%Forall_app [_ [Hcx _]%Forall_cons]%Forall_app _ _ _].
    pose proof Heq as Hco. apply (f_equal contents), (f_equal length) in Hco. rewrite contents_app, contents_cons, !length_app in Hco. unfold counted in Hcx.
    rewrite Heq, length_app in Hlen. cbn [length] in Hlen, Hf.
    destruct (dup_step (quick fl c orig k0 bm) (iid x) a ys k (zlen (contents a)) x (link (last_or None a) (first_or b None) (inode x)) (first_or b None)) as (zs & Hcp' & Hstep);
      [done|done|done|by apply (row_lookup orig ∅ k0 _ (chain_apart _ _ _ Hch) a x b)|done|lia|lia|lia|].
    rewrite Hstep. replace (zlen (contents a) + ncount (inode x)) with (zlen (contents (a ++ [x]))).
    2: { rewrite contents_app, contents_cons, app_nil_r, length_app. lia. }
    apply (IH (a ++ [x])); [by rewrite <- app_assoc|done|lia].
Qed.

Lemma dup_spec xs k bm : chain c xs k -> room (contents xs) -> - 5 <= fl <= 32767 ->
  exists ys k', quicklistDup junk htab (quick fl c xs k bm) = Done (quick fl c ys k' [], tt) /\ chain c ys k' /\ contents ys = contents xs.
Proof using Hc.
  intros Hch Hr Hfl. unfold quicklistDup. assert (size (nodes (quick fl c xs k bm)) = length xs) as Hsz by (apply size_row; apply Hch).
  cbn [ql quick row fill compress head qlist]. rewrite new_quick, !Z.min_l, !Z.max_r by lia.
  destruct (dup_loop_spec xs k bm Hch Hr xs [] [] 0%nat (S (size (nodes (quick fl c xs k bm)))) eq_refl) as (zs & k' & Hl & Hcp); [|lia|].
  { split; try done; [by apply NoDup_nil|]. intros i Hi. by apply not_elem_of_nil in Hi. }
  destruct (copied_chain c xs zs k' k) as [Hchz Hcoz]; [lia|done|done|]. exists zs, k'. split_and!; [|done|done]. etrans; [exact Hl|]. unfold quick. by rewrite Hcoz.
Qed.

End dup.
End QuicklistDup.
