(* ===== verification/QuicklistInner.v ===== *)
(** The operations in the middle of a quicklist whose nodes are not compressed
    (depth 0, the default configuration): access by index, replacement, splitting,
    merging, insertion. *)

From stdpp Require Import gmap.
From S2P Require Import Prelude UtilNum Ziplist ZiplistRun ZiplistPos Lzf Effects Quicklist QuicklistHeap QuicklistFacts QuicklistOps QuicklistEdit.

#[local] Open Scope Z_scope.

Module QuicklistInner.
Import UtilNum Ziplist ZiplistRun ZiplistPos Quicklist QuicklistHeap QuicklistFacts QuicklistOps QuicklistEdit.
#[local] Notation zlen l := (Z.of_nat (length l)) (only parsing).

Lemma chain_raw xs k : chain 0 xs k -> Forall raw xs.
Proof. intros [_ _ _ _ [_ _ H]]. apply H. by left. Qed.

Lemma raw_chain xs k : Forall item_ok xs -> Forall counted xs -> NoDup (ids xs) -> (forall i, i ∈ ids xs -> (i < k)%nat) -> Forall raw xs ->
  chain 0 xs k.
Proof. intros. split; try done. split; [by apply raw_all..|done]. Qed.

Lemma app_mid {A} (a : list A) x b : a ++ x :: b = (a ++ [x]) ++ b.
Proof. by rewrite <- app_assoc. Qed.

Lemma s32_u64 y : in_s 32 y -> s32 (u64 y) = y.
Proof. unfold in_s, swrap, uwrap. intros H. change (32 - 1) with 31 in *. Z.div_mod_to_equations. lia. Qed.

(** A quicklist with depth 0 whose count is [cnt]. *)
Definition flat (fl : Z) (xs : list item) (k : nat) (cnt : Z) (bm : list quicklistBookmark) : store :=
  row xs ∅ k (qlist xs cnt (zlen xs) fl 0 bm).

(** What holds for a node of such a chain. *)
Lemma chain_mid a x b k : chain 0 (a ++ x :: b) k ->
  item_ok x /\ counted x /\ raw x /\ exists z, zl (inode x) = Some z /\ packs z (iseg x) /\ sz (inode x) = zlen z.
Proof.
  intros Hch. pose proof (chain_raw _ _ Hch) as [_ [Hr _]%Forall_cons]%Forall_app.
  pose proof Hch as [[_ [Hx _]%Forall_cons]%Forall_app [_ [Hcx _]%Forall_cons]%Forall_app _ _ _].
  split_and!; [done..|]. destruct (raw_block _ _ Hx Hr) as (z & Hp & Hs & Hz). by exists z.
Qed.

Lemma flat_lookup fl a x b k cnt bm : chain 0 (a ++ x :: b) k ->
  nodes (flat fl (a ++ x :: b) k cnt bm) !! iid x = Some (link (last_or None a) (first_or b None) (inode x)).
Proof. intros Hch. by apply (row_lookup _ ∅ k _ (chain_apart _ _ _ Hch) a x b). Qed.

(** Finding an entry of the list in the chain. *)
Lemma contents_lookup xs : forall i s, contents xs !! i = Some s ->
  exists a x b j, xs = a ++ x :: b /\ iseg x !! j = Some s /\ i = (length (contents a) + j)%nat.
Proof.
  induction xs as [|x xs IH]; intros i s; [done|]. rewrite contents_cons, lookup_app_Some. intros [Hi|[Hl Hi]].
  - by exists [], x, xs, i.
  - destruct (IH _ _ Hi) as (a & y & b & j & -> & Hj & He). exists (x :: a), y, b, j. split_and!; [done|done|].
    rewrite contents_cons, length_app. lia.
Qed.

Section inner.
Context (junk : nat -> Z) (htab : Z -> Z) (fl : Z).

(** ** Nodes in use *)

Lemma use_raw p s n : nodes s !! p = Some n -> encoding n = 1 -> quicklistDecompressNodeForUse junk (Some p) s = Done (s, tt).
Proof. intros Hp He. unfold quicklistDecompressNodeForUse. rewrite (bind_done _ _ _ _ _ (put_load _ _ _ Hp)), He. done. Qed.

Lemma expand_raw p s n : nodes s !! p = Some n -> encoding n = 1 -> quicklistDecompressNode junk (Some p) s = Done (s, tt).
Proof. intros Hp He. unfold quicklistDecompressNode. rewrite (bind_done _ _ _ _ _ (put_load _ _ _ Hp)), He. done. Qed.

Lemma recompress_raw p s n : nodes s !! p = Some n -> recompress n = false -> quicklistRecompressOnly junk htab p s = Done (s, tt).
Proof. intros Hp He. unfold quicklistRecompressOnly. rewrite (bind_done _ _ _ _ _ (put_load _ _ _ Hp)), He. done. Qed.

Lemma compress_flat p s n : nodes s !! p = Some n -> recompress n = false -> compress (ql s) = 0 -> quicklistCompress junk htab p s = Done (s, tt).
Proof.
  intros Hp He H0. unfold quicklistCompress. rewrite (bind_done _ _ _ _ _ (put_load _ _ _ Hp)), He.
  unfold __quicklistCompress, this. rewrite bind_assoc, bind_get, bind_ret, H0. done.
Qed.

(** ** Access by index *)

(** The value of an entry. *)
Definition entry_value (z : list Z) (e : quicklistEntry) : option (list Z) :=
  match value e with Some sstr => mread z sstr (Z.to_nat (esz e)) | None => Some (decimal (longval e)) end.

(** An entry of the chain: its node, its place, its offset and its value. *)
Record entry_at (xs a : list item) (x : item) (b : list item) (j : nat) (z : list Z) (s : list Z) (e : quicklistEntry) : Prop := mkEntryAt {
  ea_xs : xs = a ++ x :: b;
  ea_zl : zl (inode x) = Some z;
  ea_node : enode e = Some (iid x);
  ea_zi : exists p, ezi e = Some p /\ pos z (iseg x) j p;
  ea_lookup : iseg x !! j = Some s;
  ea_value : entry_value z e = Some s }.

Lemma fill_entry_spec z l j p s nd lv sv off : pos z l j p -> l !! j = Some s ->
  exists e, fill_entry (mkEntry nd (Some p) None lv sv off) z = Some e /\ enode e = nd /\ ezi e = Some p /\ eoffset e = off /\ entry_value z e = Some s.
Proof.
  intros Hp Hs. destruct (pos_get z l j p s Hp Hs) as (f & Hg & Hfe & Hf). unfold fill_entry. cbn [ezi]. rewrite Hg.
  destruct f as [sstr slen|v]; cbn [mbind option_bind]; eexists; (split; [done|]); (split_and!; [done..|]); unfold entry_value; cbn.
  - done.
  - by destruct Hf as [_ ->].
Qed.

Lemma index_forward k q : forall b a fuel i, chain 0 (a ++ b) k -> room (contents (a ++ b)) -> (length b < fuel)%nat ->
  zlen (contents a) <= i < zlen (contents (a ++ b)) ->
  exists a' x b', a ++ b = a' ++ x :: b' /\ zlen (contents a') <= i < zlen (contents a') + zlen (iseg x) /\
    index_loop fuel true (first_or b None) (zlen (contents a)) i (row (a ++ b) ∅ k q) = Done (row (a ++ b) ∅ k q, (Some (iid x), zlen (contents a'))).
Proof.
  induction b as [|x b IH]; intros a fuel i Hch Hr Hf Hi; [rewrite app_nil_r in Hi; lia|].
  destruct fuel as [|fuel]; [cbn [length] in Hf; lia|]. cbn [index_loop first_or].
  rewrite (bind_done _ _ _ _ _ (row_load _ ∅ k q (chain_apart _ _ _ Hch) a x b eq_refl)). cbn [link ncount next].
  destruct (chain_mid _ _ _ _ Hch) as (_ & Hcx & _). unfold counted in Hcx. rewrite Hcx.
  pose proof (weight_length (contents (a ++ x :: b))) as Hw. unfold room in Hr. rewrite contents_app, contents_cons, !length_app in Hw, Hi.
  rewrite contents_app, contents_cons in Hr. rewrite uwrap_small by (unfold in_u; lia). rewrite Z.gtb_ltb.
  destruct (Z.ltb_spec i (zlen (contents a) + zlen (iseg x))) as [Hlt|Hge].
  - exists a, x, b. split_and!; [done|lia..|done].
  - rewrite (app_mid a x b) in Hch |- *. destruct (IH (a ++ [x]) fuel i Hch) as (a' & y & b' & He & Hb & Hl).
    + by rewrite contents_app, contents_app, contents_cons, <- !app_assoc.
    + cbn [length] in Hf. lia.
    + rewrite !contents_app, !contents_cons, !length_app. cbn. lia.
    + exists a', y, b'. split_and!; [done|lia..|]. rewrite <- Hl. f_equal. rewrite contents_app, contents_cons, !length_app. cbn. lia.
Qed.

Lemma index_backward k q : forall a b fuel i, chain 0 (a ++ b) k -> room (contents (a ++ b)) -> (length a < fuel)%nat ->
  zlen (contents b) <= i < zlen (contents (a ++ b)) ->
  exists a' x b', a ++ b = a' ++ x :: b' /\ zlen (contents b') <= i < zlen (contents b') + zlen (iseg x) /\
    index_loop fuel false (last_or None a) (zlen (contents b)) i (row (a ++ b) ∅ k q) = Done (row (a ++ b) ∅ k q, (Some (iid x), zlen (contents b'))).
Proof.
  induction a as [|x a IH] using rev_ind; intros b fuel i Hch Hr Hf Hi; [cbn [app] in Hi; lia|].
  rewrite length_app in Hf. cbn [length] in Hf. destruct fuel as [|fuel]; [lia|]. cbn [index_loop]. rewrite last_or_snoc.
  rewrite <- (app_mid a x b) in *.
  rewrite (bind_done _ _ _ _ _ (row_load _ ∅ k q (chain_apart _ _ _ Hch) a x b eq_refl)). cbn [link ncount prev].
  destruct (chain_mid _ _ _ _ Hch) as (_ & Hcx & _). unfold counted in Hcx. rewrite Hcx.
  pose proof (weight_length (contents (a ++ x :: b))) as Hw. pose proof Hr as Hr'. unfold room in Hr'.
  rewrite contents_app, contents_cons, !length_app in Hw, Hi.
  rewrite contents_app, contents_cons in Hr'. rewrite uwrap_small by (unfold in_u; lia). rewrite Z.gtb_ltb.
  destruct (Z.ltb_spec i (zlen (contents b) + zlen (iseg x))) as [Hlt|Hge].
  - exists a, x, b. split_and!; [done|lia..|done].
  - destruct (IH (x :: b) fuel i Hch Hr) as (a' & y & b' & He & Hb & Hl).
    + lia.
    + rewrite !contents_app, !contents_cons, !length_app. lia.
    + exists a', y, b'. split_and!; [done|lia..|]. rewrite <- Hl. f_equal. rewrite contents_cons, !length_app. lia.
Qed.

(** The place of an index, for both directions. *)
Lemma index_found xs k q idx : chain 0 xs k -> room (contents xs) -> - 2 ^ 63 < idx ->
  (if idx <? 0 then - idx - 1 else idx) < zlen (contents xs) ->
  exists a x b j acc, xs = a ++ x :: b /\ (j < length (iseg x))%nat /\
    entry_index (contents xs) idx = Some (length (contents a) + j)%nat /\
    index_loop (S (size (nodes (row xs ∅ k q)))) (negb (idx <? 0)) (if negb (idx <? 0) then first_or xs None else last_or None xs) 0
      (if negb (idx <? 0) then idx else - idx - 1) (row xs ∅ k q) = Done (row xs ∅ k q, (Some (iid x), acc)) /\
    (let ix := if negb (idx <? 0) then idx else - idx - 1 in s32 (if negb (idx <? 0) then u64 (ix - acc) else u64 (- ix - 1 + acc))) = if 0 <=? idx then Z.of_nat j else Z.of_nat j - zlen (iseg x).
Proof.
  intros Hch Hr H63 Hi. rewrite size_row by apply Hch. pose proof (weight_length (contents xs)) as Hw. pose proof Hr as Hr'. unfold room in Hr'.
  unfold entry_index. destruct (Z.ltb_spec idx 0) as [Hneg|Hpos]; cbn [negb].
  - rewrite (proj2 (Z.leb_gt 0 idx)) by lia. destruct (index_backward k q xs [] (S (length xs)) (- idx - 1)) as (a & x & b & He & Hb & Hl);
      rewrite ?app_nil_r; [done|done|lia|cbn; lia|]. rewrite app_nil_r in He, Hl.
    exists a, x, b, (Z.to_nat (zlen (iseg x) - 1 - (- idx - 1 - zlen (contents b)))), (zlen (contents b)). split_and!; [done|lia| |done|].
    + rewrite (proj2 (Z.leb_le _ _)) by lia. f_equal. rewrite He, contents_app, contents_cons, !length_app. lia.
    + destruct (chain_mid a x b k) as ([_ Hsh _ _ _] & _); [by rewrite <- He|].
      replace (- (- idx - 1) - 1 + zlen (contents b)) with (idx + zlen (contents b)) by lia. rewrite s32_u64 by (unfold in_s; lia). lia.
  - rewrite (proj2 (Z.leb_le 0 idx)) by lia. destruct (index_forward k q xs [] (S (length xs)) idx) as (a & x & b & He & Hb & Hl); [done|done|lia|split; [cbn; lia|cbn [app]; lia]|].
    cbn [app] in He, Hl. exists a, x, b, (Z.to_nat (idx - zlen (contents a))), (zlen (contents a)). split_and!; [done|lia| |done|].
    + rewrite (proj2 (Z.ltb_lt _ _)) by lia. f_equal. lia.
    + destruct (chain_mid a x b k) as ([_ Hsh _ _ _] & _); [by rewrite <- He|].
      rewrite uwrap_small by (unfold in_u; lia). rewrite swrap_small by (unfold in_s; lia). lia.
Qed.

(** The entry [quicklistIndex] delivers for an index of the list. *)
Definition indexed (xs : list item) (idx : Z) (r : bool) (e : quicklistEntry) : Prop :=
  match entry_index (contents xs) idx with
  | Some i => r = true /\ exists a x b j z s, entry_at xs a x b j z s e /\ i = (length (contents a) + j)%nat /\
      eoffset e = if 0 <=? idx then Z.of_nat j else Z.of_nat j - zlen (iseg x)
  | None => r = false /\ e = initEntry
  end.

Lemma entry_index_none (l : list (list Z)) idx : entry_index l idx = None <-> zlen l <= (if idx <? 0 then - idx - 1 else idx).
Proof.
  clear. unfold entry_index. destruct (Z.ltb_spec idx 0), (Z.leb_spec 0 idx); try lia.
  - destruct (Z.leb_spec (- idx) (zlen l)); split; intros; [done|lia|lia|done].
  - destruct (Z.ltb_spec idx (zlen l)); split; intros; [done|lia|lia|done].
Qed.

Lemma index_at_spec xs k bm idx : chain 0 xs k -> room (contents xs) -> - 2 ^ 63 < idx ->
  exists r e, quicklistIndex junk idx (quick fl 0 xs k bm) = Done (quick fl 0 xs k bm, (r, e)) /\ indexed xs idx r e.
Proof.
  intros Hch Hr H63. unfold quicklistIndex, indexed, quick. rewrite bind_get. cbn [row ql qlist count head tail]. cbv zeta.
  rewrite (proj2 (Z.leb_gt _ _)) by lia. fold (qlist xs (zlen (contents xs)) (zlen xs) fl 0 bm). set (q := qlist xs _ _ fl 0 bm).
  assert ((if negb (idx <? 0) then idx else - idx - 1) = if idx <? 0 then - idx - 1 else idx) as Hix by (by destruct (idx <? 0)).
  destruct (Z.ltb_spec (if idx <? 0 then - idx - 1 else idx) (zlen (contents xs))) as [Hlt|Hge].
  - destruct (index_found xs k q idx Hch Hr H63 Hlt) as (a & x & b & j & acc & He & Hj & Hei & Hl & Ho).
    rewrite Hix, Z.geb_leb, (proj2 (Z.leb_gt _ _)) by lia. rewrite <- Hix. fold (row xs ∅ k q). rewrite (bind_done _ _ _ _ _ Hl). cbv beta iota zeta in Ho |- *. rewrite Ho, Hei.
    pose proof Hch as Hchx. rewrite He in Hchx. destruct (chain_mid _ _ _ _ Hchx) as (Hx & _ & Hraw & z & Hz & Hp & _). pose proof Hx as [_ Hsh _ _ _].
    pose proof (row_lookup xs ∅ k q (chain_apart _ _ _ Hch) a x b He) as Hlk.
    rewrite (bind_done _ _ _ _ _ (use_raw _ _ _ Hlk Hraw)), (bind_done _ _ _ _ _ (put_block _ _ _ z Hlk Hz)).
    set (off := if 0 <=? idx then Z.of_nat j else Z.of_nat j - zlen (iseg x)).
    destruct (packs_index z (iseg x) off Hp) as (r & Hzi & Hr'); [unfold off; destruct (0 <=? idx); lia|].
    assert (entry_index (iseg x) off = Some j) as Hej.
    { unfold entry_index, off. destruct (0 <=? idx).
      - rewrite (proj2 (Z.leb_le _ _)), (proj2 (Z.ltb_lt _ _)) by lia. f_equal. lia.
      - rewrite (proj2 (Z.leb_gt _ _)), (proj2 (Z.leb_le _ _)) by lia. f_equal. lia. }
    rewrite Hej in Hr'. destruct Hr' as (p & -> & Hpos). rewrite Hzi, bind_lift. destruct (lookup_lt_is_Some_2 _ _ Hj) as [s Hs].
    destruct (fill_entry_spec z (iseg x) j p s (Some (iid x)) (longval initEntry) (esz initEntry) off Hpos Hs) as (e & Hfe & He1 & He2 & He3 & He4).
    rewrite Hfe, bind_lift. exists true, e. split; [done|]. split; [done|]. exists a, x, b, j, z, s. split; [|by split].
    split; [done|done|done|by exists p|done|done].
  - rewrite Hix, Z.geb_leb, (proj2 (Z.leb_le _ _)) by lia. rewrite (proj2 (entry_index_none _ _)) by lia. by exists false, initEntry.
Qed.

(** ** Replacement *)

Lemma replace_contents a x b j i (s : list Z) : i = (length (contents a) + j)%nat -> (j < length (iseg x))%nat ->
  contents a ++ (take j (iseg x) ++ s :: drop (S j) (iseg x)) ++ contents b = <[i := s]> (contents (a ++ x :: b)).
Proof.
  clear. intros -> Hj. rewrite contents_app, contents_cons, insert_app_r, insert_app_l by done. by rewrite (insert_take_drop (iseg x)) by done.
Qed.

Lemma replace_spec xs k bm idx v : chain 0 xs k -> room (contents xs) -> - 2 ^ 63 < idx -> Forall is_byte v ->
  (forall i, entry_index (contents xs) idx = Some i -> room (<[i := v]> (contents xs))) ->
  exists ys r, quicklistReplaceAtIndex junk htab idx v (quick fl 0 xs k bm) = Done (quick fl 0 ys k bm, r) /\ chain 0 ys k /\
    match entry_index (contents xs) idx with
    | Some i => r = true /\ contents ys = <[i := v]> (contents xs)
    | None => r = false /\ contents ys = contents xs
    end.
Proof.
  intros Hch Hr H63 Hv Hr2. unfold quicklistReplaceAtIndex. destruct (index_at_spec xs k bm idx Hch Hr H63) as (r & e & Hi & Hin).
  rewrite (bind_done _ _ _ _ _ Hi). unfold indexed in Hin. destruct (entry_index (contents xs) idx) as [i|] eqn:Hei; cbv beta iota.
  2: { destruct Hin as [-> ->]. by exists xs, false. }
  destruct Hin as [-> (a & x & b & j & z & s & [-> Hz He (p & Hezi & Hpos) Hs _] & Hij & _)]. specialize (Hr2 _ eq_refl).
  pose proof (lookup_lt_Some _ _ _ Hs) as Hj. destruct (chain_mid _ _ _ _ Hch) as (Hx & Hcx & Hraw & _). pose proof Hx as [_ Hsh Hby Hfl _].
  assert (room (iseg x)) as Hrx by (eapply room_le; [exact Hr|apply weight_in]).
  rewrite He, bind_lift, Hezi, bind_lift. pose proof (flat_lookup fl a x b k (zlen (contents (a ++ x :: b))) bm Hch) as Hlk.
  rewrite (bind_done _ _ _ _ _ (put_block _ _ _ z Hlk Hz)). destruct (pos_delete junk z (iseg x) j p Hpos Hj Hrx) as (z1 & Hd & Hpos1).
  rewrite Hd, bind_lift. cbv beta iota. set (seg := take j (iseg x) ++ v :: drop (S j) (iseg x)).
  assert (length (take j (iseg x)) = j) as Htl by (rewrite length_take; lia).
  assert (take j (take j (iseg x) ++ drop (S j) (iseg x)) ++ v :: drop j (take j (iseg x) ++ drop (S j) (iseg x)) = seg) as Hseg.
  { rewrite take_app_length' by done. by rewrite drop_app_length'. }
  assert (forall z, contents (a ++ shrunk x z seg :: b) = <[i := v]> (contents (a ++ x :: b))) as Hco.
  { intros z'. rewrite contents_app, contents_cons. by apply replace_contents. }
  destruct (pos_insert junk z1 _ j p v Hpos1) as (z2 & Hins & Hp2).
  { rewrite Hseg. rewrite <- (Hco z) in Hr2. eapply room_le; [exact Hr2|]. apply (weight_in a (shrunk x z seg) b). }
  rewrite Hseg in Hp2. rewrite Hins, bind_lift.
  rewrite (bind_done _ _ _ _ _ (put_modify _ (fun n => set_zl n (Some z2)) _ _ Hlk)).
  erewrite bind_done by (by eapply (update_sz _ _ _ z2); [apply put_lookup| |]). rewrite put_put.
  erewrite bind_done by (by eapply compress_flat; [apply put_lookup| |]). exists (a ++ shrunk x z2 seg :: b), true.
  assert (zlen seg = zlen (iseg x)) as Hlen by (unfold seg; rewrite length_app, Htl; cbn [length]; rewrite length_drop; lia).
  split_and!; [| |done|].
  - change (set_sz (set_zl (link ?p ?n ?y) ?w) ?v) with (link p n (set_sz (set_zl y w) v)). unfold flat.
    rewrite (put_row a x b ∅ k _ _ seg (chain_apart _ _ _ Hch)).
    assert (mkItem (iid x) (set_sz (set_zl (inode x) (Some z2)) (zlen z2)) seg = shrunk x z2 seg) as ->.
    { unfold shrunk. unfold counted in Hcx. do 2 f_equal. unfold set_ncount. rewrite Hlen, uwrap_small, <- Hcx by (unfold in_u; lia). done. }
    rewrite quick_put; [done|done|]. f_equal. rewrite Hco. by rewrite length_insert.
  - apply shrunk_chain; [done|done|done|unfold seg; by destruct (take j (iseg x))|lia|]. unfold seg. rewrite Forall_app, Forall_cons.
    split_and!; [by apply Forall_take|done|by apply Forall_drop].
  - done.
Qed.

(** ** Merging *)

Lemma put_lookup_ne p q n s : p <> q -> nodes (put_node p n s) !! q = nodes s !! q.
Proof. intros H. cbn [put_node nodes]. by rewrite lookup_insert_ne. Qed.

Lemma put_over p q n n' m s : p <> q -> put_node p n (put_node q m (put_node p n' s)) = put_node q m (put_node p n s).
Proof. intros H. unfold put_node. cbn [nodes brk ql]. by rewrite insert_insert_ne, insert_insert_eq by done. Qed.

Lemma put_two a u v b k cnt bm u' v' : apart (ids (a ++ u :: v :: b)) ∅ -> iid u' = iid u -> iid v' = iid v ->
  put_node (iid v) (link (Some (iid u)) (first_or b None) (inode v'))
    (put_node (iid u) (link (last_or None a) (Some (iid v)) (inode u')) (flat fl (a ++ u :: v :: b) k cnt bm)) =
  flat fl (a ++ u' :: v' :: b) k cnt bm.
Proof.
  destruct u' as [? n seg], v' as [? m seg']. cbn [iid inode]. intros Hap -> ->. unfold flat. set (q := qlist (a ++ u :: v :: b) _ _ _ _ _).
  change (Some (iid v)) with (first_or (v :: b) None). rewrite (put_row a u (v :: b) ∅ k q n seg Hap).
  rewrite (app_mid a _ (v :: b)). replace (Some (iid u)) with (last_or None (a ++ [mkItem (iid u) n seg])) by (by rewrite last_or_snoc).
  rewrite (put_row _ v b ∅ k q m seg').
  - rewrite <- app_assoc. cbn [app]. unfold q. f_equal.
    symmetry. etrans; [apply (qlist_ids (a ++ u :: v :: b)); by rewrite !fmap_app|by rewrite !length_app].
  - rewrite <- app_assoc. cbn [app]. by apply (apart_put a u (mkItem (iid u) n seg) (v :: b) ∅).
Qed.

Lemma chain_merge a u v b w k : chain 0 (a ++ u :: v :: b) k -> iid w = iid u \/ iid w = iid v -> item_ok w -> counted w -> raw w ->
  chain 0 (a ++ w :: b) k.
Proof.
  clear. intros Hch Hi Ho Hc Hw. pose proof (chain_raw _ _ Hch) as Hr. destruct Hch as [Hok Hcn Hn Hk _].
  assert (iid w ∉ ids a ++ ids b /\ NoDup (ids a ++ ids b) /\ iid w ∈ ids (a ++ u :: v :: b)) as (H1 & H2 & H3).
  { rewrite fmap_app, !fmap_cons in *. rewrite <- !Permutation_middle in Hn. apply NoDup_cons in Hn as [Hu [Hv Hn]%NoDup_cons].
    destruct Hi as [->| ->]; (split_and!; [|done|clear; set_solver]); [intros ?; apply Hu; by right|done]. }
  rewrite !Forall_app, !Forall_cons in *. apply raw_chain; rewrite ?fmap_app, ?fmap_cons, ?Forall_app, ?Forall_cons; [naive_solver..| | |naive_solver].
  - rewrite <- Permutation_middle. by constructor.
  - intros i Hin. apply Hk. rewrite fmap_app, !fmap_cons in *. clear -Hin H3. set_solver.
Qed.

Lemma drop_flat a x b k cnt bm : apart (ids (a ++ x :: b)) ∅ -> Forall item_ok (a ++ b) -> zlen (a ++ x :: b) < 2 ^ 64 ->
  0 <= cnt - ncount (inode x) < 2 ^ 64 ->
  exists bm', __quicklistDelNode junk htab (iid x) (flat fl (a ++ x :: b) k cnt bm) = Done (flat fl (a ++ b) k (cnt - ncount (inode x)) bm', tt).
Proof.
  intros Hap Hok Hlen Hcnt. destruct (del_node junk htab a x b ∅ k cnt fl 0 bm Hap Hok) as (ys & bm' & Hd & _ & _ & He); [lia|done|].
  exists bm'. unfold flat. rewrite Hd, (He eq_refl), uwrap_small by (unfold in_u; lia). done.
Qed.

(** The node that is left empty goes. *)
Lemma merge_end (app : bool) a u v b k cnt bm z seg : chain 0 (a ++ u :: v :: b) k -> 0 <= cnt < 2 ^ 64 -> zlen (a ++ u :: v :: b) < 2 ^ 64 ->
  packs z seg -> zlen seg <= 65535 -> seg <> [] -> bytes seg ->
  let w := shrunk (if app then u else v) z seg in
  let d := let x := if app then v else u in mkItem (iid x) (set_ncount (set_zl (inode x) None) 0) [] in
  exists bm', (_ ← __quicklistDelNode junk htab (iid d); _ ← quicklistCompress junk htab (iid w); mret (Some (iid w)))
      (flat fl (a ++ (if app then w else d) :: (if app then d else w) :: b) k cnt bm) = Done (flat fl (a ++ w :: b) k cnt bm', Some (iid w)) /\
    chain 0 (a ++ w :: b) k.
Proof.
  intros Hch Hcnt Hlen Hp Hsl Hsne Hsb w d. pose proof Hch as Hch'. rewrite app_mid in Hch'.
  destruct (chain_mid _ _ _ _ Hch) as (Hu & _ & Hru & _). destruct (chain_mid _ _ _ _ Hch') as (Hv & _ & Hrv & _).
  destruct (shrunk_ok (if app then u else v) z seg) as (Hw1 & Hw2 & Hw3); [by destruct app..|done|done|done|done|].
  assert (chain 0 (a ++ w :: b) k) as Hch2 by (apply (chain_merge a u v b w k Hch); [destruct app; [by left|by right]|done..]).
  assert (apart (ids (a ++ (if app then w else d) :: (if app then d else w) :: b)) ∅) as Hap.
  { pose proof (chain_apart _ _ _ Hch) as Hap. rewrite fmap_app, !fmap_cons in Hap |- *. by destruct app. }
  pose proof Hch2 as [Hok2 _ _ _ _].
  assert (exists bm', __quicklistDelNode junk htab (iid d) (flat fl (a ++ (if app then w else d) :: (if app then d else w) :: b) k cnt bm) =
    Done (flat fl (a ++ w :: b) k cnt bm', tt)) as (bm' & Hd).
  { assert (cnt - ncount (inode d) = cnt) as Hc0 by (destruct app; apply Z.sub_0_r). rewrite length_app in Hlen. destruct app.
    - destruct (drop_flat (a ++ [w]) d b k cnt bm) as (bm' & Hd); rewrite <- ?app_mid; [done|done|by rewrite length_app|lia|].
      rewrite Hc0, <- !app_mid in Hd. by exists bm'.
    - destruct (drop_flat a d (w :: b) k cnt bm) as (bm' & Hd); [done|done|by rewrite length_app|lia|]. rewrite Hc0 in Hd. by exists bm'. }
  exists bm'. split; [|done]. rewrite (bind_done _ _ _ _ _ Hd).
  by erewrite bind_done by (eapply compress_flat; [apply (flat_lookup _ a w b k cnt bm' Hch2)|apply Hw1|done]).
Qed.

Lemma merge_pair_spec a u v b k cnt bm : chain 0 (a ++ u :: v :: b) k -> room (contents (a ++ u :: v :: b)) -> 0 <= cnt < 2 ^ 64 ->
  zlen (iseg u) + zlen (iseg v) <= 65535 ->
  exists w bm', _quicklistZiplistMerge junk htab (iid u) (iid v) (flat fl (a ++ u :: v :: b) k cnt bm) = Done (flat fl (a ++ w :: b) k cnt bm', Some (iid w)) /\
    chain 0 (a ++ w :: b) k /\ iseg w = iseg u ++ iseg v /\ (iid w = iid u \/ iid w = iid v).
Proof.
  intros Hch Hr Hcnt Hsh. pose proof (flat_lookup fl a u (v :: b) k cnt bm Hch) as Hlu. pose proof Hch as Hch'. rewrite app_mid in Hch'.
  pose proof (flat_lookup fl (a ++ [u]) v b k cnt bm Hch') as Hlv. rewrite <- app_mid, last_or_snoc in Hlv. cbn [first_or] in Hlu.
  destruct (chain_mid _ _ _ _ Hch) as (Hu & Hcu & Hru & zu & Hzu & Hpu & _). destruct (chain_mid _ _ _ _ Hch') as (Hv & Hcv & Hrv & zv & Hzv & Hpv & _).
  pose proof Hu as [Hune _ Hub Huf _]. pose proof Hv as [Hvne _ Hvb Hvf _].
  assert (iid u <> iid v) as Hne.
  { intros He. pose proof (ch_nodup _ _ _ Hch) as Hn. rewrite fmap_app, !fmap_cons, He in Hn.
    rewrite <- !Permutation_middle in Hn. apply NoDup_cons in Hn as [Hn _]. apply Hn. by left. }
  assert (room (iseg u ++ iseg v)) as Hruv.
  { eapply room_le; [exact Hr|]. rewrite contents_app, !contents_cons, !weight_app. pose proof (weight_nonneg (contents a)). pose proof (weight_nonneg (contents b)). lia. }
  destruct (packs_merge junk zu (iseg u) zv (iseg v) Hpu Hpv Hvne Hruv) as (z & app & Hm & Hpz). destruct (packs_len z _ Hpz) as (z' & Hzl & Hpz' & _).
  set (seg := iseg u ++ iseg v) in *. assert (zlen seg <= 65535 /\ seg <> [] /\ bytes seg) as (Hsl & Hsne & Hsb).
  { unfold seg. rewrite length_app, Forall_app. split_and!; [lia| |done|done]. by destruct (iseg u). }
  assert (zlen (a ++ u :: v :: b) < 2 ^ 64) as Hlen by (pose proof (room_length _ (ch_ok _ _ _ Hch) Hr); lia).
  pose proof (chain_apart _ _ _ Hch) as Hap. unfold _quicklistZiplistMerge. set (st := flat fl _ k cnt bm) in *.
  rewrite (bind_done _ _ _ _ _ (expand_raw _ _ _ Hlu Hru)), (bind_done _ _ _ _ _ (expand_raw _ _ _ Hlv Hrv)).
  rewrite (bind_done _ _ _ _ _ (put_load _ _ _ Hlu)), (bind_done _ _ _ _ _ (put_load _ _ _ Hlv)). cbn [link zl].
  rewrite bool_decide_eq_false_2, Hzu, Hzv, Hm, bind_lift by done. cbv beta iota.
  rewrite (bind_done _ _ _ _ _ (put_modify _ _ _ _ Hlu)).
  erewrite bind_done by (eapply put_modify; rewrite put_lookup_ne by done; exact Hlv).
  destruct app; cbv beta iota zeta; rewrite Hzl, bind_lift; cbv beta iota.
  - erewrite bind_done by (eapply put_modify; rewrite put_lookup_ne by done; apply put_lookup). rewrite put_over by done.
    erewrite bind_done by (by eapply (update_sz _ _ _ z'); [rewrite put_lookup_ne by done; apply put_lookup| |]). rewrite put_over by done.
    erewrite bind_done by (eapply put_modify; apply put_lookup). rewrite put_put.
    match goal with |- context [put_node (iid v) ?y (put_node (iid u) ?x st)] =>
      rewrite (put_two a u v b k cnt bm (shrunk u z' seg) (mkItem (iid v) (set_ncount (set_zl (inode v) None) 0) []) Hap eq_refl eq_refl
        : put_node (iid v) y (put_node (iid u) x st) = _) end.
    destruct (merge_end true a u v b k cnt bm z' seg) as (bm' & He & Hch2); [done..|]. eexists _, bm'. split_and!; [exact He|done|done|by left].
  - erewrite bind_done by (eapply put_modify; apply put_lookup). rewrite put_put.
    erewrite bind_done by (by eapply (update_sz _ _ _ z'); [apply put_lookup| |]). rewrite put_put.
    erewrite bind_done by (eapply put_modify; rewrite put_lookup_ne by done; apply put_lookup). rewrite put_over by done.
    match goal with |- context [put_node (iid v) ?y (put_node (iid u) ?x st)] =>
      rewrite (put_two a u v b k cnt bm (mkItem (iid u) (set_ncount (set_zl (inode u) None) 0) []) (shrunk v z' seg) Hap eq_refl eq_refl
        : put_node (iid v) y (put_node (iid u) x st) = _) end.
    destruct (merge_end false a u v b k cnt bm z' seg) as (bm' & He & Hch2); [done..|]. eexists _, bm'. split_and!; [exact He|done|done|by right].
Qed.

Lemma allow_merge s p q n m f (l l' : list (list Z)) : nodes s !! p = Some n -> nodes s !! q = Some m ->
  11 + 2 * zlen l <= sz n -> 11 + 2 * zlen l' <= sz m -> sz n + sz m - 11 < 2 ^ 32 ->
  exists r, _quicklistNodeAllowMerge (Some p) (Some q) f s = Done (s, r) /\ (r = true -> zlen l + zlen l' <= 65535).
Proof.
  intros Hp Hq Hn Hm Hs. unfold _quicklistNodeAllowMerge. rewrite (bind_done _ _ _ _ _ (put_load _ _ _ Hp)), (bind_done _ _ _ _ _ (put_load _ _ _ Hq)).
  eexists. split; [done|]. rewrite uwrap_small by (unfold in_u; lia). intros Hr. assert (sz n + sz m - 11 <= 65536); [|lia].
  apply (fits_level _ f). destruct (_quicklistNodeSizeMeetsOptimizationRequirement _ _); [done|]. rewrite negb_involutive.
  destruct (sz n + sz m - 11 <=? 8192); done.
Qed.

(** Two neighbours, asked in either order. *)
Lemma allow_pair (sw : bool) a u v b k cnt bm : chain 0 (a ++ u :: v :: b) k -> room (contents (a ++ u :: v :: b)) ->
  exists r, _quicklistNodeAllowMerge (Some (iid (if sw then v else u))) (Some (iid (if sw then u else v))) fl (flat fl (a ++ u :: v :: b) k cnt bm) =
      Done (flat fl (a ++ u :: v :: b) k cnt bm, r) /\ (r = true -> zlen (iseg u) + zlen (iseg v) <= 65535).
Proof.
  intros Hch Hr. pose proof (flat_lookup fl a u (v :: b) k cnt bm Hch) as Hlu. pose proof Hch as Hch'. rewrite app_mid in Hch'.
  pose proof (flat_lookup fl (a ++ [u]) v b k cnt bm Hch') as Hlv. rewrite <- app_mid in Hlv.
  destruct (chain_mid _ _ _ _ Hch) as (_ & _ & _ & zu & _ & Hpu & Hsu). destruct (chain_mid _ _ _ _ Hch') as (_ & _ & _ & zv & _ & Hpv & Hsv).
  destruct (packs_size _ _ Hpu) as (Hu1 & Hu2 & _). destruct (packs_size _ _ Hpv) as (Hv1 & Hv2 & _). unfold room in Hr.
  rewrite contents_app, !contents_cons, !weight_app in Hr. pose proof (weight_nonneg (contents a)). pose proof (weight_nonneg (contents b)).
  destruct sw.
  - destruct (allow_merge _ _ _ _ _ fl (iseg v) (iseg u) Hlv Hlu) as (r & H1 & H2); cbn [link sz]; [lia..|]. exists r. split; [done|]. intros ->. specialize (H2 eq_refl). lia.
  - destruct (allow_merge _ _ _ _ _ fl (iseg u) (iseg v) Hlu Hlv) as (r & H1 & H2); cbn [link sz]; [lia..|]. by exists r.
Qed.

(** The two nodes before the center. *)
Lemma merge_before a x b k cnt bm : chain 0 (a ++ x :: b) k -> room (contents (a ++ x :: b)) -> 0 <= cnt < 2 ^ 64 ->
  exists pp r a' bm' t, let st := flat fl (a ++ x :: b) k cnt bm in
    match last_or None a with Some p => (y ← load p; mret (prev y)) | None => mret None end st = Done (st, pp) /\
    _quicklistNodeAllowMerge (last_or None a) pp fl st = Done (st, r) /\
    (if r : bool then (a0 ← lift pp; b0 ← lift (last_or None a); _quicklistZiplistMerge junk htab a0 b0) else mret None) st =
      Done (flat fl (a' ++ x :: b) k cnt bm', t) /\ chain 0 (a' ++ x :: b) k /\ contents a' = contents a.
Proof.
  intros Hch Hr Hcnt. destruct a as [|v a _] using rev_ind; [by exists None, false, [], bm, None|]. rewrite last_or_snoc. rewrite <- (app_mid a v (x :: b)) in *.
  destruct a as [|u a _] using rev_ind.
  { exists None, false, [v], bm, None. cbv zeta. rewrite (bind_done _ _ _ _ _ (put_load _ _ _ (flat_lookup fl [] v (x :: b) k cnt bm Hch))). done. }
  rewrite <- (app_mid a u (v :: x :: b)) in *. destruct (allow_pair true a u v (x :: b) k cnt bm Hch Hr) as (r & Hal & Hsh). cbv zeta.
  pose proof Hch as Hch'. rewrite (app_mid a u (v :: x :: b)) in Hch'. pose proof (flat_lookup fl _ v (x :: b) k cnt bm Hch') as Hlk.
  rewrite last_or_snoc, <- (app_mid a u (v :: x :: b)) in Hlk. exists (Some (iid u)), r. destruct r.
  - destruct (merge_pair_spec a u v (x :: b) k cnt bm Hch Hr Hcnt (Hsh eq_refl)) as (w & bm' & Hm & Hchw & Hsw & _). exists (a ++ [w]), bm', (Some (iid w)).
    split_and!; [by rewrite (bind_done _ _ _ _ _ (put_load _ _ _ Hlk))|done|by rewrite bind_lift, bind_lift, <- app_mid|by rewrite <- app_mid|].
    rewrite !contents_app, !contents_cons, Hsw. by rewrite <- !app_assoc.
  - exists ((a ++ [u]) ++ [v]), bm, None. split_and!; [by rewrite (bind_done _ _ _ _ _ (put_load _ _ _ Hlk))|done|by rewrite <- !app_mid|by rewrite <- !app_mid|done].
Qed.

(** The two nodes after the center; which they are was read before. *)
Definition second (b : list item) : ptr := match b with _ :: b => first_or b None | [] => None end.

Lemma load_second a x b k cnt bm : chain 0 (a ++ x :: b) k ->
  match first_or b None with Some p => (y ← load p; mret (next y)) | None => mret None end (flat fl (a ++ x :: b) k cnt bm) =
  Done (flat fl (a ++ x :: b) k cnt bm, second b).
Proof.
  intros Hch. destruct b as [|u b]; [done|]. cbn [first_or second]. rewrite (app_mid a x (u :: b)) in Hch |- *.
  by rewrite (bind_done _ _ _ _ _ (put_load _ _ _ (flat_lookup fl _ u b k cnt bm Hch))).
Qed.

Lemma merge_after a x b k cnt bm : chain 0 (a ++ x :: b) k -> room (contents (a ++ x :: b)) -> 0 <= cnt < 2 ^ 64 ->
  exists r b' bm' t, let st := flat fl (a ++ x :: b) k cnt bm in
    _quicklistNodeAllowMerge (first_or b None) (second b) fl st = Done (st, r) /\
    (if r : bool then (a0 ← lift (first_or b None); b0 ← lift (second b); _quicklistZiplistMerge junk htab a0 b0) else mret None) st =
      Done (flat fl (a ++ x :: b') k cnt bm', t) /\ chain 0 (a ++ x :: b') k /\ contents b' = contents b.
Proof.
  intros Hch Hr Hcnt. destruct b as [|u [|v b]]; [by exists false, [], bm, None|by exists false, [u], bm, None|]. cbn [first_or second].
  rewrite (app_mid a x (u :: v :: b)) in *. destruct (allow_pair false _ u v b k cnt bm Hch Hr) as (r & Hal & Hsh). cbv zeta. exists r. destruct r.
  - destruct (merge_pair_spec _ u v b k cnt bm Hch Hr Hcnt (Hsh eq_refl)) as (w & bm' & Hm & Hchw & Hsw & _). exists (w :: b), bm', (Some (iid w)).
    rewrite (app_mid a x (w :: b)). split_and!; [done|by rewrite bind_lift, bind_lift|done|]. by rewrite !contents_cons, Hsw, <- app_assoc.
  - exists (u :: v :: b), bm, None. rewrite (app_mid a x (u :: v :: b)). done.
Qed.

(** The center with the node before it: the node kept is the new center. *)
Lemma merge_prev a x b k cnt bm : chain 0 (a ++ x :: b) k -> room (contents (a ++ x :: b)) -> 0 <= cnt < 2 ^ 64 ->
  exists r a' w bm', let st := flat fl (a ++ x :: b) k cnt bm in
    _quicklistNodeAllowMerge (Some (iid x)) (last_or None a) fl st = Done (st, r) /\
    (if r : bool then (a0 ← lift (last_or None a); _quicklistZiplistMerge junk htab a0 (iid x)) else mret (Some (iid x))) st =
      Done (flat fl (a' ++ w :: b) k cnt bm', Some (iid w)) /\ chain 0 (a' ++ w :: b) k /\ contents (a' ++ w :: b) = contents (a ++ x :: b).
Proof.
  intros Hch Hr Hcnt. destruct a as [|u a _] using rev_ind; [by exists false, [], x, bm|]. rewrite last_or_snoc. rewrite <- (app_mid a u (x :: b)) in *.
  destruct (allow_pair true a u x b k cnt bm Hch Hr) as (r & Hal & Hsh). cbv zeta. exists r. destruct r.
  - destruct (merge_pair_spec a u x b k cnt bm Hch Hr Hcnt (Hsh eq_refl)) as (w & bm' & Hm & Hchw & Hsw & _). exists a, w, bm'.
    split_and!; [done|by rewrite bind_lift|done|]. by rewrite !contents_app, !contents_cons, Hsw, <- app_assoc.
  - exists (a ++ [u]), x, bm. rewrite <- (app_mid a u (x :: b)). done.
Qed.

Lemma merge_next a x b k cnt bm : chain 0 (a ++ x :: b) k -> room (contents (a ++ x :: b)) -> 0 <= cnt < 2 ^ 64 ->
  exists r ys bm', let st := flat fl (a ++ x :: b) k cnt bm in
    _quicklistNodeAllowMerge (Some (iid x)) (first_or b None) fl st = Done (st, r) /\
    (if r : bool then b0 ← lift (first_or b None); _ ← _quicklistZiplistMerge junk htab (iid x) b0; mret tt else mret tt) st =
      Done (flat fl ys k cnt bm', tt) /\ chain 0 ys k /\ contents ys = contents (a ++ x :: b).
Proof.
  intros Hch Hr Hcnt. destruct b as [|v b]; [by exists false, (a ++ [x]), bm|]. cbn [first_or].
  destruct (allow_pair false a x v b k cnt bm Hch Hr) as (r & Hal & Hsh). cbv zeta. exists r. destruct r.
  - destruct (merge_pair_spec a x v b k cnt bm Hch Hr Hcnt (Hsh eq_refl)) as (w & bm' & Hm & Hchw & Hsw & _). exists (a ++ w :: b), bm'.
    split_and!; [done|by rewrite bind_lift, (bind_done _ _ _ _ _ Hm)|done|]. by rewrite !contents_app, !contents_cons, Hsw, <- app_assoc.
  - by exists (a ++ x :: v :: b), bm.
Qed.

Lemma merge_nodes a x b k cnt bm : chain 0 (a ++ x :: b) k -> room (contents (a ++ x :: b)) -> 0 <= cnt < 2 ^ 64 ->
  exists ys bm', _quicklistMergeNodes junk htab (iid x) (flat fl (a ++ x :: b) k cnt bm) = Done (flat fl ys k cnt bm', tt) /\
    chain 0 ys k /\ contents ys = contents (a ++ x :: b).
Proof.
  intros Hch Hr Hcnt. unfold _quicklistMergeNodes. set (st := flat _ _ _ _ _). rewrite (bind_done _ _ _ _ _ (this_row _ _ _ _ : this st = _)). cbv zeta.
  change (fill _) with fl. rewrite (bind_done _ _ _ _ _ (put_load _ _ _ (flat_lookup fl a x b k cnt bm Hch))). cbn [link prev next].
  destruct (merge_before a x b k cnt bm Hch Hr Hcnt) as (pp & r & a1 & bm1 & t & Hpp & Hal & Hm & Hch1 & Hco1). fold st in Hpp, Hal, Hm.
  rewrite (bind_done _ _ _ _ _ Hpp), (bind_done _ _ _ _ _ (load_second a x b k cnt bm Hch)), (bind_done _ _ _ _ _ Hal), (bind_done _ _ _ _ _ Hm).
  assert (room (contents (a1 ++ x :: b))) as Hr1 by (by rewrite contents_app, Hco1, <- contents_app).
  destruct (merge_after a1 x b k cnt bm1 Hch1 Hr1 Hcnt) as (r2 & b2 & bm2 & t2 & Hal2 & Hm2 & Hch2 & Hco2).
  rewrite (bind_done _ _ _ _ _ Hal2), (bind_done _ _ _ _ _ Hm2).
  rewrite (bind_done _ _ _ _ _ (put_load _ _ _ (flat_lookup fl a1 x b2 k cnt bm2 Hch2))). cbn [link prev next].
  assert (contents (a1 ++ x :: b2) = contents (a ++ x :: b)) as Hco by (by rewrite !contents_app, !contents_cons, Hco1, Hco2).
  destruct (merge_prev a1 x b2 k cnt bm2 Hch2) as (r3 & a3 & w & bm3 & Hal3 & Hm3 & Hch3 & Hco3); [by rewrite Hco|done|].
  rewrite (bind_done _ _ _ _ _ Hal3), (bind_done _ _ _ _ _ Hm3), bind_lift.
  rewrite (bind_done _ _ _ _ _ (put_load _ _ _ (flat_lookup fl a3 w b2 k cnt bm3 Hch3))). cbn [link prev next].
  destruct (merge_next a3 w b2 k cnt bm3 Hch3) as (r4 & ys & bm4 & Hal4 & Hm4 & Hch4 & Hco4); [by rewrite Hco3, Hco|done|].
  rewrite (bind_done _ _ _ _ _ Hal4), Hm4. exists ys, bm4. split_and!; [done|done|congruence].
Qed.

End inner.
End QuicklistInner.
