(* ===== verification/QuicklistInsert.v ===== *)
(** Insertion beside an entry of a quicklist with depth 0: into the node of the
    entry, into the node before it, into a new node, or into a half of the
    node split in two. *)

From stdpp Require Import gmap.
From S2P Require Import Prelude UtilNum Ziplist ZiplistRun ZiplistPos Lzf Effects Quicklist QuicklistHeap QuicklistFacts QuicklistOps QuicklistEdit QuicklistInner.

#[local] Open Scope Z_scope.

Module QuicklistInsert.
Import UtilNum Ziplist ZiplistRun ZiplistPos Quicklist QuicklistHeap QuicklistFacts QuicklistOps QuicklistEdit QuicklistInner.
#[local] Notation zlen l := (Z.of_nat (length l)) (only parsing).

Section insert.
Context (junk : nat -> Z) (htab : Z -> Z) (fl : Z).

(** ** Growing a node in place *)

Lemma put_shrunk a x b R k cnt bm z seg n : apart (ids (a ++ x :: b)) R -> n = link (last_or None a) (first_or b None) (inode (shrunk x z seg)) ->
  put_node (iid x) n (row (a ++ x :: b) R k (qlist (a ++ x :: b) cnt (zlen (a ++ x :: b)) fl 0 bm)) =
  row (a ++ shrunk x z seg :: b) R k (qlist (a ++ shrunk x z seg :: b) cnt (zlen (a ++ shrunk x z seg :: b)) fl 0 bm).
Proof.
  intros Hap ->. rewrite (put_row a x b R k _ _ seg Hap). change (mkItem (iid x) _ seg) with (shrunk x z seg).
  f_equal. symmetry. etrans; [apply (qlist_ids (a ++ x :: b)); by rewrite !fmap_app|by rewrite !length_app].
Qed.

Lemma grow_flat a x b k cnt bm z seg : chain 0 (a ++ x :: b) k -> packs z seg -> zlen seg = zlen (iseg x) + 1 ->
  (_ ← modify (iid x) (fun n => set_zl n (Some z)); _ ← modify (iid x) (fun n => set_ncount n (ncount n + 1));
   _ ← quicklistNodeUpdateSz (iid x); quicklistRecompressOnly junk htab (iid x)) (flat fl (a ++ x :: b) k cnt bm) =
  Done (flat fl (a ++ shrunk x z seg :: b) k cnt bm, tt).
Proof.
  intros Hch Hp Hl. destruct (chain_mid _ _ _ _ Hch) as (Hx & Hcx & _). pose proof Hx as [_ _ _ Hf _]. unfold counted in Hcx.
  pose proof (flat_lookup fl a x b k cnt bm Hch) as Hlk. rewrite modify_modify. rewrite (bind_done _ _ _ _ _ (put_modify _ _ _ _ Hlk)).
  erewrite bind_done by (by eapply (update_sz _ _ _ z); [apply put_lookup| |]). rewrite put_put.
  erewrite recompress_raw; [|apply put_lookup|done]. do 2 f_equal. apply put_shrunk; [by apply chain_apart in Hch|]. cbn. by rewrite Hl, Hcx.
Qed.

(** ** Splitting *)

Lemma delete_range_from z l start ext : packs z l -> 0 <= start <= zlen l -> 0 <= ext -> room l ->
  exists z', ziplistDeleteRange junk z start ext = Some z' /\ packs z' (take (Z.to_nat start) l ++ drop (Z.to_nat start + Z.to_nat ext) l).
Proof.
  intros Hp Hs He Hr. destruct (decide (start < zlen l)) as [Hlt|Hge].
  - apply packs_delete_range; [done|lia|done|done|]. unfold entry_index. by rewrite (proj2 (Z.leb_le _ _)), (proj2 (Z.ltb_lt _ _)) by lia.
  - exists z. rewrite (packs_delete_none junk z l); [|done|lia|].
    + split; [done|]. rewrite take_ge, drop_ge, app_nil_r by lia. done.
    + unfold entry_index. by rewrite (proj2 (Z.leb_le _ _)), (proj2 (Z.ltb_ge _ _)) by lia.
Qed.

Lemma delete_zl_spec p s n z l start ext : nodes s !! p = Some n -> zl n = Some z -> packs z l -> 0 <= start <= zlen l -> room l ->
  let l' := take (Z.to_nat start) l ++ drop (Z.to_nat start + Z.to_nat (u32 ext)) l in
  exists z', packs z' l' /\ delete_zl junk p start ext s = Done (put_node p (set_sz (set_ncount (set_zl n (Some z')) (zlen l')) (zlen z')) s, tt).
Proof.
  intros Hp Hz Hpk Hs Hr l'. destruct (delete_range_from z l start (u32 ext) Hpk Hs) as (z1 & Hd & Hp1); [apply uwrap_range; lia|done|].
  destruct (packs_len z1 _ Hp1) as (z' & Hl & Hp' & _). exists z'. split; [done|]. unfold delete_zl.
  rewrite (bind_done _ _ _ _ _ (put_block _ _ _ z Hp Hz)), Hd, bind_lift, Hl, bind_lift. cbv beta iota.
  rewrite (bind_done _ _ _ _ _ (put_modify _ _ _ _ Hp)). erewrite update_sz; [by rewrite put_put|apply put_lookup|done|done].
Qed.

(** The entries that stay and those that go to the new node. *)
Definition stay (after : bool) (j : nat) (l : list (list Z)) : list (list Z) := if after then take (S j) l else drop j l.
Definition move (after : bool) (j : nat) (l : list (list Z)) : list (list Z) := if after then drop (S j) l else take j l.

Lemma stay_eq (after : bool) j (l : list (list Z)) : (j < length l)%nat -> zlen l <= 65535 ->
  let start := if after then Z.of_nat j + 1 else 0 in
  take (Z.to_nat start) l ++ drop (Z.to_nat start + Z.to_nat (u32 (if after then -1 else Z.of_nat j))) l = stay after j l.
Proof.
  clear. intros Hj Hl. unfold stay. destruct after; cbv zeta; [|by rewrite uwrap_small, Nat2Z.id by (unfold in_u; lia)].
  change (u32 (-1)) with (2 ^ 32 - 1). rewrite drop_ge, app_nil_r by lia. f_equal. lia.
Qed.

Lemma move_eq (after : bool) j (l : list (list Z)) : (j < length l)%nat -> zlen l <= 65535 ->
  let start := if after then 0 else Z.of_nat j in
  take (Z.to_nat start) l ++ drop (Z.to_nat start + Z.to_nat (u32 (if after then Z.of_nat j + 1 else -1))) l = move after j l.
Proof.
  clear. intros Hj Hl. unfold move. destruct after; cbv zeta.
  - rewrite uwrap_small by (unfold in_u; lia). change (Z.to_nat 0) with O. rewrite take_0. cbn [app Nat.add]. f_equal. lia.
  - change (u32 (-1)) with (2 ^ 32 - 1). rewrite drop_ge, app_nil_r by lia. f_equal. lia.
Qed.

Lemma stay_ok (after : bool) j (l : list (list Z)) : (j < length l)%nat -> zlen l <= 65535 -> bytes l ->
  stay after j l <> [] /\ zlen (stay after j l) <= 65535 /\ bytes (stay after j l).
Proof.
  clear. intros Hj Hl Hb. assert (0 < length (stay after j l) <= length l)%nat as Hlen.
  { unfold stay. destruct after; rewrite ?length_take, ?length_drop; lia. }
  split_and!; [intros Hn; rewrite Hn in Hlen; cbn in Hlen; lia|lia|]. unfold stay. destruct after; [by apply Forall_take|by apply Forall_drop].
Qed.

(** The entries of the new node, with the string. *)
Definition moved (after : bool) (j : nat) (v : list Z) (l : list (list Z)) : list (list Z) :=
  if after then v :: move after j l else move after j l ++ [v].

Lemma moved_ok (after : bool) j v (l : list (list Z)) : (j < length l)%nat -> zlen l <= 65535 -> bytes l -> Forall is_byte v ->
  moved after j v l <> [] /\ zlen (moved after j v l) = zlen (move after j l) + 1 /\ zlen (moved after j v l) <= 65535 /\
  bytes (moved after j v l) /\ weight (moved after j v l) <= weight (v :: l).
Proof.
  clear. intros Hj Hl Hb Hv. assert (zlen (move after j l) < zlen l /\ bytes (move after j l) /\ weight (move after j l) <= weight l) as (H1 & H2 & H3).
  { unfold move. pose proof (weight_app (take (S j) l) (drop (S j) l)) as W1. pose proof (weight_app (take j l) (drop j l)) as W2. rewrite take_drop in W1, W2.
    pose proof (weight_nonneg (take (S j) l)). pose proof (weight_nonneg (drop j l)).
    destruct after; rewrite ?length_take, ?length_drop; (split_and!; [lia| |lia]); [by apply Forall_drop|by apply Forall_take]. }
  unfold moved. destruct after.
  - cbn [length]. rewrite !weight_cons. split_and!; [done|lia|lia|by constructor|lia].
  - rewrite length_app, weight_app, !weight_cons. change (weight []) with 0. cbn [length].
    split_and!; [by destruct (move false j l)|lia|lia| |lia]. apply Forall_app. split; [done|by repeat constructor].
Qed.

(** A node on its own. *)
Definition node_of (z : list Z) (n : Z) : quicklistNode := mkNode None None (Some z) (zlen z) n 1 2 false.

Lemma split_spec (after : bool) a x b k cnt bm j : chain 0 (a ++ x :: b) k -> room (contents (a ++ x :: b)) -> (j < length (iseg x))%nat ->
  exists z1 z2, packs z1 (stay after j (iseg x)) /\ packs z2 (move after j (iseg x)) /\
    let xs := a ++ shrunk x z1 (stay after j (iseg x)) :: b in
    _quicklistSplitNode junk (iid x) (Z.of_nat j) after (flat fl (a ++ x :: b) k cnt bm) =
      Done (row xs {[k := node_of z2 (zlen (move after j (iseg x)))]} (S k) (qlist xs cnt (zlen xs) fl 0 bm), k).
Proof.
  intros Hch Hr Hj. destruct (chain_mid _ _ _ _ Hch) as (Hx & Hcx & Hraw & z & Hz & Hp & Hsz). pose proof Hx as [_ Hsh _ _ _].
  pose proof (ch_brk _ _ _ Hch) as Hk. assert (k ∉ ids (a ++ x :: b)) as Hni by (intros Hin; specialize (Hk _ Hin); lia).
  assert (room (iseg x)) as Hrx by (eapply room_le; [exact Hr|apply weight_in]).
  assert (iid x <> k) as Hne. { intros <-. apply Hni. rewrite fmap_app, fmap_cons. clear. set_solver. }
  pose proof (flat_lookup fl a x b k cnt bm Hch) as Hlk. unfold _quicklistSplitNode, quicklistCreateNode.
  rewrite (bind_done _ _ _ _ _ (put_load _ _ _ Hlk)). unfold flat. set (q := qlist _ _ _ fl 0 bm).
  rewrite (bind_done _ _ _ _ _ (row_alloc _ ∅ k q _ Hk)). set (n0 := mkNode None None None 0 0 1 2 false).
  assert (apart (ids (a ++ x :: b)) {[k := n0]}) as Hap by (apply apart_beside; [by apply chain_apart in Hch|done]).
  pose proof (row_lookup _ _ (S k) q Hap a x b eq_refl) as Hlx. rewrite (bind_done _ _ _ _ _ (put_block _ _ _ z Hlx Hz)).
  cbn [link sz]. rewrite Hsz, (packs_read _ _ Hp), bind_lift.
  erewrite (bind_done (modify k _)) by (eapply put_modify; by apply rest_lookup). cbv zeta.
  set (s1 := put_node k _ _). assert (nodes s1 !! iid x = Some (link (last_or None a) (first_or b None) (inode x))) as Hlx1.
  { unfold s1. by rewrite put_lookup_ne. }
  destruct (delete_zl_spec (iid x) s1 _ z (iseg x) (if after then Z.of_nat j + 1 else 0) (if after then -1 else Z.of_nat j) Hlx1 Hz Hp) as (z1 & Hp1 & Hd1);
    [destruct after; lia|done|]. rewrite (bind_done _ _ _ _ _ Hd1).
  rewrite stay_eq in * by done. set (s2 := put_node (iid x) _ s1). assert (nodes s2 !! k = Some (set_zl n0 (Some z))) as Hlk2.
  { unfold s2, s1. rewrite put_lookup_ne by done. apply put_lookup. }
  destruct (delete_zl_spec k s2 _ z (iseg x) (if after then 0 else Z.of_nat j) (if after then Z.of_nat j + 1 else -1) Hlk2 eq_refl Hp) as (z2 & Hp2 & Hd2);
    [destruct after; lia|done|]. rewrite (bind_done _ _ _ _ _ Hd2).
  rewrite move_eq in * by done. exists z1, z2. split_and!; [done|done|]. cbv zeta. unfold mret, st_ret. do 2 f_equal. unfold s2, s1.
  rewrite put_over, put_rest by done.
  rewrite <- (insert_empty k n0), insert_insert_eq, insert_empty. unfold q. rewrite (put_shrunk _ _ _ _ _ _ _ z1 (stay after j (iseg x))).
  - do 2 f_equal. unfold node_of, set_sz, set_ncount, set_zl, n0. cbn. rewrite uwrap_small; [done|]. unfold in_u. unfold move. destruct after; rewrite ?length_drop, ?length_take; lia.
  - apply apart_beside; [by apply chain_apart in Hch|done].
  - done.
Qed.

(** ** A new node *)

Lemma put_single xs k j q n m : k ∉ ids xs -> put_node k n (row xs {[k := m]} j q) = row xs {[k := n]} j q.
Proof. intros Hk. by rewrite put_rest, <- (insert_empty k m), insert_insert_eq, insert_empty by done. Qed.

(** The item of a new node. *)
Definition newcomer (k : nat) (z : list Z) (seg : list (list Z)) : item := mkItem k (node_of z (zlen seg)) seg.

Lemma newcomer_ok k z seg : packs z seg -> seg <> [] -> zlen seg <= 65535 -> bytes seg ->
  item_ok (newcomer k z seg) /\ counted (newcomer k z seg) /\ raw (newcomer k z seg).
Proof. intros. split_and!; [|done|done]. split; [done..|]. exists z. split; [done|]. split; [done|by left]. Qed.

Lemma link_new (after : bool) a x b k cnt bm y : chain 0 (a ++ x :: b) k -> zlen (a ++ x :: b) + 1 < 2 ^ 64 -> iid y = k ->
  item_ok y -> counted y -> raw y -> prev (inode y) = None -> next (inode y) = None ->
  let ys := a ++ (if after then x else y) :: (if after then y else x) :: b in
  __quicklistInsertNode junk htab (Some (iid x)) k after (row (a ++ x :: b) {[k := inode y]} (S k) (qlist (a ++ x :: b) cnt (zlen (a ++ x :: b)) fl 0 bm)) =
    Done (flat fl ys (S k) cnt bm, tt) /\ chain 0 ys (S k).
Proof.
  intros Hch Hlen Hk Ho Hc Hr Hp Hn. pose proof (chain_apart _ _ _ Hch) as Hap. pose proof (ch_brk _ _ _ Hch) as Hb.
  assert (iid y ∉ ids (a ++ x :: b)) as Hni by (rewrite Hk; intros Hin; specialize (Hb _ Hin); lia).
  pose proof (ch_ok _ _ _ Hch) as Hok. assert (Forall item_ok (a ++ y :: x :: b) /\ Forall item_ok ((a ++ [x]) ++ y :: b)) as [Hok1 Hok2].
  { rewrite !Forall_app, !Forall_cons, Forall_nil in *. naive_solver. }
  destruct after.
  - assert ((a ++ [x]) ++ y :: b = a ++ x :: y :: b) as Heq by (by rewrite <- app_mid). pose proof (app_mid a x b) as Hm. rewrite Hm in *.
    destruct (link_after junk htab (a ++ [x]) b y ∅ (S k) cnt fl 0 bm Hap Hni (lookup_empty _) Hp Hn Hok2) as (ys & Hl & Hin);
      [lia|done|left; by destruct a|]. rewrite last_or_snoc, Hk in Hl. pose proof Hin as (_ & He & _). specialize (He (or_introl eq_refl)). subst ys.
    cbv zeta. rewrite <- Heq. split; [exact Hl|]. by eapply linked_chain.
  - destruct (link_before junk htab a (x :: b) y ∅ (S k) cnt fl 0 bm Hap Hni (lookup_empty _) Hp Hn Hok1) as (ys & Hl & Hin);
      [lia|done|by left|]. cbn [first_or] in Hl. rewrite Hk in Hl. pose proof Hin as (_ & He & _). specialize (He (or_introl eq_refl)). subst ys.
    split; [exact Hl|]. by eapply linked_chain.
Qed.

(** ** The branches of [_quicklistInsert] *)

Section branches.
Context (a b : list item) (x : item) (k : nat) (cnt : Z) (bm : list quicklistBookmark) (v : list Z).
Hypothesis (Hch : chain 0 (a ++ x :: b) k) (Hroom : room (v :: contents (a ++ x :: b))) (Hv : Forall is_byte v) (Hcnt : 0 <= cnt < 2 ^ 64).
#[local] Notation start := (flat fl (a ++ x :: b) k cnt bm) (only parsing).

(** The string is in, before the entry [i] of the node. *)
Definition into (i : nat) (r : outcome (store * unit)) : Prop := exists ys k' bm',
  r = Done (flat fl ys k' cnt bm', tt) /\ chain 0 ys k' /\ contents ys = contents a ++ (take i (iseg x) ++ v :: drop i (iseg x)) ++ contents b.

Lemma branch_room : room (contents (a ++ x :: b)) /\ room (iseg x) /\ weight (v :: iseg x) <= weight (v :: contents (a ++ x :: b)) /\
  11 + weight (iseg x) + zlen v + 22 < 2 ^ 32 /\ zlen (a ++ x :: b) + 1 < 2 ^ 64.
Proof using Hch Hroom.
  clear junk htab. pose proof (weight_in a x b) as Hw. unfold room in *. rewrite !weight_cons in *.
  assert (room (contents (a ++ x :: b))) as Hr by (unfold room; lia). pose proof (room_length _ (ch_ok _ _ _ Hch) Hr). lia.
Qed.

Lemma weight_into i (l : list (list Z)) : weight (take i l ++ v :: drop i l) = weight (v :: l).
Proof. clear. rewrite weight_app, !weight_cons. rewrite <- (take_drop i l) at 3. rewrite weight_app. lia. Qed.

Lemma into_ok i (l : list (list Z)) : bytes l -> bytes (take i l ++ v :: drop i l) /\ take i l ++ v :: drop i l <> [] /\ zlen (take i l ++ v :: drop i l) = zlen l + 1.
Proof using Hv.
  clear junk htab. intros Hb. split_and!; [|by destruct (take i l)|rewrite length_app; cbn [length]; rewrite length_take, length_drop; lia].
  rewrite Forall_app, Forall_cons. split_and!; [by apply Forall_take|done|by apply Forall_drop].
Qed.

(** Into the node of the entry. *)
Lemma into_here i z : packs z (take i (iseg x) ++ v :: drop i (iseg x)) -> zlen (iseg x) + 1 <= 65535 ->
  into i ((_ ← modify (iid x) (fun n => set_zl n (Some z)); _ ← modify (iid x) (fun n => set_ncount n (ncount n + 1));
   _ ← quicklistNodeUpdateSz (iid x); quicklistRecompressOnly junk htab (iid x)) start).
Proof using Hch Hv.
  intros Hp Hl. destruct (chain_mid _ _ _ _ Hch) as ([_ _ Hb _ _] & _ & Hraw & _). destruct (into_ok i (iseg x) Hb) as (Hb' & Hne & Hlen).
  rewrite (grow_flat a x b k cnt bm z _ Hch Hp Hlen). eexists _, k, bm. split; [done|]. split; [apply shrunk_chain; [done..|lia|done]|].
  by rewrite contents_app, contents_cons.
Qed.

Lemma here_after j z p e : zl (inode x) = Some z -> ezi e = Some p -> pos z (iseg x) j p -> (j < length (iseg x))%nat -> zlen (iseg x) + 1 <= 65535 ->
  into (S j) ((_ ← quicklistDecompressNodeForUse junk (Some (iid x));
             b ← block (iid x);
             at_ ← lift (ezi e);
             nxt ← lift (ziplistNext b at_);
             b ← lift match nxt with
                      | None => ziplistPush junk b v ZIPLIST_TAIL
                      | Some nxt => ziplistInsert junk b nxt v
                      end;
             _ ← modify (iid x) (fun n => set_zl n (Some b));
             _ ← modify (iid x) (fun n => set_ncount n (ncount n + 1));
             _ ← quicklistNodeUpdateSz (iid x);
             quicklistRecompressOnly junk htab (iid x)) start).
Proof using Hch Hroom Hv.
  intros Hz He Hp Hj Hl. destruct branch_room as (_ & _ & Hw & _). destruct (chain_mid _ _ _ _ Hch) as (_ & _ & Hraw & _).
  pose proof (flat_lookup fl a x b k cnt bm Hch) as Hlk. rewrite (bind_done _ _ _ _ _ (use_raw junk _ _ _ Hlk Hraw)).
  rewrite (bind_done _ _ _ _ _ (put_block _ _ _ z Hlk Hz)), He, bind_lift. destruct (pos_next z (iseg x) j p Hp Hj) as (r & Hn & Hr). rewrite Hn, bind_lift.
  assert (room (take (S j) (iseg x) ++ v :: drop (S j) (iseg x))) as Hrm by (eapply room_le; [exact Hroom|by rewrite weight_into]).
  assert (exists z', match r with None => ziplistPush junk z v ZIPLIST_TAIL | Some nxt => ziplistInsert junk z nxt v end = Some z' /\
    packs z' (take (S j) (iseg x) ++ v :: drop (S j) (iseg x))) as (z' & -> & Hp').
  { destruct (decide (S j < length (iseg x))%nat) as [Hlt|Hge]; [destruct Hr as (p' & -> & Hp'); by apply pos_insert|]. subst r.
    rewrite take_ge, drop_ge in Hrm |- * by lia. apply (push_packs junk z (iseg x) v ZIPLIST_TAIL); [by eapply pos_packs|done]. }
  rewrite bind_lift. by apply into_here.
Qed.

Lemma here_before j z p e : zl (inode x) = Some z -> ezi e = Some p -> pos z (iseg x) j p -> zlen (iseg x) + 1 <= 65535 ->
  into j ((_ ← quicklistDecompressNodeForUse junk (Some (iid x));
             b ← block (iid x);
             at_ ← lift (ezi e);
             b ← lift (ziplistInsert junk b at_ v);
             _ ← modify (iid x) (fun n => set_zl n (Some b));
             _ ← modify (iid x) (fun n => set_ncount n (ncount n + 1));
             _ ← quicklistNodeUpdateSz (iid x);
             quicklistRecompressOnly junk htab (iid x)) start).
Proof using Hch Hroom Hv.
  intros Hz He Hp Hl. destruct branch_room as (_ & _ & Hw & _). destruct (chain_mid _ _ _ _ Hch) as (_ & _ & Hraw & _).
  pose proof (flat_lookup fl a x b k cnt bm Hch) as Hlk. rewrite (bind_done _ _ _ _ _ (use_raw junk _ _ _ Hlk Hraw)).
  rewrite (bind_done _ _ _ _ _ (put_block _ _ _ z Hlk Hz)), He, bind_lift.
  destruct (pos_insert junk z (iseg x) j p v Hp) as (z' & Hi & Hp'); [eapply room_le; [exact Hroom|by rewrite weight_into]|].
  rewrite Hi, bind_lift. by apply into_here.
Qed.

(** To the end of the node before. *)
Lemma into_prev a' u : a = a' ++ [u] -> zlen (iseg u) + 1 <= 65535 ->
  into 0 ((_ ← quicklistDecompressNodeForUse junk (Some (iid u));
             _ ← push_zl junk (iid u) v ZIPLIST_TAIL;
             _ ← modify (iid u) (fun n => set_ncount n (ncount n + 1));
             _ ← quicklistNodeUpdateSz (iid u);
             quicklistRecompressOnly junk htab (iid u)) start).
Proof using Hch Hroom Hv.
  intros Ha Hl. unfold into. rewrite Ha in *. rewrite <- (app_mid a' u (x :: b)) in *.
  destruct (chain_mid _ _ _ _ Hch) as ([_ _ Hb _ _] & _ & Hraw & z & Hz & Hp & _).
  pose proof (flat_lookup fl a' u (x :: b) k cnt bm Hch) as Hlk. rewrite (bind_done _ _ _ _ _ (use_raw junk _ _ _ Hlk Hraw)).
  destruct (push_packs junk z (iseg u) v ZIPLIST_TAIL Hp) as (z' & Hpush & Hp').
  { eapply room_le; [exact Hroom|]. change (ZIPLIST_TAIL =? ZIPLIST_HEAD) with false. cbv iota. pose proof (weight_in a' u (x :: b)). rewrite weight_app, !weight_cons. change (weight []) with 0. lia. }
  unfold push_zl. rewrite bind_assoc, (bind_done _ _ _ _ _ (put_block _ _ _ z Hlk Hz)), bind_assoc, Hpush, bind_lift. change (ZIPLIST_TAIL =? ZIPLIST_HEAD) with false in Hp'. cbv iota in Hp'.
  assert (zlen (iseg u ++ [v]) = zlen (iseg u) + 1) as Hlen by (rewrite length_app; cbn; lia).
  rewrite (grow_flat a' u (x :: b) k cnt bm z' _ Hch Hp' Hlen). eexists _, k, bm. split; [done|]. split.
  - apply shrunk_chain; [done..|by destruct (iseg u)|lia|]. apply Forall_app. split; [done|by repeat constructor].
  - rewrite !contents_app, !contents_cons. cbn [iseg shrunk take drop app]. change (contents []) with (@nil (list Z)). by rewrite app_nil_r, <- !app_assoc.
Qed.

(** A new node before the node of the entry. *)
Lemma into_new :
  into 0 ((new_node ← quicklistCreateNode;
             _ ← new_zl junk new_node v ZIPLIST_HEAD;
             _ ← modify new_node (fun n => set_ncount n (ncount n + 1));
             _ ← quicklistNodeUpdateSz new_node;
             __quicklistInsertNode junk htab (Some (iid x)) new_node false) start).
Proof using Hch Hroom Hv.
  destruct branch_room as (_ & _ & Hw & _ & Hlen). pose proof (ch_brk _ _ _ Hch) as Hk.
  assert (k ∉ ids (a ++ x :: b)) as Hni by (intros Hin; specialize (Hk _ Hin); lia).
  destruct (new_packs junk) as (z0 & Hn0 & Hp0). destruct (push_packs junk z0 [] v ZIPLIST_HEAD Hp0) as (z & Hpush & Hp).
  { eapply room_le; [exact Hroom|]. change (ZIPLIST_HEAD =? ZIPLIST_HEAD) with true. cbv iota. rewrite !weight_cons. change (weight []) with 0. pose proof (weight_nonneg (contents (a ++ x :: b))). lia. }
  change (ZIPLIST_HEAD =? ZIPLIST_HEAD) with true in Hp. cbv iota in Hp. unfold quicklistCreateNode, flat. set (q := qlist _ _ _ fl 0 bm).
  rewrite (bind_done _ _ _ _ _ (row_alloc _ ∅ k q _ Hk)). unfold new_zl. rewrite bind_assoc, Hn0, bind_lift, bind_assoc, Hpush, bind_lift, modify_modify.
  erewrite bind_done by (eapply put_modify; by apply rest_lookup). erewrite bind_done by (by eapply (update_sz _ _ _ z); [apply put_lookup| |]).
  rewrite put_put. change (<[k := ?n]> ∅) with ({[k := n]} : gmap nat quicklistNode). rewrite put_single by done.
  destruct (newcomer_ok k z [v]) as (H1 & H2 & H3); [done|done|cbn; lia|by repeat constructor|].
  destruct (link_new false a x b k cnt bm (newcomer k z [v]) Hch Hlen eq_refl H1 H2 H3 eq_refl eq_refl) as [Hli Hch']. eexists _, _, bm. split; [exact Hli|].
  split; [done|]. by rewrite !contents_app, !contents_cons.
Qed.

(** Into one half of the node: the halves in the chain. *)
Lemma half_linked (after : bool) j e : eoffset e = Z.of_nat j -> (j < length (iseg x))%nat ->
  exists x1 y, let ys := a ++ (if after then x1 else y) :: (if after then y else x1) :: b in
    iid x1 = iid x /\ chain 0 ys (S k) /\
    contents ys = contents a ++ (take (if after then S j else j) (iseg x) ++ v :: drop (if after then S j else j) (iseg x)) ++ contents b /\
    forall K : M unit, (new_node ← _quicklistSplitNode junk (iid x) (eoffset e) after;
             _ ← push_zl junk new_node v (if after then ZIPLIST_HEAD else ZIPLIST_TAIL);
             _ ← modify new_node (fun n => set_ncount n (ncount n + 1));
             _ ← quicklistNodeUpdateSz new_node;
             _ ← __quicklistInsertNode junk htab (Some (iid x)) new_node after;
             K) start = K (flat fl ys (S k) cnt bm).
Proof using Hch Hroom Hv.
  intros He Hj. destruct branch_room as (Hr & Hrx & Hw & _ & Hlen). destruct (chain_mid _ _ _ _ Hch) as (Hx & _ & Hraw & _).
  pose proof Hx as [_ Hsh Hb _ _]. destruct (split_spec after a x b k cnt bm j Hch Hr Hj) as (z1 & z2 & Hp1 & Hp2 & Hs).
  set (seg1 := stay after j (iseg x)) in *. set (x1 := shrunk x z1 seg1) in *. set (seg2 := move after j (iseg x)) in *.
  destruct (stay_ok after j (iseg x) Hj Hsh Hb) as (Hne1 & Hl1 & Hb1). destruct (moved_ok after j v (iseg x) Hj Hsh Hb Hv) as (Hne2 & Hle2 & Hl2 & Hb2 & Hw2). fold seg2 in Hle2.
  pose proof (shrunk_chain 0 a x b k z1 _ Hch Hraw Hp1 Hne1 Hl1 Hb1 : chain 0 (a ++ x1 :: b) k) as Hch1. pose proof (ch_brk _ _ _ Hch1) as Hk.
  assert (k ∉ ids (a ++ x1 :: b)) as Hni by (intros Hin; specialize (Hk _ Hin); lia).
  assert (room (moved after j v (iseg x))) as Hrm by (eapply room_le; [exact Hroom|lia]).
  destruct (push_packs junk z2 seg2 v (if after then ZIPLIST_HEAD else ZIPLIST_TAIL) Hp2) as (z & Hpush & Hp); [by destruct after|].
  assert (packs z (moved after j v (iseg x))) as Hpz by (by destruct after). clear Hp. set (y := newcomer k z (moved after j v (iseg x))).
  destruct (newcomer_ok k z _ Hpz Hne2 Hl2 Hb2) as (H1 & H2 & H3).
  destruct (link_new after a x1 b k cnt bm y Hch1) as [Hli Hch2]; [by rewrite !length_app in *|done..|].
  exists x1, y. cbv zeta. split_and!; [done|done| |].
  { rewrite !contents_app, !contents_cons. by destruct after; cbn [iseg x1 shrunk y newcomer moved seg1 stay move]; rewrite <- ?app_assoc. }
  intros K. rewrite He, (bind_done _ _ _ _ _ Hs). unfold push_zl. rewrite bind_assoc.
  erewrite bind_done by (by eapply put_block; [by apply rest_lookup|]). rewrite bind_assoc, Hpush, bind_lift, modify_modify.
  erewrite bind_done by (eapply put_modify; by apply rest_lookup). erewrite bind_done by (by eapply (update_sz _ _ _ z); [apply put_lookup| |]).
  rewrite put_put, put_single by done.
  match goal with |- context [{[k := ?n]}] => assert (n = inode y) as -> end.
  { unfold y, newcomer, node_of, set_sz, set_ncount, set_zl. cbn. f_equal. rewrite uwrap_small by (unfold in_u; lia). lia. }
  by rewrite (bind_done _ _ _ _ _ Hli).
Qed.

Lemma into_half (after : bool) j e : eoffset e = Z.of_nat j -> (j < length (iseg x))%nat ->
  into (if after then S j else j) ((_ ← quicklistDecompressNodeForUse junk (Some (iid x));
             new_node ← _quicklistSplitNode junk (iid x) (eoffset e) after;
             _ ← push_zl junk new_node v (if after then ZIPLIST_HEAD else ZIPLIST_TAIL);
             _ ← modify new_node (fun n => set_ncount n (ncount n + 1));
             _ ← quicklistNodeUpdateSz new_node;
             _ ← __quicklistInsertNode junk htab (Some (iid x)) new_node after;
             _quicklistMergeNodes junk htab (iid x)) start).
Proof using Hch Hroom Hv Hcnt.
  intros He Hj. destruct (chain_mid _ _ _ _ Hch) as (_ & _ & Hraw & _).
  rewrite (bind_done _ _ _ _ _ (use_raw junk _ _ _ (flat_lookup fl a x b k cnt bm Hch) Hraw)).
  destruct (half_linked after j e He Hj) as (x1 & y & Hid & Hch2 & Hco & Hrun). rewrite Hrun, <- Hid.
  assert (room (contents a ++ (take (if after then S j else j) (iseg x) ++ v :: drop (if after then S j else j) (iseg x)) ++ contents b)) as Hr2.
  { eapply room_le; [exact Hroom|]. rewrite (weight_app (contents a)), (weight_app _ (contents b)), weight_into.
    rewrite !weight_cons, contents_app, contents_cons, !weight_app. lia. }
  rewrite <- Hco in Hr2. destruct after.
  - destruct (merge_nodes junk htab fl a x1 (y :: b) (S k) cnt bm Hch2 Hr2 Hcnt) as (ys & bm' & Hm & Hch3 & Hco3). exists ys, (S k), bm'.
    split_and!; [done|done|congruence].
  - rewrite (app_mid a y (x1 :: b)) in *. destruct (merge_nodes junk htab fl _ x1 b (S k) cnt bm Hch2 Hr2 Hcnt) as (ys & bm' & Hm & Hch3 & Hco3).
    exists ys, (S k), bm'. split_and!; [done|done|congruence].
Qed.

(** Whether the node before the entry is full. *)
Lemma ask_prev (at_head : bool) :
  exists r, (if at_head then (ok ← _quicklistNodeAllowInsert (last_or None a) fl (zlen v); mret (negb ok)) else mret false) start = Done (start, r) /\
    (at_head && bool_decide (is_Some (last_or None a)) && negb r = true -> exists a' u, a = a' ++ [u] /\ zlen (iseg u) + 1 <= 65535).
Proof using Hch Hroom.
  destruct at_head; [|by exists false]. destruct a as [|u a' Ha] using rev_ind; [by exists true|]. clear Ha. rewrite last_or_snoc.
  pose proof (weight_in a' u (x :: b)) as Hw. unfold room in Hroom. rewrite weight_cons in Hroom. rewrite <- (app_mid a' u (x :: b)) in *.
  destruct (chain_mid _ _ _ _ Hch) as (Hu & Hcu & _).
  destruct (allow_insert _ ∅ k (qlist (a' ++ u :: x :: b) cnt (zlen (a' ++ u :: x :: b)) fl 0 bm) a' u (x :: b) fl v (chain_apart _ _ _ Hch) eq_refl Hu Hcu) as (r & Hal & Hr); [lia|].
  exists (negb r). unfold flat. rewrite (bind_done _ _ _ _ _ Hal). split; [done|]. rewrite negb_involutive, !andb_true_iff. intros [_ Hrt].
  exists a', u. auto.
Qed.

Lemma insert_node (after : bool) j z p e : zl (inode x) = Some z -> enode e = Some (iid x) -> ezi e = Some p -> pos z (iseg x) j p ->
  (j < length (iseg x))%nat -> eoffset e = Z.of_nat j ->
  exists ys k' bm', _quicklistInsert junk htab e v after start = Done (row ys ∅ k' (qlist ys (u64 (cnt + 1)) (zlen ys) fl 0 bm'), tt) /\
    chain 0 ys k' /\ let i := if after then S j else j in contents ys = contents a ++ (take i (iseg x) ++ v :: drop i (iseg x)) ++ contents b.
Proof using Hch Hroom Hv Hcnt.
  intros Hz Hen Hez Hp Hj Ho. destruct (chain_mid _ _ _ _ Hch) as (Hx & Hcx & _). destruct branch_room as (_ & _ & _ & Hw & _).
  pose proof (flat_lookup fl a x b k cnt bm Hch) as Hlk. unfold _quicklistInsert. rewrite (bind_done _ _ _ _ _ (this_row _ _ _ _ : this start = _)). cbv zeta.
  change (fill _) with fl. rewrite Hen.
  destruct (allow_insert _ ∅ k (qlist (a ++ x :: b) cnt (zlen (a ++ x :: b)) fl 0 bm) a x b fl v (chain_apart _ _ _ Hch) eq_refl Hx Hcx) as (r & Hal & Hr); [lia|].
  rewrite (bind_done _ _ _ _ _ (Hal : _ start = Done (start, r))). rewrite (bind_done _ _ _ _ _ (put_load _ _ _ Hlk)). cbn [link ncount prev next].
  unfold counted in Hcx. rewrite Ho, Hcx, (proj2 (Z.eqb_neq (Z.of_nat j) _)) by lia. rewrite andb_false_r, bind_ret.
  destruct (ask_prev (negb after && (Z.of_nat j =? 0))) as (fp & Hfp & Hprev). rewrite (bind_done _ _ _ _ _ Hfp).
  assert (forall m : M unit, into (if after then S j else j) (m start) ->
    exists ys k' bm', (_ ← m; modify_ql (fun q => set_count q (count q + 1))) start = Done (row ys ∅ k' (qlist ys (u64 (cnt + 1)) (zlen ys) fl 0 bm'), tt) /\
    chain 0 ys k' /\ contents ys = contents a ++ (take (if after then S j else j) (iseg x) ++ v :: drop (if after then S j else j) (iseg x)) ++ contents b) as Hfin.
  { intros m (ys & k' & bm' & Hm & Hchy & Hco). exists ys, k', bm'. by rewrite (bind_done _ _ _ _ _ Hm). }
  apply Hfin. clear Hfin. pose proof (into_half after j e Ho Hj) as Hhalf. rewrite Ho in Hhalf.
  destruct r, after; cbn [negb andb orb] in *; [by eapply here_after; eauto|by eapply here_before; eauto|done|].
  destruct (Z.eqb_spec (Z.of_nat j) 0) as [H0|_]; cbn [andb] in *; [|done]. assert (j = O) as -> by lia.
  destruct (last_or None a) as [u'|] eqn:Hla; [|by rewrite bool_decide_eq_false_2 by (by intros [? ?])]. rewrite bool_decide_eq_true_2 in Hprev |- * by done.
  cbn [andb] in *. rewrite !andb_true_r. destruct fp; cbn [negb] in *; [apply into_new|].
  destruct (Hprev eq_refl) as (a' & u & Ha & Hl). rewrite Ha, last_or_snoc in Hla. injection Hla as <-. rewrite bind_lift. by eapply into_prev.
Qed.

End branches.
Lemma into_contents a x b i v : (i <= length (iseg x))%nat ->
  contents a ++ (take i (iseg x) ++ v :: drop i (iseg x)) ++ contents b =
  take (length (contents a) + i) (contents (a ++ x :: b)) ++ v :: drop (length (contents a) + i) (contents (a ++ x :: b)).
Proof.
  clear. intros Hi. rewrite contents_app, contents_cons, take_app_add, drop_app_add, take_app_le, drop_app_le by lia. by rewrite <- !app_assoc.
Qed.

Lemma insert_entry_spec (after : bool) xs k bm a x b j z s e v : chain 0 xs k -> room (v :: contents xs) -> Forall is_byte v ->
  entry_at xs a x b j z s e -> eoffset e = Z.of_nat j ->
  exists ys k' bm', _quicklistInsert junk htab e v after (quick fl 0 xs k bm) = Done (quick fl 0 ys k' bm', tt) /\ chain 0 ys k' /\
    let i := (length (contents a) + if after then S j else j)%nat in contents ys = take i (contents xs) ++ v :: drop i (contents xs).
Proof.
  intros Hch Hr Hv [-> Hz Hen (p & Hez & Hp) Hs _] Ho. pose proof (lookup_lt_Some _ _ _ Hs) as Hj.
  pose proof (weight_length (v :: contents (a ++ x :: b))) as Hw. unfold room in Hr. cbn [length] in Hw.
  destruct (insert_node a b x k (zlen (contents (a ++ x :: b))) bm v Hch Hr Hv) with (after := after) (j := j) (z := z) (p := p) (e := e) as (ys & k' & bm' & Hi & Hch' & Hco);
    [lia|done..|]. cbv zeta in Hco. rewrite into_contents in Hco by (destruct after; lia). exists ys, k', bm'. split_and!; [|done|done].
  etrans; [exact Hi|]. unfold quick. rewrite uwrap_small by (unfold in_u; lia). do 4 f_equal. rewrite Hco.
  rewrite (length_app (take _ _)). cbn [length]. rewrite length_take, length_drop. lia.
Qed.

End insert.
End QuicklistInsert.
