(* ===== verification/QuicklistRange.v ===== *)
(** Ranges of a quicklist with depth 0: deletion of a range at either end, and
    iterators. *)

From stdpp Require Import gmap.
From S2P Require Import Prelude UtilNum Ziplist ZiplistRun ZiplistPos Lzf Effects Quicklist QuicklistHeap QuicklistFacts QuicklistOps QuicklistEdit QuicklistInner QuicklistInsert.

#[local] Open Scope Z_scope.

Module QuicklistRange.
Import UtilNum Ziplist ZiplistRun ZiplistPos Quicklist QuicklistHeap QuicklistFacts QuicklistOps QuicklistEdit QuicklistInner QuicklistInsert.
#[local] Notation zlen l := (Z.of_nat (length l)) (only parsing).

Lemma chain_without a x b k : chain 0 (a ++ x :: b) k -> chain 0 (a ++ b) k.
Proof.
  intros Hch. eapply chain_drop; [exact Hch|..].
  - apply recode_refl. pose proof (ch_ok _ _ _ Hch) as Hok. rewrite Forall_app, Forall_cons in *. naive_solver.
  - pose proof (chain_raw _ _ Hch) as Hr. assert (Forall raw (a ++ b)) by (rewrite Forall_app, Forall_cons in *; naive_solver).
    split; [by apply raw_all..|done].
Qed.

(** What is left of a node. *)
Definition rest_of (x : item) (z : list Z) (seg : list (list Z)) : list item := match seg with [] => [] | _ => [shrunk x z seg] end.

Lemma contents_rest x z seg : contents (rest_of x z seg) = seg.
Proof. destruct seg; [done|]. cbn. by rewrite app_nil_r. Qed.

Section range.
Context (junk : nat -> Z) (htab : Z -> Z) (fl : Z).

(** ** Deleting entries of a node *)

Definition cut (p : nat) (offset del : Z) : M unit :=
  _ ← quicklistDecompressNodeForUse junk (Some p);
  b ← block p;
  b ← lift (ziplistDeleteRange junk b offset (u32 del));
  _ ← modify p (fun n => set_zl n (Some b));
  _ ← quicklistNodeUpdateSz p;
  _ ← modify p (fun n => set_ncount n (ncount n - del));
  _ ← modify_ql (fun q => set_count q (count q - del));
  r ← quicklistDeleteIfEmpty junk htab p;
  match r with Some p => quicklistRecompressOnly junk htab p | None => mret tt end.

Lemma cut_spec a x b k bm off i del : chain 0 (a ++ x :: b) k -> room (contents (a ++ x :: b)) -> entry_index (iseg x) off = Some i ->
  0 < del -> Z.of_nat i + del <= zlen (iseg x) -> - 2 ^ 31 < off ->
  let seg := take i (iseg x) ++ drop (i + Z.to_nat del) (iseg x) in
  exists z bm', cut (iid x) off del (quick fl 0 (a ++ x :: b) k bm) = Done (quick fl 0 (a ++ rest_of x z seg ++ b) k bm', tt) /\
    chain 0 (a ++ rest_of x z seg ++ b) k.
Proof.
  intros Hch Hr Hi Hd0 Hd Hoff seg. destruct (chain_mid _ _ _ _ Hch) as (Hx & Hcx & Hraw & z0 & Hz & Hp & _). pose proof Hx as [_ Hsh Hb Hf _].
  assert (room (iseg x)) as Hrx by (eapply room_le; [exact Hr|apply weight_in]). unfold counted in Hcx.
  pose proof (flat_lookup fl a x b k (zlen (contents (a ++ x :: b))) bm Hch) as Hlk. unfold cut, quick. fold (flat fl (a ++ x :: b) k (zlen (contents (a ++ x :: b))) bm).
  rewrite (bind_done _ _ _ _ _ (use_raw junk _ _ _ Hlk Hraw)), (bind_done _ _ _ _ _ (put_block _ _ _ z0 Hlk Hz)).
  destruct (packs_delete_range junk z0 (iseg x) off (u32 del) i Hp Hoff Hrx) as (z & Hdel & Hpz); [apply uwrap_range; lia|done|].
  rewrite uwrap_small in Hdel, Hpz by (unfold in_u; lia). fold seg in Hpz. rewrite uwrap_small by (unfold in_u; lia). rewrite Hdel, bind_lift.
  rewrite (bind_done _ _ _ _ _ (put_modify _ (fun n => set_zl n (Some z)) _ _ Hlk)).
  erewrite bind_done by (by eapply (update_sz _ _ _ z); [apply put_lookup| |]). rewrite put_put.
  erewrite bind_done by (eapply put_modify; apply put_lookup). rewrite put_put.
  assert (zlen seg = zlen (iseg x) - del) as Hseg by (unfold seg; rewrite length_app, length_take, length_drop; lia).
  unfold flat. rewrite (put_shrunk _ a x b ∅ k _ bm z seg); [|by apply chain_apart in Hch|].
  2: { unfold link, set_sz, set_ncount, set_zl. cbn. f_equal. by rewrite Hcx, Hseg. }
  rewrite bind_modify_row. cbn [count qlist]. set (y := shrunk x z seg). set (cnt := zlen (contents (a ++ x :: b))).
  assert (cnt - del = zlen (contents (a ++ rest_of x z seg ++ b))) as Hcnt.
  { unfold cnt. rewrite !contents_app, contents_rest, contents_cons, !length_app. lia. }
  pose proof (weight_length (contents (a ++ x :: b))) as Hw. fold cnt in Hw. unfold room in Hr.
  fold (qlist (a ++ y :: b) cnt (zlen (a ++ y :: b)) fl 0 bm). rewrite set_count_qlist by lia. fold (flat fl (a ++ y :: b) k (cnt - del) bm).
  exists z. 
  assert (apart (ids (a ++ y :: b)) ∅) as Hap by (apply (apart_put a x y); [done|by apply chain_apart in Hch]).
  pose proof (row_lookup _ ∅ k (qlist (a ++ y :: b) (cnt - del) (zlen (a ++ y :: b)) fl 0 bm) Hap a y b eq_refl : nodes (flat fl (a ++ y :: b) k (cnt - del) bm) !! iid x = _) as Hly.
  unfold quicklistDeleteIfEmpty. rewrite bind_assoc, (bind_done _ _ _ _ _ (put_load _ _ _ Hly)). cbn [link ncount inode y shrunk set_sz set_ncount].
  rewrite uwrap_small by (unfold in_u; lia). destruct (Z.eqb_spec (zlen seg) 0) as [H0|H0].
  - assert (seg = []) as Hnil by (destruct seg; [done|cbn in H0; lia]).
    destruct (drop_flat junk htab fl a y b k (cnt - del) bm Hap) as (bm' & Hdn).
    { apply chain_without in Hch. apply Hch. } { pose proof (room_length _ (ch_ok _ _ _ Hch) Hr). rewrite length_app in *. cbn [length] in *. lia. }
    { cbn. rewrite H0. change (u16 0) with 0. lia. }
    rewrite bind_assoc, (bind_done _ _ _ _ _ Hdn), bind_ret. exists bm'. rewrite Hcnt, Hnil. cbn [rest_of app]. split; [|by apply chain_without in Hch].
    unfold mret, st_ret, quick, flat. do 4 f_equal. cbn. rewrite Hnil. change (u16 _) with 0. lia.
  - rewrite bind_ret. erewrite recompress_raw by done. exists bm. rewrite Hcnt.
    assert (rest_of x z seg = [y]) as -> by (unfold y; by destruct seg). split; [done|]. apply shrunk_chain; [done..|by destruct seg|lia|by apply bytes_sub].
Qed.

(** When fewer entries than asked for follow, the count drops by what was
    asked for. *)
Definition overcut (x : item) (z : list Z) (j : nat) (del : Z) : item :=
  mkItem (iid x) (set_sz (set_ncount (set_zl (inode x) (Some z)) (zlen (iseg x) - del)) (zlen z)) (take j (iseg x)).

Lemma cut_over a x b k bm j del : chain 0 (a ++ x :: b) k -> room (contents (a ++ x :: b)) -> (0 < j < length (iseg x))%nat ->
  zlen (iseg x) - Z.of_nat j < del < zlen (iseg x) ->
  exists z, cut (iid x) (Z.of_nat j) del (quick fl 0 (a ++ x :: b) k bm) =
      Done (flat fl (a ++ overcut x z j del :: b) k (zlen (contents (a ++ x :: b)) - del) bm, tt) /\
    item_ok (overcut x z j del).
Proof.
  intros Hch Hr Hj Hd. destruct (chain_mid _ _ _ _ Hch) as (Hx & Hcx & Hraw & z0 & Hz & Hp & _). pose proof Hx as [_ Hsh Hb Hf _].
  assert (room (iseg x)) as Hrx by (eapply room_le; [exact Hr|apply weight_in]). unfold counted in Hcx.
  set (cnt := zlen (contents (a ++ x :: b))). pose proof (flat_lookup fl a x b k cnt bm Hch) as Hlk.
  unfold cut, quick. fold (flat fl (a ++ x :: b) k cnt bm).
  rewrite (bind_done _ _ _ _ _ (use_raw junk _ _ _ Hlk Hraw)), (bind_done _ _ _ _ _ (put_block _ _ _ z0 Hlk Hz)).
  destruct (packs_delete_range junk z0 (iseg x) (Z.of_nat j) (u32 del) j Hp) as (z & Hdel & Hpz); [lia|done|apply uwrap_range; lia| |].
  { unfold entry_index. rewrite (proj2 (Z.leb_le 0 _)), (proj2 (Z.ltb_lt _ _)) by lia. f_equal. lia. }
  rewrite uwrap_small in Hdel, Hpz by (unfold in_u; lia). rewrite (drop_ge (iseg x)), app_nil_r in Hpz by lia.
  rewrite uwrap_small by (unfold in_u; lia). rewrite Hdel, bind_lift.
  rewrite (bind_done _ _ _ _ _ (put_modify _ (fun n => set_zl n (Some z)) _ _ Hlk)).
  erewrite bind_done by (by eapply (update_sz _ _ _ z); [apply put_lookup| |]). rewrite put_put.
  erewrite bind_done by (eapply put_modify; apply put_lookup). rewrite put_put. exists z. set (y := overcut x z j del).
  match goal with |- context [put_node (iid x) ?n _] => assert (n = link (last_or None a) (first_or b None) (inode y)) as -> end.
  { unfold link, set_sz, set_ncount, set_zl. cbn. f_equal. by rewrite Hcx. }
  unfold flat at 1. rewrite (put_row a x b ∅ k _ _ (take j (iseg x))) by (by apply chain_apart in Hch). change (mkItem (iid x) (inode y) _) with y.
  rewrite bind_modify_row, (qlist_ids (a ++ y :: b)) by (by rewrite !fmap_app). cbn [count qlist].
  pose proof (weight_length (contents (a ++ x :: b))) as Hw. fold cnt in Hw. unfold room in Hr.
  assert (zlen (iseg x) <= cnt) as Hle by (unfold cnt; rewrite contents_app, contents_cons, !length_app; lia).
  fold (qlist (a ++ y :: b) cnt (zlen (a ++ x :: b)) fl 0 bm). rewrite set_count_qlist by lia.
  replace (zlen (a ++ x :: b)) with (zlen (a ++ y :: b)) by (by rewrite !length_app).
  fold (flat fl (a ++ y :: b) k (cnt - del) bm).
  assert (apart (ids (a ++ y :: b)) ∅) as Hap by (apply (apart_put a x y); [done|by apply chain_apart in Hch]).
  pose proof (row_lookup _ ∅ k (qlist (a ++ y :: b) (cnt - del) (zlen (a ++ y :: b)) fl 0 bm) Hap a y b eq_refl : nodes (flat fl (a ++ y :: b) k (cnt - del) bm) !! iid x = _) as Hly.
  unfold quicklistDeleteIfEmpty. rewrite bind_assoc, (bind_done _ _ _ _ _ (put_load _ _ _ Hly)). cbn [link ncount inode y overcut set_sz set_ncount].
  rewrite uwrap_small by (unfold in_u; lia). rewrite (proj2 (Z.eqb_neq _ 0)), bind_ret by lia.
  erewrite recompress_raw by done. split; [done|]. split; cbn [inode iseg y overcut]; [|rewrite length_take; lia|by apply Forall_take|done|].
  - intros Hnil%(f_equal length). rewrite length_take in Hnil. cbn in Hnil. lia.
  - exists z. split; [done|]. split; [done|by left].
Qed.

(** ** Deleting a range *)

Lemma quick_drop a x b k bm : chain 0 (a ++ x :: b) k -> room (contents (a ++ x :: b)) ->
  exists bm', __quicklistDelNode junk htab (iid x) (quick fl 0 (a ++ x :: b) k bm) = Done (quick fl 0 (a ++ b) k bm', tt) /\
    chain 0 (a ++ b) k /\ room (contents (a ++ b)).
Proof.
  intros Hch Hr. destruct (chain_mid _ _ _ _ Hch) as (_ & Hcx & _). unfold counted in Hcx. pose proof (chain_without _ _ _ _ Hch) as Hch'.
  assert (zlen (contents (a ++ x :: b)) - ncount (inode x) = zlen (contents (a ++ b))) as Hcnt.
  { rewrite Hcx, !contents_app, contents_cons, !length_app. lia. }
  pose proof (weight_length (contents (a ++ x :: b))). pose proof (room_length _ (ch_ok _ _ _ Hch) Hr). unfold room in *.
  destruct (drop_flat junk htab fl a x b k (zlen (contents (a ++ x :: b))) bm) as (bm' & Hd);
    [by apply chain_apart in Hch|apply Hch'|lia|lia|]. exists bm'. rewrite Hcnt in Hd. split_and!; [done|done|].
  rewrite contents_app in *. rewrite contents_cons in *. rewrite !weight_app in *. pose proof (weight_nonneg (iseg x)). lia.
Qed.

(** From the beginning of a node. *)
Lemma delrange_rest : forall b a fuel e k bm, chain 0 (a ++ b) k -> room (contents (a ++ b)) -> (length b < fuel)%nat -> 0 <= e <= zlen (contents b) ->
  exists ys bm', delrange_loop junk htab fuel (first_or b None) e 0 (quick fl 0 (a ++ b) k bm) = Done (quick fl 0 ys k bm', tt) /\
    chain 0 ys k /\ contents ys = contents a ++ drop (Z.to_nat e) (contents b).
Proof.
  induction b as [|x b IH]; intros a fuel e k bm Hch Hr Hf He; (destruct fuel as [|fuel]; [cbn in Hf; lia|]); cbn [delrange_loop first_or].
  { change (zlen (contents [])) with 0 in He. rewrite (proj2 (Z.eqb_eq e 0)) by lia. exists (a ++ []), bm. split_and!; [done|done|].
    rewrite contents_app. change (contents []) with (@nil (list Z)). by rewrite drop_nil. }
  destruct (Z.eqb_spec e 0) as [->|H0]; [exists (a ++ x :: b), bm; by rewrite contents_app|]. rewrite bind_lift.
  destruct (chain_mid _ _ _ _ Hch) as ([Hne Hsh _ _ _] & Hcx & _). unfold counted in Hcx. cbn [length] in Hf. rewrite contents_cons, length_app in He.
  rewrite (bind_done _ _ _ _ _ (put_load _ _ _ (flat_lookup fl a x b k _ bm Hch : nodes (quick fl 0 (a ++ x :: b) k bm) !! _ = _))). cbn [link ncount next].
  rewrite Hcx, Z.geb_leb, contents_cons. change (0 >=? 0) with true. change (0 =? 0) with true. cbn [andb].
  pose proof (weight_length (contents (a ++ x :: b))) as Hw. rewrite contents_app, contents_cons, !length_app in Hw. pose proof Hr as Hr'. unfold room in Hr'. rewrite contents_app, contents_cons in Hr'.
  destruct (Z.leb_spec (zlen (iseg x)) e) as [Hle|Hlt].
  - destruct (quick_drop a x b k bm Hch Hr) as (bm' & Hd & Hch' & Hrm). rewrite (bind_done _ _ _ _ _ Hd), uwrap_small by (unfold in_u; lia).
    destruct (IH a fuel (e - zlen (iseg x)) k bm' Hch' Hrm) as (ys & bm2 & Hl & Hchy & Hco); [lia|lia|]. exists ys, bm2. split_and!; [done|done|].
    rewrite Hco, drop_app_ge by lia. do 2 f_equal. lia.
  - change (0 <? 0) with false. cbv iota. destruct (cut_spec a x b k bm 0 0 e Hch Hr) as (z & bm' & Hd & Hch'); [|lia|lia|lia|].
    { unfold entry_index. by rewrite (proj2 (Z.ltb_lt _ _)) by lia. }
    rewrite (bind_done _ _ _ _ _ (Hd : _ = _)), Z.sub_diag. change (u64 0) with 0. destruct fuel as [|fuel]; [lia|]. cbn [delrange_loop Z.eqb].
    eexists _, bm'. split_and!; [done|done|]. rewrite !contents_app, contents_rest, drop_app_le by lia. done.
Qed.

(** From an entry counted from the end of its node. *)
Lemma delrange_back a x b j e k bm : chain 0 (a ++ x :: b) k -> room (contents (a ++ x :: b)) -> (j < length (iseg x))%nat ->
  0 < e <= zlen (iseg x) - Z.of_nat j + zlen (contents b) ->
  exists ys bm', delrange_loop junk htab (S (length (a ++ x :: b))) (Some (iid x)) e (Z.of_nat j - zlen (iseg x)) (quick fl 0 (a ++ x :: b) k bm) =
      Done (quick fl 0 ys k bm', tt) /\
    chain 0 ys k /\ contents ys = contents a ++ take j (iseg x) ++ drop (Z.to_nat e) (drop j (iseg x) ++ contents b).
Proof.
  intros Hch Hr Hj He. cbn [delrange_loop]. rewrite (proj2 (Z.eqb_neq _ _)), bind_lift by lia.
  destruct (chain_mid _ _ _ _ Hch) as ([Hne Hsh _ _ _] & Hcx & _). unfold counted in Hcx.
  rewrite (bind_done _ _ _ _ _ (put_load _ _ _ (flat_lookup fl a x b k _ bm Hch : nodes (quick fl 0 (a ++ x :: b) k bm) !! _ = _))). cbn [link ncount next].
  set (off := Z.of_nat j - zlen (iseg x)). rewrite !Z.geb_leb, (proj2 (Z.eqb_neq off 0)), (proj2 (Z.leb_gt 0 off)), (proj2 (Z.ltb_lt off 0)) by lia. cbn [andb].
  rewrite Z.gtb_ltb. set (del := if e <? - off then e else - off). assert (0 < del <= zlen (iseg x) - Z.of_nat j /\ del <= e) as Hdel by (unfold del; destruct (Z.ltb_spec e (- off)); lia).
  destruct (cut_spec a x b k bm off j del Hch Hr) as (z & bm' & Hd & Hch'); [|lia|lia|lia|].
  { unfold entry_index. rewrite (proj2 (Z.leb_gt _ _)), (proj2 (Z.leb_le _ _)) by lia. f_equal. lia. }
  set (seg := take j (iseg x) ++ _) in *. rewrite (bind_done _ _ _ _ _ (Hd : _ = _)).
  pose proof (weight_length (contents (a ++ x :: b))) as Hw. pose proof Hr as Hr'. unfold room in Hr'. rewrite contents_app, contents_cons, !length_app in Hw.
  rewrite contents_app, contents_cons in Hr'. rewrite uwrap_small by (unfold in_u; lia). rewrite (assoc_L (++)) in Hch'. rewrite (assoc_L (++) a).
  assert (contents ((a ++ rest_of x z seg) ++ b) = contents a ++ seg ++ contents b) as Hco by (by rewrite !contents_app, contents_rest, <- app_assoc).
  destruct (delrange_rest b (a ++ rest_of x z seg) (length (a ++ x :: b)) (e - del) k bm' Hch') as (ys & bm2 & Hl & Hchy & Hcoy).
  { rewrite Hco. eapply room_le; [exact Hr|]. rewrite contents_app, contents_cons, !weight_app. pose proof (weight_sub (iseg x) j (Z.to_nat del)). fold seg in H. lia. }
  { rewrite length_app. cbn [length]. lia. }
  { unfold del. destruct (Z.ltb_spec e (- off)); lia. }
  exists ys, bm2. split_and!; [done|done|]. rewrite Hcoy, contents_app, contents_rest, <- app_assoc. f_equal. unfold seg. rewrite <- app_assoc. f_equal.
  unfold del. destruct (Z.ltb_spec e (- off)) as [Hlt|Hge].
  - rewrite Z.sub_diag. cbn [Z.to_nat drop]. rewrite drop_app_le by (rewrite length_drop; lia). by rewrite drop_drop.
  - rewrite drop_ge by lia. cbn [app]. rewrite drop_app_ge, length_drop by (rewrite length_drop; lia). f_equal. lia.
Qed.

(** From inside a node past its end, by less than the node holds. *)
Lemma delrange_over a x b k bm j e : chain 0 (a ++ x :: b) k -> room (contents (a ++ x :: b)) -> (0 < j < length (iseg x))%nat ->
  zlen (iseg x) - Z.of_nat j < e < zlen (iseg x) ->
  exists z, delrange_loop junk htab (S (length (a ++ x :: b))) (Some (iid x)) e (Z.of_nat j) (quick fl 0 (a ++ x :: b) k bm) =
      Done (flat fl (a ++ overcut x z j e :: b) k (zlen (contents (a ++ x :: b)) - e) bm, tt) /\
    item_ok (overcut x z j e).
Proof.
  intros Hch Hr Hj He. cbn [delrange_loop]. rewrite (proj2 (Z.eqb_neq _ _)), bind_lift by lia.
  destruct (chain_mid _ _ _ _ Hch) as (_ & Hcx & _). unfold counted in Hcx.
  rewrite (bind_done _ _ _ _ _ (put_load _ _ _ (flat_lookup fl a x b k _ bm Hch : nodes (quick fl 0 (a ++ x :: b) k bm) !! _ = _))). cbn [link ncount next].
  rewrite Hcx, !Z.geb_leb, (proj2 (Z.leb_gt (zlen (iseg x)) e)), !andb_false_r, (proj2 (Z.ltb_ge _ 0)) by lia. cbv iota.
  destruct (cut_over a x b k bm j e Hch Hr Hj He) as (z & Hc & Hok). exists z. split; [|done].
  rewrite (bind_done _ _ _ _ _ (Hc : _ = _)), Z.sub_diag. change (u64 0) with 0. rewrite length_app. cbn [length]. by rewrite Nat.add_succ_r.
Qed.

Lemma delrange_spec xs k bm start cnt : chain 0 xs k -> room (contents xs) -> - 2 ^ 63 < start <= 0 ->
  exists ys bm' r, quicklistDelRange junk htab start cnt (quick fl 0 xs k bm) = Done (quick fl 0 ys k bm', r) /\ chain 0 ys k /\
    match (if 0 <? cnt then entry_index (contents xs) start else None) with
    | Some i => r = true /\ contents ys = take i (contents xs) ++ drop (i + Z.to_nat cnt) (contents xs)
    | None => r = false /\ contents ys = contents xs
    end.
Proof.
  intros Hch Hr Hs. unfold quicklistDelRange. rewrite Z.leb_antisym. destruct (Z.ltb_spec 0 cnt) as [Hc|Hc]; cbn [negb]; [|by exists xs, bm, false].
  set (st := quick fl 0 xs k bm). rewrite (bind_done _ _ _ _ _ (this_row _ _ _ _ : this st = _)). cbv zeta. change (count _) with (zlen (contents xs)).
  pose proof (weight_length (contents xs)) as Hw. pose proof Hr as Hr'. unfold room in Hr'.
  destruct (index_at_spec junk fl xs k bm start Hch Hr) as (r & e & Hi & Hin); [lia|]. fold st in Hi. rewrite (bind_done _ _ _ _ _ Hi). cbv beta iota. unfold indexed in Hin.
  destruct (entry_index (contents xs) start) as [i|] eqn:Hei; [|destruct Hin as [-> _]; by exists xs, bm, false].
  destruct Hin as [-> (a & x & b & j & z & s & [Hxs Hz Hen _ Hlk _] & Hij & Ho)]. rewrite bind_get, Hen, Ho. pose proof (lookup_lt_Some _ _ _ Hlk) as Hj.
  assert (size (nodes st) = length xs) as -> by (apply size_row; apply Hch). rewrite Z.geb_leb, !Z.gtb_ltb. destruct (Z.leb_spec 0 start) as [H0|H0].
  - assert (start = 0) as -> by lia. change (0 <? 0) with false. rewrite Z.sub_0_r, uwrap_small by (unfold in_u; lia). cbn [andb].
    unfold entry_index in Hei. change (0 <=? 0) with true in Hei. destruct (Z.ltb_spec 0 (zlen (contents xs))) as [Hpos|?]; [|done]. injection Hei as Hi0.
    assert (a = []) as Ha. { apply contents_nil; [|apply nil_length_inv; lia]. pose proof (ch_ok _ _ _ Hch) as Hok. rewrite Hxs in Hok. by apply Forall_app in Hok as [? _]. }
    assert (j = O) as -> by lia. change (Z.of_nat 0) with 0. set (e' := if zlen (contents xs) <? cnt then zlen (contents xs) else cnt).
    destruct (delrange_rest xs [] (S (length xs)) e' k bm) as (ys & bm' & Hl & Hchy & Hco); [done|done|lia|unfold e'; destruct (Z.ltb_spec (zlen (contents xs)) cnt); lia|].
    replace (first_or xs None) with (Some (iid x)) in Hl by (by rewrite Hxs, Ha). rewrite (bind_done _ _ _ _ _ Hl).
    exists ys, bm', true. split_and!; [done|done|done|]. rewrite Hco. assert (i = O) as -> by lia. cbn [app take Nat.add]. change (contents []) with (@nil (list Z)). cbn [app].
    unfold e'. destruct (Z.ltb_spec (zlen (contents xs)) cnt); [|done]. by rewrite !drop_ge by lia.
  - rewrite (proj2 (Z.ltb_lt start 0)) by lia. cbn [andb]. set (e' := if - start <? cnt then - start else cnt).
    unfold entry_index in Hei. rewrite (proj2 (Z.leb_gt 0 start)) in Hei by lia. destruct (Z.leb_spec (- start) (zlen (contents xs))) as [Hle|?]; [|done]. injection Hei as Hi0.
    assert (zlen (contents xs) = zlen (contents a) + zlen (iseg x) + zlen (contents b)) as Hlen by (rewrite Hxs, contents_app, contents_cons, !length_app; lia).
    rewrite Hxs in Hch, Hr. destruct (delrange_back a x b j e' k bm Hch Hr Hj) as (ys & bm' & Hl & Hchy & Hco); [unfold e'; destruct (Z.ltb_spec (- start) cnt); lia|].
    rewrite <- Hxs in Hl. fold st in Hl. rewrite (bind_done _ _ _ _ _ Hl). exists ys, bm', true. split_and!; [done|done|done|]. rewrite Hco.
    assert (contents xs = (contents a ++ take j (iseg x)) ++ drop j (iseg x) ++ contents b) as ->.
    { rewrite Hxs, contents_app, contents_cons. rewrite <- (take_drop j (iseg x)) at 1. by rewrite <- !app_assoc. }
    assert (i = length (contents a ++ take j (iseg x))) as -> by (rewrite length_app, length_take; lia).
    rewrite take_app_length, drop_app_add, <- app_assoc. f_equal. f_equal. unfold e'. destruct (Z.ltb_spec (- start) cnt); [|done].
    by rewrite !drop_ge by (rewrite length_app, length_drop; lia).
Qed.

End range.
End QuicklistRange.
