(* ===== verification/QuicklistIter.v ===== *)
(** Iterators over a quicklist with depth 0: the entries come in order, in
    either direction, also when the entry just delivered is deleted. *)

From stdpp Require Import gmap.
From S2P Require Import Prelude UtilNum Ziplist ZiplistRun ZiplistPos Lzf Effects Quicklist QuicklistHeap QuicklistFacts QuicklistOps QuicklistEdit QuicklistInner.

#[local] Open Scope Z_scope.

Module QuicklistIter.
Import UtilNum Ziplist ZiplistRun ZiplistPos Quicklist QuicklistHeap QuicklistFacts QuicklistOps QuicklistEdit QuicklistInner.
#[local] Notation zlen l := (Z.of_nat (length l)) (only parsing).

(** The directions. *)
Abbreviation dir hd := (if hd : bool then AL_START_HEAD else AL_START_TAIL) (only parsing).

(** The entry to come, with [n] entries before the cursor. *)
Definition target {A} (hd : bool) (n : nat) (l : list A) : option (nat * A) :=
  if hd then (fun s => (n, s)) <$> l !! n else match n with O => None | S m => (fun s => (m, s)) <$> l !! m end.

(** An iterator that delivers entry [j] (or the one before it) next. *)
Definition fresh_iter (hd : bool) (x : item) (j : nat) : quicklistIter :=
  mkIter (Some (iid x)) None (if hd then Z.of_nat j else Z.of_nat j - 1 - zlen (iseg x)) (dir hd).

(** An iterator that delivered the entry [i] of [x], which is at [p]. *)
Definition spent_iter (hd : bool) (x : item) (i : nat) (p : Z) : quicklistIter :=
  mkIter (Some (iid x)) (Some p) (if hd then Z.of_nat i else Z.of_nat i - zlen (iseg x)) (dir hd).

Definition done_iter (it : quicklistIter) : Prop := current it = None.

(** The entry [g] of the list, just delivered. *)
Definition hit (hd : bool) (xs : list item) (g : nat) (s : list Z) (it : quicklistIter) (e : quicklistEntry) : Prop :=
  exists a x b i z p, entry_at xs a x b i z s e /\ g = (length (contents a) + i)%nat /\ ezi e = Some p /\ pos z (iseg x) i p /\ it = spent_iter hd x i p /\
    eoffset e = if hd then Z.of_nat i else Z.of_nat i - zlen (iseg x).

(** What a step delivers. *)
Definition gives (hd : bool) (xs : list item) (n : nat) (r : bool * quicklistIter * quicklistEntry) : Prop :=
  let '(ok, it, e) := r in
  match target hd n (contents xs) with
  | Some (g, s) => ok = true /\ hit hd xs g s it e
  | None => ok = false /\ done_iter it
  end.

(** [n] entries lie before the cursor. *)
Definition at_cursor (hd : bool) (xs : list item) (n : nat) (it : quicklistIter) : Prop :=
  (n <= length (contents xs))%nat /\
  (it = mkIter None None (ioffset it) (dir hd) /\ target hd n (contents xs) = None \/
   exists a x b, xs = a ++ x :: b /\
     ((exists j, it = fresh_iter hd x j /\ (j <= length (iseg x))%nat /\ n = (length (contents a) + j)%nat) \/
      (exists z i p, it = spent_iter hd x i p /\ zl (inode x) = Some z /\ pos z (iseg x) i p /\ (i < length (iseg x))%nat /\
         n = (length (contents a) + if hd then S i else i)%nat))).

Lemma hit_cursor (hd : bool) xs g s it e : hit hd xs g s it e -> at_cursor hd xs (if hd then S g else g) it.
Proof.
  intros (a & x & b & i & z & p & [-> Hz _ _ Hs _] & -> & _ & Hp & -> & _). pose proof (lookup_lt_Some _ _ _ Hs) as Hi. split.
  - rewrite contents_app, contents_cons, !length_app. destruct hd; lia.
  - right. exists a, x, b. split; [done|]. right. exists z, i, p. split_and!; [done|done|done|done|]. destruct hd; lia.
Qed.

Section iter.
Context (junk : nat -> Z) (htab : Z -> Z) (fl : Z).

(** ** One step *)

(** The entry under the cursor of the node. *)
Lemma target_here (hd : bool) a x b j i s : (if hd then j = i else j = S i) -> iseg x !! i = Some s ->
  target hd (length (contents a) + j) (contents (a ++ x :: b)) = Some ((length (contents a) + i)%nat, s).
Proof.
  clear. intros Hj Hs. assert (contents (a ++ x :: b) !! (length (contents a) + i)%nat = Some s) as Hl.
  { rewrite contents_app, contents_cons, lookup_app_r by lia. replace (length (contents a) + i - length (contents a))%nat with i by lia.
    by rewrite lookup_app_l by (by eapply lookup_lt_Some). }
  unfold target. destruct hd; subst j; [by rewrite Hl|]. rewrite <- plus_n_Sm. cbn. by rewrite Hl.
Qed.

(** Delivering an entry. *)
Definition deliver (it : quicklistIter) (p : nat) (at_ : Z) : M (bool * quicklistIter * quicklistEntry) :=
  b ← block p;
  e ← lift (fill_entry (mkEntry (Some p) (Some at_) None (longval initEntry) (esz initEntry) (s32 (ioffset it))) b);
  mret (true, it, e).

Lemma deliver_spec (hd : bool) a x b k bm i p z s j : chain 0 (a ++ x :: b) k -> zl (inode x) = Some z -> pos z (iseg x) i p -> iseg x !! i = Some s ->
  (if hd then j = i else j = S i) ->
  exists r, deliver (spent_iter hd x i p) (iid x) p (quick fl 0 (a ++ x :: b) k bm) = Done (quick fl 0 (a ++ x :: b) k bm, r) /\
    gives hd (a ++ x :: b) (length (contents a) + j) r.
Proof.
  clear junk htab. intros Hch Hz Hp Hs Hj. pose proof (lookup_lt_Some _ _ _ Hs) as Hi. destruct (chain_mid _ _ _ _ Hch) as ([_ Hsh _ _ _] & _).
  unfold deliver. rewrite (bind_done _ _ _ _ _ (put_block _ _ _ z (flat_lookup fl a x b k _ bm Hch : nodes (quick fl 0 _ k bm) !! _ = _) Hz)).
  assert (s32 (ioffset (spent_iter hd x i p)) = if hd then Z.of_nat i else Z.of_nat i - zlen (iseg x)) as ->.
  { cbn. destruct hd; apply swrap_small; try lia; unfold in_s; lia. }
  destruct (fill_entry_spec z (iseg x) i p s (Some (iid x)) (longval initEntry) (esz initEntry) (if hd then Z.of_nat i else Z.of_nat i - zlen (iseg x)) Hp Hs)
    as (e & Hf & He1 & He2 & He3 & He4).
  rewrite Hf, bind_lift. eexists. split; [done|]. unfold gives. rewrite (target_here hd a x b j i s Hj Hs). split; [done|].
  exists a, x, b, i, z, p. split_and!; try done. split; [done|done|done|by exists p|done|done].
Qed.

(** Looking for the next entry of the node, with [j] entries before the cursor. *)
Definition probed (hd : bool) (x : item) (j : nat) (it : quicklistIter) : Prop :=
  (exists i p s z, it = spent_iter hd x i p /\ zl (inode x) = Some z /\ pos z (iseg x) i p /\ iseg x !! i = Some s /\ (if hd then j = i else j = S i)) \/
  (exists off, it = mkIter (Some (iid x)) None off (dir hd) /\ if hd then j = length (iseg x) else j = O).

Definition probe (iter : quicklistIter) (p : nat) : M quicklistIter :=
  match zi iter with
  | None =>
      _ ← quicklistDecompressNodeForUse junk (Some p);
      b ← block p;
      at_ ← lift (ziplistIndex b (s32 (ioffset iter)));
      mret (mkIter (current iter) at_ (ioffset iter) (direction iter))
  | Some at_ =>
      b ← block p;
      if direction iter =? AL_START_HEAD then
        at_ ← lift (ziplistNext b at_);
        mret (mkIter (current iter) at_ (ioffset iter + 1) (direction iter))
      else if direction iter =? AL_START_TAIL then
        at_ ← lift (ziplistPrev b at_);
        mret (mkIter (current iter) at_ (ioffset iter + -1) (direction iter))
      else undef
  end.

Lemma probe_fresh (hd : bool) a x b k bm j : chain 0 (a ++ x :: b) k -> (j <= length (iseg x))%nat ->
  exists it, probe (fresh_iter hd x j) (iid x) (quick fl 0 (a ++ x :: b) k bm) = Done (quick fl 0 (a ++ x :: b) k bm, it) /\ probed hd x j it.
Proof.
  clear htab. intros Hch Hj. destruct (chain_mid _ _ _ _ Hch) as ([_ Hsh _ _ _] & _ & Hraw & z & Hz & Hp & _).
  pose proof (flat_lookup fl a x b k (zlen (contents (a ++ x :: b))) bm Hch : nodes (quick fl 0 _ k bm) !! _ = _) as Hlk. unfold probe. cbn [zi fresh_iter].
  rewrite (bind_done _ _ _ _ _ (use_raw junk _ _ _ Hlk Hraw)), (bind_done _ _ _ _ _ (put_block _ _ _ z Hlk Hz)). cbn [ioffset fresh_iter current direction].
  set (off := if hd then Z.of_nat j else Z.of_nat j - 1 - zlen (iseg x)). assert (- 65537 < off <= 65535) as Hoff by (unfold off; destruct hd; lia).
  rewrite swrap_small by (unfold in_s; lia). destruct (packs_index z (iseg x) off Hp) as (r & Hi & Hr); [lia|]. rewrite Hi, bind_lift. eexists. split; [done|].
  unfold entry_index in Hr. destruct hd; subst off.
  - rewrite (proj2 (Z.leb_le _ _)) in Hr by lia. destruct (Z.ltb_spec (Z.of_nat j) (zlen (iseg x))) as [Hlt|Hge].
    + rewrite Nat2Z.id in Hr. destruct Hr as (p & -> & Hpos). destruct (lookup_lt_is_Some_2 (iseg x) j) as [s Hs]; [lia|]. left. by exists j, p, s, z.
    + right. subst r. eexists. split; [done|]. lia.
  - rewrite (proj2 (Z.leb_gt _ _)) in Hr by lia. destruct j as [|j].
    + rewrite (proj2 (Z.leb_gt _ _)) in Hr by lia. subst r. right. by eexists.
    + rewrite (proj2 (Z.leb_le _ _)) in Hr by lia. destruct Hr as (p & -> & Hpos). destruct (lookup_lt_is_Some_2 (iseg x) j) as [s Hs]; [lia|].
      replace (Z.to_nat _) with j in Hpos by lia. left. exists j, p, s, z. split_and!; try done. unfold spent_iter. f_equal. lia.
Qed.

Lemma probe_spent (hd : bool) a x b k bm i p z : chain 0 (a ++ x :: b) k -> zl (inode x) = Some z -> pos z (iseg x) i p -> (i < length (iseg x))%nat ->
  exists it, probe (spent_iter hd x i p) (iid x) (quick fl 0 (a ++ x :: b) k bm) = Done (quick fl 0 (a ++ x :: b) k bm, it) /\
    probed hd x (if hd then S i else i) it.
Proof.
  clear htab. intros Hch Hz Hp Hi. pose proof (flat_lookup fl a x b k (zlen (contents (a ++ x :: b))) bm Hch : nodes (quick fl 0 _ k bm) !! _ = _) as Hlk.
  unfold probe. cbn [zi spent_iter]. rewrite (bind_done _ _ _ _ _ (put_block _ _ _ z Hlk Hz)). destruct hd; cbn [ioffset spent_iter current direction Z.eqb Pos.eqb].
  - destruct (pos_next z (iseg x) i p Hp Hi) as (r & Hn & Hr). rewrite Hn, bind_lift. eexists. split; [done|].
    destruct (decide (S i < length (iseg x))%nat) as [Hlt|Hge].
    + destruct Hr as (p' & -> & Hp'). destruct (lookup_lt_is_Some_2 (iseg x) (S i)) as [s Hs]; [lia|]. left. exists (S i), p', s, z. split_and!; try done.
      unfold spent_iter. f_equal. lia.
    + right. subst r. eexists. split; [done|]. lia.
  - destruct (pos_prev z (iseg x) i p Hp) as (r & Hn & Hr). rewrite Hn, bind_lift. eexists. split; [done|]. destruct i as [|i].
    + right. subst r. by eexists.
    + destruct Hr as (p' & -> & Hp'). destruct (lookup_lt_is_Some_2 (iseg x) i) as [s Hs]; [lia|]. left. exists i, p', s, z. split_and!; try done.
      unfold spent_iter. f_equal. lia.
Qed.

Lemma next_unfold fuel it p s : current it = Some p ->
  next_loop junk htab (S fuel) it s =
  (iter ← probe it p;
   match zi iter with
   | Some at_ => deliver iter p at_
   | None =>
       _ ← quicklistCompress junk htab p;
       n ← load p;
       next_loop junk htab fuel
         (if direction iter =? AL_START_HEAD then mkIter (next n) None 0 (direction iter)
          else if direction iter =? AL_START_TAIL then mkIter (prev n) None (-1) (direction iter)
          else mkIter (current iter) None (ioffset iter) (direction iter))
   end) s.
Proof. destruct it as [cur z off d]. cbn [current]. intros ->. done. Qed.

Lemma next_from k bm : forall n (hd : bool) a x b j it fuel, (if hd then length b else length a) = n -> chain 0 (a ++ x :: b) k -> (S n < fuel)%nat ->
  current it = Some (iid x) -> direction it = dir hd ->
  (exists it', probe it (iid x) (quick fl 0 (a ++ x :: b) k bm) = Done (quick fl 0 (a ++ x :: b) k bm, it') /\ probed hd x j it') ->
  exists r, next_loop junk htab fuel it (quick fl 0 (a ++ x :: b) k bm) = Done (quick fl 0 (a ++ x :: b) k bm, r) /\
    gives hd (a ++ x :: b) (length (contents a) + j) r.
Proof.
  induction n as [n IH] using lt_wf_ind. intros hd a x b j it fuel Hn Hch Hf Hcur Hdir (it' & Hpr & Hprobed). destruct fuel as [|fuel]; [lia|].
  rewrite (next_unfold _ _ _ _ Hcur), (bind_done _ _ _ _ _ Hpr). destruct Hprobed as [(i & p & s & z & -> & Hz & Hp & Hs & Hj)|(off & -> & Hj)].
  { cbn [zi spent_iter]. by apply (deliver_spec hd a x b k bm i p z s j). }
  cbn [zi direction]. destruct (chain_mid _ _ _ _ Hch) as (Hx & _). pose proof Hx as [_ _ _ Hfl _].
  pose proof (flat_lookup fl a x b k (zlen (contents (a ++ x :: b))) bm Hch : nodes (quick fl 0 _ k bm) !! _ = _) as Hlk.
  rewrite (bind_done _ _ _ _ _ (compress_flat junk htab _ _ _ Hlk Hfl eq_refl)), (bind_done _ _ _ _ _ (put_load _ _ _ Hlk)). cbn [link next prev].
  destruct fuel as [|fuel]; [lia|]. destruct hd; cbn [Z.eqb Pos.eqb].
  - destruct b as [|y b].
    + cbn [first_or next_loop current]. eexists. split; [done|]. cbn [gives]. subst j. rewrite contents_app, contents_cons. cbn [target].
      by rewrite lookup_ge_None_2 by (rewrite !length_app; change (contents []) with (@nil (list Z)); cbn [length]; lia).
    + cbn [first_or]. cbn [length] in Hn. rewrite (app_mid a x (y :: b)) in *.
      destruct (IH (length b) ltac:(lia) true (a ++ [x]) y b 0%nat (fresh_iter true y 0) (S fuel)) as (r & Hl & Hg); [done|done|lia|done|done|apply probe_fresh; [done|lia]|].
      exists r. split; [exact Hl|]. replace (length (contents a) + j)%nat with (length (contents (a ++ [x])) + 0)%nat; [done|].
      rewrite contents_app, contents_cons, length_app, app_nil_r. lia.
  - subst j. destruct a as [|u a _] using rev_ind.
    + cbn [last_or last next_loop current]. by eexists.
    + rewrite last_or_snoc. rewrite length_app in Hn. cbn [length] in Hn. rewrite <- (app_mid a u (x :: b)) in *.
      destruct (IH (length a) ltac:(lia) false a u (x :: b) (length (iseg u)) (fresh_iter false u (length (iseg u))) (S fuel)) as (r & Hl & Hg);
        [done|done|lia|done|done|apply probe_fresh; [done|lia]|].
      exists r. unfold fresh_iter in Hl. replace (zlen (iseg u) - 1 - zlen (iseg u)) with (-1) in Hl by lia. split; [exact Hl|].
      replace (length (contents (a ++ [u])) + 0)%nat with (length (contents a) + length (iseg u))%nat; [done|].
      rewrite contents_app, contents_cons, length_app, app_nil_r. lia.
Qed.

(** ** The interface *)

Lemma iter_next_spec (hd : bool) xs k bm n it : chain 0 xs k -> at_cursor hd xs n it ->
  exists ok it' e, quicklistNext junk htab (Some it) (quick fl 0 xs k bm) = Done (quick fl 0 xs k bm, (ok, Some it', e)) /\ gives hd xs n (ok, it', e).
Proof.
  intros Hch (_ & Hat). unfold quicklistNext. rewrite bind_get. assert (size (nodes (quick fl 0 xs k bm)) = length xs) as -> by (apply size_row; apply Hch).
  destruct Hat as [[Hit Ht]|(a & x & b & -> & Hit)].
  - assert (current it = None) as Hc by (by rewrite Hit). cbn [next_loop]. rewrite Hc, bind_ret. exists false, it, initEntry. split; [done|]. unfold gives. rewrite Ht. done.
  - assert (exists j, n = (length (contents a) + j)%nat /\ current it = Some (iid x) /\ direction it = dir hd /\
      exists it', probe it (iid x) (quick fl 0 (a ++ x :: b) k bm) = Done (quick fl 0 (a ++ x :: b) k bm, it') /\ probed hd x j it') as (j & -> & Hc & Hd & Hpr).
    { destruct Hit as [(j & -> & Hj & ->)|(z & i & p & -> & Hz & Hp & Hi & ->)].
      - exists j. split_and!; [done..|]. by apply probe_fresh.
      - eexists. split; [done|]. split_and!; [done..|]. by eapply probe_spent. }
    destruct (next_from k bm _ hd a x b j it (S (length (a ++ x :: b))) eq_refl Hch) as ([[ok it'] e] & Hl & Hg);
      [rewrite length_app; cbn [length]; destruct hd; lia|done..|]. rewrite (bind_done _ _ _ _ _ Hl). by exists ok, it', e.
Qed.

Lemma iterator_spec (hd : bool) xs k bm : chain 0 xs k ->
  exists it, quicklistGetIterator (dir hd) (quick fl 0 xs k bm) = Done (quick fl 0 xs k bm, it) /\ direction it = dir hd /\ at_cursor hd xs (if hd then O else length (contents xs)) it.
Proof.
  clear junk htab. intros Hch. exists (mkIter (if hd then first_or xs None else last_or None xs) None (if hd then 0 else -1) (dir hd)). unfold quicklistGetIterator. rewrite (bind_done _ _ _ _ _ (this_row _ _ _ _ : this (quick fl 0 xs k bm) = _)).
  cbn [head tail qlist]. split_and!; [by destruct hd|done|]. destruct hd.
  - split; [lia|]. destruct xs as [|x xs]; [by left|]. right. exists [], x, xs. split; [done|]. left. exists O. split_and!; [done|lia|done].
  - split; [lia|]. destruct xs as [|x xs _] using rev_ind; [by left|]. right. exists xs, x, []. split; [done|]. left. exists (length (iseg x)).
    rewrite last_or_snoc. split_and!; [|lia|].
    + unfold fresh_iter. f_equal. lia.
    + rewrite contents_app, contents_cons, length_app, app_nil_r. done.
Qed.

Lemma iterator_at_spec (hd : bool) xs k bm idx : chain 0 xs k -> room (contents xs) -> - 2 ^ 63 < idx -> (if hd then 0 <= idx else idx < 0) ->
  exists r, quicklistGetIteratorAtIdx junk (dir hd) idx (quick fl 0 xs k bm) = Done (quick fl 0 xs k bm, r) /\
    match entry_index (contents xs) idx with
    | Some i => exists it, r = Some it /\ at_cursor hd xs (if hd then i else S i) it
    | None => r = None
    end.
Proof.
  clear htab. intros Hch Hr H63 Hdir. unfold quicklistGetIteratorAtIdx. destruct (index_at_spec junk fl xs k bm idx Hch Hr H63) as (r & e & Hi & Hin).
  rewrite (bind_done _ _ _ _ _ Hi). unfold indexed in Hin. destruct (entry_index (contents xs) idx) as [i|]; cbv beta iota.
  2: { destruct Hin as [-> _]. by exists None. }
  destruct Hin as [-> (a & x & b & j & z & s & [Hxs Hz Hen _ Hs _] & Hij & Ho)]. pose proof (lookup_lt_Some _ _ _ Hs) as Hj.
  destruct (iterator_spec hd xs k bm Hch) as (it & Hg & Hdi & _). rewrite (bind_done _ _ _ _ _ Hg), Hdi. eexists. split; [done|]. eexists. split; [done|].
  rewrite Hen, Ho. split; [rewrite Hxs, contents_app, contents_cons, !length_app; destruct hd; lia|]. right. exists a, x, b. split; [done|]. left.
  exists (if hd then j else S j). unfold fresh_iter. destruct hd.
  - rewrite (proj2 (Z.leb_le _ _)) by lia. split_and!; [done|lia|done].
  - rewrite (proj2 (Z.leb_gt _ _)) by lia. split_and!; [f_equal; lia|lia|lia].
Qed.

Lemma release_iter_spec (hd : bool) xs k bm n it : chain 0 xs k -> at_cursor hd xs n it \/ done_iter it ->
  quicklistReleaseIterator junk htab it (quick fl 0 xs k bm) = Done (quick fl 0 xs k bm, tt).
Proof.
  intros Hch [(_ & Hat)|Hd]; unfold quicklistReleaseIterator; [|by rewrite Hd]. destruct Hat as [[-> _]|(a & x & b & -> & Hit)]; [done|].
  assert (current it = Some (iid x)) as -> by (by destruct Hit as [(j & -> & _)|(z & i & p & -> & _)]). destruct (chain_mid _ _ _ _ Hch) as (Hx & _).
  by eapply compress_flat; [by apply flat_lookup|apply Hx|].
Qed.

(** Deleting the entry just delivered. *)
Lemma del_entry_spec (hd : bool) xs k bm g s it e : chain 0 xs k -> room (contents xs) -> hit hd xs g s it e ->
  exists ys bm' it', quicklistDelEntry junk htab it e (quick fl 0 xs k bm) = Done (quick fl 0 ys k bm', it') /\ chain 0 ys k /\
    contents ys = take g (contents xs) ++ drop (S g) (contents xs) /\ at_cursor hd ys g it'.
Proof.
  intros Hch Hr (a & x & b & i & z & p & [-> Hz Hen _ Hs _] & -> & Hez & Hp & -> & _). pose proof (lookup_lt_Some _ _ _ Hs) as Hi.
  destruct (chain_mid _ _ _ _ Hch) as (_ & _ & Hraw & _). unfold quicklistDelEntry. rewrite Hen, bind_lift.
  rewrite (bind_done _ _ _ _ _ (put_load _ _ _ (flat_lookup fl a x b k _ bm Hch : nodes (quick fl 0 (a ++ x :: b) k bm) !! _ = _))), Hez, bind_lift.
  destruct (del_index junk htab fl 0 ltac:(lia) a x b k bm z i p Hch Hraw Hz Hp Hi Hr) as (ys & bm' & gone & Hd & Hchy & Hco & Hys).
  rewrite (bind_done _ _ _ _ _ Hd). cbv beta iota. eexists ys, bm', _. split; [done|]. split; [done|].
  set (seg := take i (iseg x) ++ drop (S i) (iseg x)) in *. assert (zlen seg = zlen (iseg x) - 1) as Hlen by (by apply length_del).
  assert (contents ys = take (length (contents a) + i) (contents (a ++ x :: b)) ++ drop (S (length (contents a) + i)) (contents (a ++ x :: b))) as Hco'.
  { rewrite Hco, contents_app, contents_cons, plus_n_Sm, take_app_add, drop_app_add, take_app_le, drop_app_le by lia. unfold seg. by rewrite <- !app_assoc. }
  split; [done|]. assert (length (contents a) + i <= length (contents ys))%nat as Hn by (rewrite Hco, !length_app; lia). cbn [spent_iter direction current ioffset link next prev].
  split; [done|]. destruct gone.
  - destruct Hys as (Hnil & _ & He). rewrite (He eq_refl) in *. clear Hd He ys. assert (length (iseg x) = 1%nat) as H1 by (rewrite Hnil in Hlen; cbn in Hlen; lia).
    assert (i = O) as -> by lia. rewrite Nat.add_0_r in *. destruct hd; cbn [Z.eqb Pos.eqb].
    + destruct b as [|y b].
      * left. split; [done|]. cbn [target]. by rewrite lookup_ge_None_2 by (rewrite app_nil_r; lia).
      * right. exists a, y, b. split; [done|]. left. exists O. split_and!; [done|lia|lia].
    + destruct a as [|u a _] using rev_ind; [by left|]. right. rewrite last_or_snoc. exists a, u, b. split; [by rewrite <- app_mid|]. left. exists (length (iseg u)).
      split_and!; [unfold fresh_iter; f_equal; lia|lia|]. rewrite contents_app, contents_cons, length_app, app_nil_r. done.
  - destruct Hys as (z' & _ & ->). right. exists a, (shrunk x z' seg), b. split; [done|]. left. exists i. cbn [iseg shrunk fresh_iter iid].
    split_and!; [|lia|done]. unfold fresh_iter. cbn [iid shrunk iseg]. destruct hd; [done|]. f_equal. lia.
Qed.

End iter.
End QuicklistIter.
