(* ===== verification/QuicklistRun.v ===== *)
(** Quicklists as lists of strings: every program of operations on a new
    quicklist answers like the same program on a list, and releasing the
    quicklist frees every node. Where the code departs from that is stated at
    the end. *)

From stdpp Require Import gmap.
From S2P Require Import Prelude UtilNum Ziplist ZiplistRun ZiplistPos Lzf Effects Quicklist QuicklistHeap QuicklistFacts QuicklistOps QuicklistEdit QuicklistDup QuicklistInner QuicklistInsert QuicklistRange QuicklistIter.

#[local] Open Scope Z_scope.

Module QuicklistRun.
Import UtilNum Ziplist ZiplistRun ZiplistPos Quicklist QuicklistHeap QuicklistFacts QuicklistOps QuicklistEdit QuicklistDup QuicklistInner QuicklistInsert QuicklistRange QuicklistIter.
#[local] Notation zlen l := (Z.of_nat (length l)) (only parsing).

(** ** Programs *)

Inductive qop :=
  | QPush (hd : bool) (v : list Z)
  | QPop (hd : bool)
  | QAppendZiplist (l : list (list Z))
  | QAppendValues (l : list (list Z))
  | QCount
  | QDup
  | QIndex (i : Z)
  | QReplace (i : Z) (v : list Z)
  | QInsert (after : bool) (i : Z) (v : list Z)
  | QDelRange (start n : Z)
  | QWalk (hd : bool) (f : list Z -> bool).

Inductive qanswer := QUnit | QNum (n : Z) | QBool (b : bool) | QValue (v : option (list Z)) | QValues (l : list (list Z)).

Abbreviation end_at hd := (if hd : bool then QUICKLIST_HEAD else QUICKLIST_TAIL) (only parsing).

Section run.
Context (junk : nat -> Z) (htab : Z -> Z).

(** The value of an entry, read from its node. *)
Definition value_of (e : quicklistEntry) : M (list Z) := p ← lift (enode e); b ← block p; lift (entry_value b e).

(** Visit the entries of an iterator, and delete those that satisfy [f]. *)
Fixpoint walk_entries (n : nat) (f : list Z -> bool) (it : quicklistIter) : M (list (list Z)) :=
  match n with
  | O => undef
  | S n =>
      '(ok, it, e) ← quicklistNext junk htab (Some it);
      it ← lift it;
      if ok : bool then
        v ← value_of e;
        it ← (if f v then quicklistDelEntry junk htab it e else mret it);
        vs ← walk_entries n f it;
        mret (v :: vs)
      else _ ← quicklistReleaseIterator junk htab it; mret []
  end.

Definition run_qop (o : qop) : M qanswer :=
  match o with
  | QPush hd v => _ ← quicklistPush junk htab v (end_at hd); mret QUnit
  | QPop hd => r ← quicklistPop junk htab (end_at hd); mret (QValue (popped r))
  | QAppendZiplist l => z ← lift (ziplistNew junk); z ← lift (push_all junk z l); _ ← quicklistAppendZiplist junk htab z; mret QUnit
  | QAppendValues l => z ← lift (ziplistNew junk); z ← lift (push_all junk z l); _ ← quicklistAppendValuesFromZiplist junk htab z; mret QUnit
  | QCount => n ← quicklistCount; mret (QNum n)
  | QDup => s ← get; match quicklistDup junk htab s with Done (s', _) => _ ← put s'; mret QUnit | _ => undef end
  | QIndex i =>
      '(ok, e) ← quicklistIndex junk i; if ok : bool then v ← value_of e; mret (QValue (Some v)) else mret (QValue None)
  | QReplace i v => b ← quicklistReplaceAtIndex junk htab i v; mret (QBool b)
  | QInsert after i v =>
      '(ok, e) ← quicklistIndex junk i; if ok : bool then _ ← _quicklistInsert junk htab e v after; mret (QBool true) else mret (QBool false)
  | QDelRange start n => b ← quicklistDelRange junk htab start n; mret (QBool b)
  | QWalk hd f =>
      n ← quicklistCount; it ← quicklistGetIterator (dir hd); vs ← walk_entries (S (Z.to_nat n)) f it; mret (QValues vs)
  end.

Fixpoint run_q (os : list qop) : M (list qanswer) :=
  match os with [] => mret [] | o :: os => a ← run_qop o; rest ← run_q os; mret (a :: rest) end.

End run.

(** The same operations on lists. *)
Definition abs_qop (l : list (list Z)) (o : qop) : list (list Z) * qanswer :=
  match o with
  | QPush hd v => (add hd v l, QUnit)
  | QPop true => (tl l, QValue (hd_error l))
  | QPop false => (take (length l - 1) l, QValue (last l))
  | QAppendZiplist l2 | QAppendValues l2 => (l ++ l2, QUnit)
  | QCount => (l, QNum (zlen l))
  | QDup => (l, QUnit)
  | QIndex i => (l, QValue (k ← entry_index l i; l !! k))
  | QReplace i v => match entry_index l i with Some k => (<[k := v]> l, QBool true) | None => (l, QBool false) end
  | QInsert after i v =>
      match entry_index l i with
      | Some k => let k := if after then S k else k in (take k l ++ v :: drop k l, QBool true)
      | None => (l, QBool false)
      end
  | QDelRange start n =>
      match (if 0 <? n then entry_index l start else None) with
      | Some k => (take k l ++ drop (k + Z.to_nat n) l, QBool true)
      | None => (l, QBool false)
      end
  | QWalk hd f => (filter (fun v => f v = false) l, QValues (if hd then l else reverse l))
  end.

Fixpoint abs_run_q (l : list (list Z)) (os : list qop) : list (list Z) * list qanswer :=
  match os with
  | [] => (l, [])
  | o :: os => let '(l, a) := abs_qop l o in let '(l, rest) := abs_run_q l os in (l, a :: rest)
  end.

(** Byte strings, indices of the C types, and for the operations in the middle
    a list without compression; an insertion counts its index from the front, and a
    range starts at the front or is counted from the end. *)
Definition qop_ok (c : Z) (o : qop) : Prop :=
  match o with
  | QPush _ v => Forall is_byte v
  | QPop _ | QCount | QDup => True
  | QAppendZiplist l => l <> [] /\ zlen l <= 65535 /\ Forall (Forall is_byte) l
  | QAppendValues l => Forall (Forall is_byte) l
  | QIndex i => c = 0 /\ - 2 ^ 63 < i
  | QReplace i v => c = 0 /\ - 2 ^ 63 < i /\ Forall is_byte v
  | QInsert _ i v => c = 0 /\ 0 <= i /\ Forall is_byte v
  | QDelRange start _ => c = 0 /\ - 2 ^ 63 < start <= 0
  | QWalk _ _ => c = 0
  end.

Fixpoint qfits (c : Z) (l : list (list Z)) (os : list qop) : Prop :=
  room l /\
  match os with
  | [] => True
  | o :: os => qop_ok c o /\ room (abs_qop l o).1 /\ qfits c (abs_qop l o).1 os
  end.

(** The quicklist stands for the list. *)
Definition stands (fl c : Z) (s : store) (l : list (list Z)) : Prop :=
  exists xs k bm, s = quick fl c xs k bm /\ chain c xs k /\ contents xs = l.

(** An operation answers as the list does. *)
Definition answers (junk : nat -> Z) (htab : Z -> Z) (fl c : Z) (s : store) (l : list (list Z)) (o : qop) : Prop :=
  exists s', run_qop junk htab o s = Done (s', (abs_qop l o).2) /\ stands fl c s' (abs_qop l o).1.

(** A block of the strings. *)
Lemma block_packs junk l : room l -> exists z0 z, ziplistNew junk = Some z0 /\ push_all junk z0 l = Some z /\ packs z l.
Proof. intros Hr. destruct (new_packs junk) as (z0 & Hn & Hp0). destruct (push_all_packs junk l z0 [] Hp0 Hr) as (z & Hz & Hp). by exists z0, z. Qed.

Section ends.
Context (junk : nat -> Z) (htab : Z -> Z) (fl c : Z) (Hfl : - 5 <= fl <= 32767) (Hc : 0 <= c <= 65535).

Lemma answers_push s l hd v : stands fl c s l -> Forall is_byte v -> room (add hd v l) -> answers junk htab fl c s l (QPush hd v).
Proof using Hc.
  intros (xs & k & bm & -> & Hch & <-) Hv Hr. unfold answers. cbn [run_qop abs_qop fst snd]. unfold quicklistPush. destruct hd; cbn [Z.eqb Pos.eqb].
  - destruct (push_head junk htab fl c Hc xs k bm v Hch Hv Hr) as (ys & k' & r & Hp & Hch' & Hco & _).
    rewrite bind_assoc, (bind_done _ _ _ _ _ Hp). eexists. split; [done|]. by exists ys, k', bm.
  - destruct (push_tail junk htab fl c Hc xs k bm v Hch Hv Hr) as (ys & k' & r & Hp & Hch' & Hco).
    rewrite bind_assoc, (bind_done _ _ _ _ _ Hp). eexists. split; [done|]. by exists ys, k', bm.
Qed.

Lemma answers_pop s l hd : stands fl c s l -> room l -> answers junk htab fl c s l (QPop hd).
Proof using Hc.
  intros (xs & k & bm & -> & Hch & <-) Hr. unfold answers. cbn [run_qop]. destruct (decide (contents xs = [])) as [Hn|Hn].
  - destruct (pop_empty junk htab fl c (end_at hd) xs k bm Hn) as (r & Hp & Hv). rewrite (bind_done _ _ _ _ _ Hp), Hv, Hn. eexists. split; [by destruct hd|].
    exists xs, k, bm. split_and!; [done|done|]. rewrite Hn. by destruct hd.
  - destruct (pop_spec junk htab fl c Hc hd xs k bm Hch Hr Hn) as (ys & bm' & r & s & Hp & Hch' & Hv & Hco). rewrite (bind_done _ _ _ _ _ Hp), Hv, Hco.
    eexists. split; [destruct hd; cbn [abs_qop snd add hd_error]; [done|by rewrite last_snoc]|]. exists ys, k, bm'. split_and!; [done|done|].
    destruct hd; cbn [abs_qop fst add tl]; [done|]. rewrite length_app. cbn [length]. by rewrite Nat.add_sub, take_app_length.
Qed.

Lemma answers_append s l l2 : stands fl c s l -> l2 <> [] -> zlen l2 <= 65535 -> Forall (Forall is_byte) l2 -> room (l ++ l2) ->
  answers junk htab fl c s l (QAppendZiplist l2).
Proof using Hc.
  intros (xs & k & bm & -> & Hch & <-) Hne Hl Hb Hr. unfold answers. cbn [run_qop abs_qop fst snd].
  destruct (block_packs junk l2) as (z0 & z & Hn & Hz & Hp). { eapply room_le; [exact Hr|]. rewrite weight_app. pose proof (weight_nonneg (contents xs)). lia. }
  rewrite Hn, bind_lift, Hz, bind_lift. destruct (append_spec junk htab fl c Hc xs k bm z l2 Hch Hp Hne Hl Hb Hr) as (ys & Ha & Hch' & Hco).
  rewrite (bind_done _ _ _ _ _ Ha). eexists. split; [done|]. by exists ys, (S k), bm.
Qed.

Lemma answers_append_values s l l2 : stands fl c s l -> Forall (Forall is_byte) l2 -> room (l ++ l2) ->
  answers junk htab fl c s l (QAppendValues l2).
Proof using Hc.
  intros (xs & k & bm & -> & Hch & <-) Hb Hr. unfold answers. cbn [run_qop abs_qop fst snd].
  destruct (block_packs junk l2) as (z0 & z & Hn & Hz & Hp). { eapply room_le; [exact Hr|]. rewrite weight_app. pose proof (weight_nonneg (contents xs)). lia. }
  rewrite Hn, bind_lift, Hz, bind_lift. destruct (append_values_from junk htab fl c Hc xs k bm z l2 Hch Hp Hb Hr) as (ys & k' & Ha & Hch' & Hco).
  rewrite (bind_done _ _ _ _ _ Ha). eexists. split; [done|]. by exists ys, k', bm.
Qed.

Lemma answers_dup s l : stands fl c s l -> room l -> answers junk htab fl c s l QDup.
Proof using Hfl Hc.
  intros (xs & k & bm & -> & Hch & <-) Hr. unfold answers. cbn [run_qop abs_qop fst snd]. rewrite bind_get.
  destruct (dup_spec junk htab fl c Hc xs k bm Hch Hr Hfl) as (ys & k' & -> & Hch' & Hco). eexists. split; [done|]. by exists ys, k', [].
Qed.

End ends.
Section middle.
Context (junk : nat -> Z) (htab : Z -> Z) (fl : Z).

Lemma value_spec xs k bm a x b j z s e : chain 0 xs k -> entry_at xs a x b j z s e -> value_of e (quick fl 0 xs k bm) = Done (quick fl 0 xs k bm, s).
Proof.
  clear junk htab. intros Hch [-> Hz He _ _ Hv]. unfold value_of. rewrite He, bind_lift.
  rewrite (bind_done _ _ _ _ _ (put_block _ _ _ z (flat_lookup fl a x b k _ bm Hch : nodes (quick fl 0 _ k bm) !! _ = _) Hz)), Hv. done.
Qed.

(** The entry at an index. *)
Lemma entry_contents xs a x b j z s e : entry_at xs a x b j z s e -> contents xs !! (length (contents a) + j)%nat = Some s.
Proof.
  intros [-> _ _ _ Hs _]. rewrite contents_app, contents_cons, lookup_app_r by lia.
  replace (length (contents a) + j - length (contents a))%nat with j by lia. by rewrite lookup_app_l by (by eapply lookup_lt_Some).
Qed.

Lemma answers_index s l i : stands fl 0 s l -> room l -> - 2 ^ 63 < i -> answers junk htab fl 0 s l (QIndex i).
Proof.
  intros (xs & k & bm & -> & Hch & <-) Hr Hi. unfold answers. cbn [run_qop abs_qop fst snd].
  destruct (index_at_spec junk fl xs k bm i Hch Hr Hi) as (r & e & Hx & Hin). rewrite (bind_done _ _ _ _ _ Hx). unfold indexed in Hin.
  destruct (entry_index (contents xs) i) as [g|]; cbv beta iota.
  - destruct Hin as [-> (a & x & b & j & z & s & He & -> & _)]. rewrite (bind_done _ _ _ _ _ (value_spec xs k bm a x b j z s e Hch He)).
    cbn [mbind option_bind]. rewrite (entry_contents _ _ _ _ _ _ _ _ He). eexists. split; [done|]. by exists xs, k, bm.
  - destruct Hin as [-> _]. eexists. split; [done|]. by exists xs, k, bm.
Qed.

Lemma answers_replace s l i v : stands fl 0 s l -> room l -> - 2 ^ 63 < i -> Forall is_byte v -> room (abs_qop l (QReplace i v)).1 ->
  answers junk htab fl 0 s l (QReplace i v).
Proof.
  intros (xs & k & bm & -> & Hch & <-) Hr Hi Hv Hr2. unfold answers. cbn [run_qop abs_qop] in *.
  destruct (replace_spec junk htab fl xs k bm i v Hch Hr Hi Hv) as (ys & r & Hx & Hch' & Hin).
  { intros g Hg. by rewrite Hg in Hr2. }
  rewrite (bind_done _ _ _ _ _ Hx). destruct (entry_index (contents xs) i) as [g|]; destruct Hin as [-> Hco]; (eexists; split; [done|]; by exists ys, k, bm).
Qed.

Lemma answers_insert s l after i v : stands fl 0 s l -> room l -> 0 <= i -> Forall is_byte v -> room (abs_qop l (QInsert after i v)).1 ->
  answers junk htab fl 0 s l (QInsert after i v).
Proof.
  intros (xs & k & bm & -> & Hch & <-) Hr Hi Hv Hr2. unfold answers. cbn [run_qop abs_qop] in *.
  destruct (index_at_spec junk fl xs k bm i Hch Hr) as (r & e & Hx & Hin); [lia|]. rewrite (bind_done _ _ _ _ _ Hx). unfold indexed in Hin.
  destruct (entry_index (contents xs) i) as [g|] eqn:Hg; cbv beta iota.
  - destruct Hin as [-> (a & x & b & j & z & s & He & -> & Ho)]. rewrite (proj2 (Z.leb_le 0 i)) in Ho by lia. cbn [fst] in Hr2.
    assert (room (v :: contents xs)) as Hr3 by (by eapply room_le; [exact Hr2|rewrite weight_into]).
    destruct (insert_entry_spec junk htab fl after xs k bm a x b j z s e v Hch Hr3 Hv He Ho) as (ys & k' & bm' & Hins & Hch' & Hco).
    rewrite (bind_done _ _ _ _ _ Hins). eexists. split; [done|]. exists ys, k', bm'. split_and!; [done|done|]. cbn [fst]. rewrite Hco. by destruct after; rewrite <- ?plus_n_Sm.
  - destruct Hin as [-> _]. eexists. split; [done|]. by exists xs, k, bm.
Qed.

Lemma answers_delrange s l start n : stands fl 0 s l -> room l -> - 2 ^ 63 < start <= 0 -> answers junk htab fl 0 s l (QDelRange start n).
Proof.
  intros (xs & k & bm & -> & Hch & <-) Hr Hs. unfold answers. cbn [run_qop abs_qop] in *.
  destruct (delrange_spec junk htab fl xs k bm start n Hch Hr Hs) as (ys & bm' & r & Hx & Hch' & Hin). rewrite (bind_done _ _ _ _ _ Hx).
  destruct (if 0 <? n then entry_index (contents xs) start else None) as [g|]; destruct Hin as [-> Hco]; (eexists; split; [done|]; by exists ys, k, bm').
Qed.

(** ** Walks *)

Abbreviation keep f := (filter (fun v => f v = false)) (only parsing).

(** The entries ahead of the cursor, in the order of the walk, and what is left. *)
Definition ahead (hd : bool) (m : nat) (l : list (list Z)) : list (list Z) := if hd then drop m l else reverse (take m l).
Definition left_over (hd : bool) (f : list Z -> bool) (m : nat) (l : list (list Z)) : list (list Z) :=
  if hd then take m l ++ keep f (drop m l) else keep f (take m l) ++ drop m l.

Lemma ahead_end hd m l : (m <= length l)%nat -> target hd m l = None -> ahead hd m l = [] /\ forall f, left_over hd f m l = l.
Proof.
  clear. unfold target, ahead, left_over. intros Hm Ht. destruct hd.
  - apply fmap_None, lookup_ge_None in Ht. split; [by apply drop_ge|]. intros f. rewrite (drop_ge l m), (take_ge l m) by done. by rewrite filter_nil, app_nil_r.
  - destruct m as [|m]; [done|]. apply fmap_None, lookup_ge_None in Ht. lia.
Qed.

Lemma ahead_step hd m l g v : target hd m l = Some (g, v) -> (m <= length l)%nat ->
  ahead hd m l = v :: ahead hd (if hd then S g else g) l /\ l !! g = Some v /\
  forall f, left_over hd f m l = if f v then left_over hd f g (take g l ++ drop (S g) l) else left_over hd f (if hd then S g else g) l.
Proof.
  clear. unfold target, ahead, left_over. intros Ht Hm. destruct hd.
  - apply fmap_Some in Ht as (s & Hl & [= -> ->]). split_and!; [by apply drop_S|done|]. intros f. rewrite (drop_S _ _ _ Hl) at 1.
    assert (length (take m l) = m) as Hlt by (rewrite length_take; lia).
    destruct (f s) eqn:Hf; [rewrite filter_cons_False by (by rewrite Hf)|rewrite filter_cons_True by done].
    + by rewrite take_app_length', drop_app_length'.
    + rewrite (take_S_r _ _ _ Hl). by rewrite <- app_assoc.
  - destruct m as [|m]; [done|]. apply fmap_Some in Ht as (s & Hl & [= -> ->]). rewrite (take_S_r _ _ _ Hl). split_and!; [by rewrite reverse_snoc|done|].
    intros f. rewrite filter_app. assert (length (take m l) = m) as Hlt by (rewrite length_take; lia).
    destruct (f s) eqn:Hf.
    + rewrite filter_cons_False by (by rewrite Hf). rewrite filter_nil, app_nil_r. by rewrite take_app_length', drop_app_length'.
    + rewrite filter_cons_True by done. rewrite filter_nil, <- app_assoc. by rewrite (drop_S _ _ _ Hl).
Qed.

Lemma walk_entries_spec (hd : bool) f : forall n xs k bm m it, chain 0 xs k -> room (contents xs) -> at_cursor hd xs m it ->
  (length (ahead hd m (contents xs)) < n)%nat ->
  exists ys bm', walk_entries junk htab n f it (quick fl 0 xs k bm) = Done (quick fl 0 ys k bm', ahead hd m (contents xs)) /\ chain 0 ys k /\
    contents ys = left_over hd f m (contents xs).
Proof.
  induction n as [|n IH]; intros xs k bm m it Hch Hr Hat Hn; [lia|]. cbn [walk_entries]. pose proof Hat as [Hm _].
  destruct (iter_next_spec junk htab fl hd xs k bm m it Hch Hat) as (ok & it' & e & Hx & Hg). rewrite (bind_done _ _ _ _ _ Hx). cbv beta iota.
  rewrite bind_lift. unfold gives in Hg. destruct (target hd m (contents xs)) as [[g v]|] eqn:Ht.
  2: { destruct Hg as [-> Hd]. destruct (ahead_end hd m (contents xs) Hm Ht) as [-> Hl].
    rewrite (bind_done _ _ _ _ _ (release_iter_spec junk htab fl hd xs k bm m it' Hch (or_intror Hd))). exists xs, bm. by rewrite Hl. }
  destruct Hg as [-> Hhit]. destruct (ahead_step hd m (contents xs) g v Ht Hm) as (Ha & Hl & Hlo). rewrite Ha in Hn |- *. cbn [length] in Hn.
  pose proof Hhit as (a & x & b & i & z & p & He & _). rewrite (bind_done _ _ _ _ _ (value_spec xs k bm a x b i z v e Hch He)), Hlo.
  destruct (f v) eqn:Hf.
  - destruct (del_entry_spec junk htab fl hd xs k bm g v it' e Hch Hr Hhit) as (ys & bm1 & it2 & Hd & Hch1 & Hco1 & Hat1). rewrite (bind_done _ _ _ _ _ Hd).
    assert (ahead hd g (contents ys) = ahead hd (if hd then S g else g) (contents xs)) as Hah.
    { pose proof (lookup_lt_Some _ _ _ Hl) as Hlt. rewrite Hco1. assert (length (take g (contents xs)) = g) as Hlg by (rewrite length_take; lia).
      unfold ahead. destruct hd; [by rewrite drop_app_length'|by rewrite take_app_length']. }
    destruct (IH ys k bm1 g it2 Hch1) as (zs & bm2 & Hw & Hch2 & Hco2); [|done|by rewrite Hah; lia|].
    { rewrite Hco1. eapply room_le; [exact Hr|]. rewrite <- (Nat.add_1_r g). apply weight_sub. }
    rewrite (bind_done _ _ _ _ _ Hw), Hah. exists zs, bm2. split_and!; [done|done|]. by rewrite Hco2, Hco1.
  - rewrite bind_ret. destruct (IH xs k bm (if hd then S g else g) it' Hch Hr (hit_cursor _ _ _ _ _ _ Hhit)) as (zs & bm2 & Hw & Hch2 & Hco2); [lia|].
    rewrite (bind_done _ _ _ _ _ Hw). by exists zs, bm2.
Qed.

Lemma answers_walk s l hd f : stands fl 0 s l -> room l -> answers junk htab fl 0 s l (QWalk hd f).
Proof.
  intros (xs & k & bm & -> & Hch & <-) Hr. unfold answers. cbn [run_qop abs_qop fst snd]. unfold quicklistCount. rewrite bind_assoc.
  rewrite (bind_done _ _ _ _ _ (this_row _ _ _ _ : this (quick fl 0 xs k bm) = _)), bind_ret. cbn [count qlist].
  destruct (iterator_spec fl hd xs k bm Hch) as (it & Hg & _ & Hat). rewrite (bind_done _ _ _ _ _ Hg). set (m := if hd then O else length (contents xs)) in *.
  assert (ahead hd m (contents xs) = if hd then contents xs else reverse (contents xs)) as Ha by (unfold ahead, m; destruct hd; [done|by rewrite take_ge]).
  destruct (walk_entries_spec hd f (S (Z.to_nat (zlen (contents xs)))) xs k bm m it Hch Hr Hat) as (ys & bm' & Hw & Hch' & Hco).
  { rewrite Ha. destruct hd; rewrite ?length_reverse; lia. }
  rewrite (bind_done _ _ _ _ _ Hw), Ha. eexists. split; [done|]. exists ys, k, bm'. split_and!; [done|done|]. rewrite Hco. unfold left_over, m.
  destruct hd; [done|]. by rewrite take_ge, drop_ge, app_nil_r by lia.
Qed.

End middle.

(** ** Release *)

Lemma release_frees b : forall p k q, NoDup (ids b) -> exists q', release_loop (length b) (first_or b None) (mkStore (heap_seg p b None) k q) = Done (mkStore ∅ k q', tt).
Proof.
  induction b as [|x b IH]; intros p k q Hn; [by exists q|]. cbn [length release_loop first_or heap_seg]. rewrite bind_lift.
  cbn [fmap list_fmap] in Hn. apply NoDup_cons in Hn as [Hx Hn]. unfold load at 1. rewrite bind_assoc, bind_get. cbn [nodes]. rewrite lookup_insert_eq, bind_lift.
  rewrite bind_modify_ql. cbn [nodes brk ql]. unfold zfree, load. rewrite !bind_assoc, bind_get. cbn [nodes]. rewrite lookup_insert_eq, bind_lift, bind_assoc, bind_get, bind_put.
  cbn [nodes brk ql]. rewrite delete_insert_id by (by apply heap_seg_None). rewrite bind_modify_ql. cbn [nodes brk ql link next]. by apply IH.
Qed.

Lemma release_spec fl c s l : stands fl c s l -> exists s', quicklistRelease s = Done (s', tt) /\ nodes s' = ∅.
Proof.
  intros (xs & k & bm & -> & Hch & _). unfold quicklistRelease, quick, row. rewrite (right_id_L ∅ (∪)). set (q := qlist _ _ _ _ _ _).
  unfold this. rewrite bind_assoc, bind_get, bind_ret. cbn [ql q qlist len head]. rewrite Nat2Z.id.
  destruct (release_frees xs None k q) as (q' & Hq); [apply Hch|]. rewrite (bind_done _ _ _ _ _ Hq). by eexists.
Qed.

(** ** Refinement *)

Lemma qop_refines junk htab fl c s l o : - 5 <= fl <= 32767 -> 0 <= c <= 65535 -> stands fl c s l -> room l -> qop_ok c o -> room (abs_qop l o).1 ->
  answers junk htab fl c s l o.
Proof.
  intros Hfl Hc Hs Hr Ho Hr2. destruct o as [hd v|hd|l2|l2| | |i|i v|after i v|start n|hd f]; cbn [qop_ok] in Ho.
  - by apply answers_push.
  - by apply answers_pop.
  - destruct Ho as (? & ? & ?). by apply answers_append.
  - by apply answers_append_values.
  - destruct Hs as (xs & k & bm & -> & Hch & <-). eexists. split; [done|]. by exists xs, k, bm.
  - by apply answers_dup.
  - destruct Ho as [-> ?]. by apply answers_index.
  - destruct Ho as (-> & ? & ?). by apply answers_replace.
  - destruct Ho as (-> & ? & ?). by apply answers_insert.
  - destruct Ho as [-> ?]. by apply answers_delrange.
  - subst c. by apply answers_walk.
Qed.

Lemma run_q_refines junk htab fl c os : - 5 <= fl <= 32767 -> 0 <= c <= 65535 -> forall s l, stands fl c s l -> qfits c l os ->
  exists s', run_q junk htab os s = Done (s', (abs_run_q l os).2) /\ stands fl c s' (abs_run_q l os).1.
Proof.
  intros Hfl Hc. induction os as [|o os IH]; intros s l Hs Hf; cbn [run_q abs_run_q]; [by exists s|]. destruct Hf as (Hr & Ho & Hr2 & Hf).
  destruct (qop_refines junk htab fl c s l o Hfl Hc Hs Hr Ho Hr2) as (s1 & Hrun & Hs1). rewrite (bind_done _ _ _ _ _ Hrun).
  destruct (abs_qop l o) as [l1 a1]. cbn [fst snd] in *. destruct (IH s1 l1 Hs1 Hf) as (s' & Hrun2 & Hs'). rewrite (bind_done _ _ _ _ _ Hrun2).
  destruct (abs_run_q l1 os) as [l2 as2]. by exists s'.
Qed.

(** C8: a quicklist is the list of its strings. From a new quicklist with any
    fill factor and any compression depth, every program of pushes and pops at
    both ends, appended ziplists (not empty, of at most 65535 entries) and
    copies gives the answers of the same program on a list of strings; with
    depth 0 the program may also access and replace by index, insert next to an
    index counted from the front, delete a range that starts at the front or is
    counted from the end, and iterate in either direction with deletion on the
    way. The strings together stay below the 4 GB of a ziplist. The count is
    the length of that list, and releasing the quicklist leaves no node on the
    heap. Ranges from a positive index are left out because
    [quicklistDelRange] miscounts them, see below. *)
Theorem quicklist_run_refines junk htab f c os : qfits (Z.max 0 (Z.min c 65535)) [] os ->
  exists s s', run_q junk htab os (quicklistNew f c) = Done (s, (abs_run_q [] os).2) /\ count (ql s) = zlen (abs_run_q [] os).1 /\
    quicklistRelease s = Done (s', tt) /\ nodes s' = ∅.
Proof.
  intros Hf. rewrite new_quick. set (fl := Z.max (-5) (Z.min f 32767)). set (d := Z.max 0 (Z.min c 65535)) in *.
  destruct (run_q_refines junk htab fl d os) with (s := quick fl d [] 0 []) (l := @nil (list Z)) as (s & Hr & Hs); [lia|lia| |done|].
  - exists [], O, []. split_and!; [done| |done]. split; [constructor|constructor|constructor| |].
    + intros i Hi. by apply not_elem_of_nil in Hi.
    + split; [done|done|constructor].
  - destruct (release_spec fl d s _ Hs) as (s' & Hrel & Hn). exists s, s'. destruct Hs as (xs & k & bm & -> & _ & <-). done.
Qed.

(** Insertions that split and merge nodes of three entries, then deletions. *)
Definition splits : list qop :=
  ((fun i => QPush false (decimal i)) <$> [0; 1; 2; 3; 4; 5]) ++
  [QInsert true 1 [97]; QInsert false 3 [98]; QInsert false 0 [99]; QReplace (-1) [100]; QIndex 4; QDelRange (-3) 2; QDelRange 0 1;
   QWalk false (fun v => bool_decide (v = [97])); QDup; QAppendZiplist [[101]; [102]]; QPop true; QWalk true (fun _ => false); QCount].

(** Nodes that are compressed when others cover them, and expanded again. *)
Definition covered : list qop :=
  ((fun i => QPush false (replicate 60 i)) <$> [97; 98; 99; 100; 101; 102; 103; 104]) ++
  [QDup; QPop true; QPop true; QPop false; QPop false; QPop true; QPop false; QCount].

Lemma quicklist_run_refines_witness :
  (qfits 0 [] splits /\ exists s s', run_q (fun _ => 0) (fun _ => 0) splits (quicklistNew 3 0) = Done (s, (abs_run_q [] splits).2) /\
     count (ql s) = zlen (abs_run_q [] splits).1 /\ quicklistRelease s = Done (s', tt) /\ nodes s' = ∅) /\
  (qfits 1 [] covered /\ exists s s', run_q (fun _ => 0) (fun _ => 0) covered (quicklistNew 2 1) = Done (s, (abs_run_q [] covered).2) /\
     count (ql s) = zlen (abs_run_q [] covered).1 /\ quicklistRelease s = Done (s', tt) /\ nodes s' = ∅).
Proof.
  assert (qfits 0 [] splits) as H0 by (vm_compute; repeat (split || constructor); done).
  assert (qfits 1 [] covered) as H1 by (vm_compute; repeat (split || constructor); done).
  split; (split; [assumption|]); [apply (quicklist_run_refines (fun _ => 0) (fun _ => 0) 3 0 splits H0)|apply (quicklist_run_refines (fun _ => 0) (fun _ => 0) 2 1 covered H1)].
Defined.

(** ** Departures *)

Abbreviation zeros := (fun _ => 0) (only parsing).

(** Three nodes of two entries each, with the ends kept uncompressed; read an entry
    of the middle node, pop the entries before it, replace the first. *)
Definition touched : list qop :=
  ((fun i => QPush false (replicate 60 i)) <$> [97; 98; 99; 100; 101; 102]) ++ [QIndex 2; QPop true; QPop true; QReplace 0 (replicate 60 103)].

(** With a compression depth, an access by index can end in a compressed
    head. [quicklistIndex] expands a node and marks it for recompression; once
    pops have made it the head, [quicklistReplaceAtIndex] honours the mark, and
    the next pop reads the compressed bytes as a ziplist, out of bounds. The
    replacement itself reports success. *)
Example quicklist_compresses_head :
  match run_q zeros zeros touched (quicklistNew 2 1) with
  | Done (s, as_) =>
      last as_ = Some (QBool true) /\ (p ← head (ql s); encoding <$> nodes s !! p) = Some QUICKLIST_NODE_ENCODING_LZF /\
      quicklistPop zeros zeros QUICKLIST_HEAD s = Undef
  | _ => False
  end.
Proof. vm_compute. repeat split. Qed.

(** The strings in the nodes of a quicklist, whatever its counts say. *)
Definition holds_list (s : store) (l : list (list Z)) : Prop :=
  exists xs k q, s = row xs ∅ k q /\ head q = first_or xs None /\ NoDup (ids xs) /\ Forall item_ok xs /\ contents xs = l.

(** C39: [quicklistDelRange] miscounts a range that starts inside a node,
    reaches past its end and is shorter than the node. The deletion ends with
    the node, so the rest of the range stays in the list; the call reports
    success, and the count of the list drops by the length of the whole range,
    below the number of strings left. *)
Theorem quicklistDelRange_miscounts junk htab fl s l start n e p nd :
  stands fl 0 s l -> room l -> 0 <= start -> n <= zlen l - start ->
  quicklistIndex junk start s = Done (s, (true, e)) -> enode e = Some p -> nodes s !! p = Some nd ->
  0 < eoffset e -> ncount nd - eoffset e < n < ncount nd ->
  let l' := take (Z.to_nat start) l ++ drop (Z.to_nat (start + ncount nd - eoffset e)) l in
  exists s', quicklistDelRange junk htab start n s = Done (s', true) /\ holds_list s' l' /\
    count (ql s') = zlen l - n /\ zlen l - n < zlen l'.
Proof.
  intros (xs & k & bm & -> & Hch & <-) Hr H0 Hn Hix Hp Hnd Ho Hc l'. destruct (index_at_spec junk fl xs k bm start Hch Hr) as (r & e' & Hi & Hin); [lia|].
  rewrite Hix in Hi. injection Hi as <- <-. unfold indexed in Hin. destruct (entry_index _ _) as [i|] eqn:Hei; [|by destruct Hin].
  destruct Hin as [_ (a & x & b & j & z & v & [-> Hz Hen _ Hlk _] & Hij & Hoff)]. rewrite Hen in Hp. injection Hp as <-.
  rewrite (flat_lookup fl a x b k _ bm Hch : nodes (quick fl 0 (a ++ x :: b) k bm) !! _ = _) in Hnd. injection Hnd as <-. cbn [link ncount] in *.
  destruct (chain_mid _ _ _ _ Hch) as (_ & Hcx & _). unfold counted in Hcx. rewrite Hcx in *. pose proof (lookup_lt_Some _ _ _ Hlk) as Hj.
  unfold entry_index in Hei. rewrite (proj2 (Z.leb_le 0 start)) in Hei, Hoff by lia. destruct (_ <? _); [|done]. injection Hei as Hi0.
  destruct (delrange_over junk htab fl a x b k bm j n Hch Hr) as (z' & Hrun & Hok); [lia|lia|].
  eexists (flat fl (a ++ overcut x z' j n :: b) k _ bm). split; [|split; [|split; [reflexivity|]]].
  - unfold quicklistDelRange. rewrite (proj2 (Z.leb_gt _ _)) by lia. set (st := quick fl 0 (a ++ x :: b) k bm) in *.
    rewrite (bind_done _ _ _ _ _ (this_row _ _ _ _ : this st = _)). cbv zeta. change (count _) with (zlen (contents (a ++ x :: b))).
    rewrite (bind_done _ _ _ _ _ Hix). cbv beta iota. rewrite bind_get, Hen, Hoff.
    assert (size (nodes st) = length (a ++ x :: b)) as -> by (apply size_row; apply Hch).
    pose proof (weight_length (contents (a ++ x :: b))) as Hw. unfold room in Hr.
    rewrite Z.geb_leb, !Z.gtb_ltb, uwrap_small, (proj2 (Z.leb_le 0 start)), (proj2 (Z.ltb_ge _ n)), (proj2 (Z.ltb_ge start 0)) by (unfold in_u; lia).
    cbn [andb]. by rewrite (bind_done _ _ _ _ _ Hrun).
  - eexists _, k, _. split; [done|]. split; [done|]. split; [|split].
    + pose proof (ch_nodup _ _ _ Hch) as Hnd. by rewrite !fmap_app, !fmap_cons in *.
    + pose proof (ch_ok _ _ _ Hch) as Hall. rewrite Forall_app, Forall_cons in *. naive_solver.
    + unfold l'. rewrite Hoff, Hcx, !contents_app, !contents_cons. cbn [iseg overcut].
      rewrite take_app_ge, take_app_le, drop_app_ge, drop_app_ge, <- app_assoc by lia. f_equal. f_equal; [f_equal; lia|].
      rewrite <- (drop_0 (contents b)) at 1. f_equal. lia.
  - unfold l'. rewrite length_app, length_take, length_drop, Hoff, Hcx. lia.
Qed.

(** The digits in nodes of five entries; a range of four that starts at the
    fourth entry of the first node. *)
Definition digits : list qop := (fun i => QPush false (decimal i)) <$> [0; 1; 2; 3; 4; 5; 6; 7; 8; 9].
Definition digits_left : list (list Z) := decimal <$> [0; 1; 2; 5; 6; 7; 8; 9].

Lemma quicklistDelRange_miscounts_witness :
  exists s s' as_, run_q zeros zeros digits (quicklistNew 5 0) = Done (s, as_) /\
    quicklistDelRange zeros zeros 3 4 s = Done (s', true) /\ holds_list s' digits_left /\ count (ql s') = 6.
Proof.
  destruct (run_q_refines zeros zeros 5 0 digits ltac:(lia) ltac:(lia) (quick 5 0 [] 0 []) []) as (s & Hrun & Hs).
  - exists [], O, []. split_and!; [done| |done]. by apply raw_chain; constructor || intros ? ?%not_elem_of_nil.
  - vm_compute. repeat (split || constructor); done.
  - assert (exists s0 e p nd, run_q zeros zeros digits (quick 5 0 [] 0 []) = Done (s0, (abs_run_q [] digits).2) /\
      quicklistIndex zeros 3 s0 = Done (s0, (true, e)) /\ enode e = Some p /\ nodes s0 !! p = Some nd /\ eoffset e = 3 /\ ncount nd = 5)
      as (s0 & e & p & nd & Hrun0 & Hi & Hp & Hnd & Ho & Hc).
    { do 4 eexists. split; [vm_compute; reflexivity|]. split; [vm_compute; reflexivity|]. split; [reflexivity|]. by split_and!; [vm_compute; reflexivity|..]. }
    rewrite Hrun in Hrun0. injection Hrun0 as ->.
    destruct (quicklistDelRange_miscounts zeros zeros 5 s0 _ 3 4 e p nd Hs) as (s' & Hd & Hl & Hcnt & _); [by vm_compute|lia|by vm_compute|done|done|done|lia|lia|].
    exists s0, s', (abs_run_q [] digits).2. rewrite new_quick. split_and!; [exact Hrun|exact Hd| |by rewrite Hcnt].
    rewrite Ho, Hc in Hl. exact Hl.
Defined.

End QuicklistRun.
