(* ===== verification/Sds.v ===== *)
(** Model of [sds.h] and [sds.c], the dynamic strings: a header of one of five
    layouts, the bytes, a NUL and free space, in one block.

    A string is its block and the offset of its first character, the header
    fields being read and written in place; the five layouts and their
    conversions are those of the code.  Allocated memory has arbitrary
    contents ([fill]).  The routines are shown to implement operations on byte
    lists, in bounds and with a correct header and terminator whatever the
    layout, and every sequence of them refines the abstract strings. *)

From S2P Require Import Prelude UtilNum.

#[local] Open Scope Z_scope.

Module Sds.
Import UtilNum.

Definition SDS_TYPE_5 : Z := 0.
Definition SDS_TYPE_8 : Z := 1.
Definition SDS_TYPE_16 : Z := 2.
Definition SDS_TYPE_32 : Z := 3.
Definition SDS_TYPE_64 : Z := 4.
Definition SDS_TYPE_MASK : Z := 7.
Definition SDS_TYPE_BITS : Z := 3.
Definition SDS_MAX_PREALLOC : Z := 1024 * 1024.
Definition SDS_LLSTR_SIZE : nat := 21.

(** A pointer [s] into its allocation: [s] is [blk + off]. *)
Record sds := mkSds { blk : list Z; off : Z }.

(** Width of the [len] and [alloc] fields of the header structures. *)
Definition field_width (type : Z) : option nat :=
  if type =? SDS_TYPE_8 then Some 1%nat
  else if type =? SDS_TYPE_16 then Some 2%nat
  else if type =? SDS_TYPE_32 then Some 4%nat
  else if type =? SDS_TYPE_64 then Some 8%nat
  else None.

Definition sdsHdrSize (type : Z) : Z :=
  let type := Z.land type SDS_TYPE_MASK in
  if type =? SDS_TYPE_5 then 1
  else match field_width type with
       | Some w => Z.of_nat w + Z.of_nat w + 1
       | None => 0
       end.

(** [s[-1]] *)
Definition sds_flags (s : sds) : option Z :=
  b ← mread (blk s) (off s - 1) 1; b !! 0%nat.

Definition SDS_TYPE_5_LEN (f : Z) : Z := Z.shiftr f SDS_TYPE_BITS.

(** [SDS_HDR(T,s)->len] and [->alloc], for fields of [w] bytes. *)
Definition hdr_len (w : nat) (s : sds) : option Z :=
  b ← mread (blk s) (off s - (Z.of_nat w + Z.of_nat w + 1)) w; Some (le_decode b).
Definition hdr_alloc (w : nat) (s : sds) : option Z :=
  b ← mread (blk s) (off s - (Z.of_nat w + 1)) w; Some (le_decode b).
Definition set_hdr_len (w : nat) (s : sds) (v : Z) : option sds :=
  b ← mwrite (blk s) (off s - (Z.of_nat w + Z.of_nat w + 1)) (le_encode w v); Some (mkSds b (off s)).
Definition set_hdr_alloc (w : nat) (s : sds) (v : Z) : option sds :=
  b ← mwrite (blk s) (off s - (Z.of_nat w + 1)) (le_encode w v); Some (mkSds b (off s)).
Definition set_flags (s : sds) (v : Z) : option sds :=
  b ← mwrite (blk s) (off s - 1) [u8 v]; Some (mkSds b (off s)).

Definition sdslen (s : sds) : option Z :=
  flags ← sds_flags s;
  let t := Z.land flags SDS_TYPE_MASK in
  if t =? SDS_TYPE_5 then Some (SDS_TYPE_5_LEN flags)
  else match field_width t with Some w => hdr_len w s | None => Some 0 end.

(** [sh->alloc - sh->len]: in [int] for the 8 and 16 bit fields, in the type
    of the fields otherwise, then converted to [size_t]. *)
Definition sdsavail (s : sds) : option Z :=
  flags ← sds_flags s;
  let t := Z.land flags SDS_TYPE_MASK in
  if t =? SDS_TYPE_5 then Some 0
  else match field_width t with
       | Some w =>
           a ← hdr_alloc w s; l ← hdr_len w s;
           Some (if t =? SDS_TYPE_32 then u32 (a - l) else u64 (a - l))
       | None => Some 0
       end.

Definition sdsalloc (s : sds) : option Z :=
  flags ← sds_flags s;
  let t := Z.land flags SDS_TYPE_MASK in
  if t =? SDS_TYPE_5 then Some (SDS_TYPE_5_LEN flags)
  else match field_width t with Some w => hdr_alloc w s | None => Some 0 end.

Definition sdssetlen (s : sds) (newlen : Z) : option sds :=
  flags ← sds_flags s;
  let t := Z.land flags SDS_TYPE_MASK in
  if t =? SDS_TYPE_5 then set_flags s (Z.lor SDS_TYPE_5 (Z.shiftl newlen SDS_TYPE_BITS))
  else match field_width t with Some w => set_hdr_len w s newlen | None => Some s end.

Definition sdsinclen (s : sds) (inc : Z) : option sds :=
  flags ← sds_flags s;
  let t := Z.land flags SDS_TYPE_MASK in
  if t =? SDS_TYPE_5 then
    let newlen := u8 (SDS_TYPE_5_LEN flags + inc) in
    set_flags s (Z.lor SDS_TYPE_5 (Z.shiftl newlen SDS_TYPE_BITS))
  else match field_width t with
       | Some w => l ← hdr_len w s; set_hdr_len w s (l + inc)
       | None => Some s
       end.

Definition sdssetalloc (s : sds) (newlen : Z) : option sds :=
  flags ← sds_flags s;
  let t := Z.land flags SDS_TYPE_MASK in
  if t =? SDS_TYPE_5 then Some s
  else match field_width t with Some w => set_hdr_alloc w s newlen | None => Some s end.

Definition sdsReqType (string_size : Z) : Z :=
  if string_size <? Z.shiftl 1 5 then SDS_TYPE_5
  else if string_size <? Z.shiftl 1 8 then SDS_TYPE_8
  else if string_size <? Z.shiftl 1 16 then SDS_TYPE_16
  else if string_size <? Z.shiftl 1 32 then SDS_TYPE_32
  else SDS_TYPE_64.

(** Stores and loads relative to the string pointer. *)
Definition put_bytes (s : sds) (i : Z) (bs : list Z) : option sds :=
  b ← mwrite (blk s) (off s + i) bs; Some (mkSds b (off s)).
Definition get_bytes (s : sds) (i : Z) (n : nat) : option (list Z) := mread (blk s) (off s + i) n.

Section operations.
(** What an allocation holds before it is written. *)
Context (fill : nat -> Z).

Definition s_malloc (n : Z) : list Z := mresize fill [] (Z.to_nat n).
Definition s_realloc (b : list Z) (n : Z) : list Z := mresize fill b (Z.to_nat n).

(** The [init] argument of [sdsnewlen]. *)
Inductive init := SDS_NOINIT | INIT_NULL | INIT_FROM (p : list Z).

Definition sdsnewlen (i : init) (initlen : Z) : option sds :=
  let type := sdsReqType initlen in
  let type := if (type =? SDS_TYPE_5) && (initlen =? 0) then SDS_TYPE_8 else type in
  let hdrlen := sdsHdrSize type in
  let sh := s_malloc (u64 (hdrlen + initlen + 1)) in
  let sh := match i with INIT_NULL => replicate (length sh) 0 | _ => sh end in
  let s := mkSds sh hdrlen in
  s ← (if type =? SDS_TYPE_5 then set_flags s (Z.lor type (Z.shiftl initlen SDS_TYPE_BITS))
       else match field_width type with
            | Some w => s ← set_hdr_len w s initlen; s ← set_hdr_alloc w s initlen; set_flags s type
            | None => Some s
            end);
  s ← match i with
      | INIT_FROM p =>
          if negb (initlen =? 0) then bs ← mread p 0 (Z.to_nat initlen); put_bytes s 0 bs else Some s
      | _ => Some s
      end;
  put_bytes s initlen [0].

Definition sdsempty : option sds := sdsnewlen (INIT_FROM []) 0.
Definition sdsdup (s : sds) : option sds :=
  l ← sdslen s; bs ← get_bytes s 0 (Z.to_nat l); sdsnewlen (INIT_FROM bs) l.

(** Length of the NUL-terminated string at the start of [m]. *)
Fixpoint strlen (m : list Z) : option Z :=
  match m with
  | [] => None
  | c :: m => if c =? 0 then Some 0 else l ← strlen m; Some (1 + l)
  end.

Definition sdsnew (p : option (list Z)) : option sds :=
  match p with
  | None => sdsnewlen INIT_NULL 0
  | Some m => l ← strlen m; sdsnewlen (INIT_FROM m) l
  end.

Definition sdsupdatelen (s : sds) : option sds :=
  reallen ← strlen (drop (Z.to_nat (off s)) (blk s)); sdssetlen s reallen.

Definition sdsclear (s : sds) : option sds := s ← sdssetlen s 0; put_bytes s 0 [0].

Definition sdsMakeRoomFor (s : sds) (addlen : Z) : option sds :=
  avail ← sdsavail s;
  flags ← sds_flags s;
  let oldtype := Z.land flags SDS_TYPE_MASK in
  if avail >=? addlen then Some s
  else
    len ← sdslen s;
    let newlen := u64 (len + addlen) in
    let newlen := if newlen <? SDS_MAX_PREALLOC then u64 (newlen * 2) else u64 (newlen + SDS_MAX_PREALLOC) in
    let type := sdsReqType newlen in
    let type := if type =? SDS_TYPE_5 then SDS_TYPE_8 else type in
    let hdrlen := sdsHdrSize type in
    s ← (if oldtype =? type then Some (mkSds (s_realloc (blk s) (u64 (hdrlen + newlen + 1))) hdrlen)
         else
           bs ← get_bytes s 0 (Z.to_nat (len + 1));
           let s := mkSds (s_malloc (u64 (hdrlen + newlen + 1))) hdrlen in
           s ← put_bytes s 0 bs; s ← set_flags s type; sdssetlen s len);
    sdssetalloc s newlen.

Definition sdsRemoveFreeSpace (s : sds) : option sds :=
  flags ← sds_flags s;
  let oldtype := Z.land flags SDS_TYPE_MASK in
  let oldhdrlen := sdsHdrSize oldtype in
  len ← sdslen s; avail ← sdsavail s;
  if avail =? 0 then Some s
  else
    let type := sdsReqType len in
    let hdrlen := sdsHdrSize type in
    s ← (if (oldtype =? type) || (type >? SDS_TYPE_8) then
           Some (mkSds (s_realloc (blk s) (u64 (oldhdrlen + len + 1))) oldhdrlen)
         else
           bs ← get_bytes s 0 (Z.to_nat (len + 1));
           let s := mkSds (s_malloc (u64 (hdrlen + len + 1))) hdrlen in
           s ← put_bytes s 0 bs; s ← set_flags s type; sdssetlen s len);
    sdssetalloc s len.

Definition sdsAllocSize (s : sds) : option Z :=
  alloc ← sdsalloc s; flags ← sds_flags s; Some (u64 (sdsHdrSize flags + alloc + 1)).

(** [None] also for a failed assertion: the fields are then inconsistent
    with the increment. *)
Definition sdsIncrLen (s : sds) (incr : Z) : option sds :=
  flags ← sds_flags s;
  let t := Z.land flags SDS_TYPE_MASK in
  '(s, len) ←
    (if t =? SDS_TYPE_5 then
       let oldlen := SDS_TYPE_5_LEN flags in
       if ((incr >? 0) && (oldlen + incr <? 32)) || ((incr <? 0) && (oldlen >=? u32 (- incr)))
       then s ← set_flags s (Z.lor SDS_TYPE_5 (Z.shiftl (oldlen + incr) SDS_TYPE_BITS)); Some (s, oldlen + incr)
       else None
     else match field_width t with
          | Some w =>
              a ← hdr_alloc w s; l ← hdr_len w s;
              let free := if t =? SDS_TYPE_32 then u32 (a - l) else if t =? SDS_TYPE_64 then u64 (a - l) else a - l in
              let neg := if t =? SDS_TYPE_64 then u64 (- incr) else u32 (- incr) in
              let pos := if t =? SDS_TYPE_32 then u32 incr else incr in
              if ((incr >=? 0) && (free >=? pos)) || ((incr <? 0) && (l >=? neg))
              then s ← set_hdr_len w s (l + incr); l ← hdr_len w s; Some (s, l)
              else None
          | None => Some (s, 0)
          end);
  put_bytes s len [0].

Definition sdsgrowzero (s : sds) (len : Z) : option sds :=
  curlen ← sdslen s;
  if len <=? curlen then Some s
  else
    s ← sdsMakeRoomFor s (len - curlen);
    s ← put_bytes s curlen (replicate (Z.to_nat (len - curlen + 1)) 0);
    sdssetlen s len.

Definition sdscatlen (s : sds) (t : list Z) (len : Z) : option sds :=
  curlen ← sdslen s;
  s ← sdsMakeRoomFor s len;
  bs ← mread t 0 (Z.to_nat len);
  s ← put_bytes s curlen bs;
  s ← sdssetlen s (u64 (curlen + len));
  put_bytes s (u64 (curlen + len)) [0].

Definition sdscat (s : sds) (t : list Z) : option sds := l ← strlen t; sdscatlen s t l.
Definition sdscatsds (s t : sds) : option sds :=
  l ← sdslen t; bs ← get_bytes t 0 (Z.to_nat l); sdscatlen s bs l.

Definition sdscpylen (s : sds) (t : list Z) (len : Z) : option sds :=
  a ← sdsalloc s;
  s ← (if a <? len then l ← sdslen s; sdsMakeRoomFor s (u64 (len - l)) else Some s);
  bs ← mread t 0 (Z.to_nat len);
  s ← put_bytes s 0 bs;
  s ← put_bytes s len [0];
  sdssetlen s len.
Definition sdscpy (s : sds) (t : list Z) : option sds := l ← strlen t; sdscpylen s t l.

(** ** Numbers *)

(** [do { *p++ = '0'+(v%10); v /= 10; } while(v);] *)
Fixpoint digits_loop (fuel : nat) (buf : list Z) (p v : Z) : option (list Z * Z) :=
  match fuel with
  | O => None
  | S fuel =>
      buf ← mwrite buf p [chr0 + v mod 10];
      let v := v / 10 in
      if negb (v =? 0) then digits_loop fuel buf (p + 1) v else Some (buf, p + 1)
  end.

(** [while(s < p) { aux = *s; *s = *p; *p = aux; s++; p--; }] *)
Fixpoint swap_loop (fuel : nat) (buf : list Z) (s p : Z) : option (list Z) :=
  match fuel with
  | O => None
  | S fuel =>
      if s <? p then
        aux ← rd buf s; c ← rd buf p;
        buf ← mwrite buf s [c]; buf ← mwrite buf p [aux];
        swap_loop fuel buf (s + 1) (p - 1)
      else Some buf
  end.

(** The negation of [LLONG_MIN] overflows [long long]. *)
Definition sdsll2str (buf : list Z) (value : Z) : option (list Z * Z) :=
  v ← (if value <? 0 then if value =? LLONG_MIN then None else Some (u64 (- value)) else Some (u64 value));
  '(buf, p) ← digits_loop 20 buf 0 v;
  '(buf, p) ← (if value <? 0 then buf ← mwrite buf p [chr_minus]; Some (buf, p + 1) else Some (buf, p));
  let l := p in
  buf ← mwrite buf p [0];
  buf ← swap_loop 21 buf 0 (p - 1);
  Some (buf, l).

Definition sdsull2str (buf : list Z) (v : Z) : option (list Z * Z) :=
  '(buf, p) ← digits_loop 20 buf 0 v;
  let l := p in
  buf ← mwrite buf p [0];
  buf ← swap_loop 21 buf 0 (p - 1);
  Some (buf, l).

Definition sdsfromlonglong (value : Z) : option sds :=
  '(buf, len) ← sdsll2str (s_malloc (Z.of_nat SDS_LLSTR_SIZE)) value;
  sdsnewlen (INIT_FROM buf) len.

End operations.

(** ** In-place edits *)

(** [strchr(cset, c) != NULL]: the terminator counts as a member. *)
Fixpoint strchr (cset : list Z) (c : Z) : option bool :=
  match cset with
  | [] => None
  | d :: cset => if d =? c then Some true else if d =? 0 then Some false else strchr cset c
  end.

Fixpoint trim_left (fuel : nat) (s : sds) (cset : list Z) (sp last : Z) : option Z :=
  match fuel with
  | O => None
  | S fuel =>
      if sp <=? last then
        c ← rd (blk s) (off s + sp); b ← strchr cset c;
        if b : bool then trim_left fuel s cset (sp + 1) last else Some sp
      else Some sp
  end.

Fixpoint trim_right (fuel : nat) (s : sds) (cset : list Z) (sp ep : Z) : option Z :=
  match fuel with
  | O => None
  | S fuel =>
      if ep >? sp then
        c ← rd (blk s) (off s + ep); b ← strchr cset c;
        if b : bool then trim_right fuel s cset sp (ep - 1) else Some ep
      else Some ep
  end.

Definition sdstrim (s : sds) (cset : list Z) : option sds :=
  l ← sdslen s;
  sp ← trim_left (S (Z.to_nat l)) s cset 0 (l - 1);
  ep ← trim_right (S (Z.to_nat l)) s cset sp (l - 1);
  let len := if sp >? ep then 0 else ep - sp + 1 in
  s ← (if negb (sp =? 0) then bs ← get_bytes s sp (Z.to_nat len); put_bytes s 0 bs else Some s);
  s ← put_bytes s len [0];
  sdssetlen s len.

(** [stop] is the parameter [end]; its difference with [start] is computed in
    [ssize_t]. *)
Definition sdsrange (s : sds) (start stop : Z) : option sds :=
  len ← sdslen s;
  if len =? 0 then Some s
  else
    let start := if start <? 0 then (let start := s64 (len + start) in if start <? 0 then 0 else start) else start in
    let stop := if stop <? 0 then (let stop := s64 (len + stop) in if stop <? 0 then 0 else stop) else stop in
    newlen ← (if start >? stop then Some 0 else if stop - start + 1 >? LLONG_MAX then None else Some (stop - start + 1));
    let '(start, newlen) :=
      if negb (newlen =? 0) then
        if start >=? len then (start, 0)
        else if stop >=? len then
          let stop := len - 1 in (start, if start >? stop then 0 else stop - start + 1)
        else (start, newlen)
      else (0, newlen) in
    s ← (if negb (start =? 0) && negb (newlen =? 0) then bs ← get_bytes s start (Z.to_nat newlen); put_bytes s 0 bs
         else Some s);
    s ← put_bytes s newlen [0];
    sdssetlen s newlen.

(** The [for] loops over the characters, [f] being the body's assignment. *)
Fixpoint map_loop (f : Z -> option Z) (fuel : nat) (s : sds) (j : Z) : option sds :=
  match fuel with
  | O => Some s
  | S fuel => c ← rd (blk s) (off s + j); c ← f c; s ← put_bytes s j [c]; map_loop f fuel s (j + 1)
  end.

(** [tolower] and [toupper] in the C locale. *)
Definition tolower (c : Z) : Z := if (65 <=? c) && (c <=? 90) then c + 32 else c.
Definition toupper (c : Z) : Z := if (97 <=? c) && (c <=? 122) then c - 32 else c.

Definition sdstolower (s : sds) : option sds :=
  len ← sdslen s; map_loop (fun c => Some (tolower c)) (Z.to_nat len) s 0.
Definition sdstoupper (s : sds) : option sds :=
  len ← sdslen s; map_loop (fun c => Some (toupper c)) (Z.to_nat len) s 0.

Fixpoint map_char (setlen : nat) (from to : list Z) (i : Z) (c : Z) : option Z :=
  match setlen with
  | O => Some c
  | S n => d ← rd from i; if c =? d then rd to i else map_char n from to (i + 1) c
  end.
Definition sdsmapchars (s : sds) (from to : list Z) (setlen : nat) : option sds :=
  l ← sdslen s; map_loop (map_char setlen from to 0) (Z.to_nat l) s 0.

(** ** Comparison *)

(** The sign of [memcmp] on equally long areas. *)
Fixpoint memcmp (a b : list Z) : Z :=
  match a, b with
  | x :: a, y :: b => if x <? y then -1 else if y <? x then 1 else memcmp a b
  | _, _ => 0
  end.

Definition sdscmp (s1 s2 : sds) : option Z :=
  l1 ← sdslen s1; l2 ← sdslen s2;
  let minlen := if l1 <? l2 then l1 else l2 in
  a ← get_bytes s1 0 (Z.to_nat minlen); b ← get_bytes s2 0 (Z.to_nat minlen);
  let cmp := memcmp a b in
  Some (if cmp =? 0 then (if l1 >? l2 then 1 else if l1 <? l2 then -1 else 0) else cmp).

(** * Facts *)

(** ** Layout of the block *)

Definition wd (t : Z) : nat := default 0%nat (field_width t).

Definition is_type (t : Z) : Prop := 0 <= t <= 4.

Lemma is_type_cases t : is_type t -> t = 0 \/ t = 1 \/ t = 2 \/ t = 3 \/ t = 4.
Proof. unfold is_type. lia. Qed.

Lemma sdsHdrSize_wd t : is_type t -> sdsHdrSize t = 2 * Z.of_nat (wd t) + 1.
Proof. intros [ -> | [ -> | [ -> | [ -> | -> ]]]]%is_type_cases; reflexivity. Qed.

Lemma wd_pos t : is_type t -> t <> 0 -> field_width t = Some (wd t).
Proof. intros [ -> | [ -> | [ -> | [ -> | -> ]]]]%is_type_cases ?; done. Qed.

(** The two fields and the flags byte, whatever they hold, before [body]. *)
Record lay (s : sds) (t : Z) (L A : list Z) (f : Z) (body : list Z) : Prop := mkLay {
  lay_t : is_type t;
  lay_off : off s = 2 * Z.of_nat (wd t) + 1;
  lay_blk : blk s = L ++ A ++ [f] ++ body;
  lay_L : length L = wd t;
  lay_A : length A = wd t }.

Lemma lay_eq s t L A f body : lay s t L A f body -> s = mkSds (L ++ A ++ [f] ++ body) (2 * Z.of_nat (wd t) + 1).
Proof. intros [_ Ho Hb _ _]. destruct s; simpl in *. congruence. Qed.

Lemma flags_lay s t L A f body : lay s t L A f body -> sds_flags s = Some f.
Proof.
  intros H. rewrite (lay_eq _ _ _ _ _ _ H). destruct H as [_ _ _ HL HA]. unfold sds_flags. cbn [blk off].
  rewrite app_assoc, (mread_mid (L ++ A) [f]); [done| |done]. rewrite length_app. lia.
Qed.

Lemma hdr_len_lay s t L A f body : lay s t L A f body -> hdr_len (wd t) s = Some (le_decode L).
Proof.
  intros H. rewrite (lay_eq _ _ _ _ _ _ H). destruct H as [_ _ _ HL HA]. unfold hdr_len. cbn [blk off].
  by rewrite mread_head by lia.
Qed.

Lemma hdr_alloc_lay s t L A f body : lay s t L A f body -> hdr_alloc (wd t) s = Some (le_decode A).
Proof.
  intros H. rewrite (lay_eq _ _ _ _ _ _ H). destruct H as [_ _ _ HL HA]. unfold hdr_alloc. cbn [blk off].
  by rewrite (mread_mid L A) by lia.
Qed.

Lemma set_hdr_len_lay s t L A f body v : lay s t L A f body ->
  exists s', set_hdr_len (wd t) s v = Some s' /\ lay s' t (le_encode (wd t) v) A f body.
Proof.
  intros H. rewrite (lay_eq _ _ _ _ _ _ H). destruct H as [Ht _ _ HL HA]. unfold set_hdr_len. cbn [blk off].
  rewrite mwrite_head by (rewrite ?length_le_encode; lia). bsimpl.
  eexists. split; [done|]. constructor; rewrite ?length_le_encode; done.
Qed.

Lemma set_hdr_alloc_lay s t L A f body v : lay s t L A f body ->
  exists s', set_hdr_alloc (wd t) s v = Some s' /\ lay s' t L (le_encode (wd t) v) f body.
Proof.
  intros H. rewrite (lay_eq _ _ _ _ _ _ H). destruct H as [Ht _ _ HL HA]. unfold set_hdr_alloc. cbn [blk off].
  rewrite (mwrite_mid L A) by (rewrite ?length_le_encode; lia). bsimpl.
  eexists. split; [done|]. constructor; rewrite ?length_le_encode; done.
Qed.

Lemma set_flags_lay s t L A f body v : lay s t L A f body ->
  exists s', set_flags s v = Some s' /\ lay s' t L A (u8 v) body.
Proof.
  intros H. rewrite (lay_eq _ _ _ _ _ _ H). destruct H as [Ht _ _ HL HA]. unfold set_flags. cbn [blk off].
  rewrite app_assoc, (mwrite_mid (L ++ A) [f]) by (rewrite ?length_app; simpl; lia). bsimpl.
  eexists. split; [done|]. constructor; simpl; rewrite <- ?app_assoc; done.
Qed.

(** [body] with [bs] stored at [i]. *)
Definition patch (body : list Z) (i : Z) (bs : list Z) : list Z :=
  take (Z.to_nat i) body ++ bs ++ drop (Z.to_nat i + length bs) body.

Lemma put_bytes_lay s t L A f body i bs : lay s t L A f body ->
  0 <= i -> i + Z.of_nat (length bs) <= Z.of_nat (length body) ->
  exists s', put_bytes s i bs = Some s' /\ lay s' t L A f (patch body i bs).
Proof.
  intros H Hi Hb. rewrite (lay_eq _ _ _ _ _ _ H). destruct H as [Ht _ _ HL HA]. unfold put_bytes. cbn [blk off].
  set (b1 := take (Z.to_nat i) body). set (b2 := take (length bs) (drop (Z.to_nat i) body)).
  set (b3 := drop (Z.to_nat i + length bs) body).
  assert (body = b1 ++ b2 ++ b3) as Hsplit.
  { subst b1 b2 b3. by rewrite <- drop_drop, take_drop, take_drop. }
  replace (L ++ A ++ [f] ++ body) with ((L ++ A ++ [f] ++ b1) ++ b2 ++ b3)
    by (rewrite <- !app_assoc; by rewrite <- Hsplit).
  rewrite mwrite_mid.
  - bsimpl. eexists. split; [done|]. constructor; cbn [blk off]; rewrite <- ?app_assoc; done.
  - subst b1. rewrite !length_app, length_take. simpl. lia.
  - subst b2. rewrite length_take, length_drop. lia.
Qed.

Lemma get_bytes_lay s t L A f body i n : lay s t L A f body ->
  0 <= i -> i + Z.of_nat n <= Z.of_nat (length body) ->
  get_bytes s i n = Some (take n (drop (Z.to_nat i) body)).
Proof.
  intros H Hi Hb. rewrite (lay_eq _ _ _ _ _ _ H). destruct H as [Ht _ _ HL HA]. unfold get_bytes. cbn [blk off].
  rewrite mread_Some by (rewrite ?length_app; simpl; lia).
  replace (L ++ A ++ [f] ++ body) with ((L ++ A ++ [f]) ++ body) by by rewrite <- !app_assoc.
  rewrite drop_app_ge by (rewrite !length_app; simpl; lia). do 3 f_equal. rewrite !length_app. simpl. lia.
Qed.

Lemma rd_lay s t L A f body i : lay s t L A f body -> 0 <= i -> rd (blk s) (off s + i) = body !! Z.to_nat i.
Proof.
  intros H Hi. rewrite (lay_eq _ _ _ _ _ _ H). destruct H as [Ht _ _ HL HA]. unfold rd. cbn [blk off].
  rewrite (proj2 (Z.ltb_ge _ _)) by lia.
  replace (L ++ A ++ [f] ++ body) with ((L ++ A ++ [f]) ++ body) by by rewrite <- !app_assoc.
  rewrite lookup_app_r by (rewrite !length_app; simpl; lia). f_equal. rewrite !length_app. simpl. lia.
Qed.

(** A block of [n] bytes is a header of any layout that fits and a body. *)
Lemma lay_fresh t b : is_type t -> sdsHdrSize t <= Z.of_nat (length b) ->
  exists L A f, lay (mkSds b (sdsHdrSize t)) t L A f (drop (Z.to_nat (sdsHdrSize t)) b).
Proof.
  intros Ht Hb. pose proof (sdsHdrSize_wd t Ht) as Hs. set (w := wd t) in *.
  destruct (lookup_lt_is_Some_2 b (w + w)) as [f Hf]; [lia|].
  exists (take w b), (take w (drop w b)), f. constructor; cbn [blk off]; [done|lia| | |].
  - rewrite <- (take_drop_middle b _ f Hf) at 1.
    replace (take (w + w) b) with (take w b ++ take w (drop w b)) by by rewrite take_take_drop.
    rewrite <- app_assoc. do 4 f_equal. rewrite Hs. f_equal. lia.
  - rewrite length_take. lia.
  - rewrite length_take, length_drop. lia.
Qed.

(** ** Consistent headers *)

Abbreviation zl l := (Z.of_nat (length l)).

Definition flag (t len : Z) : Z := if t =? 0 then len * 8 else t.
Definition cap (t : Z) : Z := if t =? 0 then 32 else 2 ^ (8 * Z.of_nat (wd t)).

(** The fields hold [len] and [alloc]; a type 5 header has no [alloc]. *)
Record raw (s : sds) (t len alloc : Z) (body : list Z) : Prop := mkRaw {
  raw_lay : lay s t (le_encode (wd t) len) (le_encode (wd t) alloc) (flag t len) body;
  raw_len : 0 <= len < cap t;
  raw_alloc : 0 <= alloc < cap t }.

Lemma flag_land t len : is_type t -> Z.land (flag t len) 7 = t.
Proof.
  intros Ht. unfold flag. change 7 with (Z.ones 3). rewrite Z.land_ones by lia. change (2 ^ 3) with 8.
  destruct (Z.eqb_spec t 0); [subst; dlia|]. apply Z.mod_small. unfold is_type in Ht. lia.
Qed.

Lemma flag_u8 t len : is_type t -> 0 <= len < cap t -> u8 (flag t len) = flag t len.
Proof.
  intros Ht Hl. apply uwrap_small. unfold flag, cap, is_type in *. destruct (t =? 0); mlia.
Qed.

Lemma le_decode_cap t n : is_type t -> t <> 0 -> 0 <= n < cap t -> le_decode (le_encode (wd t) n) = n.
Proof.
  intros Ht H0 Hn. rewrite le_decode_encode, Z.mod_small; [done|]. unfold cap in Hn.
  by rewrite (proj2 (Z.eqb_neq _ _)) in Hn by done.
Qed.

Lemma sdslen_raw s t len alloc body : raw s t len alloc body -> sdslen s = Some len.
Proof.
  intros [Hl Hb _]. pose proof (lay_t _ _ _ _ _ _ Hl) as Ht. unfold sdslen, SDS_TYPE_MASK.
  rewrite (flags_lay _ _ _ _ _ _ Hl). bsimpl. rewrite flag_land by done. unfold SDS_TYPE_5, flag, SDS_TYPE_5_LEN, SDS_TYPE_BITS.
  destruct (Z.eqb_spec t 0) as [->|Hne].
  - f_equal. rewrite Z.shiftr_div_pow2 by lia. change (2 ^ 3) with 8. dlia.
  - rewrite wd_pos by done. rewrite (hdr_len_lay _ _ _ _ _ _ Hl). f_equal. by apply le_decode_cap.
Qed.

Lemma sdsalloc_raw s t len alloc body : raw s t len alloc body ->
  sdsalloc s = Some (if t =? 0 then len else alloc).
Proof.
  intros [Hl Hb Ha]. pose proof (lay_t _ _ _ _ _ _ Hl) as Ht. unfold sdsalloc, SDS_TYPE_MASK.
  rewrite (flags_lay _ _ _ _ _ _ Hl). bsimpl. rewrite flag_land by done. unfold SDS_TYPE_5, flag, SDS_TYPE_5_LEN, SDS_TYPE_BITS.
  destruct (Z.eqb_spec t 0) as [->|Hne].
  - f_equal. rewrite Z.shiftr_div_pow2 by lia. change (2 ^ 3) with 8. dlia.
  - rewrite wd_pos by done. rewrite (hdr_alloc_lay _ _ _ _ _ _ Hl). f_equal. by apply le_decode_cap.
Qed.

Lemma cap_64 t : is_type t -> cap t <= 2 ^ 64.
Proof. intros [ -> | [ -> | [ -> | [ -> | -> ]]]]%is_type_cases; by vm_compute. Qed.

Lemma sdsavail_raw s t len alloc body : raw s t len alloc body -> len <= alloc ->
  sdsavail s = Some (if t =? 0 then 0 else alloc - len).
Proof.
  intros [Hl Hb Ha] Hle. pose proof (lay_t _ _ _ _ _ _ Hl) as Ht. unfold sdsavail, SDS_TYPE_MASK.
  rewrite (flags_lay _ _ _ _ _ _ Hl). bsimpl. rewrite flag_land by done. unfold SDS_TYPE_5.
  destruct (Z.eqb_spec t 0) as [->|Hne]; [done|].
  rewrite wd_pos by done. rewrite (hdr_alloc_lay _ _ _ _ _ _ Hl), (hdr_len_lay _ _ _ _ _ _ Hl). bsimpl.
  rewrite !le_decode_cap by done. f_equal. pose proof (cap_64 t Ht).
  destruct (Z.eqb_spec t SDS_TYPE_32) as [->|]; apply uwrap_small; [|mlia].
  unfold cap in Ha. simpl in Ha. mlia.
Qed.

Lemma sdssetlen_lay s t L A f body n : lay s t L A f body -> Z.land f 7 = t -> 0 <= n < cap t ->
  exists s', sdssetlen s n = Some s' /\ lay s' t (le_encode (wd t) n) A (if t =? 0 then n * 8 else f) body.
Proof.
  intros Hl Hf Hn. pose proof (lay_t _ _ _ _ _ _ Hl) as Ht. unfold sdssetlen, SDS_TYPE_MASK.
  rewrite (flags_lay _ _ _ _ _ _ Hl). bsimpl. rewrite Hf. unfold SDS_TYPE_5.
  destruct (Z.eqb_spec t 0) as [->|Hne].
  - destruct (set_flags_lay _ _ _ _ _ _ (Z.lor 0 (Z.shiftl n SDS_TYPE_BITS)) Hl) as (s' & -> & Hs').
    exists s'. split; [done|]. rewrite Z.lor_0_l, Z.shiftl_mul_pow2 in Hs' by done.
    rewrite uwrap_small in Hs' by (unfold cap in Hn; simpl in Hn; unfold SDS_TYPE_BITS; mlia).
    by destruct L; [|destruct Hl].
  - rewrite wd_pos by done. by apply set_hdr_len_lay with L.
Qed.

Lemma sdssetalloc_lay s t L A f body n : lay s t L A f body -> Z.land f 7 = t -> 0 <= n < cap t ->
  exists s', sdssetalloc s n = Some s' /\ lay s' t L (le_encode (wd t) n) f body.
Proof.
  intros Hl Hf Hn. pose proof (lay_t _ _ _ _ _ _ Hl) as Ht. unfold sdssetalloc, SDS_TYPE_MASK.
  rewrite (flags_lay _ _ _ _ _ _ Hl). bsimpl. rewrite Hf. unfold SDS_TYPE_5.
  destruct (Z.eqb_spec t 0) as [->|Hne].
  - exists s. split; [done|]. by destruct A; [|destruct Hl].
  - rewrite wd_pos by done. by apply set_hdr_alloc_lay with A.
Qed.

Lemma sdssetlen_raw s t len alloc body n : raw s t len alloc body -> 0 <= n < cap t ->
  exists s', sdssetlen s n = Some s' /\ raw s' t n alloc body.
Proof.
  intros [Hl Hb Ha] Hn. pose proof (lay_t _ _ _ _ _ _ Hl) as Ht.
  destruct (sdssetlen_lay _ _ _ _ _ _ n Hl) as (s' & -> & Hs'); [by apply flag_land|done|].
  exists s'. split; [done|]. constructor; [|done..]. unfold flag in *. by destruct (t =? 0).
Qed.

Lemma sdssetalloc_raw s t len alloc body n : raw s t len alloc body -> 0 <= n < cap t ->
  exists s', sdssetalloc s n = Some s' /\ raw s' t len n body.
Proof.
  intros [Hl Hb Ha] Hn. pose proof (lay_t _ _ _ _ _ _ Hl) as Ht.
  destruct (sdssetalloc_lay _ _ _ _ _ _ n Hl) as (s' & -> & Hs'); [by apply flag_land|done|].
  by exists s'.
Qed.

Lemma put_bytes_raw s t len alloc body i bs : raw s t len alloc body ->
  0 <= i -> i + zl bs <= zl body -> exists s', put_bytes s i bs = Some s' /\ raw s' t len alloc (patch body i bs).
Proof.
  intros [Hl Hb Ha] Hi Hbs. destruct (put_bytes_lay _ _ _ _ _ _ i bs Hl Hi Hbs) as (s' & -> & Hs'). by exists s'.
Qed.

Lemma patch_head bs body : patch body 0 bs = bs ++ drop (length bs) body.
Proof. done. Qed.

Lemma patch_app c body i bs : i = zl c -> patch (c ++ body) i bs = c ++ bs ++ drop (length bs) body.
Proof.
  intros ->. unfold patch. by rewrite Nat2Z.id, take_app_length, <- drop_drop, drop_app_length.
Qed.

Lemma patch_app_l c body i bs : 0 <= i -> i + zl bs <= zl c -> patch (c ++ body) i bs = patch c i bs ++ body.
Proof.
  intros Hi Hb. unfold patch. rewrite take_app_le, drop_app_le by lia. by rewrite !app_assoc.
Qed.

Lemma length_patch body i bs : 0 <= i -> i + zl bs <= zl body -> length (patch body i bs) = length body.
Proof. intros. unfold patch. rewrite !length_app, length_take, length_drop. lia. Qed.

(** ** Strings *)

(** [s] holds the bytes [c], a terminator and the free space [free].  A type 5
    string that was shortened has unused bytes its header does not record. *)
Definition rep (s : sds) (c free : list Z) : Prop :=
  exists t slack, raw s t (zl c) (zl c + zl free) (c ++ 0 :: free ++ slack) /\
    (if t =? 0 then free = [] else slack = []).

(** The same with the content and the free space as parts of a body. *)
Definition room (t alloc : Z) (body : list Z) : Prop := if t =? 0 then True else zl body = alloc + 1.

Lemma rep_of_raw s t n alloc body : raw s t n alloc body -> body !! Z.to_nat n = Some 0 ->
  n <= alloc -> room t alloc body -> exists free, rep s (take (Z.to_nat n) body) free.
Proof.
  intros [Hl Hn Ha] H0 Hle Hroom. pose proof (take_drop_middle body _ 0 H0) as Hm. apply lookup_lt_Some in H0.
  assert (zl (take (Z.to_nat n) body) = n) as Hc by (rewrite length_take; lia).
  unfold rep, room in *. revert Hroom. destruct (Z.eqb_spec t 0) as [->|Hne]; intros Hroom.
  - exists [], 0, (drop (S (Z.to_nat n)) body). split; [|done]. rewrite Hc. constructor; [|done|by rewrite Z.add_0_r]. by simpl; rewrite Hm.
  - exists (drop (S (Z.to_nat n)) body), t, []. rewrite (proj2 (Z.eqb_neq _ _)) by done. split; [|done].
    rewrite Hc, app_nil_r, Hm, length_drop. replace (n + _) with alloc by lia. done.
Qed.

Lemma rep_raw s c free : rep s c free -> exists t slack,
  raw s t (zl c) (zl c + zl free) (c ++ 0 :: free ++ slack) /\ room t (zl c + zl free) (c ++ 0 :: free ++ slack) /\
  (t = 0 -> free = []).
Proof.
  intros (t & slack & Hr & Hs). exists t, slack. unfold room. destruct (Z.eqb_spec t 0); [by split_and!|].
  subst slack. split_and!; [done| |done]. rewrite app_nil_r, length_app. simpl. lia.
Qed.

Lemma sdslen_rep s c free : rep s c free -> sdslen s = Some (zl c).
Proof. intros (t & sl & Hr & _). by eapply sdslen_raw. Qed.

Lemma sdsavail_rep s c free : rep s c free -> sdsavail s = Some (zl free).
Proof.
  intros (t & sl & Hr & Ht). rewrite (sdsavail_raw _ _ _ _ _ Hr) by lia. f_equal.
  destruct (t =? 0); [by rewrite Ht|lia].
Qed.

Lemma sdsalloc_rep s c free : rep s c free -> sdsalloc s = Some (zl c + zl free).
Proof.
  intros (t & sl & Hr & Ht). rewrite (sdsalloc_raw _ _ _ _ _ Hr). f_equal.
  destruct (t =? 0); [rewrite Ht; simpl; lia|lia].
Qed.

Lemma get_bytes_rep s c free i n : rep s c free -> 0 <= i -> i + Z.of_nat n <= zl c ->
  get_bytes s i n = Some (take n (drop (Z.to_nat i) c)).
Proof.
  intros (t & sl & Hr & _) Hi Hn. rewrite (get_bytes_lay _ _ _ _ _ _ _ _ (raw_lay _ _ _ _ _ Hr)).
  - by rewrite drop_app_le, take_app_le by (rewrite ?length_drop; lia).
  - done.
  - rewrite length_app. lia.
Qed.

Lemma sdsReqType_spec n : 0 <= n < 2 ^ 64 -> is_type (sdsReqType n) /\ n < cap (sdsReqType n) /\
  (sdsReqType n = 0 -> n < 32).
Proof.
  intros Hn. unfold sdsReqType. change (Z.shiftl 1 5) with 32. change (Z.shiftl 1 8) with (2 ^ 8).
  change (Z.shiftl 1 16) with (2 ^ 16). change (Z.shiftl 1 32) with (2 ^ 32).
  unfold is_type. destruct (Z.ltb_spec n 32); [split_and!; [done..|by change (cap SDS_TYPE_5) with 32|done]|].
  destruct (Z.ltb_spec n (2 ^ 8)); [by split_and!|]. destruct (Z.ltb_spec n (2 ^ 16)); [by split_and!|].
  destruct (Z.ltb_spec n (2 ^ 32)); [by split_and!|].
  split_and!; [done..| |done]. change (cap SDS_TYPE_64) with (2 ^ 64). lia.
Qed.

Lemma sdsHdrSize_bound t : is_type t -> 1 <= sdsHdrSize t <= 17.
Proof. intros [ -> | [ -> | [ -> | [ -> | -> ]]]]%is_type_cases; by vm_compute. Qed.

Lemma mresize_grow fill b n : (length b <= n)%nat ->
  exists x, mresize fill b n = b ++ x /\ length x = (n - length b)%nat.
Proof.
  intros H. eexists. unfold mresize. rewrite firstn_all2 by done. split; [done|]. by rewrite length_fmap, length_seq.
Qed.

Lemma mresize_shrink fill b n : (n <= length b)%nat -> mresize fill b n = take n b.
Proof. intros H. unfold mresize. replace (n - length b)%nat with 0%nat by lia. apply app_nil_r. Qed.

Section operations_facts.
Context (fill : nat -> Z).

(** The bytes an [init] argument stands for. *)
Definition init_bytes (i : init) (n : Z) (c : list Z) : Prop :=
  match i with
  | SDS_NOINIT => zl c = n
  | INIT_NULL => c = replicate (Z.to_nat n) 0
  | INIT_FROM p => n <= zl p /\ c = take (Z.to_nat n) p
  end.

Lemma init_header s t L A f body n : lay s t L A f body -> 0 <= n < cap t ->
  exists s', (if t =? SDS_TYPE_5 then set_flags s (Z.lor t (Z.shiftl n SDS_TYPE_BITS))
       else match field_width t with
            | Some w => s ← set_hdr_len w s n; s ← set_hdr_alloc w s n; set_flags s t
            | None => Some s
            end) = Some s' /\ raw s' t n n body.
Proof.
  intros Hl Hn. pose proof (lay_t _ _ _ _ _ _ Hl) as Ht. unfold SDS_TYPE_5.
  destruct (Z.eqb_spec t 0) as [->|Hne].
  - destruct (set_flags_lay _ _ _ _ _ _ (Z.lor 0 (Z.shiftl n SDS_TYPE_BITS)) Hl) as (s' & -> & Hs').
    exists s'. split; [done|]. rewrite Z.lor_0_l, Z.shiftl_mul_pow2 in Hs' by done.
    rewrite uwrap_small in Hs' by (unfold cap in Hn; simpl in Hn; unfold SDS_TYPE_BITS; mlia).
    constructor; [|done..]. destruct L; [|by destruct Hl]. destruct A; [done|by destruct Hl].
  - rewrite wd_pos by done.
    destruct (set_hdr_len_lay _ _ _ _ _ _ n Hl) as (s1 & -> & H1). bsimpl.
    destruct (set_hdr_alloc_lay _ _ _ _ _ _ n H1) as (s2 & -> & H2). bsimpl.
    destruct (set_flags_lay _ _ _ _ _ _ t H2) as (s3 & -> & H3). exists s3. split; [done|].
    rewrite uwrap_small in H3 by (unfold is_type in Ht; mlia). constructor; [|done..].
    unfold flag. by rewrite (proj2 (Z.eqb_neq _ _)) by done.
Qed.

Lemma sdsnewlen_rep i n : 0 <= n < 2 ^ 62 -> (forall p, i = INIT_FROM p -> n <= zl p) ->
  exists s c, sdsnewlen fill i n = Some s /\ rep s c [] /\ init_bytes i n c.
Proof.
  intros Hn Hp. unfold sdsnewlen.
  destruct (sdsReqType_spec n) as (Ht0 & Hcap0 & _); [mlia|].
  set (t := if (sdsReqType n =? SDS_TYPE_5) && (n =? 0) then SDS_TYPE_8 else sdsReqType n).
  assert (is_type t /\ n < cap t) as [Ht Hcap].
  { subst t. destruct (sdsReqType n =? SDS_TYPE_5), (Z.eqb_spec n 0); simpl; try done.
    subst. split; [by unfold is_type, SDS_TYPE_8|by vm_compute]. }
  pose proof (sdsHdrSize_bound t Ht) as Hh. rewrite uwrap_small by mlia.
  set (b0 := s_malloc fill _). set (b := match i with INIT_NULL => _ | _ => _ end).
  assert (zl b0 = sdsHdrSize t + n + 1) as Hb0 by (subst b0; unfold s_malloc; rewrite length_mresize; lia).
  assert (zl b = sdsHdrSize t + n + 1) as Hb by (subst b; destruct i; rewrite ?length_replicate; lia).
  destruct (lay_fresh t b Ht) as (L & A & f & Hl); [lia|].
  destruct (init_header _ _ _ _ _ _ n Hl) as (s1 & -> & H1); [lia|]. bsimpl.
  set (body := drop _ b) in *. assert (zl body = n + 1) as Hbody by (subst body; rewrite length_drop; lia).
  assert (exists s2 c x, match i with
      | INIT_FROM p => if negb (n =? 0) then bs ← mread p 0 (Z.to_nat n); put_bytes s1 0 bs else Some s1
      | _ => Some s1 end = Some s2 /\ raw s2 t n n (c ++ [x]) /\ zl c = n /\ init_bytes i n c) as (s2 & c & x & -> & H2 & Hc & Hi).
  { destruct (lookup_lt_is_Some_2 body (Z.to_nat n)) as [x Hx]; [lia|].
    pose proof (take_drop_middle body _ x Hx) as Hm. rewrite (drop_ge body) in Hm by lia.
    assert (zl (take (Z.to_nat n) body) = n) by (rewrite length_take; lia).
    destruct i as [| |p]; simpl.
    - exists s1, (take (Z.to_nat n) body), x. split_and!; [done|by rewrite Hm|done|done].
    - exists s1, (take (Z.to_nat n) body), x. split_and!; [done|by rewrite Hm|done|].
      subst body b. rewrite drop_replicate, take_replicate. f_equal. lia.
    - specialize (Hp p eq_refl). destruct (Z.eqb_spec n 0) as [->|Hne]; simpl.
      { exists s1, [], x. split_and!; [done| |done|done|done]. change ([] ++ [x]) with (take (Z.to_nat 0) body ++ [x]). by rewrite Hm. }
      rewrite mread_Some by lia. bsimpl. rewrite drop_0.
      destruct (put_bytes_raw _ _ _ _ _ 0 (take (Z.to_nat n) p) H1) as (s2 & -> & H2); [done|rewrite length_take; lia|].
      exists s2, (take (Z.to_nat n) p), x. rewrite length_take. split_and!; [done| |lia|done|done].
      rewrite <- Hm, patch_head, length_take in H2. rewrite Nat.min_l in H2 by lia.
      by rewrite drop_app_length' in H2 by (rewrite length_take; lia). }
  bsimpl. destruct (put_bytes_raw _ _ _ _ _ n [0] H2) as (s3 & -> & H3); [lia|rewrite length_app; simpl; lia|].
  exists s3, c. rewrite patch_app in H3 by done. split_and!; [done| |done].
  exists t, []. split; [|by destruct (t =? 0)]. simpl in H3. by rewrite Hc, Z.add_0_r.
Qed.

(** The allocation size [sdsMakeRoomFor] chooses. *)
Definition prealloc (n : Z) : Z := if n <? SDS_MAX_PREALLOC then n * 2 else n + SDS_MAX_PREALLOC.


(** A string moved to a fresh block of another layout. *)
Lemma move_string t c n : is_type t -> zl c <= n -> 0 <= n < cap t -> n < 2 ^ 63 ->
  exists s free, (s ← put_bytes (mkSds (s_malloc fill (u64 (sdsHdrSize t + n + 1))) (sdsHdrSize t)) 0 (c ++ [0]);
             s ← set_flags s t; s ← sdssetlen s (zl c); sdssetalloc s n) = Some s /\
    raw s t (zl c) n (c ++ 0 :: free) /\ zl free = n - zl c.
Proof.
  intros Ht Hc Hn H63. pose proof (sdsHdrSize_bound t Ht) as Hh. rewrite uwrap_small by mlia.
  set (b := s_malloc fill _).
  assert (zl b = sdsHdrSize t + n + 1) as Hb by (subst b; unfold s_malloc; rewrite length_mresize; lia).
  destruct (lay_fresh t b Ht) as (L & A & f & Hl); [lia|].
  set (body := drop _ b) in *. assert (zl body = n + 1) as Hbody by (subst body; rewrite length_drop; lia).
  destruct (put_bytes_lay _ _ _ _ _ _ 0 (c ++ [0]) Hl) as (s1 & -> & H1); [done|rewrite length_app; simpl; lia|]. bsimpl.
  destruct (set_flags_lay _ _ _ _ _ _ t H1) as (s2 & -> & H2). bsimpl.
  rewrite uwrap_small in H2 by (unfold is_type in Ht; mlia).
  assert (Z.land t 7 = t) as Hland by (pose proof (flag_land t 0 Ht) as Hf; unfold flag in Hf; by destruct (Z.eqb_spec t 0) as [->|]).
  destruct (sdssetlen_lay _ _ _ _ _ _ (zl c) H2) as (s3 & -> & H3); [done|lia|]. bsimpl.
  destruct (sdssetalloc_lay _ _ _ _ _ _ n H3) as (s4 & -> & H4); [|done|].
  { pose proof (flag_land t (zl c) Ht) as Hf. unfold flag in Hf. destruct (t =? 0); [done|done]. }
  exists s4, (drop (length (c ++ [0])) body). split_and!; [done| |rewrite length_drop, length_app; simpl; lia].
  constructor; [|lia|done]. rewrite patch_head, <- app_assoc in H4. exact H4.
Qed.

(** A string whose block is enlarged in place. *)
Lemma grow_string s t c free n : raw s t (zl c) (zl c + zl free) (c ++ 0 :: free) ->
  zl c + zl free <= n < cap t -> n < 2 ^ 63 ->
  exists s' free', sdssetalloc (mkSds (s_realloc fill (blk s) (u64 (sdsHdrSize t + n + 1))) (sdsHdrSize t)) n = Some s' /\
    raw s' t (zl c) n (c ++ 0 :: free') /\ zl c + zl free' = n.
Proof.
  intros [Hl Hrl Hra] Hn H63. pose proof (lay_t _ _ _ _ _ _ Hl) as Ht.
  pose proof (sdsHdrSize_bound t Ht) as Hh. rewrite uwrap_small by mlia. unfold s_realloc.
  pose proof (sdsHdrSize_wd t Ht) as Hw. rewrite (lay_eq _ _ _ _ _ _ Hl). cbn [blk].
  destruct (mresize_grow fill (le_encode (wd t) (zl c) ++ le_encode (wd t) (zl c + zl free) ++ [flag t (zl c)] ++ c ++ 0 :: free)
              (Z.to_nat (sdsHdrSize t + n + 1))) as (x & -> & Hx).
  { rewrite !length_app, !length_le_encode. simpl. lia. }
  rewrite !length_app, !length_le_encode in Hx. simpl in Hx.
  match goal with |- context [sdssetalloc ?s0 n] => assert (raw s0 t (zl c) (zl c + zl free) (c ++ 0 :: free ++ x)) as Hr0 end.
  { constructor; [|done..]. constructor; cbn [blk off]; rewrite ?length_le_encode; try done.
    by rewrite <- !app_assoc. }
  destruct (sdssetalloc_raw _ _ _ _ _ n Hr0) as (s' & -> & Hs'); [lia|].
  exists s', (free ++ x). rewrite length_app. split_and!; [done|done|lia].
Qed.

Lemma rep_move s t c free : raw s t (zl c) (zl c + zl free) (c ++ 0 :: free) -> (t = 0 -> free = []) -> rep s c free.
Proof.
  intros Hr Ht. exists t, []. rewrite app_nil_r. split; [done|]. destruct (Z.eqb_spec t 0); auto.
Qed.

Lemma sdsMakeRoomFor_rep s c free addlen : rep s c free -> 0 <= addlen -> zl c + addlen < 2 ^ 62 ->
  exists s' free', sdsMakeRoomFor fill s addlen = Some s' /\ rep s' c free' /\
    (addlen <= zl free /\ s' = s /\ free' = free \/
     zl free < addlen /\ zl c + zl free' = prealloc (zl c + addlen)).
Proof.
  intros Hr Ha Hsz. unfold sdsMakeRoomFor.
  rewrite (sdsavail_rep _ _ _ Hr), (sdslen_rep _ _ _ Hr). pose proof Hr as Hr0. destruct Hr as (t & sl & Hr & Ht).
  pose proof (lay_t _ _ _ _ _ _ (raw_lay _ _ _ _ _ Hr)) as Htt. bsimpl.
  rewrite (flags_lay _ _ _ _ _ _ (raw_lay _ _ _ _ _ Hr)). bsimpl. change SDS_TYPE_MASK with 7. rewrite flag_land by done.
  rewrite Z.geb_leb. destruct (Z.leb_spec addlen (zl free)) as [Hle|Hgt].
  { exists s, free. split_and!; [done|done|by left]. }
  rewrite (uwrap_small 64 (zl c + addlen)) by mlia.
  assert ((if zl c + addlen <? SDS_MAX_PREALLOC then u64 ((zl c + addlen) * 2) else u64 (zl c + addlen + SDS_MAX_PREALLOC))
          = prealloc (zl c + addlen)) as ->.
  { unfold prealloc, SDS_MAX_PREALLOC. destruct (Z.ltb_spec (zl c + addlen) (1024 * 1024)); apply uwrap_small; mlia. }
  set (n := prealloc (zl c + addlen)).
  assert (zl c + addlen < n <= 2 ^ 62 + 2 ^ 21) as Hn by (subst n; unfold prealloc, SDS_MAX_PREALLOC; destruct (Z.ltb_spec (zl c + addlen) (1024 * 1024)); mlia).
  destruct (sdsReqType_spec n) as (Hq & Hqc & _); [mlia|].
  set (t' := if sdsReqType n =? SDS_TYPE_5 then SDS_TYPE_8 else sdsReqType n).
  assert (is_type t' /\ n < cap t' /\ t' <> 0) as (Ht' & Hc' & Hne').
  { subst t'. destruct (Z.eqb_spec (sdsReqType n) SDS_TYPE_5) as [He|He]; [|done].
    rewrite He in Hqc. change (cap SDS_TYPE_5) with 32 in Hqc. change (cap SDS_TYPE_8) with 256.
    split_and!; [by unfold is_type, SDS_TYPE_8|lia|done]. }
  destruct (Z.eqb_spec t t') as [->|Hd].
  - rewrite (proj2 (Z.eqb_neq _ _)) in Ht by done. subst sl. rewrite app_nil_r in Hr.
    destruct (grow_string s t' c free n Hr) as (s' & free' & Hg & Hs' & Hf); [lia|mlia|].
    exists s', free'. bsimpl. split_and!; [done|apply rep_move with t'; by rewrite ?Hf|right; lia].
  - rewrite (get_bytes_lay _ _ _ _ _ _ _ _ (raw_lay _ _ _ _ _ Hr)) by (rewrite ?length_app; simpl; lia). bsimpl.
    replace (take _ (drop _ _)) with (c ++ [0]).
    2: { rewrite drop_0. replace (Z.to_nat (zl c + 1)) with (length c + 1)%nat by lia. by rewrite take_app_add. }
    destruct (move_string t' c n Ht') as (s' & free' & Hm & Hs' & Hf); [lia|lia|mlia|].
    exists s', free'. split_and!.
    + revert Hm. bsimpl. destruct (put_bytes _ _ _) as [s1|]; [bsimpl|done]. destruct (set_flags _ _) as [s2|]; [bsimpl|done].
      destruct (sdssetlen _ _) as [s3|]; [bsimpl|done]. done.
    + apply rep_move with t'; [by replace (zl c + zl free') with n by lia|done].
    + right. lia.
Qed.

Lemma sdsRemoveFreeSpace_rep s c free : rep s c free -> zl c < 2 ^ 62 ->
  exists s', sdsRemoveFreeSpace fill s = Some s' /\ rep s' c [].
Proof.
  intros Hr0 Hsz. unfold sdsRemoveFreeSpace. pose proof Hr0 as (t & sl & Hr & Ht0).
  pose proof (raw_lay _ _ _ _ _ Hr) as Hl. pose proof (lay_t _ _ _ _ _ _ Hl) as Ht.
  rewrite (flags_lay _ _ _ _ _ _ Hl). bsimpl. rewrite (sdslen_rep _ _ _ Hr0), (sdsavail_rep _ _ _ Hr0). bsimpl.
  change SDS_TYPE_MASK with 7. rewrite flag_land by done.
  destruct (Z.eqb_spec (zl free) 0) as [Hz|Hnz].
  { destruct free; [|simpl in Hz; lia]. by exists s. }
  destruct (sdsReqType_spec (zl c)) as (Hq & Hqc & _); [mlia|].
  assert (t <> 0 /\ sl = []) as [Hne ->] by (destruct (Z.eqb_spec t 0); [by subst free|done]).
  rewrite app_nil_r in *. destruct ((t =? _) || _).
  - pose proof (sdsHdrSize_bound t Ht) as Hh. pose proof (sdsHdrSize_wd t Ht) as Hw. rewrite uwrap_small by mlia.
    unfold s_realloc. destruct Hr as [_ Hrl Hra]. rewrite (lay_eq _ _ _ _ _ _ Hl). cbn [blk].
    rewrite mresize_shrink by (rewrite !length_app, !length_le_encode; simpl; lia). bsimpl.
    match goal with |- context [sdssetalloc ?s0 _] => assert (raw s0 t (zl c) (zl c + zl free) (c ++ [0])) as Hr1 end.
    { constructor; [|done..]. constructor; cbn [blk off]; rewrite ?length_le_encode; try done.
      rewrite take_app_ge, take_app_ge, take_app_ge, take_app_ge by (rewrite ?length_le_encode; simpl; lia).
      rewrite !length_le_encode. simpl. do 4 f_equal.
      replace (_ - _)%nat with 1%nat by lia. done. }
    destruct (sdssetalloc_raw _ _ _ _ _ (zl c) Hr1) as (s' & -> & Hs'); [lia|].
    exists s'. split; [done|]. apply rep_move with t; [|done]. simpl. by rewrite Z.add_0_r.
  - rewrite (get_bytes_lay _ _ _ _ _ _ _ _ Hl) by (rewrite ?length_app; simpl; lia). bsimpl.
    replace (take _ (drop _ _)) with (c ++ [0]).
    2: { rewrite drop_0. replace (Z.to_nat (zl c + 1)) with (length c + 1)%nat by lia. by rewrite take_app_add. }
    destruct (move_string (sdsReqType (zl c)) c (zl c) Hq) as (s' & free' & Hm & Hs' & Hf); [lia|lia|mlia|].
    exists s'. split.
    + revert Hm. bsimpl. destruct (put_bytes _ _ _) as [s1|]; [bsimpl|done]. destruct (set_flags _ _) as [s2|]; [bsimpl|done].
      destruct (sdssetlen _ _) as [s3|]; [bsimpl|done]. done.
    + apply rep_move with (sdsReqType (zl c)); [|by destruct free'; [|simpl in Hf; lia]]. destruct free'; [|simpl in Hf; lia]. simpl. by rewrite Z.add_0_r.
Qed.

Lemma sdsgrowzero_rep s c free n : rep s c free -> 0 <= n < 2 ^ 62 -> zl c < 2 ^ 62 ->
  exists s' free', sdsgrowzero fill s n = Some s' /\ rep s' (c ++ replicate (Z.to_nat n - length c) 0) free'.
Proof.
  intros Hr Hn Hc. unfold sdsgrowzero. rewrite (sdslen_rep _ _ _ Hr). bsimpl.
  destruct (Z.leb_spec n (zl c)).
  { exists s, free. split; [done|]. replace (Z.to_nat n - length c)%nat with 0%nat by lia. by rewrite app_nil_r. }
  destruct (sdsMakeRoomFor_rep s c free (n - zl c) Hr) as (s1 & free1 & -> & H1 & Hroom); [lia|lia|]. bsimpl.
  assert (n - zl c <= zl free1) as Hf by (unfold prealloc, SDS_MAX_PREALLOC in Hroom; destruct Hroom as [(? & _ & ->)|[_ ?]]; [done|destruct (Z.ltb_spec (zl c + (n - zl c)) (1024 * 1024)); lia]).
  destruct (rep_raw _ _ _ H1) as (t & sl & Hraw & Hrm & _).
  destruct (put_bytes_raw _ _ _ _ _ (zl c) (replicate (Z.to_nat (n - zl c + 1)) 0) Hraw) as (s2 & -> & H2);
    [lia|rewrite length_replicate, length_app; simpl; rewrite length_app; lia|]. bsimpl.
  pose proof (raw_alloc _ _ _ _ _ Hraw).
  destruct (sdssetlen_raw _ _ _ _ _ n H2) as (s3 & -> & H3); [lia|].
  exists s3. rewrite patch_app, length_replicate in H3 by done.
  replace (Z.to_nat (n - zl c + 1)) with (Z.to_nat n - length c + 1)%nat in H3 by lia. rewrite replicate_add in H3.
  set (z := replicate (Z.to_nat n - length c) 0) in *.
  assert (length (c ++ z) = Z.to_nat n) as Hlen by (subst z; rewrite length_app, length_replicate; lia).
  set (body := c ++ (z ++ replicate 1 0) ++ drop (Z.to_nat n - length c + 1) (0 :: free1 ++ sl)) in *.
  assert (body = (c ++ z) ++ 0 :: drop (Z.to_nat n - length c + 1) (0 :: free1 ++ sl)) as Hbody
    by (subst body; by rewrite <- !app_assoc).
  destruct (rep_of_raw _ _ _ _ _ H3) as (free' & Hrep).
  - rewrite Hbody, lookup_app_r by lia. by rewrite Hlen, Nat.sub_diag.
  - lia.
  - unfold room in *. destruct (t =? 0); [done|]. rewrite <- Hrm. subst body z.
    rewrite !length_app, length_drop. simpl. rewrite length_app, length_replicate. lia.
  - exists free'. split; [done|]. by rewrite Hbody, <- Hlen, take_app_length in Hrep.
Qed.

(** The two ways the routines end a string at position [n]. *)
Lemma end_string s t len alloc body n : raw s t len alloc body -> room t alloc body ->
  0 <= n <= alloc -> n < zl body ->
  (exists s' free, (s ← put_bytes s n [0]; sdssetlen s n) = Some s' /\ rep s' (take (Z.to_nat n) body) free) /\
  (exists s' free, (s ← sdssetlen s n; put_bytes s n [0]) = Some s' /\ rep s' (take (Z.to_nat n) body) free).
Proof.
  intros Hraw Hrm Hn Hb. pose proof (raw_alloc _ _ _ _ _ Hraw).
  assert (forall s', raw s' t n alloc (patch body n [0]) -> exists free, rep s' (take (Z.to_nat n) body) free) as Hend.
  { intros s' Hs'. replace (take (Z.to_nat n) body) with (take (Z.to_nat n) (patch body n [0])).
    - eapply rep_of_raw; [done| |lia|].
      + unfold patch. rewrite lookup_app_r, length_take, Nat.min_l by (rewrite ?length_take; lia). by rewrite Nat.sub_diag.
      + unfold room in *. destruct (t =? 0); [done|]. by rewrite length_patch by (simpl; lia).
    - unfold patch. rewrite take_app_le, take_take by (rewrite length_take; lia). f_equal. lia. }
  split.
  - destruct (put_bytes_raw _ _ _ _ _ n [0] Hraw) as (s1 & -> & H1); [lia|simpl; lia|]. bsimpl.
    destruct (sdssetlen_raw _ _ _ _ _ n H1) as (s2 & -> & H2); [lia|]. destruct (Hend _ H2) as [free ?]. by exists s2, free.
  - destruct (sdssetlen_raw _ _ _ _ _ n Hraw) as (s1 & -> & H1); [lia|]. bsimpl.
    destruct (put_bytes_raw _ _ _ _ _ n [0] H1) as (s2 & -> & H2); [lia|simpl; lia|]. destruct (Hend _ H2) as [free ?]. by exists s2, free.
Qed.

Lemma sdsclear_rep s c free : rep s c free -> exists s' free', sdsclear s = Some s' /\ rep s' [] free'.
Proof.
  intros Hr. destruct (rep_raw _ _ _ Hr) as (t & sl & Hraw & Hrm & _).
  destruct (end_string _ _ _ _ _ 0 Hraw Hrm) as [_ (s' & free' & He & Hs')]; [lia|rewrite length_app; simpl; lia|].
  by exists s', free'.
Qed.

Lemma room_grow (free c free1 : list Z) addlen (s1 s : sds) :
  (addlen <= zl free /\ s1 = s /\ free1 = free \/ zl free < addlen /\ zl c + zl free1 = prealloc (zl c + addlen)) ->
  0 <= addlen -> addlen <= zl free1.
Proof.
  unfold prealloc, SDS_MAX_PREALLOC. intros [(? & _ & ->)|[_ Hp]] Ha; [done|]. destruct (Z.ltb_spec (zl c + addlen) (1024 * 1024)); lia.
Qed.

Lemma sdscatlen_rep s c free t n : rep s c free -> 0 <= n <= zl t -> zl c + n < 2 ^ 62 ->
  exists s' free', sdscatlen fill s t n = Some s' /\ rep s' (c ++ take (Z.to_nat n) t) free'.
Proof.
  intros Hr Hn Hsz. unfold sdscatlen. rewrite (sdslen_rep _ _ _ Hr). bsimpl.
  destruct (sdsMakeRoomFor_rep s c free n Hr) as (s1 & free1 & -> & H1 & Hroom); [lia|lia|]. bsimpl.
  apply room_grow in Hroom; [|lia]. rewrite mread_Some, drop_0 by lia. bsimpl. set (t' := take (Z.to_nat n) t).
  assert (zl t' = n) as Ht' by (subst t'; rewrite length_take; lia).
  destruct (rep_raw _ _ _ H1) as (ty & sl & Hraw & Hrm & _).
  destruct (put_bytes_raw _ _ _ _ _ (zl c) t' Hraw) as (s2 & -> & H2);
    [lia|rewrite length_app; simpl; rewrite length_app; lia|]. bsimpl.
  rewrite (uwrap_small 64) by mlia. rewrite patch_app in H2 by done.
  destruct (end_string _ _ _ _ _ (zl c + n) H2) as [_ (s' & free' & -> & Hs')].
  - unfold room in *. destruct (ty =? 0); [done|]. rewrite <- Hrm, !length_app, length_drop. simpl. rewrite length_app. lia.
  - lia.
  - rewrite !length_app, length_drop. simpl. rewrite length_app. lia.
  - exists s', free'. split; [done|]. rewrite app_assoc, take_app_le in Hs' by (rewrite length_app; lia).
    by rewrite firstn_all2 in Hs' by (rewrite length_app; lia).
Qed.

Lemma sdscpylen_rep s c free t n : rep s c free -> 0 <= n <= zl t -> n < 2 ^ 62 -> zl c < 2 ^ 62 ->
  exists s' free', sdscpylen fill s t n = Some s' /\ rep s' (take (Z.to_nat n) t) free'.
Proof.
  intros Hr Hn Hsz Hc. unfold sdscpylen. rewrite (sdsalloc_rep _ _ _ Hr). bsimpl.
  assert (exists s1 free1, (if zl c + zl free <? n then l ← sdslen s; sdsMakeRoomFor fill s (u64 (n - l)) else Some s) = Some s1 /\
            rep s1 c free1 /\ n <= zl c + zl free1) as (s1 & free1 & -> & H1 & Hle).
  { destruct (Z.ltb_spec (zl c + zl free) n); [|exists s, free; split_and!; [done|done|lia]].
    rewrite (sdslen_rep _ _ _ Hr). bsimpl. rewrite uwrap_small by mlia.
    destruct (sdsMakeRoomFor_rep s c free (n - zl c) Hr) as (s1 & free1 & -> & H1 & Hroom); [lia|lia|].
    apply room_grow in Hroom; [|lia]. exists s1, free1. split_and!; [done|done|lia]. }
  bsimpl. rewrite mread_Some, drop_0 by lia. bsimpl. set (t' := take (Z.to_nat n) t).
  assert (zl t' = n) as Ht' by (subst t'; rewrite length_take; lia).
  destruct (rep_raw _ _ _ H1) as (ty & sl & Hraw & Hrm & _).
  destruct (put_bytes_raw _ _ _ _ _ 0 t' Hraw) as (s2 & -> & H2);
    [lia|rewrite length_app; simpl; rewrite length_app; lia|]. bsimpl. rewrite patch_head in H2.
  destruct (end_string _ _ _ _ _ n H2) as [(s' & free' & He & Hs') _].
  - unfold room in *. destruct (ty =? 0); [done|]. rewrite <- Hrm, !length_app, length_drop, !length_app. simpl. rewrite length_app. lia.
  - lia.
  - rewrite !length_app, length_drop, !length_app. simpl. rewrite length_app. lia.
  - exists s', free'. split; [exact He|]. by rewrite take_app_le, firstn_all2 in Hs' by lia.
Qed.

Lemma sdsdup_rep s c free : rep s c free -> zl c < 2 ^ 62 -> exists s', sdsdup fill s = Some s' /\ rep s' c [].
Proof.
  intros Hr Hc. unfold sdsdup. rewrite (sdslen_rep _ _ _ Hr). bsimpl.
  rewrite (get_bytes_rep _ _ _ _ _ Hr) by lia. bsimpl. rewrite drop_0, Nat2Z.id, firstn_all.
  destruct (sdsnewlen_rep (INIT_FROM c) (zl c)) as (s' & c' & -> & H1 & _ & ->); [lia|by intros p [= ->]|].
  rewrite Nat2Z.id, firstn_all in H1. by exists s'.
Qed.

End operations_facts.

(** Moving [m] bytes from position [a] to the front and ending there. *)
Lemma front_rep s c free a m (mv : bool) : rep s c free -> 0 <= a -> 0 <= m -> a + m <= zl c \/ m = 0 ->
  (mv = false -> a = 0 \/ m = 0) -> (mv = true -> a + m <= zl c) ->
  exists s' free',
    (s ← (if mv then bs ← get_bytes s a (Z.to_nat m); put_bytes s 0 bs else Some s);
     s ← put_bytes s m [0]; sdssetlen s m) = Some s' /\
    rep s' (take (Z.to_nat m) (drop (Z.to_nat a) c)) free'.
Proof.
  intros Hr Ha Hm Hb Hmv Hmt. destruct (rep_raw _ _ _ Hr) as (t & sl & Hraw & Hrm & _).
  destruct mv; bsimpl.
  - specialize (Hmt eq_refl). rewrite (get_bytes_rep _ _ _ _ _ Hr) by lia. bsimpl.
    set (bs := take _ _). assert (zl bs = m) as Hbs by (subst bs; rewrite length_take, length_drop; lia).
    destruct (put_bytes_raw _ _ _ _ _ 0 bs Hraw) as (s1 & -> & H1); [done|rewrite length_app; lia|]. bsimpl.
    rewrite patch_head in H1.
    destruct (end_string _ _ _ _ _ m H1) as [(s' & free' & -> & Hs') _].
    + unfold room in *. destruct (t =? 0); [done|]. rewrite <- Hrm, !length_app, length_drop, !length_app. simpl. lia.
    + lia.
    + rewrite !length_app, length_drop, !length_app. simpl. lia.
    + exists s', free'. split; [done|]. by rewrite take_app_le, firstn_all2 in Hs' by lia.
  - destruct (end_string _ _ _ _ _ m Hraw Hrm) as [(s' & free' & -> & Hs') _]; [lia|rewrite length_app; simpl; lia|].
    exists s', free'. split; [done|]. destruct (Hmv eq_refl) as [-> | ->].
    + rewrite drop_0. by rewrite take_app_le in Hs' by lia.
    + by rewrite take_0 in Hs' |- *.
Qed.

(** The substring [sdsrange] selects. *)
Definition range_bytes (c : list Z) (start stop : Z) : list Z :=
  let a := if start <? 0 then Z.max 0 (zl c + start) else start in
  let b := if stop <? 0 then Z.max 0 (zl c + stop) else stop in
  take (Z.to_nat (b + 1) - Z.to_nat a) (drop (Z.to_nat a) c).

Lemma clamp n x : 0 <= n < 2 ^ 62 -> - 2 ^ 62 < x ->
  (if x <? 0 then (let y := s64 (n + x) in if y <? 0 then 0 else y) else x) = (if x <? 0 then Z.max 0 (n + x) else x).
Proof.
  intros Hn Hx. destruct (Z.ltb_spec x 0); [|done]. cbv zeta. rewrite swrap_small by mlia.
  destruct (Z.ltb_spec (n + x) 0); lia.
Qed.

Lemma sdsrange_rep s c free start stop : rep s c free -> zl c < 2 ^ 62 ->
  - 2 ^ 62 < start < 2 ^ 62 -> - 2 ^ 62 < stop < 2 ^ 62 ->
  exists s' free', sdsrange s start stop = Some s' /\ rep s' (range_bytes c start stop) free'.
Proof.
  intros Hr Hc H1 H2. unfold sdsrange. rewrite (sdslen_rep _ _ _ Hr). bsimpl.
  destruct (Z.eqb_spec (zl c) 0) as [Hz|Hz].
  { exists s, free. split; [done|]. destruct c; [|done]. unfold range_bytes. by rewrite drop_nil, take_nil. }
  rewrite !clamp by lia. unfold range_bytes.
  set (a := if start <? 0 then _ else _). set (b := if stop <? 0 then _ else _).
  assert (0 <= a < 2 ^ 62 /\ 0 <= b < 2 ^ 62) as [Ha Hb] by (subst a b; destruct (Z.ltb_spec start 0), (Z.ltb_spec stop 0); lia).
  rewrite !Z.gtb_ltb, !Z.geb_leb. rewrite (proj2 (Z.ltb_ge LLONG_MAX (b - a + 1))) by mlia.
  destruct (Z.ltb_spec b a) as [Hlt|Hge]; bsimpl.
  - cbn [negb Z.eqb]. destruct (front_rep s c free 0 0 false Hr) as (s' & free' & He & Hs'); [lia..|right; done|by left|done|].
    exists s', free'. split; [exact He|]. replace (Z.to_nat (b + 1) - Z.to_nat a)%nat with 0%nat by lia. exact Hs'.
  - rewrite (proj2 (Z.eqb_neq (b - a + 1) 0)) by lia. cbn [negb].
    destruct (Z.leb_spec (zl c) a) as [Hal|Hal].
    + cbn [negb Z.eqb]. rewrite andb_false_r.
      destruct (front_rep s c free 0 0 false Hr) as (s' & free' & He & Hs'); [lia..|right; done|by left|done|].
      exists s', free'. split; [exact He|]. rewrite (drop_ge c) by lia. by rewrite take_nil.
    + set (m := Z.min b (zl c - 1) - a + 1).
      replace (if zl c <=? b then (a, if zl c - 1 <? a then 0 else zl c - 1 - a + 1) else (a, b - a + 1)) with (a, m).
      2: { subst m. destruct (Z.leb_spec (zl c) b); [rewrite (proj2 (Z.ltb_ge _ _)) by lia|]; f_equal; lia. }
      cbv iota beta. rewrite (proj2 (Z.eqb_neq m 0)) by lia. rewrite andb_true_r.
      destruct (front_rep s c free a m (negb (a =? 0)) Hr) as (s' & free' & He & Hs'); [lia..| | |].
      { destruct (Z.eqb_spec a 0); [by left|done]. } { lia. }
      exists s', free'. split; [exact He|].
      destruct (Z.le_ge_cases b (zl c - 1)); [by replace (Z.to_nat (b + 1) - Z.to_nat a)%nat with (Z.to_nat m) by lia|].
      rewrite firstn_all2 in Hs' |- * by (rewrite length_drop; lia). exact Hs'.
Qed.

(** ** Trimming *)

Fixpoint dropwhile (p : Z -> bool) (l : list Z) : list Z :=
  match l with
  | [] => []
  | x :: l' => if p x then dropwhile p l' else l
  end.
Definition rtrim (p : Z -> bool) (l : list Z) : list Z := reverse (dropwhile p (reverse l)).
Definition trim (p : Z -> bool) (l : list Z) : list Z := rtrim p (dropwhile p l).

(** The characters [strchr] finds in a C string: its own and the NUL. *)
Definition in_cset (cset : list Z) (c : Z) : bool := bool_decide (c = 0 \/ c ∈ cset).

Lemma strchr_spec cset rest c : (0 : Z) ∉ cset -> strchr (cset ++ 0 :: rest) c = Some (in_cset cset c).
Proof.
  unfold in_cset. induction cset as [|d cset IH]; intros H0; cbn [strchr app].
  - destruct (Z.eqb_spec 0 c) as [<-|Hne]; [by rewrite bool_decide_eq_true_2 by auto|].
    simpl. rewrite bool_decide_eq_false_2; [done|]. intros [->|Hin]; [done|]. by apply elem_of_nil in Hin.
  - apply not_elem_of_cons in H0 as [Hd H0]. destruct (Z.eqb_spec d c) as [->|Hne].
    { rewrite bool_decide_eq_true_2; [done|]. right. constructor. }
    rewrite (proj2 (Z.eqb_neq _ _)) by done. rewrite IH by done. f_equal. apply bool_decide_ext.
    rewrite elem_of_cons. naive_solver.
Qed.

Lemma rd_rep s c free i x : rep s c free -> 0 <= i -> c !! Z.to_nat i = Some x -> rd (blk s) (off s + i) = Some x.
Proof.
  intros (t & sl & Hr & _) Hi Hx. rewrite (rd_lay _ _ _ _ _ _ _ (raw_lay _ _ _ _ _ Hr)) by done.
  by apply lookup_app_l_Some.
Qed.

Section trim_facts.
Context (s : sds) (cset : list Z) (p : Z -> bool).
Context (Hcset : forall c, strchr cset c = Some (p c)).

Lemma trim_left_spec rest : forall pre free fuel, rep s (pre ++ rest) free -> (length rest < fuel)%nat ->
  trim_left fuel s cset (zl pre) (zl (pre ++ rest) - 1) = Some (zl (pre ++ rest) - zl (dropwhile p rest)).
Proof using Hcset.
  induction rest as [|x rest IH]; intros pre free fuel Hr Hf; (destruct fuel as [|fuel]; [simpl in *; lia|]); cbn [trim_left].
  - rewrite (proj2 (Z.leb_gt _ _)) by (rewrite app_nil_r; lia). rewrite app_nil_r. simpl. f_equal. lia.
  - rewrite (proj2 (Z.leb_le _ _)) by (rewrite length_app; simpl; lia).
    rewrite (rd_rep _ _ _ _ x Hr) by (rewrite ?Nat2Z.id, ?list_lookup_middle by lia; (lia || done)). bsimpl.
    rewrite Hcset. bsimpl. cbn [dropwhile]. destruct (p x).
    + pose proof (IH (pre ++ [x]) free fuel) as IH'. rewrite <- app_assoc in IH'. simpl in IH'.
      rewrite length_app in IH'. simpl in IH'. replace (Z.of_nat (length pre + 1)) with (zl pre + 1) in IH' by lia.
      apply IH'; [done|simpl in Hf; lia].
    + f_equal. rewrite length_app. lia.
Qed.

Lemma rtrim_snoc l x : rtrim p (l ++ [x]) = if p x then rtrim p l else l ++ [x].
Proof.
  unfold rtrim. rewrite reverse_snoc. cbn [dropwhile]. destruct (p x); [done|]. by rewrite reverse_cons, reverse_involutive.
Qed.

Lemma rtrim_cons x l : p x = false -> rtrim p (x :: l) = x :: rtrim p l.
Proof.
  intros Hx. induction l as [|y l IH] using rev_ind.
  - unfold rtrim. simpl. by rewrite Hx.
  - rewrite app_comm_cons, !rtrim_snoc. by destruct (p y).
Qed.

Lemma trim_right_spec m : forall pre x post free fuel, rep s (pre ++ x :: m ++ post) free -> (length m < fuel)%nat ->
  trim_right fuel s cset (zl pre) (zl pre + zl m) = Some (zl pre + zl (rtrim p m)).
Proof using Hcset.
  induction m as [|y m IH] using rev_ind; intros pre x post free fuel Hr Hf;
    (destruct fuel as [|fuel]; [lia|]); cbn [trim_right].
  - rewrite Z.gtb_ltb, (proj2 (Z.ltb_ge _ _)) by (simpl; lia). done.
  - rewrite length_app in *. simpl in *. rewrite Z.gtb_ltb, (proj2 (Z.ltb_lt _ _)) by lia.
    rewrite (rd_rep _ _ _ _ y Hr); [|lia|].
    2: { rewrite lookup_app_r by lia. replace (_ - _)%nat with (S (length m)) by lia. cbn [lookup list_lookup].
         rewrite <- app_assoc. by apply list_lookup_middle. }
    bsimpl. rewrite Hcset. bsimpl. rewrite rtrim_snoc. destruct (p y).
    + replace (zl pre + Z.of_nat (length m + 1) - 1) with (zl pre + zl m) by lia.
      apply (IH pre x ([y] ++ post) free); [by rewrite <- app_assoc in Hr|lia].
    + f_equal. rewrite length_app. simpl. lia.
Qed.

End trim_facts.

Lemma dropwhile_split p l : exists pre, l = pre ++ dropwhile p l /\ (dropwhile p l = [] \/ exists x m, dropwhile p l = x :: m /\ p x = false).
Proof.
  induction l as [|x l (pre & IH & Hd)]; [exists []; auto|]. cbn [dropwhile]. destruct (p x) eqn:Hx.
  - exists (x :: pre). split; [by rewrite <- app_comm_cons, <- IH|done].
  - exists []. split; [done|]. right. eauto.
Qed.

Lemma rtrim_prefix p m : exists post, m = rtrim p m ++ post.
Proof.
  destruct (dropwhile_split p (reverse m)) as (pre & Hs & _). exists (reverse pre).
  unfold rtrim. rewrite <- reverse_app, <- Hs. by rewrite reverse_involutive.
Qed.

Lemma sdstrim_rep s c free cset rest : rep s c free -> (0 : Z) ∉ cset ->
  exists s' free', sdstrim s (cset ++ 0 :: rest) = Some s' /\ rep s' (trim (in_cset cset) c) free'.
Proof.
  intros Hr H0. unfold sdstrim. rewrite (sdslen_rep _ _ _ Hr). bsimpl. rewrite Nat2Z.id.
  set (p := in_cset cset). set (cs := cset ++ 0 :: rest).
  assert (forall x, strchr cs x = Some (p x)) as Hcs by (intros; by apply strchr_spec).
  pose proof (trim_left_spec s cs p Hcs c [] free (S (length c)) Hr ltac:(lia)) as Hl.
  cbn [app length] in Hl. change (Z.of_nat 0) with 0 in Hl. rewrite Hl. bsimpl.
  destruct (dropwhile_split p c) as (pre & Hsplit & Hd). unfold trim. destruct Hd as [Hd|(x & m & Hd & Hx)]; rewrite Hd in *.
  - cbn [length Z.of_nat]. rewrite Z.sub_0_r. cbn [trim_right]. rewrite Z.gtb_ltb, (proj2 (Z.ltb_ge _ _)) by lia. bsimpl.
    rewrite Z.gtb_ltb, (proj2 (Z.ltb_lt _ _)) by lia.
    destruct (front_rep s c free (zl c) 0 (negb (zl c =? 0)) Hr) as (s' & free' & He & Hs'); [lia..|auto|lia|].
    by exists s', free'.
  - assert (zl c - zl (x :: m) = zl pre) as -> by (rewrite Hsplit at 1; rewrite length_app; lia).
    rewrite Hsplit in Hr. assert (zl c - 1 = zl pre + zl m) as -> by (rewrite Hsplit, length_app; simpl; lia).
    assert (length m < S (length c))%nat as Hfuel by (rewrite Hsplit, length_app; simpl; lia).
    rewrite (trim_right_spec s cs p Hcs m pre x [] free) by (by rewrite ?app_nil_r || done). bsimpl.
    rewrite Z.gtb_ltb, (proj2 (Z.ltb_ge _ _)) by lia.
    destruct (rtrim_prefix p m) as [post Hpost]. set (r := rtrim p m) in *.
    destruct (front_rep s (pre ++ x :: m) free (zl pre) (zl pre + zl r - zl pre + 1) (negb (zl pre =? 0)) Hr)
      as (s' & free' & He & Hs').
    { lia. } { lia. } { left. rewrite Hpost, length_app. simpl. rewrite length_app. lia. }
    { destruct (Z.eqb_spec (zl pre) 0); [by left|done]. } { rewrite Hpost, length_app. simpl. rewrite length_app. lia. }
    exists s', free'. split; [exact He|]. rewrite Nat2Z.id, drop_app_length in Hs'. rewrite rtrim_cons by done. fold r.
    replace (Z.to_nat (zl pre + zl r - zl pre + 1)) with (S (length r)) in Hs' by lia.
    rewrite Hpost in Hs'. cbn [take] in Hs'. by rewrite take_app_length in Hs'.
Qed.

(** ** Character-wise edits *)

Lemma put_char_rep s pre x post free y : rep s (pre ++ x :: post) free ->
  exists s', put_bytes s (zl pre) [y] = Some s' /\ rep s' (pre ++ y :: post) free.
Proof.
  intros (t & sl & Hr & Hs). destruct (put_bytes_raw _ _ _ _ _ (zl pre) [y] Hr) as (s' & -> & H1); [lia|rewrite !length_app; simpl; lia|].
  exists s'. split; [done|]. exists t, sl. split; [|done].
  rewrite <- app_assoc, patch_app in H1 by done. rewrite !length_app in *. simpl in *. by rewrite <- app_assoc.
Qed.

Lemma map_loop_rep f g rest : (forall x, x ∈ rest -> f x = Some (g x)) -> forall pre s free, rep s (pre ++ rest) free ->
  exists s', map_loop f (length rest) s (zl pre) = Some s' /\ rep s' (pre ++ (g <$> rest)) free.
Proof.
  induction rest as [|x rest IH]; intros Hf pre s free Hr; cbn [map_loop length]; [by exists s|].
  rewrite (rd_rep _ _ _ _ x Hr) by (rewrite ?Nat2Z.id, ?list_lookup_middle by lia; (lia || done)). bsimpl.
  rewrite Hf by constructor. bsimpl. destruct (put_char_rep _ _ _ _ _ (g x) Hr) as (s1 & -> & H1). bsimpl.
  destruct (IH ltac:(intros y Hy; apply Hf; by constructor) (pre ++ [g x]) s1 free) as (s' & Hm & Hs').
  { by rewrite <- app_assoc. }
  exists s'. rewrite length_app in Hm. simpl in Hm. replace (Z.of_nat (length pre + 1)) with (zl pre + 1) in Hm by lia.
  split; [done|]. by rewrite <- app_assoc in Hs'.
Qed.

Lemma sdstolower_rep s c free : rep s c free -> exists s', sdstolower s = Some s' /\ rep s' (tolower <$> c) free.
Proof.
  intros Hr. unfold sdstolower. rewrite (sdslen_rep _ _ _ Hr). bsimpl. rewrite Nat2Z.id.
  by apply (map_loop_rep _ tolower c ltac:(done) []).
Qed.

Lemma sdstoupper_rep s c free : rep s c free -> exists s', sdstoupper s = Some s' /\ rep s' (toupper <$> c) free.
Proof.
  intros Hr. unfold sdstoupper. rewrite (sdslen_rep _ _ _ Hr). bsimpl. rewrite Nat2Z.id.
  by apply (map_loop_rep _ toupper c ltac:(done) []).
Qed.

(** The first pair whose left side is [c] decides. *)
Fixpoint subst_char (pairs : list (Z * Z)) (c : Z) : Z :=
  match pairs with
  | [] => c
  | (a, b) :: pairs => if c =? a then b else subst_char pairs c
  end.

Lemma map_char_spec pairs c : forall l1 l2, length l1 = length l2 ->
  map_char (length pairs) (l1 ++ pairs.*1) (l2 ++ pairs.*2) (zl l1) c = Some (subst_char pairs c).
Proof.
  induction pairs as [|[a b] pairs IH]; intros l1 l2 Hl; [done|]. cbn [map_char length subst_char fmap list_fmap fst snd].
  assert (forall (l : list Z) y r, length l = length l1 -> rd (l ++ y :: r) (zl l1) = Some y) as Hrd.
  { intros l y r He. unfold rd. rewrite (proj2 (Z.ltb_ge _ _)), Nat2Z.id by lia. by rewrite list_lookup_middle. }
  rewrite (Hrd l1 a) by done. bsimpl. destruct (c =? a); [by apply Hrd|].
  specialize (IH (l1 ++ [a]) (l2 ++ [b])). rewrite !length_app, <- !app_assoc in IH. simpl in IH.
  replace (Z.of_nat (length l1 + 1)) with (zl l1 + 1) in IH by lia. apply IH. lia.
Qed.

Lemma sdsmapchars_rep s c free pairs : rep s c free ->
  exists s', sdsmapchars s pairs.*1 pairs.*2 (length pairs) = Some s' /\ rep s' (subst_char pairs <$> c) free.
Proof.
  intros Hr. unfold sdsmapchars. rewrite (sdslen_rep _ _ _ Hr). bsimpl. rewrite Nat2Z.id.
  apply (map_loop_rep _ (subst_char pairs) c ltac:(intros x _; by apply (map_char_spec pairs x [] [])) [] s free Hr).
Qed.

(** ** [sdsIncrLen] *)

(** The bytes up to the new end, whatever was written past the old one, are
    the string. *)
Lemma sdsIncrLen_raw s t len alloc body incr : raw s t len alloc body -> room t alloc body -> len <= alloc ->
  0 <= len + incr <= alloc -> len + incr < zl body -> incr <> 0 -> (t = 0 -> incr < 0) ->
  exists s' free', sdsIncrLen s incr = Some s' /\ rep s' (take (Z.to_nat (len + incr)) body) free'.
Proof.
  intros Hraw Hrm Hle Hi Hnb H0 Ht0. set (n := len + incr) in *.
  destruct (end_string _ _ _ _ _ n Hraw Hrm) as [_ (s' & free' & He & Hs')]; [lia|done|].
  exists s', free'. split; [|done]. revert He. pose proof (raw_lay _ _ _ _ _ Hraw) as Hl.
  pose proof (lay_t _ _ _ _ _ _ Hl) as Ht. pose proof (raw_len _ _ _ _ _ Hraw). pose proof (raw_alloc _ _ _ _ _ Hraw) as Ha.
  pose proof (cap_64 t Ht).
  unfold sdsIncrLen, sdssetlen, SDS_TYPE_MASK. rewrite (flags_lay _ _ _ _ _ _ Hl). bsimpl. rewrite flag_land by done.
  destruct (Z.eqb_spec t SDS_TYPE_5) as [->|Hne].
  - assert (SDS_TYPE_5_LEN (flag SDS_TYPE_5 len) = len) as ->.
    { unfold SDS_TYPE_5_LEN, flag, SDS_TYPE_BITS. simpl. rewrite Z.shiftr_div_pow2 by lia. change (2 ^ 3) with 8. dlia. }
    specialize (Ht0 eq_refl).
    change (cap SDS_TYPE_5) with 32 in Ha.
    rewrite (proj2 (Z.ltb_lt incr 0)) by lia. rewrite Z.geb_leb, (proj2 (Z.leb_le _ _)) by (rewrite uwrap_small; mlia).
    rewrite orb_true_r. fold n. by destruct (set_flags _ _).
  - rewrite wd_pos by done. rewrite (hdr_alloc_lay _ _ _ _ _ _ Hl), (hdr_len_lay _ _ _ _ _ _ Hl). bsimpl.
    rewrite !le_decode_cap by done.
    replace (_ || _) with true.
    2: { symmetry. rewrite !Z.geb_leb. destruct (Z.leb_spec 0 incr).
         - rewrite orb_true_iff. left. cbn [andb]. apply Z.leb_le.
           destruct (Z.eqb_spec t SDS_TYPE_32) as [->|]; [|destruct (t =? SDS_TYPE_64); rewrite ?uwrap_small by mlia; lia].
           unfold cap in Ha. simpl in Ha. rewrite !uwrap_small by mlia. lia.
         - rewrite (proj2 (Z.ltb_lt incr 0)) by lia. cbn [andb orb]. apply Z.leb_le.
           destruct (Z.eqb_spec t SDS_TYPE_64) as [->|]; [rewrite uwrap_small by mlia; lia|].
           assert (cap t <= 2 ^ 32).
           { destruct (is_type_cases t Ht) as [ -> | [ -> | [ -> | [ -> | -> ]]]]; done. }
           rewrite uwrap_small by mlia. lia. }
    destruct (set_hdr_len_lay _ _ _ _ _ _ n Hl) as (s1 & Hs1 & Hl1). fold n. rewrite Hs1. bsimpl.
    rewrite (hdr_len_lay _ _ _ _ _ _ Hl1). bsimpl. by rewrite le_decode_cap by (done || lia).
Qed.

(** ** Comparison *)

(** Lexicographic order on byte strings. *)
Definition lex_lt (a b : list Z) : Prop :=
  exists p, (exists y b', a = p /\ b = p ++ y :: b') \/
       (exists x y a' b', a = p ++ x :: a' /\ b = p ++ y :: b' /\ x < y).

Fixpoint lexcmp (a b : list Z) : Z :=
  match a, b with
  | [], [] => 0
  | [], _ :: _ => -1
  | _ :: _, [] => 1
  | x :: a, y :: b => if x <? y then -1 else if y <? x then 1 else lexcmp a b
  end.

Lemma lex_lt_cons x a b : lex_lt (x :: a) (x :: b) <-> lex_lt a b.
Proof.
  split.
  - intros ([|z p] & [(y & b' & H1 & H2)|(u & y & a' & b' & H1 & H2 & Hlt)]); simplify_eq/=; [lia|..].
    + exists p. left. eauto.
    + exists p. right. eauto 10.
  - intros (p & [(y & b' & -> & ->)|(u & y & a' & b' & -> & -> & Hlt)]); exists (x :: p); [left|right]; eauto 10.
Qed.

Lemma lexcmp_lt a b : lexcmp a b < 0 <-> lex_lt a b.
Proof.
  revert b. induction a as [|x a IH]; intros [|y b]; cbn [lexcmp].
  - split; [lia|]. intros ([|z p] & [(u & b' & H1 & H2)|(u & w & a' & b' & H1 & H2 & _)]); simplify_eq/=.
  - split; [|lia]. intros _. exists []. left. eauto.
  - split; [lia|]. intros ([|z p] & [(u & b' & H1 & H2)|(u & w & a' & b' & H1 & H2 & _)]); simplify_eq/=.
  - destruct (Z.ltb_spec x y); [split; [intros _|lia]; exists []; right; eauto 10|].
    destruct (Z.ltb_spec y x).
    + split; [lia|]. intros ([|z p] & [(u & b' & H1 & H2)|(u & w & a' & b' & H1 & H2 & Hlt)]); simplify_eq/=; lia.
    + assert (x = y) as -> by lia. by rewrite lex_lt_cons.
Qed.

Lemma lexcmp_eq a b : lexcmp a b = 0 <-> a = b.
Proof.
  revert b. induction a as [|x a IH]; intros [|y b]; cbn [lexcmp]; [done|done|done|].
  destruct (Z.ltb_spec x y); [split; [done|]; intros [= -> ->]; lia|].
  destruct (Z.ltb_spec y x); [split; [done|]; intros [= -> ->]; lia|].
  rewrite IH. split; [intros ->; f_equal; lia|by intros [= -> ->]].
Qed.

Lemma lexcmp_opp a b : lexcmp b a = - lexcmp a b.
Proof.
  revert b. induction a as [|x a IH]; intros [|y b]; cbn [lexcmp]; [done..|].
  destruct (Z.ltb_spec x y), (Z.ltb_spec y x); try lia; done.
Qed.

Lemma memcmp_lexcmp a b :
  (if memcmp a b =? 0 then (if zl a >? zl b then 1 else if zl a <? zl b then -1 else 0) else memcmp a b) = lexcmp a b.
Proof.
  revert b. induction a as [|x a IH]; intros [|y b]; cbn [memcmp lexcmp]; try done.
  destruct (x <? y); [done|]. destruct (y <? x); [done|]. rewrite <- IH. simpl length.
  assert (forall x y, (Z.of_nat (S x) <? Z.of_nat (S y)) = (Z.of_nat x <? Z.of_nat y)) as Hs.
  { intros. destruct (Z.ltb_spec (Z.of_nat (S x0)) (Z.of_nat (S y0))), (Z.ltb_spec (Z.of_nat x0) (Z.of_nat y0)); (done || lia). }
  by rewrite !Z.gtb_ltb, !Hs.
Qed.

Lemma memcmp_eq a b : length a = length b -> memcmp a b = 0 <-> a = b.
Proof.
  revert b. induction a as [|x a IH]; intros [|y b] Hl; simplify_eq/=; [done|].
  destruct (Z.ltb_spec x y); [split; [done|]; intros [= -> ->]; lia|].
  destruct (Z.ltb_spec y x); [split; [done|]; intros [= -> ->]; lia|].
  rewrite IH by done. split; [intros ->; f_equal; lia|by intros [= -> ->]].
Qed.

Lemma memcmp_take a b : forall n, (n = length a /\ n <= length b \/ n = length b /\ n <= length a)%nat ->
  memcmp (take n a) (take n b) = memcmp a b.
Proof.
  revert b. induction a as [|x a IH]; intros [|y b] [|n] Hn; simpl in *; try done; [lia|].
  destruct (x <? y); [done|]. destruct (y <? x); [done|]. apply IH. lia.
Qed.

Lemma sdscmp_rep s1 s2 c1 c2 f1 f2 : rep s1 c1 f1 -> rep s2 c2 f2 -> sdscmp s1 s2 = Some (lexcmp c1 c2).
Proof.
  intros H1 H2. unfold sdscmp. rewrite (sdslen_rep _ _ _ H1), (sdslen_rep _ _ _ H2). bsimpl.
  set (m := if zl c1 <? zl c2 then zl c1 else zl c2).
  assert (m = zl c1 /\ m <= zl c2 \/ m = zl c2 /\ m <= zl c1) as Hm by (subst m; destruct (Z.ltb_spec (zl c1) (zl c2)); lia).
  rewrite (get_bytes_rep _ _ _ _ _ H1), (get_bytes_rep _ _ _ _ _ H2) by lia. bsimpl. rewrite !drop_0.
  rewrite memcmp_take by lia. f_equal. apply memcmp_lexcmp.
Qed.

(** ** Printing numbers *)

Lemma digits_loop_spec fuel : forall A B v, 0 <= v < 10 ^ Z.of_nat fuel -> (0 < fuel)%nat -> (fuel <= length B)%nat ->
  exists B', digits_loop fuel (A ++ B) (zl A) v = Some (A ++ reverse (dec_digits fuel v) ++ B', zl A + zl (dec_digits fuel v)) /\
    (length (dec_digits fuel v) + length B' = length B)%nat.
Proof.
  induction fuel as [|f IH]; intros A B v Hv Hf HB; [lia|]. cbn [digits_loop]. rewrite dec_digits_S.
  destruct B as [|b B]; [simpl in HB; lia|].
  rewrite (mwrite_mid A [b] B) by done. bsimpl. destruct (Z.ltb_spec v 10).
  - rewrite Z.div_small by lia. rewrite Z.mod_small by lia. by exists B.
  - assert (0 < v / 10) by (apply Z.div_str_pos; lia). rewrite (proj2 (Z.eqb_neq (v / 10) 0)) by lia. cbn [negb].
    destruct f as [|f']; [simpl in Hv; lia|]. set (f := S f') in *.
    destruct (IH (A ++ [chr0 + v mod 10]) B (v / 10)) as (B' & HB' & Hl); [|lia|simpl in HB; lia|].
    { split; [lia|]. apply Z.div_lt_upper_bound; [lia|]. rewrite Nat2Z.inj_succ, Z.pow_succ_r in Hv by lia. lia. }
    exists B'. rewrite <- app_assoc, length_app in HB'. cbn [length] in HB'.
    replace (Z.of_nat (length A + 1)) with (zl A + 1) in HB' by lia. rewrite HB'.
    rewrite reverse_snoc, length_app. cbn [length]. split; [|lia]. do 2 f_equal; [by rewrite <- app_assoc|lia].
Qed.

Lemma swap_loop_spec fuel : forall A M B, (length M <= fuel)%nat -> (0 < fuel)%nat ->
  swap_loop fuel (A ++ M ++ B) (zl A) (zl A + zl M - 1) = Some (A ++ reverse M ++ B).
Proof.
  induction fuel as [|f IH]; intros A M B Hf H0; [lia|]. cbn [swap_loop].
  destruct M as [|x M]; [by rewrite (proj2 (Z.ltb_ge _ _)) by (simpl; lia)|].
  destruct M as [|y M _] using rev_ind; [by rewrite (proj2 (Z.ltb_ge _ _)) by (simpl; lia); rewrite reverse_singleton|].
  assert (zl (x :: M ++ [y]) = zl M + 2) as Hl by (simpl; rewrite length_app; simpl; lia). rewrite Hl.
  rewrite (proj2 (Z.ltb_lt _ _)) by lia.
  assert (forall l z r i, i = zl l -> rd (l ++ [z] ++ r) i = Some z) as Hrd.
  { intros l z r i ->. unfold rd. rewrite (proj2 (Z.ltb_ge _ _)), Nat2Z.id by lia. by apply list_lookup_middle. }
  replace (A ++ (x :: M ++ [y]) ++ B) with (A ++ [x] ++ M ++ [y] ++ B) by (simpl; by rewrite <- app_assoc).
  rewrite (Hrd A x (M ++ [y] ++ B) (zl A)) by done. bsimpl.
  replace (A ++ [x] ++ M ++ [y] ++ B) with ((A ++ [x] ++ M) ++ [y] ++ B) by (by rewrite <- !app_assoc).
  rewrite (Hrd (A ++ [x] ++ M) y B) by (rewrite !length_app; simpl; lia). bsimpl. rewrite <- !app_assoc.
  rewrite (mwrite_mid A [x]) by done. bsimpl.
  replace (A ++ [y] ++ M ++ [y] ++ B) with ((A ++ [y] ++ M) ++ [y] ++ B) by (by rewrite <- !app_assoc).
  rewrite mwrite_mid by (rewrite ?length_app; simpl; lia).
  bsimpl. replace ((A ++ [y] ++ M) ++ [x] ++ B) with ((A ++ [y]) ++ M ++ [x] ++ B) by (by rewrite <- !app_assoc).
  destruct f as [|f']; [simpl in Hf; rewrite length_app in Hf; simpl in Hf; lia|].
  pose proof (IH (A ++ [y]) M ([x] ++ B)) as IH'. rewrite length_app in IH'. simpl length in IH'.
  replace (Z.of_nat (length A + 1)) with (zl A + 1) in IH' by lia.
  replace (zl A + 1 + zl M - 1) with (zl A + (zl M + 2) - 1 - 1) in IH' by lia. rewrite IH'.
  - rewrite reverse_cons, reverse_snoc, <- !app_assoc. done.
  - simpl in Hf. rewrite length_app in Hf. simpl in Hf. lia.
  - lia.
Qed.

Lemma reverse_digits_loop buf v (neg : bool) : (SDS_LLSTR_SIZE <= length buf)%nat -> 0 <= v < 2 ^ 64 ->
  (neg = true -> (length (udec v) <= 19)%nat) ->
  exists rest, ('(buf, p) ← digits_loop 20 buf 0 v;
    '(buf, p) ← (if neg then buf ← mwrite buf p [chr_minus]; Some (buf, p + 1) else Some (buf, p));
    let l := p in
    buf ← mwrite buf p [0]; buf ← swap_loop 21 buf 0 (p - 1); Some (buf, l)) =
    Some (((if neg then [chr_minus] else []) ++ udec v) ++ 0 :: rest, zl ((if neg then [chr_minus] else []) ++ udec v)).
Proof.
  unfold SDS_LLSTR_SIZE. intros Hb Hv Hneg.
  destruct (digits_loop_spec 20 [] buf v) as (B & Hd & Hl); [|lia|lia|].
  { split; [lia|]. apply Z.lt_trans with (2 ^ 64); [lia|]. by vm_compute. }
  fold (udec v) in Hd, Hl. cbn [app length] in Hd. change (Z.of_nat 0) with 0 in Hd. rewrite Hd, Z.add_0_l. bsimpl.
  pose proof (udec_length_20 v Hv). pose proof (udec_nonempty v).
  set (M := reverse (udec v) ++ if neg then [chr_minus] else []).
  assert (zl M = zl (udec v) + if neg then 1 else 0) as HM.
  { subst M. rewrite length_app, length_reverse. destruct neg; simpl; lia. }
  assert (exists y B', (if neg then buf ← mwrite (reverse (udec v) ++ B) (zl (udec v)) [chr_minus]; Some (buf, zl (udec v) + 1)
          else Some (reverse (udec v) ++ B, zl (udec v))) = Some (M ++ [y] ++ B', zl M)) as (y & B' & ->).
  { destruct B as [|b1 B]; [simpl in Hl; lia|]. destruct neg.
    - specialize (Hneg eq_refl). destruct B as [|b2 B]; [simpl in Hl; lia|]. exists b2, B.
      rewrite mwrite_at by (by rewrite length_reverse). bsimpl.
      subst M. by rewrite HM, <- app_assoc.
    - exists b1, B. subst M. by rewrite app_nil_r, length_reverse. }
  bsimpl. rewrite (mwrite_mid M [y]) by done. bsimpl.
  pose proof (swap_loop_spec 21 [] M ([0] ++ B')) as Hs. cbn [app length] in Hs. change (Z.of_nat 0) with 0 in Hs.
  rewrite Z.add_0_l in Hs. change ([0] ++ B') with (0 :: B'). rewrite Hs by (destruct neg; lia). bsimpl.
  exists B'. assert (reverse M = (if neg then [chr_minus] else []) ++ udec v) as <-.
  { subst M. rewrite reverse_app, reverse_involutive. by destruct neg. }
  by rewrite length_reverse.
Qed.

Lemma sdsll2str_spec buf v : (SDS_LLSTR_SIZE <= length buf)%nat -> in_s 64 v -> v <> LLONG_MIN ->
  exists rest, sdsll2str buf v = Some (decimal v ++ 0 :: rest, zl (decimal v)).
Proof.
  intros Hb Hv Hm. rewrite decimal_abs. unfold sdsll2str.
  destruct (reverse_digits_loop buf (Z.abs v) (v <? 0) Hb) as (rest & Hr); [mlia| |].
  { intros _. apply dec_digits_short; [mlia|lia]. }
  exists rest. rewrite <- Hr. destruct (Z.ltb_spec v 0).
  - rewrite (proj2 (Z.eqb_neq v _)) by done. bsimpl. rewrite uwrap_small by mlia. by replace (- v) with (Z.abs v) by lia.
  - bsimpl. rewrite uwrap_small by mlia. by replace v with (Z.abs v) at 1 by lia.
Qed.

(** * Properties *)

(** The operations as commands; [OpAppend] is the use of [sdsIncrLen] the code
    documents: make room, write past the end, then adjust the length. *)
Inductive sop :=
| OpCat (t : list Z) | OpCpy (t : list Z) | OpAppend (t : list Z) | OpGrow (n : Z)
| OpRange (start stop : Z) | OpTrim (cset : list Z) | OpClear
| OpLower | OpUpper | OpMap (pairs : list (Z * Z))
| OpRoom (n : Z) | OpShrink | OpDup.

Definition exec (fill : nat -> Z) (s : sds) (op : sop) : option sds :=
  match op with
  | OpCat t => sdscatlen fill s t (zl t)
  | OpCpy t => sdscpylen fill s t (zl t)
  | OpAppend t =>
      l ← sdslen s; s ← sdsMakeRoomFor fill s (zl t); s ← put_bytes s l t; sdsIncrLen s (zl t)
  | OpGrow n => sdsgrowzero fill s n
  | OpRange a b => sdsrange s a b
  | OpTrim cset => sdstrim s (cset ++ [0])
  | OpClear => sdsclear s
  | OpLower => sdstolower s
  | OpUpper => sdstoupper s
  | OpMap pairs => sdsmapchars s pairs.*1 pairs.*2 (length pairs)
  | OpRoom n => sdsMakeRoomFor fill s n
  | OpShrink => sdsRemoveFreeSpace fill s
  | OpDup => sdsdup fill s
  end.

(** The same on byte lists. *)
Definition spec (c : list Z) (op : sop) : list Z :=
  match op with
  | OpCat t | OpAppend t => c ++ t
  | OpCpy t => t
  | OpGrow n => c ++ replicate (Z.to_nat n - length c) 0
  | OpRange a b => range_bytes c a b
  | OpTrim cset => trim (in_cset cset) c
  | OpClear => []
  | OpLower => tolower <$> c
  | OpUpper => toupper <$> c
  | OpMap pairs => subst_char pairs <$> c
  | OpRoom _ | OpShrink | OpDup => c
  end.

(** Sizes below 2^62 and arguments the operation accepts. *)
Definition op_ok (c : list Z) (op : sop) : Prop :=
  zl c < 2 ^ 62 /\
  match op with
  | OpCat t => zl c + zl t < 2 ^ 62
  | OpAppend t => t <> [] /\ zl c + zl t < 2 ^ 60
  | OpCpy t => zl t < 2 ^ 62
  | OpGrow n => 0 <= n < 2 ^ 62
  | OpRange a b => - 2 ^ 62 < a < 2 ^ 62 /\ - 2 ^ 62 < b < 2 ^ 62
  | OpTrim cset => (0 : Z) ∉ cset
  | OpRoom n => 0 <= n /\ zl c + n < 2 ^ 62
  | _ => True
  end.

Fixpoint run (fill : nat -> Z) (s : sds) (ops : list sop) : option sds :=
  match ops with
  | [] => Some s
  | op :: ops => s ← exec fill s op; run fill s ops
  end.

Fixpoint run_ok (c : list Z) (ops : list sop) : Prop :=
  match ops with
  | [] => True
  | op :: ops => op_ok c op /\ run_ok (spec c op) ops
  end.

Lemma append_rep fill s c free t : rep s c free -> t <> [] -> zl c + zl t < 2 ^ 60 ->
  exists s' free', exec fill s (OpAppend t) = Some s' /\ rep s' (c ++ t) free'.
Proof.
  intros Hr Ht Hsz. cbn [exec]. rewrite (sdslen_rep _ _ _ Hr). bsimpl.
  destruct (sdsMakeRoomFor_rep fill s c free (zl t) Hr) as (s1 & free1 & -> & H1 & Hroom); [lia|lia|]. bsimpl.
  pose proof (room_grow _ _ _ _ _ _ Hroom ltac:(lia)) as Hf.
  assert (0 < zl t) as Hpos by (destruct t; [done|simpl; lia]).
  destruct (rep_raw _ _ _ H1) as (ty & sl & Hraw & Hrm & Ht0).
  assert (ty <> 0) as Hty by (intros ->; rewrite Ht0 in Hf by done; simpl in Hf; lia).
  destruct (put_bytes_raw _ _ _ _ _ (zl c) t Hraw) as (s2 & -> & H2); [lia|rewrite length_app; simpl; rewrite length_app; lia|].
  bsimpl. rewrite patch_app in H2 by done.
  destruct (sdsIncrLen_raw _ _ _ _ _ (zl t) H2) as (s' & free' & -> & Hs').
  - unfold room in *. destruct (ty =? 0); [done|]. rewrite <- Hrm, !length_app, length_drop. simpl. rewrite length_app. lia.
  - lia.
  - lia.
  - rewrite !length_app, length_drop. simpl. rewrite length_app. lia.
  - lia.
  - done.
  - exists s', free'. split; [done|]. rewrite app_assoc, take_app_le in Hs' by (rewrite length_app; lia).
    by rewrite firstn_all2 in Hs' by (rewrite length_app; lia).
Qed.

Lemma exec_rep fill s c free op : rep s c free -> op_ok c op ->
  exists s' free', exec fill s op = Some s' /\ rep s' (spec c op) free'.
Proof.
  intros Hr [Hc Hop]. destruct op as [t|t|t|n|a b|cset| | | |pairs|n| |]; cbn [exec spec op_ok] in *.
  - destruct (sdscatlen_rep fill s c free t (zl t) Hr) as (s' & f' & ? & Hs'); [lia|done|].
    rewrite Nat2Z.id, firstn_all in Hs'. eauto.
  - destruct (sdscpylen_rep fill s c free t (zl t) Hr) as (s' & f' & ? & Hs'); [lia|done|done|].
    rewrite Nat2Z.id, firstn_all in Hs'. eauto.
  - destruct Hop. by eapply (append_rep fill).
  - by apply (sdsgrowzero_rep fill) with free.
  - destruct Hop. by apply sdsrange_rep with free.
  - by apply sdstrim_rep with free.
  - by apply sdsclear_rep with c free.
  - destruct (sdstolower_rep s c free Hr) as (s' & ? & ?). eauto.
  - destruct (sdstoupper_rep s c free Hr) as (s' & ? & ?). eauto.
  - destruct (sdsmapchars_rep s c free pairs Hr) as (s' & ? & ?). eauto.
  - destruct Hop. destruct (sdsMakeRoomFor_rep fill s c free n Hr) as (s' & f' & ? & ? & _); [done..|]. eauto.
  - destruct (sdsRemoveFreeSpace_rep fill s c free Hr) as (s' & ? & ?); [done|]. eauto.
  - destruct (sdsdup_rep fill s c free Hr) as (s' & ? & ?); [done|]. eauto.
Qed.

Lemma run_rep fill ops : forall s c free, rep s c free -> run_ok c ops ->
  exists s' free', run fill s ops = Some s' /\ rep s' (foldl spec c ops) free'.
Proof.
  induction ops as [|op ops IH]; intros s c free Hr Hok; cbn [run foldl]; [eauto|]. destruct Hok as [Hop Hok].
  destruct (exec_rep fill s c free op Hr Hop) as (s1 & f1 & -> & H1). bsimpl. by apply IH with f1.
Qed.

Lemma rep_bytes s c free : rep s c free ->
  sdslen s = Some (zl c) /\ sdsavail s = Some (zl free) /\ get_bytes s 0 (length c + 1) = Some (c ++ [0]).
Proof.
  intros Hr. split_and!; [by eapply sdslen_rep|by eapply sdsavail_rep|]. destruct Hr as (t & sl & Hr & _).
  rewrite (get_bytes_lay _ _ _ _ _ _ _ _ (raw_lay _ _ _ _ _ Hr)) by (rewrite ?length_app; simpl; lia).
  by rewrite drop_0, take_app_add.
Qed.

(** C19: Dynamic strings implement byte strings.  After any sequence of
    appends, copies, growths, ranges, trims, clears, case changes, character
    maps, reservations, shrinks and duplications, starting from a fresh
    string, no access leaves the block, and the string holds exactly the bytes
    the same operations produce on byte lists, with the right length in its
    header and a NUL behind, whatever the layout of the header. *)
Theorem sds_run_refines fill init ops :
  zl init < 2 ^ 62 -> run_ok init ops ->
  exists s s' free, sdsnewlen fill (INIT_FROM init) (zl init) = Some s /\ run fill s ops = Some s' /\
    let c := foldl spec init ops in
    rep s' c free /\ sdslen s' = Some (zl c) /\ sdsavail s' = Some (zl free) /\
    get_bytes s' 0 (length c + 1) = Some (c ++ [0]).
Proof.
  intros Hi Hok.
  destruct (sdsnewlen_rep fill (INIT_FROM init) (zl init)) as (s & c & -> & Hs & _ & ->); [lia|by intros p [= ->]|].
  rewrite Nat2Z.id, firstn_all in Hs.
  destruct (run_rep fill ops s init [] Hs Hok) as (s' & free & Hrun & Hs').
  exists s, s', free. pose proof (rep_bytes _ _ _ Hs'). naive_solver.
Qed.

Lemma sds_run_refines_witness :
  exists s s' free,
    sdsnewlen (fun _ => 255) (INIT_FROM [32; 104; 105]) 3 = Some s /\
    run (fun _ => 255) s [OpCat (replicate 40 65); OpTrim [32]; OpRange 1 (-39); OpUpper; OpShrink; OpAppend [33]] = Some s' /\
    rep s' [73; 65; 65; 33] free.
Proof.
  destruct (sds_run_refines (fun _ => 255) [32; 104; 105]
              [OpCat (replicate 40 65); OpTrim [32]; OpRange 1 (-39); OpUpper; OpShrink; OpAppend [33]]) as (s & s' & free & H1 & H2 & H3 & _).
  - by vm_compute.
  - cbn [run_ok]. unfold op_ok. split_and!; first [done | by vm_compute | set_solver].
  - exists s, s', free. split_and!; [exact H1|exact H2|]. vm_compute in H3. exact H3.
Defined.

(** [sdscmp] is the lexicographic order of the contents: it returns 0
    exactly for equal strings, a negative number when the first string comes
    first and a positive one when the second does, a proper prefix coming
    before its extensions. *)
Theorem sdscmp_orders s1 s2 c1 c2 f1 f2 :
  rep s1 c1 f1 -> rep s2 c2 f2 ->
  exists r, sdscmp s1 s2 = Some r /\
    (r = 0 <-> c1 = c2) /\ (r < 0 <-> lex_lt c1 c2) /\ (0 < r <-> lex_lt c2 c1).
Proof.
  intros H1 H2. exists (lexcmp c1 c2). split_and!; [by eapply sdscmp_rep|apply lexcmp_eq|apply lexcmp_lt|].
  rewrite <- lexcmp_lt, lexcmp_opp. lia.
Qed.

Lemma sdscmp_orders_witness : sdscmp (mkSds [24; 97; 98; 99; 0] 1) (mkSds [16; 97; 98; 0] 1) = Some 1.
Proof.
  destruct (sdscmp_orders (mkSds [24; 97; 98; 99; 0] 1) (mkSds [16; 97; 98; 0] 1) [97; 98; 99] [97; 98] [] []) as (r & Hr & _).
  - exists 0, []. split; [|reflexivity]. constructor; [|by vm_compute..]. by constructor.
  - exists 0, []. split; [|reflexivity]. constructor; [|by vm_compute..]. by constructor.
  - rewrite Hr. vm_compute in Hr. congruence.
Defined.

Lemma sdsfromlonglong_rep fill v : in_s 64 v -> v <> LLONG_MIN ->
  exists s, sdsfromlonglong fill v = Some s /\ rep s (decimal v) [].
Proof.
  intros Hv Hne. unfold sdsfromlonglong. set (buf := s_malloc fill _).
  assert (length buf = SDS_LLSTR_SIZE) as Hb by (subst buf; unfold s_malloc; rewrite length_mresize; done).
  destruct (sdsll2str_spec buf v) as (rest & ->); [lia|done|done|]. bsimpl.
  destruct (sdsnewlen_rep fill (INIT_FROM (decimal v ++ 0 :: rest)) (zl (decimal v))) as (s & c & -> & Hs & _ & ->).
  - split; [lia|]. assert (length (decimal v) <= 21)%nat; [|mlia].
    rewrite decimal_abs, length_app. pose proof (udec_length_20 (Z.abs v) ltac:(mlia)). destruct (v <? 0); simpl; lia.
  - intros p [= <-]. rewrite length_app. lia.
  - exists s. split; [done|]. by rewrite Nat2Z.id, take_app_length in Hs.
Qed.

(** C36: [sdsfromlonglong] builds the decimal representation of every
    [long long] but [LLONG_MIN], whose negation in [sdsll2str] overflows; its
    21-byte stack buffer is never overrun. *)
Theorem sdsfromlonglong_decimal fill v :
  in_s 64 v ->
  if v =? LLONG_MIN then sdsfromlonglong fill v = None
  else exists s, sdsfromlonglong fill v = Some s /\ rep s (decimal v) [].
Proof.
  intros Hv. destruct (Z.eqb_spec v LLONG_MIN) as [->|Hne]; [done|by apply sdsfromlonglong_rep].
Qed.

Lemma sdsfromlonglong_decimal_witness :
  exists s, sdsfromlonglong (fun _ => 1) (-9223372036854775807) = Some s /\
    rep s [45; 57; 50; 50; 51; 51; 55; 50; 48; 51; 54; 56; 53; 52; 55; 55; 53; 56; 48; 55] [].
Proof. apply (sdsfromlonglong_decimal (fun _ => 1) (-9223372036854775807)). by vm_compute. Defined.

End Sds.
