(* ===== verification/SdsArgs.v ===== *)
(** Model of the splitting, quoting and joining routines of [sds.c]:
    [sdssplitlen], [sdsjoinsds], [sdscatrepr] and [sdssplitargs].

    A line given to [sdssplitargs] is a NUL-terminated block, read character by
    character with the code's look-ahead; the token under construction is its
    byte content.  Joining undoes splitting, and parsing a line of quoted
    strings gives the strings back. *)

From S2P Require Import Prelude Sds.

#[local] Open Scope Z_scope.

Module SdsArgs.
Import Sds.

(** ** [sdssplitlen] *)

Section split.
Context (fill : nat -> Z) (s sep : list Z).
Notation len := (zl s).
Notation seplen := (zl sep).

(** [(seplen == 1 && *(s+j) == sep[0]) || (memcmp(s+j,sep,seplen) == 0)] *)
Definition sep_at (j : Z) : option bool :=
  first ← (if seplen =? 1 then c ← rd s j; d ← rd sep 0; Some (c =? d) else Some false);
  if first : bool then Some true
  else b ← mread s j (Z.to_nat seplen); Some (memcmp b sep =? 0).

(** [tokens[elements] = sdsnewlen(s+start, n)] in an array of [slots]. *)
Definition add_token (tokens : list sds) (slots start n : Z) : option (list sds) :=
  if zl tokens <? slots then
    b ← mread s start (Z.to_nat n); t ← sdsnewlen fill (INIT_FROM b) n; Some (tokens ++ [t])
  else None.

Fixpoint split_loop (fuel : nat) (tokens : list sds) (slots start j : Z) : option (list sds) :=
  match fuel with
  | O => None
  | S fuel =>
      if j <? len - (seplen - 1) then
        slots ← (if slots <? zl tokens + 2 then
                   if slots * 2 >? INT32_MAX then None else Some (slots * 2) else Some slots);
        m ← sep_at j;
        if m : bool then
          tokens ← add_token tokens slots start (j - start);
          split_loop fuel tokens slots (j + seplen) (j + seplen - 1 + 1)
        else split_loop fuel tokens slots start (j + 1)
      else add_token tokens slots start (len - start)
  end.

(** [None] inside is the NULL return. *)
Definition sdssplitlen : option (option (list sds)) :=
  if (seplen <? 1) || (len <? 0) then Some None
  else if len =? 0 then Some (Some [])
  else t ← split_loop (S (length s)) [] 5 0 0; Some (Some t).

End split.

(** ** [sdsjoinsds] *)

Fixpoint join_loop (fill : nat -> Z) (argv : list sds) (sep : list Z) (seplen : Z) (join : sds) : option sds :=
  match argv with
  | [] => Some join
  | a :: rest =>
      join ← sdscatsds fill join a;
      join ← (if bool_decide (rest <> []) then sdscatlen fill join sep seplen else Some join);
      join_loop fill rest sep seplen join
  end.

Definition sdsjoinsds (fill : nat -> Z) (argv : list sds) (sep : list Z) (seplen : Z) : option sds :=
  join ← sdsempty fill; join_loop fill argv sep seplen join.

(** ** [sdscatrepr] *)

(** [isprint] and [isspace] in the C locale. *)
Definition isprint (c : Z) : bool := (32 <=? c) && (c <=? 126).
Definition isspace (c : Z) : bool := (c =? 32) || ((9 <=? c) && (c <=? 13)).

Definition hex_digit (d : Z) : Z := if d <? 10 then 48 + d else 87 + d.

Definition sdscatrepr_char (fill : nat -> Z) (s : sds) (c : Z) : option sds :=
  if (c =? 92) || (c =? 34) then sdscatlen fill s [92; c] 2
  else if c =? 10 then sdscatlen fill s [92; 110] 2
  else if c =? 13 then sdscatlen fill s [92; 114] 2
  else if c =? 9 then sdscatlen fill s [92; 116] 2
  else if c =? 7 then sdscatlen fill s [92; 97] 2
  else if c =? 8 then sdscatlen fill s [92; 98] 2
  else if isprint c then sdscatlen fill s [c] 1
  else sdscatlen fill s [92; 120; hex_digit (c / 16); hex_digit (c mod 16)] 4.

Fixpoint catrepr_loop (fill : nat -> Z) (s : sds) (p : list Z) : option sds :=
  match p with
  | [] => Some s
  | c :: p => s ← sdscatrepr_char fill s c; catrepr_loop fill s p
  end.

Definition sdscatrepr (fill : nat -> Z) (s : sds) (p : list Z) : option sds :=
  s ← sdscatlen fill s [34] 1; s ← catrepr_loop fill s p; sdscatlen fill s [34] 1.

(** ** [sdssplitargs] *)

Definition is_hex_digit (c : Z) : bool :=
  ((48 <=? c) && (c <=? 57)) || ((97 <=? c) && (c <=? 102)) || ((65 <=? c) && (c <=? 70)).

Definition hex_digit_to_int (c : Z) : Z :=
  if (48 <=? c) && (c <=? 57) then c - 48
  else if (97 <=? c) && (c <=? 102) then c - 87
  else if (65 <=? c) && (c <=? 70) then c - 55
  else 0.

Section args.
Context (line : list Z).

Fixpoint skip_blanks (fuel : nat) (p : Z) : option Z :=
  match fuel with
  | O => None
  | S fuel => c ← rd line p; if negb (c =? 0) && isspace c then skip_blanks fuel (p + 1) else Some p
  end.

(** A backslash, an [x] and two hexadecimal digits, tested in this order, with
    the byte they denote. *)
Definition hex_escape (p : Z) : option (option Z) :=
  c ← rd line p;
  if negb (c =? 92) then Some None else
  c ← rd line (p + 1);
  if negb (c =? 120) then Some None else
  c2 ← rd line (p + 2);
  if negb (is_hex_digit c2) then Some None else
  c3 ← rd line (p + 3);
  if negb (is_hex_digit c3) then Some None else
  Some (Some (u8 (hex_digit_to_int c2 * 16 + hex_digit_to_int c3))).

(** [TErr] is [goto err]; otherwise the position, the quoting state, whether
    the token is done, and the token so far. *)
Inductive tok_step := TErr | TNext (p : Z) (inq insq fin : bool) (cur : list Z).

Definition unescape (c : Z) : Z :=
  if c =? 110 then 10 else if c =? 114 then 13 else if c =? 116 then 9
  else if c =? 98 then 8 else if c =? 97 then 7 else c.

Definition step_inq (p : Z) (cur : list Z) : option tok_step :=
  h ← hex_escape p;
  match h with
  | Some byte => Some (TNext (p + 3) true false false (cur ++ [byte]))
  | None =>
      c ← rd line p;
      c1 ← (if (c =? 92) || (c =? 34) then rd line (p + 1) else Some 0);
      if (c =? 92) && negb (c1 =? 0) then Some (TNext (p + 1) true false false (cur ++ [unescape c1]))
      else if c =? 34 then
        if negb (c1 =? 0) && negb (isspace c1) then Some TErr else Some (TNext p true false true cur)
      else if c =? 0 then Some TErr
      else Some (TNext p true false false (cur ++ [c]))
  end.

Definition step_insq (p : Z) (cur : list Z) : option tok_step :=
  c ← rd line p;
  c1 ← (if (c =? 92) || (c =? 39) then rd line (p + 1) else Some 0);
  if (c =? 92) && (c1 =? 39) then Some (TNext (p + 1) false true false (cur ++ [39]))
  else if c =? 39 then
    if negb (c1 =? 0) && negb (isspace c1) then Some TErr else Some (TNext p false true true cur)
  else if c =? 0 then Some TErr
  else Some (TNext p false true false (cur ++ [c])).

Definition step_plain (p : Z) (cur : list Z) : option tok_step :=
  c ← rd line p;
  if (c =? 32) || (c =? 10) || (c =? 13) || (c =? 9) || (c =? 0) then Some (TNext p false false true cur)
  else if c =? 34 then Some (TNext p true false false cur)
  else if c =? 39 then Some (TNext p false true false cur)
  else Some (TNext p false false false (cur ++ [c])).

(** [while(!done)], ending with the advance over a character that is not NUL; [None] inside is [goto err]. *)
Fixpoint token_loop (fuel : nat) (p : Z) (inq insq : bool) (cur : list Z) : option (option (Z * list Z)) :=
  match fuel with
  | O => None
  | S fuel =>
      r ← (if inq then step_inq p cur else if insq then step_insq p cur else step_plain p cur);
      match r with
      | TErr => Some None
      | TNext p inq insq fin cur =>
          c ← rd line p;
          let p := if negb (c =? 0) then p + 1 else p in
          if fin then Some (Some (p, cur)) else token_loop fuel p inq insq cur
      end
  end.

Fixpoint args_loop (fuel : nat) (p : Z) (vector : list (list Z)) : option (option (list (list Z))) :=
  match fuel with
  | O => None
  | S fuel =>
      p ← skip_blanks (S (length line)) p;
      c ← rd line p;
      if negb (c =? 0) then
        r ← token_loop (S (length line)) p false false [];
        match r with
        | None => Some None
        | Some (p, cur) => args_loop fuel p (vector ++ [cur])
        end
      else Some (Some vector)
  end.

(** [None] inside is the NULL return.  The count [*argc] is the length of the
    vector; its width, an int, is not modelled. *)
Definition sdssplitargs : option (option (list (list Z))) := args_loop (S (length line)) 0 [].

End args.

(** * Facts *)

(** ** Lines end *)

Lemma rd_app_at pre l k : 0 <= k -> rd (pre ++ l) (zl pre + k) = l !! Z.to_nat k.
Proof.
  intros Hk. unfold rd. rewrite (proj2 (Z.ltb_ge _ _)) by lia. rewrite lookup_app_r by lia. f_equal. lia.
Qed.

Section totality.
Context (l junk : list Z) (Hl : (0 : Z) ∉ l).
Notation line := (l ++ 0 :: junk).

Lemma rd_line p : 0 <= p <= zl l -> exists c, rd line p = Some c /\ (c = 0 <-> p = zl l).
Proof using Hl.
  intros Hp. unfold rd. rewrite (proj2 (Z.ltb_ge _ _)) by lia.
  destruct (decide (p = zl l)) as [->|Hne].
  - rewrite Nat2Z.id, list_lookup_middle by done. by exists 0.
  - destruct (lookup_lt_is_Some_2 l (Z.to_nat p)) as [c Hc]; [lia|].
    rewrite (lookup_app_l_Some _ _ _ _ Hc). exists c. split; [done|]. split; [|done].
    intros ->. apply list_elem_of_lookup_2 in Hc. done.
Qed.

(** What a step may do: stop at an error, or stay within the line; an
    unfinished token is before the end. *)
Definition step_good (p : Z) (r : tok_step) : Prop :=
  match r with
  | TErr => True
  | TNext p' _ _ fin _ => p <= p' <= zl l /\ (fin = false -> p' < zl l)
  end.

Lemma hex_escape_total p : 0 <= p <= zl l ->
  exists h, hex_escape line p = Some h /\ (forall b, h = Some b -> p + 3 < zl l).
Proof using Hl.
  intros Hp. unfold hex_escape. destruct (rd_line p Hp) as (c & -> & Hc). bsimpl.
  destruct (Z.eqb_spec c 92) as [->|]; cbn [negb]; [|by exists None].
  destruct (rd_line (p + 1)) as (c1 & -> & Hc1); [lia|]. bsimpl.
  destruct (Z.eqb_spec c1 120) as [->|]; cbn [negb]; [|by exists None].
  destruct (rd_line (p + 2)) as (c2 & -> & Hc2); [lia|]. bsimpl.
  destruct (is_hex_digit c2) eqn:Hd2; cbn [negb]; [|by exists None].
  assert (c2 <> 0) by by intros ->. destruct (rd_line (p + 3)) as (c3 & -> & Hc3); [lia|]. bsimpl.
  destruct (is_hex_digit c3) eqn:Hd3; cbn [negb]; [|by exists None].
  assert (c3 <> 0) by by intros ->. eexists. split; [done|]. lia.
Qed.

Lemma step_inq_total p cur : 0 <= p <= zl l -> exists r, step_inq line p cur = Some r /\ step_good p r.
Proof using Hl.
  intros Hp. unfold step_inq. destruct (hex_escape_total p Hp) as (h & -> & Hh). bsimpl.
  destruct h as [b|]; [eexists; split; [done|]; specialize (Hh b eq_refl); simpl; lia|].
  destruct (rd_line p Hp) as (c & -> & Hc). bsimpl.
  assert (exists c1, (if (c =? 92) || (c =? 34) then rd line (p + 1) else Some 0) = Some c1 /\
            (c = 92 -> c1 <> 0 -> p + 1 < zl l)) as (c1 & -> & Hc1).
  { destruct (Z.eqb_spec c 92), (Z.eqb_spec c 34); cbn [orb]; try (exists 0; split; [done|lia]);
      destruct (rd_line (p + 1)) as (c1 & -> & ?); try lia; exists c1; split; try done; lia. }
  bsimpl. destruct (Z.eqb_spec c 92), (Z.eqb_spec c1 0); cbn [andb negb];
    (destruct (Z.eqb_spec c 34); cbn [negb]; [|destruct (Z.eqb_spec c 0)]);
    try (destruct (isspace c1)); eexists; (split; [done|]); simpl; try done; try lia.
Qed.

Lemma step_insq_total p cur : 0 <= p <= zl l -> exists r, step_insq line p cur = Some r /\ step_good p r.
Proof using Hl.
  intros Hp. unfold step_insq. destruct (rd_line p Hp) as (c & -> & Hc). bsimpl.
  assert (exists c1, (if (c =? 92) || (c =? 39) then rd line (p + 1) else Some 0) = Some c1 /\
            (c = 92 -> c1 <> 0 -> p + 1 < zl l)) as (c1 & -> & Hc1).
  { destruct (Z.eqb_spec c 92), (Z.eqb_spec c 39); cbn [orb]; try (exists 0; split; [done|lia]);
      destruct (rd_line (p + 1)) as (c1 & -> & ?); try lia; exists c1; split; try done; lia. }
  bsimpl. destruct (Z.eqb_spec c 92), (Z.eqb_spec c1 39), (Z.eqb_spec c1 0); cbn [andb negb];
    (destruct (Z.eqb_spec c 39); cbn [negb]; [|destruct (Z.eqb_spec c 0)]);
    try (destruct (isspace c1)); eexists; (split; [done|]); simpl; try done; try lia.
Qed.

Lemma step_plain_total p cur : 0 <= p <= zl l -> exists r, step_plain line p cur = Some r /\ step_good p r.
Proof using Hl.
  intros Hp. unfold step_plain. destruct (rd_line p Hp) as (c & -> & Hc). bsimpl.
  destruct (Z.eqb_spec c 0) as [->|Hne].
  { rewrite orb_true_r. eexists. split; [done|]. simpl. lia. }
  rewrite orb_false_r. destruct ((c =? 32) || _ || _ || _); [eexists; split; [done|]; simpl; lia|].
  destruct (c =? 34); [eexists; split; [done|]; simpl; lia|].
  destruct (c =? 39); eexists; (split; [done|]); simpl; lia.
Qed.

Lemma token_loop_total fuel : forall p inq insq cur, 0 <= p <= zl l -> zl l - p < Z.of_nat fuel ->
  exists r, token_loop line fuel p inq insq cur = Some r /\
    (forall p' cur', r = Some (p', cur') -> p <= p' <= zl l /\ (p < zl l -> p < p')).
Proof using Hl.
  induction fuel as [|fuel IH]; intros p inq insq cur Hp Hf; [lia|]. cbn [token_loop].
  assert (exists r, (if inq then step_inq line p cur else if insq then step_insq line p cur else step_plain line p cur) = Some r /\
            step_good p r) as (r & -> & Hr).
  { destruct inq; [by apply step_inq_total|]. destruct insq; [by apply step_insq_total|by apply step_plain_total]. }
  bsimpl. destruct r as [|p1 i1 s1 fin c1]; [by eexists|]. destruct Hr as [Hp1 Hfin].
  destruct (rd_line p1) as (c & -> & Hc); [lia|]. bsimpl. destruct fin.
  - eexists. split; [done|]. intros p' cur' [= <- <-]. destruct (Z.eqb_spec c 0); cbn [negb]; lia.
  - specialize (Hfin eq_refl). rewrite (proj2 (Z.eqb_neq c 0)) by lia. cbn [negb].
    destruct (IH (p1 + 1) i1 s1 c1) as (r & -> & Hr); [lia|lia|]. exists r. split; [done|].
    intros p' cur' He. specialize (Hr p' cur' He). lia.
Qed.

Lemma skip_blanks_total fuel : forall p, 0 <= p <= zl l -> zl l - p < Z.of_nat fuel ->
  exists p', skip_blanks line fuel p = Some p' /\ p <= p' <= zl l.
Proof using Hl.
  induction fuel as [|fuel IH]; intros p Hp Hf; [lia|]. cbn [skip_blanks].
  destruct (rd_line p Hp) as (c & -> & Hc). bsimpl. destruct (Z.eqb_spec c 0); cbn [negb andb]; [exists p; split; [done|lia]|].
  destruct (isspace c); [|exists p; split; [done|lia]].
  destruct (IH (p + 1)) as (p' & -> & ?); [lia|lia|]. exists p'. split; [done|lia].
Qed.

Lemma args_loop_total fuel : forall p vec, 0 <= p <= zl l -> zl l - p < Z.of_nat fuel ->
  exists r, args_loop line fuel p vec = Some r.
Proof using Hl.
  assert (zl l < zl line) as Hlen by (rewrite length_app; simpl; lia).
  induction fuel as [|fuel IH]; intros p vec Hp Hf; [lia|]. cbn [args_loop].
  destruct (skip_blanks_total (S (length line)) p Hp) as (p1 & -> & Hp1); [lia|]. bsimpl.
  destruct (rd_line p1) as (c & -> & Hc); [lia|]. bsimpl. destruct (Z.eqb_spec c 0); cbn [negb]; [by eexists|].
  destruct (token_loop_total (S (length line)) p1 false false []) as (r & -> & Hr); [lia|lia|]. bsimpl.
  destruct r as [[p2 cur]|]; [|by eexists]. specialize (Hr p2 cur eq_refl). apply IH; lia.
Qed.

End totality.

(** ** Quoting *)

(** What [sdscatrepr] writes for one character, and for a string. *)
Definition esc (c : Z) : list Z :=
  if (c =? 92) || (c =? 34) then [92; c]
  else if c =? 10 then [92; 110]
  else if c =? 13 then [92; 114]
  else if c =? 9 then [92; 116]
  else if c =? 7 then [92; 97]
  else if c =? 8 then [92; 98]
  else if isprint c then [c]
  else [92; 120; hex_digit (c / 16); hex_digit (c mod 16)].
Definition quoted (a : list Z) : list Z := [34] ++ concat (esc <$> a) ++ [34].

Lemma length_esc c : (1 <= length (esc c) <= 4)%nat.
Proof. unfold esc. repeat (case_match; [simpl; lia|]). simpl. lia. Qed.

Lemma length_escs a : (length a <= length (concat (esc <$> a)) <= 4 * length a)%nat.
Proof.
  induction a as [|c a IH]; [done|]. cbn [fmap list_fmap concat length]. rewrite length_app.
  pose proof (length_esc c). lia.
Qed.

Lemma catlen_rep fill s c free t : rep s c free -> zl c + zl t < 2 ^ 62 ->
  exists s' free', sdscatlen fill s t (zl t) = Some s' /\ rep s' (c ++ t) free'.
Proof.
  intros Hr Hsz. destruct (sdscatlen_rep fill s c free t (zl t) Hr) as (s' & f' & ? & Hs'); [lia|done|].
  rewrite Nat2Z.id, firstn_all in Hs'. eauto.
Qed.

Lemma sdscatrepr_char_esc fill s c : sdscatrepr_char fill s c = sdscatlen fill s (esc c) (zl (esc c)).
Proof. unfold sdscatrepr_char, esc. by repeat (case_match; [done|]). Qed.

Lemma catrepr_loop_rep fill a : forall s c free, rep s c free -> zl c + 4 * zl a < 2 ^ 62 ->
  exists s' free', catrepr_loop fill s a = Some s' /\ rep s' (c ++ concat (esc <$> a)) free'.
Proof.
  induction a as [|x a IH]; intros s c free Hr Hsz; cbn [catrepr_loop fmap list_fmap concat].
  - exists s, free. by rewrite app_nil_r.
  - pose proof (length_esc x). rewrite sdscatrepr_char_esc.
    destruct (catlen_rep fill s c free (esc x) Hr) as (s1 & f1 & -> & H1); [simpl in Hsz; lia|]. bsimpl.
    destruct (IH s1 (c ++ esc x) f1 H1) as (s' & f' & -> & Hs'); [rewrite length_app; simpl in Hsz; lia|].
    rewrite <- app_assoc in Hs'. eauto.
Qed.

Lemma sdscatrepr_rep fill s c free a : rep s c free -> zl c + 4 * zl a + 2 < 2 ^ 62 ->
  exists s' free', sdscatrepr fill s a = Some s' /\ rep s' (c ++ quoted a) free'.
Proof.
  intros Hr Hsz. unfold sdscatrepr, quoted. change 1 with (zl [34]). pose proof (length_escs a).
  destruct (catlen_rep fill s c free [34] Hr) as (s1 & f1 & -> & H1); [simpl; lia|]. bsimpl.
  destruct (catrepr_loop_rep fill a s1 _ f1 H1) as (s2 & f2 & -> & H2); [rewrite length_app; simpl; lia|]. bsimpl.
  destruct (catlen_rep fill s2 _ f2 [34] H2) as (s3 & f3 & -> & H3); [rewrite !length_app; simpl; lia|].
  rewrite <- !app_assoc in H3. eauto.
Qed.

(** ** Parsing what was quoted *)

Lemma hex_digit_ok d : 0 <= d < 16 -> is_hex_digit (hex_digit d) = true /\ hex_digit_to_int (hex_digit d) = d /\ hex_digit d <> 0.
Proof.
  intros Hd. assert (d = 0 \/ d = 1 \/ d = 2 \/ d = 3 \/ d = 4 \/ d = 5 \/ d = 6 \/ d = 7 \/ d = 8 \/ d = 9 \/
    d = 10 \/ d = 11 \/ d = 12 \/ d = 13 \/ d = 14 \/ d = 15) as H by lia.
  by repeat destruct H as [->|H]; subst.
Qed.

Section quoted_token.
Context (line pre : list Z).

(** The reads of the look-ahead, at a known place of the line. *)
Lemma rd_at l post k x : line = pre ++ l ++ post -> 0 <= k -> l !! Z.to_nat k = Some x -> rd line (zl pre + k) = Some x.
Proof. intros -> Hk Hx. rewrite rd_app_at by done. by apply lookup_app_l_Some. Qed.

(** One escaped character, up to the final advance. *)
Lemma step_inq_esc c post cur : is_byte c -> line = pre ++ esc c ++ post ->
  exists d, step_inq line (zl pre) cur = Some (TNext (zl pre + zl (esc c) - 1) true false false (cur ++ [c])) /\
    rd line (zl pre + zl (esc c) - 1) = Some d /\ d <> 0.
Proof.
  intros Hc Hline. unfold is_byte in Hc.
  assert (forall k x, 0 <= k -> esc c !! Z.to_nat k = Some x -> rd line (zl pre + k) = Some x) as Hrd
    by (intros; by eapply rd_at). clear Hline.
  assert (forall x y r, esc c = [92; x] -> x <> 120 -> x <> 0 -> unescape x = c -> r = cur ++ [c] ->
            y = zl pre + 2 - 1 -> step_inq line (zl pre) cur = Some (TNext y true false false r) /\ rd line y = Some x) as Hpair.
  { intros x y r He H1 H2 H3 -> ->. rewrite He in Hrd.
    pose proof (Hrd 0 92 ltac:(lia) eq_refl) as R0. rewrite Z.add_0_r in R0. pose proof (Hrd 1 x ltac:(lia) eq_refl) as R1.
    unfold step_inq, hex_escape. rewrite R0, R1. bsimpl. rewrite Z.eqb_refl. change (92 =? 34) with false.
    rewrite (proj2 (Z.eqb_neq x 120)) by done. cbn [negb orb]. bsimpl.
    rewrite (proj2 (Z.eqb_neq x 0)) by done. cbn [negb andb]. rewrite H3.
    replace (zl pre + 2 - 1) with (zl pre + 1) by lia. done. }
  revert Hrd Hpair. unfold esc.
  destruct (Z.eqb_spec c 92) as [->|H92]; [intros _ Hp; exists 92; edestruct Hp as [-> ->]; by try reflexivity|].
  destruct (Z.eqb_spec c 34) as [->|H34]; [intros _ Hp; exists 34; edestruct Hp as [-> ->]; by try reflexivity|]. cbn [orb].
  destruct (Z.eqb_spec c 10) as [->|]; [intros _ Hp; exists 110; edestruct Hp as [-> ->]; by try reflexivity|].
  destruct (Z.eqb_spec c 13) as [->|]; [intros _ Hp; exists 114; edestruct Hp as [-> ->]; by try reflexivity|].
  destruct (Z.eqb_spec c 9) as [->|]; [intros _ Hp; exists 116; edestruct Hp as [-> ->]; by try reflexivity|].
  destruct (Z.eqb_spec c 7) as [->|]; [intros _ Hp; exists 97; edestruct Hp as [-> ->]; by try reflexivity|].
  destruct (Z.eqb_spec c 8) as [->|]; [intros _ Hp; exists 98; edestruct Hp as [-> ->]; by try reflexivity|].
  destruct (isprint c) eqn:Hpr; intros Hrd _.
  - pose proof (Hrd 0 c ltac:(lia) eq_refl) as R0. rewrite Z.add_0_r in R0.
    assert (c <> 0) by by intros ->. exists c. unfold step_inq, hex_escape. rewrite R0. bsimpl.
    rewrite (proj2 (Z.eqb_neq c 92)), (proj2 (Z.eqb_neq c 34)), (proj2 (Z.eqb_neq c 0)) by done. cbn [negb orb andb]. bsimpl.
    change (zl [c]) with 1. by rewrite Z.add_simpl_r.
  - destruct (hex_digit_ok (c / 16)) as (D1 & E1 & N1); [split; [apply Z.div_pos|apply Z.div_lt_upper_bound]; lia|].
    destruct (hex_digit_ok (c mod 16)) as (D2 & E2 & N2); [apply Z.mod_pos_bound; lia|].
    pose proof (Hrd 0 92 ltac:(lia) eq_refl) as R0. rewrite Z.add_0_r in R0. pose proof (Hrd 1 120 ltac:(lia) eq_refl) as R1.
    pose proof (Hrd 2 _ ltac:(lia) eq_refl) as R2. pose proof (Hrd 3 _ ltac:(lia) eq_refl) as R3.
    exists (hex_digit (c mod 16)). unfold step_inq, hex_escape. rewrite R0. bsimpl. change (92 =? 92) with true. cbn [negb].
    rewrite R1. bsimpl. change (120 =? 120) with true. cbn [negb]. rewrite R2. bsimpl. rewrite D1. cbn [negb].
    rewrite R3. bsimpl. rewrite D2. cbn [negb]. bsimpl. rewrite E1, E2.
    change (zl [92; 120; _; _]) with 4. replace (zl pre + 4 - 1) with (zl pre + 3) by lia.
    split_and!; [|done|done]. do 4 f_equal. replace (c / 16 * 16 + c mod 16) with c by dlia. apply uwrap_small. mlia.
Qed.

End quoted_token.

Lemma token_loop_escs line a : Forall is_byte a -> forall pre post cur fuel,
  line = pre ++ concat (esc <$> a) ++ post -> (length a <= fuel)%nat ->
  token_loop line fuel (zl pre) true false cur =
  token_loop line (fuel - length a) (zl pre + zl (concat (esc <$> a))) true false (cur ++ a).
Proof.
  induction a as [|c a IH]; intros Hb pre post cur fuel Hline Hf.
  { simpl. by rewrite Nat.sub_0_r, Z.add_0_r, app_nil_r. }
  apply Forall_cons in Hb as [Hc Hb]. destruct fuel as [|fuel]; [simpl in Hf; lia|].
  cbn [fmap list_fmap concat] in *. rewrite <- app_assoc in Hline. cbn [token_loop length Nat.sub].
  destruct (step_inq_esc line pre c (concat (esc <$> a) ++ post) cur Hc Hline) as (d & -> & Hd & Hd0). bsimpl.
  rewrite Hd. bsimpl. rewrite (proj2 (Z.eqb_neq d 0)) by done. cbn [negb].
  rewrite app_assoc in Hline. pose proof (IH Hb (pre ++ esc c) post (cur ++ [c]) fuel Hline ltac:(simpl in Hf; lia)) as IH'.
  rewrite !length_app in *. replace (zl pre + zl (esc c) - 1 + 1) with (Z.of_nat (length pre + length (esc c))) by lia.
  rewrite IH', <- app_assoc. f_equal. lia.
Qed.

(** A quoted string, from its opening quote to the character behind it. *)
Lemma token_loop_quoted line pre a t post fuel : Forall is_byte a -> t = 32 \/ t = 0 ->
  line = pre ++ quoted a ++ t :: post -> (length a + 2 <= fuel)%nat ->
  token_loop line fuel (zl pre) false false [] = Some (Some (zl pre + zl (quoted a), a)).
Proof.
  intros Hb Ht Hline Hf. destruct fuel as [|fuel]; [lia|]. cbn [token_loop]. unfold quoted in Hline.
  assert (rd line (zl pre) = Some 34) as R0.
  { rewrite Hline, <- (Z.add_0_r (zl pre)), rd_app_at by lia. done. }
  unfold step_plain. rewrite R0. bsimpl. change (34 =? 34) with true. cbn [Z.eqb Pos.eqb orb]. bsimpl. rewrite R0. bsimpl.
  cbn [Z.eqb negb].
  set (body := concat (esc <$> a)) in *.
  assert (line = (pre ++ [34]) ++ body ++ 34 :: t :: post) as Hline' by (rewrite Hline; by rewrite <- !app_assoc).
  pose proof (token_loop_escs line a Hb (pre ++ [34]) (34 :: t :: post) [] fuel Hline' ltac:(lia)) as He.
  rewrite length_app in He. change (length [34]) with 1%nat in He.
  replace (Z.of_nat (length pre + 1)) with (zl pre + 1) in He by lia. rewrite He. clear He.
  destruct (fuel - length a)%nat as [|k] eqn:Hk; [lia|]. cbn [token_loop app].
  assert (forall i x, 0 <= i -> (34 :: t :: post) !! Z.to_nat i = Some x -> rd line (zl pre + 1 + zl body + i) = Some x) as Hrd.
  { intros i x Hi Hx. rewrite Hline', app_assoc.
    replace (zl pre + 1 + zl body + i) with (zl ((pre ++ [34]) ++ body) + i) by (rewrite !length_app; simpl; lia).
    by rewrite rd_app_at. }
  fold body. pose proof (Hrd 0 34 ltac:(lia) eq_refl) as R1. rewrite Z.add_0_r in R1. pose proof (Hrd 1 t ltac:(lia) eq_refl) as R2.
  unfold step_inq, hex_escape. rewrite R1. bsimpl. change (34 =? 92) with false. change (34 =? 34) with true. cbn [negb orb andb]. bsimpl.
  rewrite R2. bsimpl. assert (negb (t =? 0) && negb (isspace t) = false) as -> by (by destruct Ht as [-> | ->]).
  bsimpl. rewrite R1. bsimpl. cbn [Z.eqb negb]. do 3 f_equal. unfold quoted. rewrite !length_app. simpl. fold body. lia.
Qed.

(** A space or nothing, a quoted string, and more. *)
Lemma args_loop_quoted line pre sp a t post vec fuel : Forall is_byte a -> t = 32 \/ t = 0 -> sp = [] \/ sp = [32] ->
  line = pre ++ sp ++ quoted a ++ t :: post ->
  args_loop line (S fuel) (zl pre) vec = args_loop line fuel (zl (pre ++ sp ++ quoted a)) (vec ++ [a]).
Proof.
  intros Hb Ht Hsp Hline. cbn [args_loop].
  assert (length a + 2 < length line)%nat as Hlen.
  { rewrite Hline. unfold quoted. rewrite !length_app. simpl. pose proof (length_escs a). lia. }
  assert (line = (pre ++ sp) ++ quoted a ++ t :: post) as Hline' by (rewrite Hline; by rewrite <- !app_assoc).
  assert (rd line (zl (pre ++ sp)) = Some 34) as R0.
  { rewrite Hline', <- (Z.add_0_r (zl (pre ++ sp))), rd_app_at by lia. done. }
  assert (skip_blanks line (S (length line)) (zl pre) = Some (zl (pre ++ sp))) as ->.
  { destruct Hsp as [-> | ->].
    - rewrite app_nil_r in *. cbn [skip_blanks]. by rewrite R0.
    - assert (rd line (zl pre) = Some 32) as R1 by (rewrite Hline, <- (Z.add_0_r (zl pre)), rd_app_at by lia; done).
      rewrite length_app in *. simpl in R0 |- *. replace (Z.of_nat (length pre + 1)) with (zl pre + 1) in * by lia.
      cbn [skip_blanks]. rewrite R1. bsimpl. cbn [Z.eqb negb isspace orb andb Pos.eqb].
      destruct (length line) as [|n] eqn:Hn; [lia|]. cbn [skip_blanks]. by rewrite R0. }
  bsimpl. rewrite R0. bsimpl. cbn [Z.eqb negb].
  rewrite (token_loop_quoted line (pre ++ sp) a t post) by (done || lia). bsimpl.
  f_equal. rewrite !length_app. lia.
Qed.

Definition spaced (a : list Z) : list Z := 32 :: quoted a.

Lemma args_loop_rest line args : Forall (Forall is_byte) args -> forall pre junk vec fuel,
  line = pre ++ concat (spaced <$> args) ++ 0 :: junk -> (length args < fuel)%nat ->
  args_loop line fuel (zl pre) vec = Some (Some (vec ++ args)).
Proof.
  induction args as [|a args IH]; intros Hb pre junk vec fuel Hline Hf; (destruct fuel as [|fuel]; [lia|]).
  - simpl in Hline. rewrite app_nil_r.
    assert (rd line (zl pre) = Some 0) as R0 by (rewrite Hline, <- (Z.add_0_r (zl pre)), rd_app_at by lia; done).
    cbn [args_loop skip_blanks]. rewrite R0. bsimpl. cbn [Z.eqb negb andb]. bsimpl. by rewrite R0.
  - apply Forall_cons in Hb as [Ha Hb]. cbn [fmap list_fmap concat] in Hline. unfold spaced at 1 in Hline.
    set (tl := concat (spaced <$> args) ++ 0 :: junk) in *.
    assert (exists t post, tl = t :: post /\ (t = 32 \/ t = 0)) as (t & post & Htl & Ht).
    { subst tl. destruct args as [|b args]; simpl; eauto. }
    assert (line = pre ++ [32] ++ quoted a ++ tl) as Hline' by (rewrite Hline; simpl; by rewrite <- app_assoc).
    rewrite Htl in Hline'.
    rewrite (args_loop_quoted line pre [32] a t post) by auto.
    rewrite (IH Hb (pre ++ [32] ++ quoted a) junk (vec ++ [a]) fuel).
    + by rewrite <- app_assoc.
    + fold tl. rewrite Htl, Hline'. by rewrite <- !app_assoc.
    + simpl in Hf. lia.
Qed.

(** The command line of a list of arguments, as [sdscatrepr] writes it. *)
Definition cmdline (args : list (list Z)) : list Z :=
  match args with
  | [] => []
  | a :: args => quoted a ++ concat (spaced <$> args)
  end.

Lemma sdssplitargs_cmdline args junk : Forall (Forall is_byte) args ->
  sdssplitargs (cmdline args ++ 0 :: junk) = Some (Some args).
Proof.
  intros Hb. unfold sdssplitargs. destruct args as [|a args].
  { by apply (args_loop_rest _ [] Hb [] junk [] (S (length (0 :: junk)))); [|simpl; lia]. }
  apply Forall_cons in Hb as [Ha Hb]. cbn [cmdline]. rewrite <- app_assoc.
  set (tl := concat (spaced <$> args) ++ 0 :: junk). set (line := quoted a ++ tl).
  assert (exists t post, tl = t :: post /\ (t = 32 \/ t = 0)) as (t & post & Htl & Ht).
  { subst tl. destruct args as [|b args]; simpl; eauto. }
  change 0 with (zl (@nil Z)).
  rewrite (args_loop_quoted line [] [] a t post) by (auto; subst line; by rewrite Htl).
  rewrite (args_loop_rest line args Hb (quoted a) junk); [done|done|].
  subst line tl. rewrite !length_app. simpl.
  assert (length args <= length (concat (spaced <$> args)))%nat; [|lia].
  clear. induction args as [|b args IH]; [done|]. cbn [fmap list_fmap concat length]. rewrite length_app. simpl. lia.
Qed.

(** ** Splitting and joining *)

(** [sep] occurs nowhere in [t]. *)
Definition sep_free (sep t : list Z) : Prop := forall a b, t <> a ++ sep ++ b.

(** The bytes joined with the separator. *)
Fixpoint joined (sep : list Z) (ts : list (list Z)) : list Z :=
  match ts with
  | [] => []
  | [t] => t
  | t :: ts => t ++ sep ++ joined sep ts
  end.

Lemma joined_snoc sep ts t : ts <> [] -> joined sep (ts ++ [t]) = joined sep ts ++ sep ++ t.
Proof.
  induction ts as [|u ts IH]; intros Hne; [done|]. destruct ts as [|v ts]; [done|].
  cbn [app joined]. cbn [app joined] in IH. rewrite IH by done. by rewrite <- !app_assoc.
Qed.

Lemma take_add_drop (l : list Z) (a b : Z) : 0 <= a <= b ->
  take (Z.to_nat b) l = take (Z.to_nat a) l ++ take (Z.to_nat (b - a)) (drop (Z.to_nat a) l).
Proof. intros H. rewrite take_take_drop. f_equal. lia. Qed.

Section split_facts.
Context (fill : nat -> Z) (s sep : list Z).
Context (Hsep : 0 < zl sep) (Hs : zl s < 2 ^ 28).

Lemma sep_at_spec j : 0 <= j -> j + zl sep <= zl s ->
  sep_at s sep j = Some (bool_decide (take (length sep) (drop (Z.to_nat j) s) = sep)).
Proof using Hsep.
  intros Hj Hle. unfold sep_at. rewrite mread_Some, Nat2Z.id by lia.
  set (w := take _ _). assert (length w = length sep) as Hw by (subst w; rewrite length_take, length_drop; lia).
  assert (memcmp w sep =? 0 = bool_decide (w = sep)) as Hm.
  { destruct (Z.eqb_spec (memcmp w sep) 0) as [He|He]; rewrite memcmp_eq in He by done;
      [by rewrite bool_decide_eq_true_2|by rewrite bool_decide_eq_false_2]. }
  destruct (Z.eqb_spec (zl sep) 1) as [H1|_]; bsimpl; [|by rewrite Hm].
  destruct sep as [|d [|]]; simpl in H1; try lia.
  destruct (rd_Some s j) as (c & -> & Hc); [simpl in Hle; lia|]. cbn [rd Z.ltb lookup list_lookup]. bsimpl.
  change (rd [d] 0) with (Some d). bsimpl.
  assert (w = [c]) as Hwc by (subst w; by rewrite (drop_S _ c) by done).
  destruct (Z.eqb_spec c d) as [->|Hne]; [by rewrite bool_decide_eq_true_2|by rewrite Hm].
Qed.

(** The tokens as byte lists. *)
Definition holds (ts : list sds) (cs : list (list Z)) : Prop := Forall2 (fun t c => rep t c []) ts cs.

Lemma add_token_spec tokens cs slots start n : holds tokens cs -> zl tokens < slots ->
  0 <= start -> 0 <= n -> start + n <= zl s ->
  exists t, add_token fill s tokens slots start n = Some (tokens ++ [t]) /\
    holds (tokens ++ [t]) (cs ++ [take (Z.to_nat n) (drop (Z.to_nat start) s)]).
Proof using Hs Hsep.
  intros Hh Hlt Hst Hn Hle. unfold add_token. rewrite (proj2 (Z.ltb_lt _ _)) by done.
  rewrite mread_Some by lia. bsimpl. set (b := take _ _).
  assert (zl b = n) as Hb by (subst b; rewrite length_take, length_drop; lia).
  destruct (sdsnewlen_rep fill (INIT_FROM b) n) as (t & c & -> & Ht & _ & ->); [lia|by intros p [= <-]; lia|]. bsimpl.
  exists t. split; [done|]. apply Forall2_app; [done|]. constructor; [|constructor].
  by rewrite firstn_all2 in Ht by lia.
Qed.

(** What has been split off, the separator and the rest make up the string;
    no separator starts between [start] and [j]. *)
Definition sinv (cs : list (list Z)) (start j : Z) : Prop :=
  0 <= start <= j /\ start <= zl s /\
  (if decide (cs = []) then start = 0 else joined sep cs ++ sep = take (Z.to_nat start) s) /\
  Forall (sep_free sep) cs /\
  (forall i, start <= i < j -> i + zl sep <= zl s -> take (length sep) (drop (Z.to_nat i) s) <> sep).

Lemma sinv_free cs start j n : sinv cs start j -> 0 <= n -> start + n <= zl s -> start + n <= j + zl sep - 1 ->
  sep_free sep (take (Z.to_nat n) (drop (Z.to_nat start) s)).
Proof using Hsep.
  intros (Hst & _ & _ & _ & Hno) Hn Hle Hj a b He.
  assert (zl a + zl sep + zl b = n) as Hlen.
  { apply (f_equal (fun l => zl l)) in He. rewrite length_take, length_drop, !length_app in He. lia. }
  apply (Hno (start + zl a)); [lia|lia|].
  replace (Z.to_nat (start + zl a)) with (Z.to_nat start + length a)%nat by lia. rewrite <- drop_drop.
  apply (f_equal (fun l => take (length sep) (drop (length a) l))) in He.
  rewrite drop_app_length, take_app_length in He.
  rewrite take_drop_commute, take_take, Nat.min_l in He by lia. by rewrite take_drop_commute.
Qed.

(** A token split off: the invariant holds behind the separator. *)
Lemma sinv_split cs start j : sinv cs start j -> j + zl sep <= zl s ->
  take (length sep) (drop (Z.to_nat j) s) = sep ->
  sinv (cs ++ [take (Z.to_nat (j - start)) (drop (Z.to_nat start) s)]) (j + zl sep) (j + zl sep).
Proof using Hsep.
  intros Hi Hle Hat. pose proof (sinv_free cs start j (j - start) Hi ltac:(destruct Hi; lia) ltac:(lia) ltac:(lia)) as Hfree.
  destruct Hi as (Hst & Hs0 & Hj & Hf & _). set (t := take (Z.to_nat (j - start)) (drop (Z.to_nat start) s)) in *.
  split_and!; [lia|lia|lia| |apply Forall_app; auto|lia].
  rewrite decide_False by (by destruct cs).
  assert (take (Z.to_nat start) s ++ t ++ sep = take (Z.to_nat (j + zl sep)) s) as <-.
  { rewrite app_assoc. subst t. rewrite <- take_add_drop by lia. rewrite <- Hat at 1.
    rewrite take_take_drop. f_equal. lia. }
  destruct (decide (cs = [])) as [->|Hne].
  - subst start. done.
  - rewrite joined_snoc by done. rewrite <- Hj. by rewrite <- !app_assoc.
Qed.

Lemma split_loop_spec fuel : forall tokens cs slots start j,
  holds tokens cs -> sinv cs start j -> zl s - j < Z.of_nat fuel -> j <= zl s ->
  zl tokens < slots -> 5 <= slots -> slots <= 4 * zl tokens + 5 -> zl tokens <= j ->
  exists ts cs', split_loop fill s sep fuel tokens slots start j = Some ts /\ holds ts cs' /\
    joined sep cs' = s /\ Forall (sep_free sep) cs'.
Proof using Hs Hsep.
  induction fuel as [|fuel IH]; intros tokens cs slots start j Hh Hi Hf Hjs Hlt H5 Hcap Hcnt; [lia|]. cbn [split_loop].
  pose proof Hi as (Hst & Hs0 & Hj & Hfr & Hno). destruct (Z.ltb_spec j (zl s - (zl sep - 1))) as [Hin|Hout].
  - assert (exists sl, (if slots <? zl tokens + 2 then if slots * 2 >? INT32_MAX then None else Some (slots * 2) else Some slots) = Some sl /\
              zl tokens + 2 <= sl /\ 5 <= sl /\ sl <= 4 * zl tokens + 5) as (sl & -> & Hsl2 & Hsl5 & Hslc).
    { destruct (Z.ltb_spec slots (zl tokens + 2)); [|exists slots; split_and!; [done|lia..]].
      rewrite Z.gtb_ltb, (proj2 (Z.ltb_ge _ _)) by mlia. exists (slots * 2). split_and!; [done|lia..]. }
    bsimpl. rewrite sep_at_spec by lia. bsimpl. case_bool_decide as Hat.
    + destruct (add_token_spec tokens cs sl start (j - start) Hh) as (t & -> & Ht); [lia..|]. bsimpl.
      replace (j + zl sep - 1 + 1) with (j + zl sep) by lia.
      apply (IH _ _ _ _ _ Ht (sinv_split cs start j Hi ltac:(lia) Hat)); rewrite ?length_app; simpl; lia.
    + apply (IH tokens cs); [done| |lia..]. split_and!; [lia..|done|done|].
      intros i Hi' Hle. destruct (decide (i = j)) as [->|]; [done|]. apply Hno; lia.
  - destruct (add_token_spec tokens cs slots start (zl s - start) Hh) as (t & -> & Ht); [lia..|].
    eexists _, _. split_and!; [done|exact Ht| |].
    + rewrite firstn_all2 by (rewrite length_drop; lia). destruct (decide (cs = [])) as [->|Hne].
      * subst start. done.
      * rewrite joined_snoc by done. rewrite app_assoc, Hj. apply take_drop.
    + apply Forall_app. split; [done|]. constructor; [|constructor]. apply (sinv_free cs start j); [done|lia..].
Qed.

End split_facts.

Lemma sdscatsds_rep fill s t c d f g : rep s c f -> rep t d g -> zl c + zl d < 2 ^ 62 ->
  exists s' f', sdscatsds fill s t = Some s' /\ rep s' (c ++ d) f'.
Proof.
  intros Hs Ht Hsz. unfold sdscatsds. rewrite (sdslen_rep _ _ _ Ht). bsimpl.
  rewrite (get_bytes_rep _ _ _ _ _ Ht) by lia. bsimpl. rewrite drop_0, Nat2Z.id, firstn_all. by apply catlen_rep with f.
Qed.

Lemma join_loop_rep fill sep argv : forall cs s c f, holds argv cs -> rep s c f -> zl c + zl (joined sep cs) < 2 ^ 62 ->
  exists s' f', join_loop fill argv sep (zl sep) s = Some s' /\ rep s' (c ++ joined sep cs) f'.
Proof.
  induction argv as [|a argv IH]; intros cs s c f Hh Hr Hsz; apply Forall2_cons_inv_l in Hh || apply Forall2_nil_inv_l in Hh.
  { subst cs. exists s, f. cbn [join_loop joined]. by rewrite app_nil_r. }
  destruct Hh as (d & cs' & Hd & Hh & ->). cbn [join_loop].
  assert (zl d <= zl (joined sep (d :: cs'))) by (destruct cs'; simpl; rewrite ?length_app; lia).
  destruct (sdscatsds_rep fill s a c d f [] Hr Hd) as (s1 & f1 & -> & H1); [lia|]. bsimpl.
  destruct cs' as [|e cs'].
  - apply Forall2_nil_inv_r in Hh as ->. rewrite bool_decide_eq_false_2 by auto. bsimpl. cbn [join_loop joined]. eauto.
  - assert (argv <> []) as Hne by (by destruct argv; [inversion Hh|]). rewrite bool_decide_eq_true_2 by done.
    change (joined sep (d :: e :: cs')) with (d ++ sep ++ joined sep (e :: cs')) in *. rewrite !length_app in Hsz.
    destruct (catlen_rep fill s1 _ f1 sep H1) as (s2 & f2 & -> & H2); [rewrite length_app; lia|]. bsimpl.
    destruct (IH (e :: cs') s2 _ f2 Hh H2) as (s' & f' & -> & Hs'); [rewrite !length_app; lia|].
    exists s', f'. split; [done|]. by rewrite <- !app_assoc in Hs'.
Qed.

(** * Properties *)

(** Splitting a string at a separator and joining the tokens with it
    gives the string back, no token contains the separator, and splitting
    writes only inside its growing token array; an empty separator is
    refused. *)
Theorem sdssplitlen_join fill s sep :
  zl s < 2 ^ 28 ->
  if zl sep =? 0 then sdssplitlen fill s sep = Some None
  else exists ts cs j f, sdssplitlen fill s sep = Some (Some ts) /\ holds ts cs /\ Forall (sep_free sep) cs /\
    sdsjoinsds fill ts sep (zl sep) = Some j /\ rep j s f.
Proof.
  intros Hs. destruct (Z.eqb_spec (zl sep) 0) as [Hz|Hz]; unfold sdssplitlen; [by rewrite Hz|].
  rewrite (proj2 (Z.ltb_ge (zl sep) 1)), (proj2 (Z.ltb_ge (zl s) 0)) by lia. cbn [orb].
  assert (exists ts cs, (if zl s =? 0 then Some (Some []) else t ← split_loop fill s sep (S (length s)) [] 5 0 0; Some (Some t)) = Some (Some ts) /\
            holds ts cs /\ joined sep cs = s /\ Forall (sep_free sep) cs) as (ts & cs & -> & Hh & Hj & Hf).
  { destruct (Z.eqb_spec (zl s) 0) as [H0|H0].
    - exists [], []. destruct s; [|done]. split_and!; [done|constructor|done|constructor].
    - destruct (split_loop_spec fill s sep ltac:(lia) Hs (S (length s)) [] [] 5 0 0) as (ts & cs & -> & ?);
        [constructor| |lia|lia|simpl; lia|lia|simpl; lia|simpl; lia|bsimpl; eauto].
      split_and!; [lia..|done|constructor|lia]. }
  unfold sdsjoinsds, sdsempty.
  destruct (sdsnewlen_rep fill (INIT_FROM []) 0) as (e & c & -> & He & _ & ->); [lia|by intros p [= <-]|]. bsimpl.
  destruct (join_loop_rep fill sep ts cs e [] [] Hh He) as (j & f & Hjl & Hrep); [rewrite Hj; simpl; lia|].
  rewrite Hj in Hrep. exists ts, cs, j, f. auto.
Qed.

Lemma sdssplitlen_join_witness :
  exists ts cs j f, sdssplitlen (fun _ => 7) [97; 45; 45; 98; 45] [45; 45] = Some (Some ts) /\ holds ts cs /\
    Forall (sep_free [45; 45]) cs /\ sdsjoinsds (fun _ => 7) ts [45; 45] 2 = Some j /\ rep j [97; 45; 45; 98; 45] f.
Proof. apply (sdssplitlen_join (fun _ => 7) [97; 45; 45; 98; 45] [45; 45]). by vm_compute. Defined.

(** A command line: the arguments quoted by [sdscatrepr], with spaces. *)
Fixpoint quote_rest (fill : nat -> Z) (s : sds) (args : list (list Z)) : option sds :=
  match args with
  | [] => Some s
  | a :: args => s ← sdscatlen fill s [32] 1; s ← sdscatrepr fill s a; quote_rest fill s args
  end.
Definition quote_args (fill : nat -> Z) (args : list (list Z)) : option sds :=
  s ← sdsempty fill;
  match args with [] => Some s | a :: args => s ← sdscatrepr fill s a; quote_rest fill s args end.

Lemma length_quoted a : (length (quoted a) <= 4 * length a + 2)%nat.
Proof. unfold quoted. rewrite !length_app. simpl. pose proof (length_escs a). lia. Qed.

Lemma quote_rest_rep fill args : forall s c f, rep s c f -> zl c + 4 * zl (concat args) + 3 * zl args < 2 ^ 62 ->
  exists s' f', quote_rest fill s args = Some s' /\ rep s' (c ++ concat (spaced <$> args)) f'.
Proof.
  induction args as [|a args IH]; intros s c f Hr Hsz; cbn [quote_rest fmap list_fmap concat] in *.
  { exists s, f. by rewrite app_nil_r. }
  rewrite length_app in Hsz. cbn [length] in Hsz. change 1 with (zl [32]). pose proof (length_quoted a).
  destruct (catlen_rep fill s c f [32] Hr) as (s1 & f1 & -> & H1); [simpl; lia|]. bsimpl.
  destruct (sdscatrepr_rep fill s1 _ f1 a H1) as (s2 & f2 & -> & H2); [rewrite length_app; simpl; lia|]. bsimpl.
  destruct (IH s2 _ f2 H2) as (s' & f' & -> & Hs'); [rewrite !length_app; cbn [length]; lia|].
  exists s', f'. split; [done|]. unfold spaced at 1. rewrite <- !app_assoc in Hs'. by rewrite <- app_comm_cons.
Qed.

(** C29: Quoting and parsing are inverse.  Any list of byte strings, NUL
    bytes, quotes and spaces included, written with [sdscatrepr] on one line
    separated by spaces is a NUL-terminated line that [sdssplitargs] parses
    back into exactly those strings. *)
Theorem sdssplitargs_roundtrip fill args :
  Forall (Forall is_byte) args -> 4 * zl (concat args) + 3 * zl args < 2 ^ 61 ->
  exists s line, quote_args fill args = Some s /\ get_bytes s 0 (length line + 1) = Some (line ++ [0]) /\
    sdssplitargs (line ++ [0]) = Some (Some args).
Proof.
  intros Hb Hsz. unfold quote_args, sdsempty.
  destruct (sdsnewlen_rep fill (INIT_FROM []) 0) as (e & c & -> & He & _ & ->); [lia|by intros p [= <-]|]. bsimpl.
  assert (exists s f, match args with [] => Some e | a :: args => s ← sdscatrepr fill e a; quote_rest fill s args end = Some s /\
            rep s (cmdline args) f) as (s & f & -> & Hr).
  { destruct args as [|a args]; [by exists e, []|]. cbn [concat length] in Hsz. rewrite length_app in Hsz. pose proof (length_quoted a).
    destruct (sdscatrepr_rep fill e [] [] a He) as (s1 & f1 & -> & H1); [simpl; lia|]. bsimpl.
    destruct (quote_rest_rep fill args s1 _ f1 H1) as (s & f & -> & Hs); [cbn [app]; lia|]. by exists s, f. }
  exists s, (cmdline args). split_and!; [done|by apply rep_bytes with f|by apply sdssplitargs_cmdline].
Qed.

Lemma sdssplitargs_roundtrip_witness :
  exists s line, quote_args (fun _ => 9) [[]; [34; 92; 0; 10]; [255; 32; 39]] = Some s /\
    get_bytes s 0 (length line + 1) = Some (line ++ [0]) /\
    sdssplitargs (line ++ [0]) = Some (Some [[]; [34; 92; 0; 10]; [255; 32; 39]]).
Proof.
  apply (sdssplitargs_roundtrip (fun _ => 9) [[]; [34; 92; 0; 10]; [255; 32; 39]]).
  - repeat constructor; by vm_compute.
  - by vm_compute.
Defined.

(** [sdssplitargs] terminates on every NUL-terminated line and never
    reads past its terminator, whatever quotes and escapes it contains. *)
Theorem sdssplitargs_total l junk : (0 : Z) ∉ l -> exists r, sdssplitargs (l ++ 0 :: junk) = Some r.
Proof.
  intros Hl. apply args_loop_total; [done|lia|]. rewrite length_app. simpl. lia.
Qed.

Lemma sdssplitargs_total_witness : exists r, sdssplitargs ([34; 92; 120; 52] ++ 0 :: []) = Some r /\ r = None.
Proof.
  destruct (sdssplitargs_total [34; 92; 120; 52] []) as [r Hr]; [set_solver|].
  exists r. split; [exact Hr|]. vm_compute in Hr. congruence.
Defined.

End SdsArgs.
