(* ===== verification/Object.v ===== *)
(** Model of [object.c], the reference-counted value objects, and of the
    access clocks of [evict.c] they carry.

    Objects live in a heap of addresses; freeing an object removes it, and an
    access to a freed object is [Undef].  A string object owns its bytes: an
    embedded or a separate sds with its free space, or the integer stored in
    the pointer.  [serverPanic] and failed assertions are [Abort].

    The encodings never change the string an object stands for, and a program
    that gives back exactly the references it was given never touches freed
    memory, never panics and never leaks an object. *)

From S2P Require Import Prelude Effects UtilNum Sds.

#[local] Open Scope Z_scope.

Module Object.
Import UtilNum.

Inductive otype := OBJ_STRING | OBJ_LIST | OBJ_SET | OBJ_ZSET | OBJ_HASH | OBJ_MODULE | OBJ_STREAM.
Inductive oenc :=
| OBJ_ENCODING_RAW | OBJ_ENCODING_INT | OBJ_ENCODING_HT | OBJ_ENCODING_ZIPMAP | OBJ_ENCODING_LINKEDLIST
| OBJ_ENCODING_ZIPLIST | OBJ_ENCODING_INTSET | OBJ_ENCODING_SKIPLIST | OBJ_ENCODING_EMBSTR
| OBJ_ENCODING_QUICKLIST | OBJ_ENCODING_STREAM.
#[export] Instance otype_eq_dec : EqDecision otype.
Proof. solve_decision. Defined.
#[export] Instance oenc_eq_dec : EqDecision oenc.
Proof. solve_decision. Defined.

Definition OBJ_SHARED_INTEGERS : Z := 10000.
Definition INT_MAX : Z := INT32_MAX.
Definition OBJ_SHARED_REFCOUNT : Z := INT_MAX.
Definition OBJ_STATIC_REFCOUNT : Z := INT_MAX - 1.
Definition OBJ_FIRST_SPECIAL_REFCOUNT : Z := OBJ_STATIC_REFCOUNT.
Definition OBJ_ENCODING_EMBSTR_SIZE_LIMIT : Z := 44.
Definition MAXMEMORY_FLAG_LRU : Z := Z.shiftl 1 0.
Definition MAXMEMORY_FLAG_LFU : Z := Z.shiftl 1 1.
Definition MAXMEMORY_FLAG_NO_SHARED_INTEGERS : Z := Z.lor MAXMEMORY_FLAG_LRU MAXMEMORY_FLAG_LFU.
Definition LRU_BITS : Z := 24.
Definition LRU_CLOCK_MAX : Z := Z.shiftl 1 LRU_BITS - 1.
Definition LRU_CLOCK_RESOLUTION : Z := 1000.
Definition LFU_INIT_VAL : Z := 5.

(** The fields of the server structure these routines read; [mstime] is the
    value the clock would return. *)
Record server := mkServer {
  maxmemory : Z; maxmemory_policy : Z; hz : Z; lruclock : Z; mstime : Z; unixtime : Z; lfu_decay_time : Z }.

(** ** Access clocks *)

Definition getLRUClock (sv : server) : Z := Z.land (mstime sv / LRU_CLOCK_RESOLUTION) LRU_CLOCK_MAX.

(** Division by [hz] truncates; [hz] is positive. *)
Definition LRU_CLOCK (sv : server) : Z :=
  if 1000 / hz sv <=? LRU_CLOCK_RESOLUTION then lruclock sv else getLRUClock sv.

Definition LFUGetTimeInMinutes (sv : server) : Z := Z.land (unixtime sv / 60) 65535.

Definition LFUTimeElapsed (sv : server) (ldt : Z) : Z :=
  let now := LFUGetTimeInMinutes sv in
  if now >=? ldt then now - ldt else 65535 - ldt + now.

(** What an object's pointer refers to: an sds with its bytes and free space,
    an integer kept in the pointer, or the value of another type. *)
Inductive payload := PSds (bytes : list Z) (avail : Z) | PLong (v : Z) | POther.

Record robj := mkObj { type : otype; encoding : oenc; lru : Z; refcount : Z; ptr : payload }.

Definition set_refcount (o : robj) (n : Z) : robj := mkObj (type o) (encoding o) (lru o) n (ptr o).
Definition set_payload (o : robj) (e : oenc) (p : payload) : robj := mkObj (type o) e (lru o) (refcount o) p.

Definition estimateObjectIdleTime (sv : server) (o : robj) : Z :=
  let lruclock := LRU_CLOCK sv in
  if lruclock >=? lru o then (lruclock - lru o) * LRU_CLOCK_RESOLUTION
  else (lruclock + (LRU_CLOCK_MAX - lru o)) * LRU_CLOCK_RESOLUTION.

Definition LFUDecrAndReturn (sv : server) (o : robj) : Z :=
  let ldt := Z.shiftr (lru o) 8 in
  let counter := Z.land (lru o) 255 in
  let num_periods := if negb (lfu_decay_time sv =? 0) then LFUTimeElapsed sv ldt / lfu_decay_time sv else 0 in
  if negb (num_periods =? 0) then (if num_periods >? counter then 0 else counter - num_periods) else counter.

(** ** The heap *)

(** Live objects by address, the next free address, and [shared.integers]. *)
Record hst := mkH { heap : Z -> option robj; brk : Z; shared : Z -> Z }.

Definition hput (h : Z -> option robj) (a : Z) (o : option robj) : Z -> option robj :=
  fun b => if b =? a then o else h b.

Abbreviation M := (st hst).

Definition load (a : Z) : M robj := s ← get; lift (heap s a).
Definition store (a : Z) (o : robj) : M unit :=
  _ ← load a; s ← get; put (mkH (hput (heap s) a (Some o)) (brk s) (shared s)).
Definition alloc (o : robj) : M Z :=
  s ← get;
  _ ← put (mkH (hput (heap s) (brk s) (Some o)) (brk s + 1) (shared s));
  mret (brk s).
Definition zfree (a : Z) : M unit :=
  _ ← load a; s ← get; put (mkH (hput (heap s) a None) (brk s) (shared s)).

Section operations.
Context (sv : server) (fill : nat -> Z).

(** The value assigned to the bit field [lru]. *)
Definition initial_lru : Z := uwrap LRU_BITS (
  if negb (Z.land (maxmemory_policy sv) MAXMEMORY_FLAG_LFU =? 0)
  then Z.lor (Z.shiftl (LFUGetTimeInMinutes sv) 8) LFU_INIT_VAL
  else LRU_CLOCK sv).

Definition createObject (type : otype) (ptr : payload) : M Z :=
  alloc (mkObj type OBJ_ENCODING_RAW initial_lru 1 ptr).

Definition makeObjectShared (a : Z) : M Z :=
  o ← load a;
  _ ← assert (refcount o =? 1);
  _ ← store a (set_refcount o OBJ_SHARED_REFCOUNT);
  mret a.

(** The loop of [createSharedObjects] for the shared integers. *)
Fixpoint create_shared_integers (n : nat) : M unit :=
  match n with
  | O => mret tt
  | S n =>
      _ ← create_shared_integers n;
      a ← createObject OBJ_STRING (PLong (Z.of_nat n));
      a ← makeObjectShared a;
      o ← load a;
      _ ← store a (set_payload o OBJ_ENCODING_INT (ptr o));
      s ← get;
      put (mkH (heap s) (brk s) (fun j => if j =? Z.of_nat n then a else shared s j))
  end.

(** The bytes of a new sds. *)
Definition new_sds (i : Sds.init) (len : Z) : option (list Z) :=
  t ← Sds.sdsnewlen fill i len; Sds.get_bytes t 0 (Z.to_nat len).

(** The same in the embedded header, whose size is not computed at run time. *)
Definition init_bytes (i : Sds.init) (len : Z) : option (list Z) :=
  match i with
  | Sds.SDS_NOINIT => Some (fill <$> seq 0 (Z.to_nat len))
  | Sds.INIT_NULL => Some (replicate (Z.to_nat len) 0)
  | Sds.INIT_FROM p => mread p 0 (Z.to_nat len)
  end.

Definition createRawStringObject (i : Sds.init) (len : Z) : M Z :=
  bs ← lift (new_sds i len); createObject OBJ_STRING (PSds bs 0).

(** The embedded header is an [sdshdr8]: its length field has 8 bits. *)
Definition createEmbeddedStringObject (i : Sds.init) (len : Z) : M Z :=
  bs ← lift (init_bytes i len);
  alloc (mkObj OBJ_STRING OBJ_ENCODING_EMBSTR initial_lru 1 (PSds (take (Z.to_nat (u8 len)) bs) 0)).

Definition createStringObject (i : Sds.init) (len : Z) : M Z :=
  if len <=? OBJ_ENCODING_EMBSTR_SIZE_LIMIT then createEmbeddedStringObject i len
  else createRawStringObject i len.

Definition incrRefCount (a : Z) : M unit :=
  o ← load a;
  if refcount o <? OBJ_FIRST_SPECIAL_REFCOUNT then store a (set_refcount o (refcount o + 1))
  else if refcount o =? OBJ_SHARED_REFCOUNT then mret tt
  else if refcount o =? OBJ_STATIC_REFCOUNT then abort
  else mret tt.

(** The encodings the [free...Object] routines know; they panic on others. *)
Definition freeable (t : otype) (e : oenc) : bool :=
  match t with
  | OBJ_STRING | OBJ_MODULE | OBJ_STREAM => true
  | OBJ_LIST => bool_decide (e = OBJ_ENCODING_QUICKLIST)
  | OBJ_SET => bool_decide (e = OBJ_ENCODING_HT) || bool_decide (e = OBJ_ENCODING_INTSET)
  | OBJ_ZSET => bool_decide (e = OBJ_ENCODING_SKIPLIST) || bool_decide (e = OBJ_ENCODING_ZIPLIST)
  | OBJ_HASH => bool_decide (e = OBJ_ENCODING_HT) || bool_decide (e = OBJ_ENCODING_ZIPLIST)
  end.

Definition decrRefCount (a : Z) : M unit :=
  o ← load a;
  if refcount o =? 1 then _ ← assert (freeable (type o) (encoding o)); zfree a
  else if refcount o <=? 0 then abort
  else if negb (refcount o =? OBJ_SHARED_REFCOUNT) then store a (set_refcount o (refcount o - 1))
  else mret tt.

Definition sdsEncodedObject (o : robj) : bool :=
  bool_decide (encoding o = OBJ_ENCODING_RAW) || bool_decide (encoding o = OBJ_ENCODING_EMBSTR).

Definition sharing_allowed : bool :=
  (maxmemory sv =? 0) || (Z.land (maxmemory_policy sv) MAXMEMORY_FLAG_NO_SHARED_INTEGERS =? 0).

Definition createStringObjectFromLongLongWithOptions (value : Z) (valueobj : bool) : M Z :=
  let valueobj := if sharing_allowed then false else valueobj in
  if (value >=? 0) && (value <? OBJ_SHARED_INTEGERS) && negb valueobj then
    s ← get;
    _ ← incrRefCount (shared s value);
    mret (shared s value)
  else if (value >=? LONG_MIN) && (value <=? LONG_MAX) then
    a ← createObject OBJ_STRING POther;
    o ← load a;
    _ ← store a (set_payload o OBJ_ENCODING_INT (PLong (s64 value)));
    mret a
  else
    t ← lift (Sds.sdsfromlonglong fill value);
    l ← lift (Sds.sdslen t); bs ← lift (Sds.get_bytes t 0 (Z.to_nat l));
    createObject OBJ_STRING (PSds bs 0).

Definition createStringObjectFromLongLong (value : Z) : M Z :=
  createStringObjectFromLongLongWithOptions value false.
Definition createStringObjectFromLongLongForValue (value : Z) : M Z :=
  createStringObjectFromLongLongWithOptions value true.

Definition dupStringObject (a : Z) : M Z :=
  o ← load a;
  _ ← assert (bool_decide (type o = OBJ_STRING));
  match encoding o, ptr o with
  | OBJ_ENCODING_RAW, PSds bs _ => createRawStringObject (Sds.INIT_FROM bs) (Z.of_nat (length bs))
  | OBJ_ENCODING_EMBSTR, PSds bs _ => createEmbeddedStringObject (Sds.INIT_FROM bs) (Z.of_nat (length bs))
  | OBJ_ENCODING_INT, p =>
      d ← createObject OBJ_STRING POther;
      od ← load d;
      _ ← store d (set_payload od OBJ_ENCODING_INT p);
      mret d
  | OBJ_ENCODING_RAW, _ | OBJ_ENCODING_EMBSTR, _ => undef
  | _, _ => abort
  end.

(** The pointer of an object taken as an sds, or as a [long]. *)
Definition as_sds (o : robj) : M (list Z) := match ptr o with PSds bs _ => mret bs | _ => undef end.
Definition as_long (o : robj) : M Z := match ptr o with PLong v => mret v | _ => undef end.

Definition trimStringObjectIfNeeded (a : Z) : M unit :=
  o ← load a;
  match encoding o, ptr o with
  | OBJ_ENCODING_RAW, PSds bs av =>
      if av >? Z.of_nat (length bs) / 10 then store a (set_payload o OBJ_ENCODING_RAW (PSds bs 0)) else mret tt
  | OBJ_ENCODING_RAW, _ => undef
  | _, _ => mret tt
  end.

Definition tryObjectEncoding (a : Z) : M Z :=
  o ← load a;
  _ ← assert (bool_decide (type o = OBJ_STRING));
  if negb (sdsEncodedObject o) then mret a
  else if refcount o >? 1 then mret a
  else
    s ← as_sds o;
    let len := Z.of_nat (length s) in
    match (if len <=? 20 then string2l s else None) with
    | Some value =>
        if sharing_allowed && (value >=? 0) && (value <? OBJ_SHARED_INTEGERS) then
          _ ← decrRefCount a;
          h ← get;
          _ ← incrRefCount (shared h value);
          mret (shared h value)
        else if bool_decide (encoding o = OBJ_ENCODING_RAW) then
          _ ← store a (set_payload o OBJ_ENCODING_INT (PLong value)); mret a
        else
          _ ← decrRefCount a; createStringObjectFromLongLongForValue value
    | None =>
        if len <=? OBJ_ENCODING_EMBSTR_SIZE_LIMIT then
          if bool_decide (encoding o = OBJ_ENCODING_EMBSTR) then mret a
          else
            emb ← createEmbeddedStringObject (Sds.INIT_FROM s) len;
            _ ← decrRefCount a;
            mret emb
        else _ ← trimStringObjectIfNeeded a; mret a
    end.

(** [char buf[n]; len = ll2string(buf,n,v);] and the characters printed. *)
Definition print_long (n : nat) (v : Z) : option (list Z) :=
  '(buf, len) ← ll2string (fill <$> seq 0 n) (Z.of_nat n) v; mread buf 0 (Z.to_nat len).

Definition getDecodedObject (a : Z) : M Z :=
  o ← load a;
  if sdsEncodedObject o then _ ← incrRefCount a; mret a
  else if bool_decide (type o = OBJ_STRING) && bool_decide (encoding o = OBJ_ENCODING_INT) then
    v ← as_long o;
    '(buf, _) ← lift (ll2string (fill <$> seq 0 32) 32 v);
    len ← lift (Sds.strlen buf);
    createStringObject (Sds.INIT_FROM buf) len
  else abort.

(** The characters of a string object, an integer printed in a buffer. *)
Definition chars_of (o : robj) : M (list Z) :=
  if sdsEncodedObject o then as_sds o else v ← as_long o; lift (print_long 128 v).

(** Binary comparison ([REDIS_COMPARE_BINARY]); [memcmp] gives a sign. *)
Definition compareStringObjects (a b : Z) : M Z :=
  oa ← load a; ob ← load b;
  _ ← assert (bool_decide (type oa = OBJ_STRING) && bool_decide (type ob = OBJ_STRING));
  if a =? b then mret 0
  else
    astr ← chars_of oa; bstr ← chars_of ob;
    let alen := Z.of_nat (length astr) in
    let blen := Z.of_nat (length bstr) in
    let minlen := if alen <? blen then alen else blen in
    x ← lift (mread astr 0 (Z.to_nat minlen)); y ← lift (mread bstr 0 (Z.to_nat minlen));
    let cmp := Sds.memcmp x y in
    mret (if cmp =? 0 then s32 (alen - blen) else cmp).

Definition equalStringObjects (a b : Z) : M bool :=
  oa ← load a; ob ← load b;
  if bool_decide (encoding oa = OBJ_ENCODING_INT) && bool_decide (encoding ob = OBJ_ENCODING_INT) then
    va ← as_long oa; vb ← as_long ob; mret (va =? vb)
  else r ← compareStringObjects a b; mret (r =? 0).

Definition stringObjectLen (a : Z) : M Z :=
  o ← load a;
  _ ← assert (bool_decide (type o = OBJ_STRING));
  if sdsEncodedObject o then s ← as_sds o; mret (Z.of_nat (length s))
  else v ← as_long o; lift (sdigits10 v).

(** The NULL object is 0; [None] is [C_ERR]. *)
Definition getLongLongFromObject (oa : option Z) : M (option Z) :=
  match oa with
  | None => mret (Some 0)
  | Some a =>
      o ← load a;
      _ ← assert (bool_decide (type o = OBJ_STRING));
      if sdsEncodedObject o then s ← as_sds o; mret (string2ll s)
      else if bool_decide (encoding o = OBJ_ENCODING_INT) then v ← as_long o; mret (Some v)
      else abort
  end.

Definition isObjectRepresentableAsLongLong (a : Z) : M (option Z) :=
  o ← load a;
  _ ← assert (bool_decide (type o = OBJ_STRING));
  if bool_decide (encoding o = OBJ_ENCODING_INT) then v ← as_long o; mret (Some v)
  else s ← as_sds o; mret (string2ll s).

End operations.

(** * Facts *)

(** The string an object stands for. *)
Definition value (o : robj) : option (list Z) :=
  match type o, encoding o, ptr o with
  | OBJ_STRING, OBJ_ENCODING_RAW, PSds s _ | OBJ_STRING, OBJ_ENCODING_EMBSTR, PSds s _ => Some s
  | OBJ_STRING, OBJ_ENCODING_INT, PLong v => Some (decimal v)
  | _, _, _ => None
  end.

(** Objects whose pointer matches their type and encoding. *)
Definition obj_ok (o : robj) : Prop :=
  match type o with
  | OBJ_STRING =>
      match encoding o, ptr o with
      | OBJ_ENCODING_RAW, PSds s av => 0 <= av /\ Z.of_nat (length s) < 2 ^ 62
      | OBJ_ENCODING_EMBSTR, PSds s av => Z.of_nat (length s) <= OBJ_ENCODING_EMBSTR_SIZE_LIMIT
      | OBJ_ENCODING_INT, PLong v => in_s 64 v
      | _, _ => False
      end
  | t => freeable t (encoding o) = true
  end.

Definition hset (s : hst) (a : Z) (o : option robj) : hst := mkH (hput (heap s) a o) (brk s) (shared s).
Definition hnew (s : hst) (o : robj) : hst := mkH (hput (heap s) (brk s) (Some o)) (brk s + 1) (shared s).

Lemma hput_eq h a o : hput h a o a = o.
Proof. unfold hput. by rewrite Z.eqb_refl. Qed.
Lemma hput_ne h a o b : b <> a -> hput h a o b = h b.
Proof. intros Hb. unfold hput. by rewrite (proj2 (Z.eqb_neq b a)). Qed.

Lemma load_done s a o : heap s a = Some o -> load a s = Done (s, o).
Proof. intros H. unfold load. rewrite bind_get. unfold lift. by rewrite H. Qed.
Lemma store_done s a o o' : heap s a = Some o -> store a o' s = Done (hset s a (Some o'), tt).
Proof. intros H. unfold store. by rewrite (bind_done _ _ _ _ _ (load_done _ _ _ H)). Qed.
Lemma zfree_done s a o : heap s a = Some o -> zfree a s = Done (hset s a None, tt).
Proof. intros H. unfold zfree. by rewrite (bind_done _ _ _ _ _ (load_done _ _ _ H)). Qed.
Lemma alloc_done s o : alloc o s = Done (hnew s o, brk s).
Proof. done. Qed.

Definition is_shared (o : robj) : Prop := refcount o = OBJ_SHARED_REFCOUNT.

(** The shared integers are in place. *)
Definition shared_ok (s : hst) : Prop := forall v, 0 <= v < OBJ_SHARED_INTEGERS ->
  exists o, heap s (shared s v) = Some o /\ type o = OBJ_STRING /\ encoding o = OBJ_ENCODING_INT /\ ptr o = PLong v /\ is_shared o.

(** [refs a] references to the object at [a] are held: every object that is
    not shared is alive because of them, and its counter is their number. *)
Record inv (s : hst) (refs : Z -> Z) : Prop := mkInv {
  inv_obj : forall a o, heap s a = Some o -> obj_ok o /\ a < brk s;
  inv_shared : shared_ok s;
  inv_nonneg : forall a, 0 <= refs a;
  inv_count : forall a o, heap s a = Some o -> ~ is_shared o -> refcount o = refs a /\ 1 <= refs a < OBJ_STATIC_REFCOUNT;
  inv_held : forall a, 0 < refs a -> exists o, heap s a = Some o }.

Definition give (refs : Z -> Z) (a n : Z) : Z -> Z := fun b => if b =? a then refs b + n else refs b.

Lemma give_eq refs a n : give refs a n a = refs a + n.
Proof. unfold give. by rewrite Z.eqb_refl. Qed.
Lemma give_ne refs a n b : b <> a -> give refs a n b = refs b.
Proof. intros Hb. unfold give. by rewrite (proj2 (Z.eqb_neq b a)). Qed.

(** Nothing that was alive has changed its value, and nothing freed is back. *)
Definition keeps (s s' : hst) : Prop :=
  brk s <= brk s' /\
  forall b, b < brk s -> heap s' b = None \/ exists o o', heap s b = Some o /\ heap s' b = Some o' /\ value o' = value o.

Lemma keeps_refl s : keeps s s.
Proof. split; [done|]. intros b _. destruct (heap s b) as [o|] eqn:Hb; [right; eauto|by left]. Qed.

Lemma keeps_trans s1 s2 s3 : keeps s1 s2 -> keeps s2 s3 -> keeps s1 s3.
Proof.
  intros [Hb1 H1] [Hb2 H2]. split; [lia|]. intros b Hb.
  destruct (H2 b ltac:(lia)) as [?|(o2 & o3 & Ho2 & Ho3 & Hv)]; [by left|].
  destruct (H1 b Hb) as [Hn|(o1 & o2' & Ho1 & Ho2' & Hv')]; [congruence|]. simplify_eq. right. exists o1, o3. split_and!; congruence.
Qed.

Lemma keeps_set s a o o' : heap s a = Some o -> (o' = None \/ exists p, o' = Some p /\ value p = value o) -> keeps s (hset s a o').
Proof.
  intros Ha Ho. split; [done|]. intros b _. cbn [hset heap]. destruct (decide (b = a)) as [->|Hne].
  - rewrite hput_eq. destruct Ho as [->|(p & -> & Hp)]; [by left|]. right. eauto.
  - rewrite hput_ne by done. destruct (heap s b) as [ob|] eqn:Hb; [right; eauto|by left].
Qed.

Lemma keeps_new s o : keeps s (hnew s o).
Proof.
  split; [cbn; lia|]. intros b Hb. cbn [hnew heap]. rewrite hput_ne by lia.
  destruct (heap s b) as [ob|] eqn:He; [right; eauto|by left].
Qed.

Definition has (s : hst) (a : Z) (str : list Z) : Prop := exists o, heap s a = Some o /\ value o = Some str.

(** ** The invariant under the heap updates *)

Lemma shared_ok_set s a o o' : shared_ok s -> heap s a = Some o -> ~ is_shared o -> shared_ok (hset s a o').
Proof.
  intros Hs Ha Hn v Hv. destruct (Hs v Hv) as (p & Hp & Hrest). exists p. split; [|done].
  cbn [hset heap shared]. rewrite hput_ne; [done|]. intros <-. assert (p = o) as -> by congruence.
  by destruct Hrest as (_ & _ & _ & ?).
Qed.

Lemma inv_new s refs o : inv s refs -> obj_ok o -> refcount o = 1 -> inv (hnew s o) (give refs (brk s) 1).
Proof.
  intros [Ho Hsh Hnn Hc Hh] Hok H1.
  assert (heap s (brk s) = None) as Hfree.
  { destruct (heap s (brk s)) as [p|] eqn:Hp; [|done]. destruct (Ho _ _ Hp). lia. }
  assert (refs (brk s) = 0) as Hr0.
  { pose proof (Hnn (brk s)). destruct (decide (refs (brk s) = 0)); [done|]. destruct (Hh (brk s)); [lia|congruence]. }
  constructor; cbn [hnew heap brk].
  - intros b p. destruct (decide (b = brk s)) as [->|Hne]; [rewrite hput_eq; intros [= <-]; split; [done|lia]|].
    rewrite hput_ne by done. intros Hp. destruct (Ho _ _ Hp). split; [done|lia].
  - intros v Hv. destruct (Hsh v Hv) as (p & Hp & Hrest). exists p. split; [|done]. cbn [hnew heap shared].
    rewrite hput_ne; [done|]. intros He. congruence.
  - intros b. destruct (decide (b = brk s)) as [->|]; [rewrite give_eq; lia|by rewrite give_ne].
  - intros b p. destruct (decide (b = brk s)) as [->|Hne].
    + rewrite hput_eq, give_eq. intros [= <-] _. unfold OBJ_STATIC_REFCOUNT, INT_MAX. lia.
    + rewrite hput_ne, give_ne by done. apply Hc.
  - intros b. destruct (decide (b = brk s)) as [->|Hne]; [rewrite hput_eq; eauto|].
    rewrite hput_ne, give_ne by done. apply Hh.
Qed.

(** An object replaced by another with [n] more references. *)
Lemma inv_set s refs a o o' n : inv s refs -> heap s a = Some o -> ~ is_shared o ->
  obj_ok o' -> refcount o' = refcount o + n -> 1 <= refs a + n < OBJ_STATIC_REFCOUNT ->
  inv (hset s a (Some o')) (give refs a n).
Proof.
  intros [Ho Hsh Hnn Hc Hh] Ha Hns Hok Hrc Hn. constructor; cbn [hset heap brk].
  - intros b p. destruct (decide (b = a)) as [->|Hne]; [rewrite hput_eq; intros [= <-]|rewrite hput_ne by done; apply Ho].
    split; [done|]. by destruct (Ho _ _ Ha).
  - by eapply shared_ok_set.
  - intros b. destruct (decide (b = a)) as [->|]; [rewrite give_eq; lia|by rewrite give_ne].
  - intros b p. destruct (decide (b = a)) as [->|Hne].
    + rewrite hput_eq, give_eq. intros [= <-] _. destruct (Hc _ _ Ha Hns). lia.
    + rewrite hput_ne, give_ne by done. apply Hc.
  - intros b. destruct (decide (b = a)) as [->|Hne]; [rewrite hput_eq; eauto|].
    rewrite hput_ne, give_ne by done. apply Hh.
Qed.

Lemma inv_free s refs a o : inv s refs -> heap s a = Some o -> ~ is_shared o -> refs a = 1 ->
  inv (hset s a None) (give refs a (-1)).
Proof.
  intros [Ho Hsh Hnn Hc Hh] Ha Hns H1. constructor; cbn [hset heap brk].
  - intros b p. destruct (decide (b = a)) as [->|Hne]; [by rewrite hput_eq|rewrite hput_ne by done; apply Ho].
  - by eapply shared_ok_set.
  - intros b. destruct (decide (b = a)) as [->|]; [rewrite give_eq; lia|by rewrite give_ne].
  - intros b p. destruct (decide (b = a)) as [->|Hne]; [by rewrite hput_eq|].
    rewrite hput_ne, give_ne by done. apply Hc.
  - intros b. destruct (decide (b = a)) as [->|Hne]; [rewrite give_eq; lia|].
    rewrite hput_ne, give_ne by done. apply Hh.
Qed.

(** References to a shared object are not counted. *)
Lemma inv_shared_give s refs a o n : inv s refs -> heap s a = Some o -> is_shared o -> 0 <= refs a + n -> inv s (give refs a n).
Proof.
  intros [Ho Hsh Hnn Hc Hh] Ha Hns Hn. constructor; [done|done|..].
  - intros b. destruct (decide (b = a)) as [->|]; [by rewrite give_eq|by rewrite give_ne].
  - intros b p Hp Hnp. rewrite give_ne; [by apply Hc|]. intros ->. congruence.
  - intros b. destruct (decide (b = a)) as [->|Hne]; [eauto|]. rewrite give_ne by done. apply Hh.
Qed.

Lemma inv_ext s refs refs' : (forall a, refs a = refs' a) -> inv s refs -> inv s refs'.
Proof. intros He [Ho Hsh Hnn Hc Hh]. constructor; [done|done|..]; intros a; rewrite <- He; auto. Qed.

Lemma is_shared_dec o : is_shared o \/ ~ is_shared o.
Proof. unfold is_shared. destruct (decide (refcount o = OBJ_SHARED_REFCOUNT)); auto. Qed.

(** Taking and giving back a reference. *)
Lemma incr_spec s refs a o : inv s refs -> heap s a = Some o -> (~ is_shared o -> refs a + 1 < OBJ_STATIC_REFCOUNT) ->
  exists s' o', incrRefCount a s = Done (s', tt) /\ inv s' (give refs a 1) /\ keeps s s' /\ shared s' = shared s /\
    heap s' a = Some o' /\ value o' = value o.
Proof.
  intros Hi Ha Hlim. unfold incrRefCount. rewrite (bind_done _ _ _ _ _ (load_done _ _ _ Ha)).
  pose proof (inv_nonneg _ _ Hi a). destruct (is_shared_dec o) as [Hs|Hs].
  - rewrite Hs. change (OBJ_SHARED_REFCOUNT <? OBJ_FIRST_SPECIAL_REFCOUNT) with false. rewrite Z.eqb_refl. cbv iota.
    exists s, o. split_and!; [done| |apply keeps_refl|done|done|done]. eapply inv_shared_give; [done..|lia].
  - destruct (inv_count _ _ Hi _ _ Ha Hs) as [Hrc Hb]. specialize (Hlim Hs).
    rewrite (proj2 (Z.ltb_lt _ _)) by (unfold OBJ_FIRST_SPECIAL_REFCOUNT; lia).
    rewrite (store_done _ _ _ _ Ha). eexists _, _. split_and!; [done| | |done|apply hput_eq|done].
    + apply inv_set with o; try done; [by apply (inv_obj _ _ Hi) in Ha as [? _]|lia].
    + apply keeps_set with o; [done|]. right. by eexists.
Qed.

Lemma decr_spec s refs a : inv s refs -> 0 < refs a ->
  exists s', decrRefCount a s = Done (s', tt) /\ inv s' (give refs a (-1)) /\ keeps s s' /\ shared s' = shared s /\
    (forall b, b <> a -> heap s' b = heap s b).
Proof.
  intros Hi Hr. destruct (inv_held _ _ Hi a Hr) as [o Ha]. unfold decrRefCount.
  rewrite (bind_done _ _ _ _ _ (load_done _ _ _ Ha)). destruct (inv_obj _ _ Hi _ _ Ha) as [Hok _].
  destruct (is_shared_dec o) as [Hs|Hs].
  - rewrite Hs. cbn [Z.eqb Z.leb]. change (OBJ_SHARED_REFCOUNT =? 1) with false. change (OBJ_SHARED_REFCOUNT <=? 0) with false.
    rewrite Z.eqb_refl. cbn [negb]. exists s. split_and!; [done| |apply keeps_refl|done|done]. eapply inv_shared_give; [done..|lia].
  - destruct (inv_count _ _ Hi _ _ Ha Hs) as [Hrc Hb]. destruct (Z.eqb_spec (refcount o) 1) as [H1|H1].
    + assert (freeable (type o) (encoding o) = true) as -> by (unfold obj_ok in Hok; by destruct (type o)).
      unfold assert. rewrite bind_ret, (zfree_done _ _ _ Ha). eexists. split_and!; [done| | |done|intros; by apply hput_ne].
      * apply inv_free with o; [done..|lia].
      * apply keeps_set with o; [done|by left].
    + rewrite (proj2 (Z.leb_gt _ _)) by lia.
      rewrite (proj2 (Z.eqb_neq (refcount o) OBJ_SHARED_REFCOUNT)) by (by intros ?; apply Hs). cbn [negb].
      rewrite (store_done _ _ _ _ Ha). eexists. split_and!; [done| | |done|intros; by apply hput_ne].
      * apply inv_set with o; try done. lia.
      * apply keeps_set with o; [done|]. right. by eexists.
Qed.

(** ** Equal heaps *)

Definition heq (s s' : hst) : Prop := brk s = brk s' /\ shared s = shared s' /\ forall b, heap s b = heap s' b.

Lemma inv_heq s s' refs : heq s s' -> inv s refs -> inv s' refs.
Proof.
  intros (Hb & Hsh & Hh) [H1 H2 H3 H4 H5]. constructor; intros a.
  - rewrite <- Hh, <- Hb. apply H1.
  - intros Hv. destruct (H2 a Hv) as (o & Ho & Hr). exists o. by rewrite <- Hsh, <- Hh.
  - apply H3.
  - rewrite <- Hh. apply H4.
  - rewrite <- Hh. apply H5.
Qed.

Lemma keeps_heq s s1 s2 : heq s1 s2 -> keeps s s1 -> keeps s s2.
Proof. intros (Hb & _ & Hh) [H1 H2]. split; [lia|]. intros b Hlt. rewrite <- Hh. by apply H2. Qed.

Lemma heq_new_set s o o' : heq (hnew s o') (hset (hnew s o) (brk s) (Some o')).
Proof.
  split_and!; [done|done|]. intros b. cbn [hnew hset heap brk]. unfold hput. by destruct (b =? brk s).
Qed.

(** ** Creating strings *)

(** What a constructor promises: a new reference to a string. *)
Definition gives (refs : Z -> Z) (str : list Z) (s : hst) (r : outcome (hst * Z)) : Prop :=
  exists s' a, r = Done (s', a) /\ inv s' (give refs a 1) /\ keeps s s' /\ shared s' = shared s /\ has s' a str.

Lemma gives_new refs str s o : inv s refs -> obj_ok o -> refcount o = 1 -> value o = Some str ->
  gives refs str s (Done (hnew s o, brk s)).
Proof.
  intros Hi Hok H1 Hv. exists (hnew s o), (brk s). split_and!; [done|by apply inv_new|apply keeps_new|done|].
  exists o. split; [apply hput_eq|done].
Qed.

Lemma new_sds_done fill bs : Z.of_nat (length bs) < 2 ^ 62 ->
  new_sds fill (Sds.INIT_FROM bs) (Z.of_nat (length bs)) = Some bs.
Proof.
  intros Hsz. unfold new_sds.
  destruct (Sds.sdsnewlen_rep fill (Sds.INIT_FROM bs) (Z.of_nat (length bs))) as (t & c & -> & Ht & _ & ->);
    [lia|by intros p [= ->]|]. bsimpl. rewrite Nat2Z.id, firstn_all in *.
  rewrite (Sds.get_bytes_rep _ _ _ _ _ Ht) by lia. by rewrite drop_0, firstn_all.
Qed.

Section creation.
Context (sv : server) (fill : nat -> Z) (s : hst) (refs : Z -> Z) (Hinv : inv s refs).

Lemma create_raw_gives bs : Z.of_nat (length bs) < 2 ^ 62 -> gives refs bs s (createRawStringObject sv fill (Sds.INIT_FROM bs) (Z.of_nat (length bs)) s).
Proof using Hinv.
  intros Hsz. unfold createRawStringObject. rewrite new_sds_done, bind_lift by done. by apply gives_new.
Qed.

Lemma create_emb_gives bs : Z.of_nat (length bs) <= OBJ_ENCODING_EMBSTR_SIZE_LIMIT ->
  gives refs bs s (createEmbeddedStringObject sv fill (Sds.INIT_FROM bs) (Z.of_nat (length bs)) s) /\
  exists s' o, createEmbeddedStringObject sv fill (Sds.INIT_FROM bs) (Z.of_nat (length bs)) s = Done (s', brk s) /\
    heap s' (brk s) = Some o /\ encoding o = OBJ_ENCODING_EMBSTR.
Proof using Hinv.
  unfold OBJ_ENCODING_EMBSTR_SIZE_LIMIT. intros Hlen.
  unfold createEmbeddedStringObject, init_bytes. rewrite mread_Some, drop_0, Nat2Z.id, firstn_all by lia. rewrite bind_lift.
  rewrite uwrap_small, Nat2Z.id, firstn_all by mlia. split; [by apply gives_new|].
  eexists _, _. split_and!; [done|apply hput_eq|done].
Qed.

Lemma create_string_gives bs : Z.of_nat (length bs) < 2 ^ 62 -> gives refs bs s (createStringObject sv fill (Sds.INIT_FROM bs) (Z.of_nat (length bs)) s).
Proof using Hinv.
  intros Hsz. unfold createStringObject. destruct (Z.leb_spec (Z.of_nat (length bs)) OBJ_ENCODING_EMBSTR_SIZE_LIMIT).
  - by apply create_emb_gives.
  - by apply create_raw_gives.
Qed.

(** An object made first and then turned into an integer. *)
Lemma create_int_gives v p : in_s 64 v ->
  gives refs (decimal v) s ((a ← createObject sv OBJ_STRING p; o ← load a;
    _ ← store a (set_payload o OBJ_ENCODING_INT (PLong v)); mret a) s) /\
  exists s' o, (a ← createObject sv OBJ_STRING p; o ← load a;
    _ ← store a (set_payload o OBJ_ENCODING_INT (PLong v)); mret a) s = Done (s', brk s) /\
    heap s' (brk s) = Some o /\ encoding o = OBJ_ENCODING_INT /\ ptr o = PLong v.
Proof using Hinv.
  intros Hv. set (o1 := mkObj OBJ_STRING OBJ_ENCODING_RAW (initial_lru sv) 1 p).
  assert (heap (hnew s o1) (brk s) = Some o1) as H1 by apply hput_eq.
  rewrite (bind_done _ _ _ _ _ (alloc_done s o1)), (bind_done _ _ _ _ _ (load_done _ _ _ H1)).
  rewrite (bind_done _ _ _ _ _ (store_done _ _ _ _ H1)).
  set (o2 := set_payload o1 OBJ_ENCODING_INT (PLong v)). pose proof (heq_new_set s o1 o2) as He. split.
  - eexists _, _. split_and!; [done|eapply inv_heq, inv_new; [exact He|done..]|eapply keeps_heq, keeps_new; exact He|done|].
    exists o2. split; [apply hput_eq|done].
  - eexists _, _. split_and!; [done|apply hput_eq|done|done].
Qed.

Lemma take_shared_gives v : 0 <= v < OBJ_SHARED_INTEGERS ->
  gives refs (decimal v) s ((_ ← incrRefCount (shared s v); mret (shared s v)) s) /\
  exists s' o, (_ ← incrRefCount (shared s v); mret (shared s v)) s = Done (s', shared s v) /\
    heap s' (shared s v) = Some o /\ encoding o = OBJ_ENCODING_INT /\ ptr o = PLong v.
Proof using Hinv.
  intros Hv. destruct (inv_shared _ _ Hinv v Hv) as (o & Ho & Ht & He & Hp & Hs).
  assert (incrRefCount (shared s v) s = Done (s, tt)) as Hinc.
  { unfold incrRefCount. rewrite (bind_done _ _ _ _ _ (load_done _ _ _ Ho)), Hs. done. }
  rewrite (bind_done _ _ _ _ _ Hinc). pose proof (inv_nonneg _ _ Hinv (shared s v)). split; [|by eexists _, _].
  exists s, (shared s v). split_and!; [done|by eapply inv_shared_give; [..|lia]|apply keeps_refl|done|].
  exists o. split; [done|]. unfold value. by rewrite Ht, He, Hp.
Qed.

Lemma create_ll_gives v b : in_s 64 v ->
  gives refs (decimal v) s (createStringObjectFromLongLongWithOptions sv fill v b s) /\
  exists s' a o, createStringObjectFromLongLongWithOptions sv fill v b s = Done (s', a) /\
    heap s' a = Some o /\ encoding o = OBJ_ENCODING_INT /\ ptr o = PLong v.
Proof using Hinv.
  intros Hv. unfold createStringObjectFromLongLongWithOptions. rewrite Z.geb_leb.
  destruct (Z.leb_spec 0 v), (Z.ltb_spec v OBJ_SHARED_INTEGERS); cbn [andb].
  1: destruct (negb _).
  1: { rewrite bind_get. destruct (take_shared_gives v) as [Hg (s' & o & He & Ho)]; [done|].
       split; [exact Hg|]. exists s', (shared s v), o. split; [exact He|exact Ho]. }
  all: rewrite Z.geb_leb, (proj2 (Z.leb_le _ _)), (proj2 (Z.leb_le _ _)) by (unfold LONG_MIN, LONG_MAX; mlia); cbn [andb];
    rewrite swrap_small by mlia;
    destruct (create_int_gives v POther Hv) as [Hg (s' & o & He & Ho)]; (split; [exact Hg|]); exists s', (brk s), o; (split; [exact He|exact Ho]).
Qed.

End creation.

(** ** Encoding *)

Lemma string2l_string2ll s : string2l s = string2ll s.
Proof.
  unfold string2l. destruct (string2ll s) as [v|] eqn:Hs; [|done]. bsimpl. apply string2ll_decimal in Hs as [Hv _].
  rewrite (proj2 (Z.ltb_ge _ _)) by (unfold LONG_MIN; mlia). rewrite Z.gtb_ltb, (proj2 (Z.ltb_ge _ _)) by (unfold LONG_MAX; mlia).
  cbn [orb]. by rewrite swrap_small by mlia.
Qed.

(** No string of more than 20 characters is an integer. *)
Lemma guarded_string2l s : (if Z.of_nat (length s) <=? 20 then string2l s else None) = string2ll s.
Proof.
  rewrite string2l_string2ll. destruct (Z.leb_spec (Z.of_nat (length s)) 20); [done|].
  destruct (string2ll s) as [v|] eqn:Hs; [|done]. apply string2ll_decimal in Hs as [Hv ->].
  pose proof (length_decimal v Hv). lia.
Qed.

(** The encoding [tryObjectEncoding] aims at. *)
Definition best_encoded (o : robj) (str : list Z) : Prop :=
  match string2ll str with
  | Some v => encoding o = OBJ_ENCODING_INT /\ ptr o = PLong v
  | None =>
      if Z.of_nat (length str) <=? OBJ_ENCODING_EMBSTR_SIZE_LIMIT then encoding o = OBJ_ENCODING_EMBSTR
      else encoding o = OBJ_ENCODING_RAW /\ exists av, ptr o = PSds str av /\ av <= Z.of_nat (length str) / 10
  end.

Lemma value_sds o str : value o = Some str -> type o = OBJ_STRING /\
  (if sdsEncodedObject o then exists av, ptr o = PSds str av
   else encoding o = OBJ_ENCODING_INT /\ exists v, ptr o = PLong v /\ str = decimal v).
Proof. unfold value, sdsEncodedObject. destruct o as [[] [] ? ? []]; intros [= <-]; simpl; eauto. Qed.

Lemma inv_take_give s refs a n : inv s refs -> inv s (give (give refs a (- n)) a n).
Proof. apply inv_ext. intros b. unfold give. destruct (b =? a); lia. Qed.

Lemma inv_give_swap s refs a b m n : inv s (give (give refs a m) b n) -> inv s (give (give refs b n) a m).
Proof. apply inv_ext. intros c. unfold give. destruct (c =? a), (c =? b); lia. Qed.

Section encode.
Context (sv : server) (fill : nat -> Z) (s : hst) (refs : Z -> Z) (Hinv : inv s refs).
Context (a : Z) (o : robj) (str : list Z) (Ha : heap s a = Some o) (Hr : 0 < refs a) (Hv : value o = Some str).

Definition encoded (r : outcome (hst * Z)) : Prop :=
  exists s' b o', r = Done (s', b) /\ inv s' (give (give refs a (-1)) b 1) /\ keeps s s' /\
    heap s' b = Some o' /\ value o' = Some str /\
    (refcount o = 1 -> sdsEncodedObject o = true -> best_encoded o' str).

Lemma encoded_same : (refcount o = 1 -> sdsEncodedObject o = true -> best_encoded o str) -> encoded (Done (s, a)).
Proof using Hinv Ha Hv.
  intros Hb. exists s, a, o. split_and!; [done|by apply (inv_take_give _ _ _ 1)|apply keeps_refl|done|done|done].
Qed.

(** The object replaced in place by one for the same string. *)
Lemma encoded_set o' : ~ is_shared o -> obj_ok o' -> refcount o' = refcount o -> value o' = Some str -> best_encoded o' str ->
  encoded (Done (hset s a (Some o'), a)).
Proof using Hinv Ha Hv Hr.
  intros Hs Hok Hrc Hv' Hb. destruct (inv_count _ _ Hinv _ _ Ha Hs).
  exists (hset s a (Some o')), a, o'. split_and!; [done| | |apply hput_eq|done|done].
  - apply (inv_take_give _ _ _ 1), (inv_ext _ (give refs a 0)); [intros b; unfold give; destruct (b =? a); lia|].
    apply inv_set with o; [done..|lia|lia].
  - apply keeps_set with o; [done|]. right. exists o'. split; [done|congruence].
Qed.

(** The reference given back, and a string created. *)
Lemma encoded_replace (k : st hst Z) :
  (forall s1, inv s1 (give refs a (-1)) -> shared s1 = shared s -> gives (give refs a (-1)) str s1 (k s1) /\
     exists s' b o', k s1 = Done (s', b) /\ heap s' b = Some o' /\ best_encoded o' str) ->
  encoded ((_ ← decrRefCount a; k) s).
Proof using Hinv Hr.
  intros Hk. destruct (decr_spec s refs a Hinv Hr) as (s1 & Hd & Hi1 & Hk1 & Hs1 & _).
  rewrite (bind_done _ _ _ _ _ Hd). destruct (Hk s1 Hi1 Hs1) as [(s2 & b & He & Hi2 & Hk2 & _ & o2 & Ho2 & Hv2) (s3 & b3 & o3 & He3 & Ho3 & Hb3)].
  assert (s2 = s3 /\ b = b3) as [<- <-] by (split; congruence). assert (o2 = o3) as <- by congruence.
  exists s2, b, o2. split_and!; [done|done|by eapply keeps_trans|done|done|done].
Qed.

Lemma trim_spec bs av : encoding o = OBJ_ENCODING_RAW -> ptr o = PSds bs av ->
  trimStringObjectIfNeeded a s =
    Done (if av >? Z.of_nat (length bs) / 10 then hset s a (Some (set_payload o OBJ_ENCODING_RAW (PSds bs 0))) else s, tt).
Proof using Ha.
  intros He Hp. unfold trimStringObjectIfNeeded. rewrite (bind_done _ _ _ _ _ (load_done _ _ _ Ha)), He, Hp.
  destruct (av >? _); [by apply store_done with o|done].
Qed.

Lemma try_encode : encoded (tryObjectEncoding sv fill a s).
Proof using Hinv Ha Hr Hv.
  unfold tryObjectEncoding. rewrite (bind_done _ _ _ _ _ (load_done _ _ _ Ha)).
  destruct (value_sds o str Hv) as [Ht Hsds]. rewrite (bool_decide_eq_true_2 (type o = OBJ_STRING)) by done.
  unfold assert. rewrite bind_ret.
  destruct (sdsEncodedObject o) eqn:Hse; cbn [negb]; [|apply encoded_same; congruence].
  destruct Hsds as [av Hp]. rewrite Z.gtb_ltb. destruct (Z.ltb_spec 1 (refcount o)) as [Hrc|Hrc].
  { apply encoded_same. lia. }
  destruct (is_shared_dec o) as [Hs|Hs]; [unfold is_shared, OBJ_SHARED_REFCOUNT, INT_MAX in Hs; lia|].
  destruct (inv_count _ _ Hinv _ _ Ha Hs) as [Hc1 Hc2]. destruct (inv_obj _ _ Hinv _ _ Ha) as [Hok _].
  assert (as_sds o = mret str) as -> by (unfold as_sds; by rewrite Hp). rewrite bind_ret, guarded_string2l.
  clear Hse. destruct (string2ll str) as [v|] eqn:H2l.
  - pose proof H2l as [Hv64 Hstr]%string2ll_decimal.
    assert (forall o', encoding o' = OBJ_ENCODING_INT -> ptr o' = PLong v -> best_encoded o' str) as Hbest
      by (intros; unfold best_encoded; by rewrite H2l).
    destruct (sharing_allowed sv && _ && _) eqn:Hshare.
    + apply encoded_replace. intros s1 Hi1 Hs1. rewrite bind_get, Hstr.
      apply andb_true_iff in Hshare as [Hshare H2]. apply andb_true_iff in Hshare as [_ H1].
      destruct (take_shared_gives s1 _ Hi1 v) as [Hg (s' & o' & He & Ho' & ? & ?)]; [lia|].
      split; [done|]. exists s', (shared s1 v), o'. split_and!; [done|done|rewrite <- Hstr; by apply Hbest].
    + case_bool_decide as Henc.
      * rewrite (bind_done _ _ _ _ _ (store_done _ _ _ _ Ha)).
        apply (encoded_set (set_payload o OBJ_ENCODING_INT (PLong v))); [done| |done| |by apply Hbest].
        -- unfold obj_ok. cbn [set_payload type encoding ptr]. by rewrite Ht.
        -- unfold value. cbn [set_payload type encoding ptr]. by rewrite Ht, Hstr.
      * apply encoded_replace. intros s1 Hi1 Hs1. rewrite Hstr.
        destruct (create_ll_gives sv fill s1 _ Hi1 v true Hv64) as [Hg (s' & b & o' & He & Ho' & ? & ?)].
        split; [done|]. exists s', b, o'. split_and!; [done|done|rewrite <- Hstr; by apply Hbest].
  - destruct (Z.leb_spec (Z.of_nat (length str)) OBJ_ENCODING_EMBSTR_SIZE_LIMIT) as [Hle|Hgt].
    + assert (forall o', encoding o' = OBJ_ENCODING_EMBSTR -> best_encoded o' str) as Hbest.
      { intros. unfold best_encoded. by rewrite H2l, (proj2 (Z.leb_le _ _)) by done. }
      case_bool_decide as Henc; [apply encoded_same; intros _ _; by apply Hbest|].
      destruct (create_emb_gives sv fill s refs Hinv str Hle) as [(s1 & b & He & Hi1 & Hk1 & _ & Hhas) (s1' & o1 & He' & Ho1 & Henc1)].
      assert (s1 = s1' /\ b = brk s) as [<- ->] by (split; congruence). rewrite (bind_done _ _ _ _ _ He).
      assert (a <> brk s) as Hne by (destruct (inv_obj _ _ Hinv _ _ Ha); lia).
      destruct (decr_spec s1 (give refs (brk s) 1) a Hi1) as (s2 & Hd & Hi2 & Hk2 & _ & Hsame); [by rewrite give_ne|].
      rewrite (bind_done _ _ _ _ _ Hd). apply inv_give_swap in Hi2. rewrite <- (Hsame (brk s)) in Ho1 by done.
      destruct Hhas as (o1' & Ho1' & Hv1). rewrite <- (Hsame (brk s)) in Ho1' by done. assert (o1' = o1) as -> by congruence.
      exists s2, (brk s), o1. split_and!; [done|done|by eapply keeps_trans|done|done|intros _ _; by apply Hbest].
    + assert (encoding o = OBJ_ENCODING_RAW) as Henc.
      { unfold obj_ok in Hok. rewrite Ht, Hp in Hok. destruct (encoding o); try done. lia. }
      rewrite (bind_done _ _ _ _ _ (trim_spec str av Henc Hp)).
      assert (forall o', encoding o' = OBJ_ENCODING_RAW -> (exists av', ptr o' = PSds str av' /\ av' <= Z.of_nat (length str) / 10) -> best_encoded o' str) as Hbest.
      { intros. unfold best_encoded. by rewrite H2l, (proj2 (Z.leb_gt _ _)) by done. }
      rewrite Z.gtb_ltb. destruct (Z.ltb_spec (Z.of_nat (length str) / 10) av).
      * apply (encoded_set (set_payload o OBJ_ENCODING_RAW (PSds str 0))); [done| |done| |].
        -- unfold obj_ok in Hok |- *. cbn [set_payload type encoding ptr]. rewrite Ht, Henc, Hp in *. lia.
        -- unfold value. cbn [set_payload type encoding ptr]. by rewrite Ht.
        -- apply Hbest; [done|]. exists 0. split; [done|]. apply Z.div_pos; lia.
      * apply encoded_same. intros _ _. apply Hbest; eauto.
Qed.

End encode.

(** ** Decoding and duplication *)

Lemma strlen_app l rest : (0 : Z) ∉ l -> Sds.strlen (l ++ 0 :: rest) = Some (Z.of_nat (length l)).
Proof.
  induction l as [|c l IH]; intros H0; cbn [app Sds.strlen]; [done|]. apply not_elem_of_cons in H0 as [Hc H0].
  rewrite (proj2 (Z.eqb_neq c 0)) by done. rewrite IH by done. bsimpl. f_equal. simpl. lia.
Qed.

Lemma as_long_done o v s : ptr o = PLong v -> as_long o s = Done (s, v).
Proof. intros H. unfold as_long. by rewrite H. Qed.
Lemma as_sds_done o bs av s : ptr o = PSds bs av -> as_sds o s = Done (s, bs).
Proof. intros H. unfold as_sds. by rewrite H. Qed.

Section decode.
Context (sv : server) (fill : nat -> Z) (s : hst) (refs : Z -> Z) (Hinv : inv s refs).
Context (a : Z) (o : robj) (str : list Z) (Ha : heap s a = Some o) (Hv : value o = Some str).

Lemma value_int v : ptr o = PLong v -> encoding o = OBJ_ENCODING_INT -> type o = OBJ_STRING -> in_s 64 v.
Proof using Hinv Ha.
  intros Hp He Ht. destruct (inv_obj _ _ Hinv _ _ Ha) as [Hok _]. unfold obj_ok in Hok. by rewrite Ht, He, Hp in Hok.
Qed.

Lemma decode_gives : (~ is_shared o -> refs a + 1 < OBJ_STATIC_REFCOUNT) ->
  gives refs str s (getDecodedObject sv fill a s) /\
  exists s' b o', getDecodedObject sv fill a s = Done (s', b) /\ heap s' b = Some o' /\ sdsEncodedObject o' = true.
Proof using Hinv Ha Hv.
  intros Hlim. unfold getDecodedObject. rewrite (bind_done _ _ _ _ _ (load_done _ _ _ Ha)).
  destruct (value_sds o str Hv) as [Ht Hsds]. destruct (sdsEncodedObject o) eqn:Hse.
  - destruct (incr_spec s refs a o Hinv Ha Hlim) as (s' & o' & Hinc & Hi' & Hk' & Hs' & Ho' & Hv').
    rewrite (bind_done _ _ _ _ _ Hinc). split.
    + exists s', a. split_and!; [done..|]. exists o'. split; [done|congruence].
    + exists s', a, o'. split_and!; [done|done|]. clear -Hse Hinc Ha Ho'.
      unfold incrRefCount in Hinc. rewrite (bind_done _ _ _ _ _ (load_done _ _ _ Ha)) in Hinc.
      destruct (refcount o <? _).
      * rewrite (store_done _ _ _ _ Ha) in Hinc. injection Hinc as <-. cbn [hset heap] in Ho'. rewrite hput_eq in Ho'. by injection Ho' as <-.
      * unfold mret, st_ret, abort in Hinc. repeat case_match; simplify_eq; congruence.
  - destruct Hsds as (He & v & Hp & ->). pose proof (value_int v Hp He Ht) as Hv64.
    rewrite !bool_decide_eq_true_2 by done. cbn [andb]. rewrite (bind_done _ _ _ _ _ (as_long_done o v s Hp)).
    destruct (ll2string_fits (fill <$> seq 0 32) 32 v Hv64) as (rest & Hll & _); [rewrite length_fmap, length_seq; lia|done|]. rewrite Hll, bind_lift.
    rewrite strlen_app, bind_lift by by apply decimal_nonzero.
    pose proof (length_decimal v Hv64) as Hlen. unfold createStringObject.
    rewrite (proj2 (Z.leb_le _ _)) by (unfold OBJ_ENCODING_EMBSTR_SIZE_LIMIT; lia).
    unfold createEmbeddedStringObject, init_bytes. rewrite mread_Some, drop_0, Nat2Z.id, take_app_length by (rewrite ?length_app; lia).
    rewrite bind_lift, uwrap_small, Nat2Z.id, firstn_all by mlia. split.
    + apply gives_new; [done| |done|done]. cbn. unfold OBJ_ENCODING_EMBSTR_SIZE_LIMIT. lia.
    + eexists _, _, _. split_and!; [done|apply hput_eq|done].
Qed.

Lemma dup_gives : gives refs str s (dupStringObject sv fill a s).
Proof using Hinv Ha Hv.
  unfold dupStringObject. rewrite (bind_done _ _ _ _ _ (load_done _ _ _ Ha)).
  destruct (value_sds o str Hv) as [Ht Hsds]. rewrite (bool_decide_eq_true_2 (type o = OBJ_STRING)) by done.
  unfold assert. rewrite bind_ret. destruct (inv_obj _ _ Hinv _ _ Ha) as [Hok _]. unfold obj_ok in Hok. rewrite Ht in Hok.
  unfold value in Hv. rewrite Ht in Hv. destruct (encoding o) eqn:He; try done; destruct (ptr o) as [bs av|v|] eqn:Hp; try done.
  - injection Hv as <-. destruct Hok. by apply create_raw_gives.
  - injection Hv as <-. by apply create_int_gives.
  - injection Hv as <-. by apply create_emb_gives.
Qed.

Lemma chars_of_done : chars_of fill o s = Done (s, str).
Proof using Hinv Ha Hv.
  destruct (value_sds o str Hv) as [Ht Hsds]. unfold chars_of. destruct (sdsEncodedObject o).
  - destruct Hsds as [av Hp]. by apply as_sds_done with av.
  - destruct Hsds as (He & v & Hp & ->). rewrite (bind_done _ _ _ _ _ (as_long_done o v s Hp)).
    pose proof (value_int v Hp He Ht) as Hv64. unfold print_long.
    destruct (ll2string_fits (fill <$> seq 0 128) (Z.of_nat 128) v Hv64) as (rest & Hll & _); [by rewrite length_fmap, length_seq; lia|by rewrite length_fmap, length_seq|]. rewrite Hll. bsimpl.
    by rewrite mread_Some, drop_0, Nat2Z.id, take_app_length by (rewrite ?length_app; lia).
Qed.

Lemma stringObjectLen_done : stringObjectLen a s = Done (s, Z.of_nat (length str)).
Proof using Hinv Ha Hv.
  destruct (value_sds o str Hv) as [Ht Hsds]. unfold stringObjectLen. rewrite (bind_done _ _ _ _ _ (load_done _ _ _ Ha)).
  rewrite (bool_decide_eq_true_2 (type o = OBJ_STRING)) by done. unfold assert. rewrite bind_ret. destruct (sdsEncodedObject o).
  - destruct Hsds as [av Hp]. by rewrite (bind_done _ _ _ _ _ (as_sds_done o str av s Hp)).
  - destruct Hsds as (He & v & Hp & ->). rewrite (bind_done _ _ _ _ _ (as_long_done o v s Hp)).
    pose proof (value_int v Hp He Ht) as Hv64. unfold lift. by rewrite sdigits10_decimal.
Qed.

Lemma getLongLong_done : getLongLongFromObject (Some a) s = Done (s, string2ll str).
Proof using Hinv Ha Hv.
  destruct (value_sds o str Hv) as [Ht Hsds]. unfold getLongLongFromObject. rewrite (bind_done _ _ _ _ _ (load_done _ _ _ Ha)).
  rewrite (bool_decide_eq_true_2 (type o = OBJ_STRING)) by done. unfold assert. rewrite bind_ret. destruct (sdsEncodedObject o).
  - destruct Hsds as [av Hp]. by rewrite (bind_done _ _ _ _ _ (as_sds_done o str av s Hp)).
  - destruct Hsds as (He & v & Hp & ->). rewrite bool_decide_eq_true_2 by done. rewrite (bind_done _ _ _ _ _ (as_long_done o v s Hp)).
    pose proof (value_int v Hp He Ht) as Hv64. unfold mret, st_ret. do 2 f_equal. symmetry. by apply string2ll_decimal.
Qed.

End decode.

(** ** Comparison *)

Lemma decimal_inj v w : in_s 64 v -> in_s 64 w -> decimal v = decimal w -> v = w.
Proof.
  intros Hv Hw He. assert (string2ll (decimal v) = Some v) as H1 by by apply string2ll_decimal.
  assert (string2ll (decimal v) = Some w) as H2 by by apply string2ll_decimal. congruence.
Qed.

Section compare.
Context (fill : nat -> Z) (s : hst) (refs : Z -> Z) (Hinv : inv s refs).
Context (a b : Z) (oa ob : robj) (sa sb : list Z).
Context (Ha : heap s a = Some oa) (Hb : heap s b = Some ob) (Hva : value oa = Some sa) (Hvb : value ob = Some sb).
Context (Hla : Z.of_nat (length sa) < 2 ^ 31) (Hlb : Z.of_nat (length sb) < 2 ^ 31).

Lemma compare_done : exists r, compareStringObjects fill a b s = Done (s, r) /\ Z.sgn r = Z.sgn (Sds.lexcmp sa sb).
Proof using Hinv Ha Hb Hva Hvb Hla Hlb.
  unfold compareStringObjects. rewrite (bind_done _ _ _ _ _ (load_done _ _ _ Ha)), (bind_done _ _ _ _ _ (load_done _ _ _ Hb)).
  destruct (value_sds oa sa Hva) as [Hta _], (value_sds ob sb Hvb) as [Htb _]. rewrite !bool_decide_eq_true_2 by done.
  cbn [andb]. unfold assert. rewrite bind_ret. destruct (Z.eqb_spec a b) as [->|Hne].
  { exists 0. split; [done|]. assert (sa = sb) as -> by congruence. by rewrite (proj2 (Sds.lexcmp_eq sb sb) eq_refl). }
  rewrite (bind_done _ _ _ _ _ (chars_of_done fill s refs Hinv a oa sa Ha Hva)).
  rewrite (bind_done _ _ _ _ _ (chars_of_done fill s refs Hinv b ob sb Hb Hvb)).
  set (m := if Z.of_nat (length sa) <? Z.of_nat (length sb) then _ else _).
  assert (m = Z.of_nat (length sa) /\ m <= Z.of_nat (length sb) \/ m = Z.of_nat (length sb) /\ m <= Z.of_nat (length sa)) as Hm
    by (subst m; destruct (Z.ltb_spec (Z.of_nat (length sa)) (Z.of_nat (length sb))); lia).
  rewrite !mread_Some, !drop_0 by lia. rewrite !bind_lift, Sds.memcmp_take by lia.
  eexists. split; [done|]. rewrite <- Sds.memcmp_lexcmp. destruct (_ =? 0); [|done].
  rewrite swrap_small by mlia. rewrite Z.gtb_ltb.
  destruct (Z.ltb_spec (Z.of_nat (length sb)) (Z.of_nat (length sa))), (Z.ltb_spec (Z.of_nat (length sa)) (Z.of_nat (length sb))); simpl; lia.
Qed.

Lemma equal_done : equalStringObjects fill a b s = Done (s, bool_decide (sa = sb)).
Proof using Hinv Ha Hb Hva Hvb Hla Hlb.
  unfold equalStringObjects. rewrite (bind_done _ _ _ _ _ (load_done _ _ _ Ha)), (bind_done _ _ _ _ _ (load_done _ _ _ Hb)).
  destruct (bool_decide (encoding oa = OBJ_ENCODING_INT) && bool_decide (encoding ob = OBJ_ENCODING_INT)) eqn:Hint.
  - apply andb_true_iff in Hint as [H1%bool_decide_eq_true H2%bool_decide_eq_true].
    destruct (value_sds oa sa Hva) as [Hta Hsa], (value_sds ob sb Hvb) as [Htb Hsb].
    unfold sdsEncodedObject in Hsa, Hsb. rewrite H1 in Hsa. rewrite H2 in Hsb. simpl in Hsa, Hsb.
    destruct Hsa as (_ & va & Hpa & ->), Hsb as (_ & vb & Hpb & ->).
    rewrite (bind_done _ _ _ _ _ (as_long_done _ _ s Hpa)), (bind_done _ _ _ _ _ (as_long_done _ _ s Hpb)).
    pose proof (value_int s refs Hinv a oa Ha va Hpa H1 Hta). pose proof (value_int s refs Hinv b ob Hb vb Hpb H2 Htb).
    unfold mret, st_ret. do 2 f_equal. destruct (Z.eqb_spec va vb) as [->|Hne]; [by rewrite bool_decide_eq_true_2|].
    rewrite bool_decide_eq_false_2; [done|]. intros He. by apply Hne, decimal_inj.
  - destruct compare_done as (r & Hr & Hsgn). rewrite (bind_done _ _ _ _ _ Hr). unfold mret, st_ret. do 2 f_equal.
    destruct (Z.eqb_spec r 0) as [->|Hne].
    + symmetry. apply bool_decide_eq_true_2, Sds.lexcmp_eq. simpl in Hsgn. lia.
    + symmetry. apply bool_decide_eq_false_2. rewrite <- Sds.lexcmp_eq. lia.
Qed.

End compare.

(** ** Programs that own references *)

Inductive cmd :=
| CCreate (bs : list Z) | CFromLongLong (v : Z) (forvalue : bool)
| CIncr (a : Z) | CDecr (a : Z) | CEncode (a : Z) | CDecode (a : Z) | CDup (a : Z).

Definition exec (sv : server) (fill : nat -> Z) (c : cmd) : M Z :=
  match c with
  | CCreate bs => createStringObject sv fill (Sds.INIT_FROM bs) (Z.of_nat (length bs))
  | CFromLongLong v b => createStringObjectFromLongLongWithOptions sv fill v b
  | CIncr a => _ ← incrRefCount a; mret a
  | CDecr a => _ ← decrRefCount a; mret a
  | CEncode a => tryObjectEncoding sv fill a
  | CDecode a => getDecodedObject sv fill a
  | CDup a => dupStringObject sv fill a
  end.

(** A command works on references the program holds, below the reserved
    reference counts. *)
Definition pre (s : hst) (refs : Z -> Z) (c : cmd) : Prop :=
  match c with
  | CCreate bs => Z.of_nat (length bs) < 2 ^ 62
  | CFromLongLong v _ => in_s 64 v
  | CIncr a => 0 < refs a /\ refs a + 1 < OBJ_STATIC_REFCOUNT
  | CDecr a => 0 < refs a
  | CEncode a | CDup a => 0 < refs a /\ exists str, has s a str
  | CDecode a => 0 < refs a /\ refs a + 1 < OBJ_STATIC_REFCOUNT /\ exists str, has s a str
  end.

(** The references held afterwards, [r] being the result. *)
Definition post (refs : Z -> Z) (c : cmd) (r : Z) : Z -> Z :=
  match c with
  | CCreate _ | CFromLongLong _ _ | CIncr _ | CDecode _ | CDup _ => give refs r 1
  | CDecr a => give refs a (-1)
  | CEncode a => give (give refs a (-1)) r 1
  end.

Lemma exec_spec sv fill s refs c : inv s refs -> pre s refs c ->
  exists s' r, exec sv fill c s = Done (s', r) /\ inv s' (post refs c r) /\ keeps s s'.
Proof.
  intros Hi Hp. destruct c as [bs|v b|a|a|a|a|a]; cbn [exec pre post] in *.
  - destruct (create_string_gives sv fill s refs Hi bs Hp) as (s' & r & -> & ? & ? & _). eauto.
  - destruct (create_ll_gives sv fill s refs Hi v b Hp) as [(s' & r & -> & ? & ? & _) _]. eauto.
  - destruct Hp as [H0 Hlim]. destruct (inv_held _ _ Hi a H0) as [o Ho].
    destruct (incr_spec s refs a o Hi Ho) as (s' & o' & He & ? & ? & _); [done|]. rewrite (bind_done _ _ _ _ _ He). by eexists _, _.
  - destruct (decr_spec s refs a Hi Hp) as (s' & He & ? & ? & _). rewrite (bind_done _ _ _ _ _ He). by eexists _, _.
  - destruct Hp as (H0 & str & o & Ho & Hv).
    destruct (try_encode sv fill s refs Hi a o str Ho H0 Hv) as (s' & r & o' & -> & ? & ? & _). eauto.
  - destruct Hp as (H0 & Hlim & str & o & Ho & Hv).
    destruct (decode_gives sv fill s refs Hi a o str Ho Hv) as [(s' & r & -> & ? & ? & _) _]; [done|]. eauto.
  - destruct Hp as (H0 & str & o & Ho & Hv).
    destruct (dup_gives sv fill s refs Hi a o str Ho Hv) as (s' & r & -> & ? & ? & _). eauto.
Qed.

(** ** Start-up *)

Definition empty : hst := mkH (fun _ => None) 0 (fun _ => 0).

Lemma boot_spec sv n : exists s, create_shared_integers sv n empty = Done (s, tt) /\ brk s = Z.of_nat n /\
  (forall v, 0 <= v < Z.of_nat n -> shared s v = v /\
     heap s v = Some (mkObj OBJ_STRING OBJ_ENCODING_INT (initial_lru sv) OBJ_SHARED_REFCOUNT (PLong v))) /\
  (forall b o, heap s b = Some o -> 0 <= b < Z.of_nat n).
Proof.
  induction n as [|n (s & He & Hb & Hs & Hd)].
  { exists empty. split_and!; [done|done|lia|done]. }
  cbn [create_shared_integers]. rewrite (bind_done _ _ _ _ _ He).
  set (o1 := mkObj OBJ_STRING OBJ_ENCODING_RAW (initial_lru sv) 1 (PLong (Z.of_nat n))).
  rewrite (bind_done _ _ _ _ _ (alloc_done s o1)).
  assert (heap (hnew s o1) (brk s) = Some o1) as H1 by apply hput_eq.
  set (o2 := set_refcount o1 OBJ_SHARED_REFCOUNT).
  assert (makeObjectShared (brk s) (hnew s o1) = Done (hset (hnew s o1) (brk s) (Some o2), brk s)) as Hm.
  { unfold makeObjectShared. rewrite (bind_done _ _ _ _ _ (load_done _ _ _ H1)). unfold assert. cbn [refcount o1 Z.eqb Pos.eqb].
    rewrite bind_ret. by rewrite (bind_done _ _ _ _ _ (store_done _ _ _ _ H1)). }
  rewrite (bind_done _ _ _ _ _ Hm). set (s2 := hset _ _ _).
  assert (heap s2 (brk s) = Some o2) as H2 by apply hput_eq.
  rewrite (bind_done _ _ _ _ _ (load_done _ _ _ H2)), (bind_done _ _ _ _ _ (store_done _ _ _ _ H2)), bind_get.
  eexists. split_and!; [done|cbn; lia|..].
  - intros v Hv. cbn [heap shared hset hnew s2]. unfold hput. rewrite Hb. destruct (Z.eqb_spec v (Z.of_nat n)) as [->|Hne]; [done|].
    apply Hs. lia.
  - intros b o. cbn [heap hset hnew s2]. unfold hput. rewrite Hb. destruct (Z.eqb_spec b (Z.of_nat n)); [lia|].
    intros Ho%Hd. lia.
Qed.

Lemma boot_inv sv s : create_shared_integers sv (Z.to_nat OBJ_SHARED_INTEGERS) empty = Done (s, tt) -> inv s (fun _ => 0).
Proof.
  intros He. destruct (boot_spec sv (Z.to_nat OBJ_SHARED_INTEGERS)) as (s' & He' & Hb & Hs & Hd).
  assert (s' = s) as -> by congruence. clear He He'. rewrite Z2Nat.id in Hb, Hs, Hd by done.
  assert (forall b o, heap s b = Some o -> o = mkObj OBJ_STRING OBJ_ENCODING_INT (initial_lru sv) OBJ_SHARED_REFCOUNT (PLong b)) as Ho.
  { intros b o Hbo. destruct (Hs b (Hd _ _ Hbo)) as [_ Hbo']. congruence. }
  constructor.
  - intros a o Ha. pose proof (Hd _ _ Ha). rewrite (Ho _ _ Ha). split; [|lia]. cbn. unfold OBJ_SHARED_INTEGERS in *. mlia.
  - intros v Hv. destruct (Hs v Hv) as [-> Hv']. eexists. by split_and!.
  - done.
  - intros a o Ha Hn. exfalso. apply Hn. by rewrite (Ho _ _ Ha).
  - lia.
Qed.

(** The states a server reaches from start-up, with the references held. *)
Inductive reach (sv : server) (fill : nat -> Z) : hst -> (Z -> Z) -> Prop :=
| reach_boot s : create_shared_integers sv (Z.to_nat OBJ_SHARED_INTEGERS) empty = Done (s, tt) -> reach sv fill s (fun _ => 0)
| reach_step s refs c s' r : reach sv fill s refs -> pre s refs c -> exec sv fill c s = Done (s', r) ->
    reach sv fill s' (post refs c r).

Lemma reach_inv sv fill s refs : reach sv fill s refs -> inv s refs.
Proof.
  induction 1 as [s He|s refs c s' r _ Hi Hp He]; [by eapply boot_inv|].
  destruct (exec_spec sv fill s refs c Hi Hp) as (s1 & r1 & He1 & Hi1 & _). congruence.
Qed.

(** * Properties *)

(** C20: Reference counting is safe.  In every state reached from start-up by
    creating, retaining, releasing, encoding, decoding and duplicating string
    objects, each command applied to references the program holds runs to its
    end (no freed object is touched, no panic), every object still referenced
    keeps its string, and an object without references is gone unless it is a
    shared integer. *)
Theorem refcount_safe sv fill s refs c :
  reach sv fill s refs -> pre s refs c ->
  exists s' r, exec sv fill c s = Done (s', r) /\ inv s' (post refs c r) /\
    (forall a str, has s a str -> 0 < post refs c r a -> has s' a str) /\
    (forall a o, heap s' a = Some o -> ~ is_shared o -> refcount o = post refs c r a /\ 0 < post refs c r a).
Proof.
  intros Hr%reach_inv Hp. destruct (exec_spec sv fill s refs c Hr Hp) as (s' & r & He & Hi & [_ Hk]).
  exists s', r. split_and!; [done|done|..].
  - intros a str (o & Ho & Hv) Ha. destruct (inv_held _ _ Hi a Ha) as [o' Ho'].
    destruct (Hk a) as [Hn|(p & p' & Hp1 & Hp2 & Hpv)]; [by destruct (inv_obj _ _ Hr _ _ Ho)|congruence|].
    exists p'. split; [done|]. congruence.
  - intros a o Ho Hs. destruct (inv_count _ _ Hi a o Ho Hs). lia.
Qed.

Definition sample_server : server := mkServer 0 0 10 0 0 0 1.

Lemma refcount_safe_witness :
  exists s, create_shared_integers sample_server (Z.to_nat OBJ_SHARED_INTEGERS) empty = Done (s, tt) /\
    exists s' r, exec sample_server (fun _ => 0) (CCreate [52; 50]) s = Done (s', r) /\ inv s' (give (fun _ => 0) r 1).
Proof.
  destruct (boot_spec sample_server (Z.to_nat OBJ_SHARED_INTEGERS)) as (s & Hs & _).
  exists s. split; [exact Hs|].
  destruct (refcount_safe sample_server (fun _ => 0) s (fun _ => 0) (CCreate [52; 50]) (reach_boot _ _ s Hs) eq_refl) as (s' & r & He & Hi & _).
  exists s', r. split; [exact He|exact Hi].
Defined.

(** C27: Encodings are faithful and tight.  Encoding a referenced string
    object yields an object for the same string; if the caller was its only
    owner, a string that is an integer becomes the integer, any other string
    of at most 44 bytes an embedded one, and a longer one a separate string
    with at most a tenth of free space.  Its length and integer value are
    those of the string whatever the encoding. *)
Theorem tryObjectEncoding_best sv fill s refs a o str :
  inv s refs -> heap s a = Some o -> 0 < refs a -> value o = Some str ->
  (exists s' b o', tryObjectEncoding sv fill a s = Done (s', b) /\ heap s' b = Some o' /\ obj_ok o' /\ value o' = Some str /\
     (refcount o = 1 -> sdsEncodedObject o = true -> best_encoded o' str)) /\
  stringObjectLen a s = Done (s, Z.of_nat (length str)) /\
  getLongLongFromObject (Some a) s = Done (s, string2ll str).
Proof.
  intros Hi Ha Hr Hv. split_and!.
  - destruct (try_encode sv fill s refs Hi a o str Ha Hr Hv) as (s' & b & o' & He & Hi' & _ & Ho' & Hv' & Hb).
    exists s', b, o'. split_and!; [done|done|by destruct (inv_obj _ _ Hi' _ _ Ho')|done|done].
  - by apply stringObjectLen_done with refs o.
  - by apply getLongLong_done with refs o.
Qed.

Lemma tryObjectEncoding_best_witness :
  exists s o, value o = Some [45; 55] /\
    (exists s' b o', tryObjectEncoding sample_server (fun _ => 0) (brk s) (hnew s o) = Done (s', b) /\
       heap s' b = Some o' /\ encoding o' = OBJ_ENCODING_INT /\ ptr o' = PLong (-7)).
Proof.
  destruct (boot_spec sample_server (Z.to_nat OBJ_SHARED_INTEGERS)) as (s & Hs & _).
  exists s, (mkObj OBJ_STRING OBJ_ENCODING_RAW 0 1 (PSds [45; 55] 3)). split; [reflexivity|].
  destruct (tryObjectEncoding_best sample_server (fun _ => 0) (hnew s (mkObj OBJ_STRING OBJ_ENCODING_RAW 0 1 (PSds [45; 55] 3)))
    (give (fun _ => 0) (brk s) 1) (brk s) (mkObj OBJ_STRING OBJ_ENCODING_RAW 0 1 (PSds [45; 55] 3)) [45; 55]) as [(s' & b & o' & He & Ho & _ & _ & Hb) _].
  - apply inv_new; [exact (boot_inv _ _ Hs)|vm_compute; split; congruence|reflexivity].
  - apply hput_eq.
  - rewrite give_eq. reflexivity.
  - reflexivity.
  - exists s', b, o'. split; [exact He|]. split; [exact Ho|]. exact (Hb eq_refl eq_refl).
Defined.

(** Comparison sees only the strings: two string objects of any
    encodings compare equal exactly when they stand for the same string, and
    otherwise in lexicographic order. *)
Theorem compareStringObjects_order fill s refs a b oa ob sa sb :
  inv s refs -> heap s a = Some oa -> heap s b = Some ob -> value oa = Some sa -> value ob = Some sb ->
  Z.of_nat (length sa) < 2 ^ 31 -> Z.of_nat (length sb) < 2 ^ 31 ->
  equalStringObjects fill a b s = Done (s, bool_decide (sa = sb)) /\
  exists r, compareStringObjects fill a b s = Done (s, r) /\
    (r = 0 <-> sa = sb) /\ (r < 0 <-> Sds.lex_lt sa sb) /\ (0 < r <-> Sds.lex_lt sb sa).
Proof.
  intros Hi Ha Hb Hva Hvb Hla Hlb. split; [by apply equal_done with refs oa ob|].
  destruct (compare_done fill s refs Hi a b oa ob sa sb Ha Hb Hva Hvb Hla Hlb) as (r & -> & Hsgn).
  exists r. split; [done|]. rewrite <- Sds.lexcmp_eq, <- !Sds.lexcmp_lt, (Sds.lexcmp_opp sa sb). lia.
Qed.

Lemma compareStringObjects_order_witness :
  exists s, equalStringObjects (fun _ => 0) 12 10000 s = Done (s, true).
Proof.
  assert (0 <= OBJ_SHARED_INTEGERS /\ 0 <= 12 < Z.of_nat (Z.to_nat OBJ_SHARED_INTEGERS)) as [Hn H12r] by by vm_compute.
  destruct (boot_spec sample_server (Z.to_nat OBJ_SHARED_INTEGERS)) as (s & Hs & Hb & Hv & _).
  set (o := mkObj OBJ_STRING OBJ_ENCODING_RAW 0 1 (PSds [49; 50] 0)). exists (hnew s o).
  destruct (Hv 12 H12r) as [_ H12]. rewrite Z2Nat.id in Hb by exact Hn.
  destruct (compareStringObjects_order (fun _ => 0) (hnew s o) (give (fun _ => 0) (brk s) 1) 12 10000
    (mkObj OBJ_STRING OBJ_ENCODING_INT (initial_lru sample_server) OBJ_SHARED_REFCOUNT (PLong 12)) o [49; 50] [49; 50]) as [He _].
  - apply inv_new; [exact (boot_inv _ _ Hs)|vm_compute; split; congruence|reflexivity].
  - cbn [hnew heap]. rewrite hput_ne; [exact H12|]. rewrite Hb. discriminate.
  - cbn [hnew heap]. rewrite Hb. reflexivity.
  - reflexivity.
  - reflexivity.
  - reflexivity.
  - reflexivity.
  - exact He.
Defined.

(** The counter of the least-frequently-used policy decays by one per elapsed
    period and never below zero. *)
Lemma LFUDecrAndReturn_decay sv o : 0 <= lru o < 2 ^ 24 -> 0 < lfu_decay_time sv -> 0 <= unixtime sv ->
  LFUDecrAndReturn sv o =
    Z.max 0 (Z.land (lru o) 255 - LFUTimeElapsed sv (Z.shiftr (lru o) 8) / lfu_decay_time sv).
Proof.
  intros Hl Hd Hu. unfold LFUDecrAndReturn. rewrite (proj2 (Z.eqb_neq (lfu_decay_time sv) 0)) by lia. cbn [negb].
  assert (0 <= LFUTimeElapsed sv (Z.shiftr (lru o) 8)) as He.
  { unfold LFUTimeElapsed, LFUGetTimeInMinutes. rewrite Z.geb_leb.
    pose proof (land_range 16 (unixtime sv / 60) 65535 ltac:(lia) ltac:(lia)).
    assert (Z.shiftr (lru o) 8 < 2 ^ 16) by (rewrite Z.shiftr_div_pow2 by lia; apply Z.div_lt_upper_bound; mlia).
    destruct (Z.leb_spec (Z.shiftr (lru o) 8) (Z.land (unixtime sv / 60) 65535)); mlia. }
  pose proof (land_range 8 (lru o) 255 ltac:(lia) ltac:(lia)).
  pose proof (Z.div_pos (LFUTimeElapsed sv (Z.shiftr (lru o) 8)) (lfu_decay_time sv) He Hd).
  destruct (Z.eqb_spec (LFUTimeElapsed sv (Z.shiftr (lru o) 8) / lfu_decay_time sv) 0) as [->|Hne]; cbn [negb]; [lia|].
  rewrite Z.gtb_ltb. destruct (Z.ltb_spec (Z.land (lru o) 255) (LFUTimeElapsed sv (Z.shiftr (lru o) 8) / lfu_decay_time sv)); lia.
Qed.

End Object.
