(* ===== verification/Rio.v ===== *)
(** Model of [rio.h] and [rio.c], the byte streams the persistence code reads
    and writes: chunked transfers, running checksum, sticky error flags, the
    in-memory back end and the protocol writers of the append-only file.

    A back end is an instance of [RioIO].  What the clients rely on is stated
    by [RioReader] and [RioWriter], and the theorems about the generic part
    hold for every back end with these laws. *)

From S2P Require Import Prelude Effects UtilNum Crc Sds.

#[local] Open Scope Z_scope.

(** The back end's function pointers over its private state.  A read of [n]
    bytes gives them or fails; [None] is undefined behaviour. *)
Class RioIO (B : Type) := {
  io_read : Z -> B -> option (B * option (list Z));
  io_write : list Z -> B -> option (B * bool);
  io_tell : B -> Z;
  io_flush : B -> option (B * bool)
}.

(** What a source promises: [left b inp] says that [inp] is still to be read;
    a read takes its bytes from the front, or fails when they are not there. *)
Class RioReader (B : Type) `{RioIO B} := {
  left : B -> list Z -> Prop;
  read_ok b inp n : left b inp -> 0 < n <= Z.of_nat (length inp) -> n < 2 ^ 61 ->
    exists b', io_read n b = Some (b', Some (take (Z.to_nat n) inp)) /\ left b' (drop (Z.to_nat n) inp);
  read_short b inp n : left b inp -> Z.of_nat (length inp) < n < 2 ^ 61 ->
    exists b', io_read n b = Some (b', None)
}.

(** What a sink promises: [written b out] says that it was given [out]; it
    takes all it is given. *)
Class RioWriter (B : Type) `{RioIO B} := {
  written : B -> list Z -> Prop;
  write_ok b out new : written b out -> Z.of_nat (length out) + Z.of_nat (length new) < 2 ^ 61 ->
    exists b', io_write new b = Some (b', true) /\ written b' (out ++ new)
}.

Module Rio.
Import UtilNum.

Definition RIO_FLAG_READ_ERROR : Z := Z.shiftl 1 0.
Definition RIO_FLAG_WRITE_ERROR : Z := Z.shiftl 1 1.

(** [update_cksum] maps the current checksum and a buffer to the new one. *)
Record rio (B : Type) := mkRio {
  update_cksum : option (Z -> list Z -> option Z);
  cksum : Z; flags : Z; processed_bytes : Z; max_processing_chunk : Z; io : B }.
Arguments mkRio {B} _ _ _ _ _ _.
Arguments update_cksum {B} _.
Arguments cksum {B} _.
Arguments flags {B} _.
Arguments processed_bytes {B} _.
Arguments max_processing_chunk {B} _.
Arguments io {B} _.

Section generic.
Context {B : Type} `{RioIO B}.

Definition set_cksum (c : Z) (r : rio B) : rio B :=
  mkRio (update_cksum r) c (flags r) (processed_bytes r) (max_processing_chunk r) (io r).
Definition set_flags (f : Z) (r : rio B) : rio B :=
  mkRio (update_cksum r) (cksum r) f (processed_bytes r) (max_processing_chunk r) (io r).
Definition set_io (b : B) (r : rio B) : rio B :=
  mkRio (update_cksum r) (cksum r) (flags r) (processed_bytes r) (max_processing_chunk r) b.
Definition add_processed (n : Z) (r : rio B) : rio B :=
  mkRio (update_cksum r) (cksum r) (flags r) (u64 (processed_bytes r + n)) (max_processing_chunk r) (io r).

Definition bytes_to_process (r : rio B) (len : Z) : Z :=
  if negb (max_processing_chunk r =? 0) && (max_processing_chunk r <? len) then max_processing_chunk r else len.

Definition update (buf : list Z) : st (rio B) unit :=
  r ← get;
  match update_cksum r with
  | Some f => c ← lift (f (cksum r) buf); put (set_cksum c r)
  | None => mret tt
  end.

(** Each turn moves at least one byte. *)
Fixpoint write_loop (fuel : nat) (buf : list Z) : st (rio B) Z :=
  match fuel with
  | O => undef
  | S fuel =>
      if Z.of_nat (length buf) =? 0 then mret 1
      else
        r ← get;
        let bytes_to_write := bytes_to_process r (Z.of_nat (length buf)) in
        let piece := take (Z.to_nat bytes_to_write) buf in
        _ ← update piece;
        r ← get;
        '(b, ok) ← lift (io_write piece (io r));
        if negb ok then _ ← put (set_flags (Z.lor (flags r) RIO_FLAG_WRITE_ERROR) (set_io b r)); mret 0
        else
          _ ← put (add_processed bytes_to_write (set_io b r));
          write_loop fuel (drop (Z.to_nat bytes_to_write) buf)
  end.

Definition rioWrite (buf : list Z) : st (rio B) Z :=
  r ← get;
  if negb (Z.land (flags r) RIO_FLAG_WRITE_ERROR =? 0) then mret 0
  else write_loop (S (length buf)) buf.

(** The bytes stored in the caller's buffer; [None] is the result 0. *)
Fixpoint read_loop (fuel : nat) (len : Z) (buf : list Z) : st (rio B) (option (list Z)) :=
  match fuel with
  | O => undef
  | S fuel =>
      if len =? 0 then mret (Some buf)
      else
        r ← get;
        let bytes_to_read := bytes_to_process r len in
        '(b, res) ← lift (io_read bytes_to_read (io r));
        match res with
        | None => _ ← put (set_flags (Z.lor (flags r) RIO_FLAG_READ_ERROR) (set_io b r)); mret None
        | Some piece =>
            _ ← put (set_io b r);
            _ ← update piece;
            r ← get;
            _ ← put (add_processed bytes_to_read r);
            read_loop fuel (len - bytes_to_read) (buf ++ piece)
        end
  end.

Definition rioRead (len : Z) : st (rio B) (option (list Z)) :=
  r ← get;
  if negb (Z.land (flags r) RIO_FLAG_READ_ERROR =? 0) then mret None
  else read_loop (S (Z.to_nat len)) len [].

Definition rioTell (r : rio B) : Z := io_tell (io r).
Definition rioFlush : st (rio B) bool :=
  r ← get; '(b, ok) ← lift (io_flush (io r)); _ ← put (set_io b r); mret ok.
Definition rioGetReadError (r : rio B) : bool := negb (Z.land (flags r) RIO_FLAG_READ_ERROR =? 0).
Definition rioGetWriteError (r : rio B) : bool := negb (Z.land (flags r) RIO_FLAG_WRITE_ERROR =? 0).
Definition rioClearErrors (r : rio B) : rio B :=
  set_flags (Z.ldiff (flags r) (Z.lor RIO_FLAG_READ_ERROR RIO_FLAG_WRITE_ERROR)) r.

(** ** Protocol writers *)

(** [cbuf] is a stack buffer of 128 bytes; the count is printed after the
    prefix. *)
Definition rioWriteBulkCount (fill : nat -> Z) (prefix count : Z) : st (rio B) Z :=
  '(digits, n) ← lift (ll2string (fill <$> seq 1 127) 127 count);
  cbuf ← lift (mwrite (u8 prefix :: digits) (1 + n) [13]);
  cbuf ← lift (mwrite cbuf (1 + n + 1) [10]);
  let clen := 1 + n + 2 in
  bs ← lift (mread cbuf 0 (Z.to_nat clen));
  w ← rioWrite bs;
  mret (if w =? 0 then 0 else clen).

Definition rioWriteBulkString (fill : nat -> Z) (buf : list Z) : st (rio B) Z :=
  let len := Z.of_nat (length buf) in
  nwritten ← rioWriteBulkCount fill 36 (s64 len);
  if nwritten =? 0 then mret 0
  else
    w ← (if len >? 0 then rioWrite buf else mret 1);
    if w =? 0 then mret 0
    else
      w ← rioWrite [13; 10];
      mret (if w =? 0 then 0 else nwritten + len + 2).

Definition rioWriteBulkLongLong (fill : nat -> Z) (l : Z) : st (rio B) Z :=
  '(lbuf, llen) ← lift (ll2string (fill <$> seq 0 32) 32 l);
  bs ← lift (mread lbuf 0 (Z.to_nat llen));
  rioWriteBulkString fill bs.

End generic.

(** ** The in-memory back end *)

Record rioBuffer := mkBuf { ptr : Sds.sds; pos : Z }.

Section buffer.
Context (fill : nat -> Z).

Definition rioBufferWrite (buf : list Z) (b : rioBuffer) : option (rioBuffer * bool) :=
  p ← Sds.sdscatlen fill (ptr b) buf (Z.of_nat (length buf)); Some (mkBuf p (pos b + Z.of_nat (length buf)), true).

(** The subtraction is done in [size_t]. *)
Definition rioBufferRead (len : Z) (b : rioBuffer) : option (rioBuffer * option (list Z)) :=
  l ← Sds.sdslen (ptr b);
  if u64 (l - pos b) <? len then Some (b, None)
  else bs ← Sds.get_bytes (ptr b) (pos b) (Z.to_nat len); Some (mkBuf (ptr b) (pos b + len), Some bs).

Definition rioBufferTell (b : rioBuffer) : Z := pos b.
Definition rioBufferFlush (b : rioBuffer) : option (rioBuffer * bool) := Some (b, true).

#[local] Instance rioBufferIO : RioIO rioBuffer := {|
  io_read := rioBufferRead; io_write := rioBufferWrite; io_tell := rioBufferTell; io_flush := rioBufferFlush |}.

Definition rioInitWithBuffer (s : Sds.sds) : rio rioBuffer := mkRio None 0 0 0 0 (mkBuf s 0).

End buffer.

(** [rioGenericUpdateChecksum]; the table of [crc64_init] is a global, and the
    alignment of a buffer, which [crc64] looks at, is not determined by its
    contents. *)
Definition rioGenericUpdateChecksum (t : list (list Z)) (addr : list Z -> Z) (cksum : Z) (buf : list Z) : option Z :=
  Crc.crc64 t cksum (addr buf) buf.

(** ** Checksums *)

Abbreviation zl l := (Z.of_nat (length l)).

(** [u] computes the running checksum [f], which does not depend on how the
    data is cut. *)
Record computes (u : option (Z -> list Z -> option Z)) (f : Z -> list Z -> Z) : Prop := {
  run_some g c bs : u = Some g -> in_u 64 c -> Forall is_byte bs -> g c bs = Some (f c bs);
  run_none c bs : u = None -> f c bs = c;
  run_range c bs : in_u 64 c -> Forall is_byte bs -> in_u 64 (f c bs);
  run_nil c : f c [] = c;
  run_app c l1 l2 : f c (l1 ++ l2) = f (f c l1) l2 }.

Lemma computes_none : computes None (fun c _ => c).
Proof. by split. Qed.

Lemma computes_crc64 t addr : Crc.table_ok t ->
  computes (Some (rioGenericUpdateChecksum t addr)) (foldl Crc.rstep).
Proof.
  intros Ht. split; [|done|..].
  - intros g c bs [= <-] Hc Hb. by apply Crc.crcspeed64little_spec.
  - intros c bs. apply Crc.foldl_rstep_u64.
  - done.
  - intros c l1 l2. apply foldl_app.
Qed.

(** ** Transfers *)

Section transfer.
Context {B : Type} `{RioIO B} (f : Z -> list Z -> Z).

(** The fields after the transfer of [bs]. *)
Record advance (r r' : rio B) (bs : list Z) : Prop := {
  adv_update : update_cksum r' = update_cksum r;
  adv_chunk : max_processing_chunk r' = max_processing_chunk r;
  adv_flags : flags r' = flags r;
  adv_cksum : cksum r' = f (cksum r) bs;
  adv_processed : processed_bytes r' = u64 (processed_bytes r + zl bs) }.

(** Well-formed streams. *)
Record sane (r : rio B) : Prop := {
  sane_update : computes (update_cksum r) f;
  sane_cksum : in_u 64 (cksum r);
  sane_chunk : 0 <= max_processing_chunk r;
  sane_processed : in_u 64 (processed_bytes r) }.

Lemma advance_nil r : sane r -> advance r r [].
Proof. intros [Hu _ _ Hp]. split; [done..| |]. - by rewrite (run_nil _ _ Hu). - cbn. by rewrite Z.add_0_r, uwrap_small. Qed.

Lemma advance_trans r1 r2 r3 l1 l2 : sane r1 -> advance r1 r2 l1 -> advance r2 r3 l2 -> advance r1 r3 (l1 ++ l2).
Proof.
  intros [Hu _ _ _] [] []. split; try congruence.
  - rewrite (run_app _ _ Hu). congruence.
  - rewrite adv_processed1, adv_processed0, length_app. unfold uwrap. rewrite Zplus_mod_idemp_l. f_equal. lia.
Qed.

Lemma advance_sane r r' bs : sane r -> Forall is_byte bs -> advance r r' bs -> sane r'.
Proof.
  intros [Hu Hc Hk Hp] Hb [Eu Ek _ Ec Ep]. split.
  - by rewrite Eu.
  - rewrite Ec. by apply (run_range _ _ Hu).
  - by rewrite Ek.
  - rewrite Ep. by apply uwrap_range.
Qed.

Lemma update_spec r bs : sane r -> Forall is_byte bs ->
  update bs r = Done (set_cksum (f (cksum r) bs) r, tt).
Proof.
  intros [Hu Hc _ _] Hb. unfold update. rewrite bind_get. destruct (update_cksum r) as [g|] eqn:Eg.
  - rewrite (run_some _ _ Hu g) by done. by rewrite bind_lift.
  - rewrite (run_none _ _ Hu _ _ eq_refl). by destruct r.
Qed.

Lemma bytes_to_process_range r n : sane r -> 0 < n -> 0 < bytes_to_process r n <= n.
Proof.
  intros [_ _ Hk _] Hn. unfold bytes_to_process.
  destruct (Z.eqb_spec (max_processing_chunk r) 0), (Z.ltb_spec (max_processing_chunk r) n); simpl; lia.
Qed.

(** A step of either loop. *)
Lemma advance_step r b n bs : n = zl bs ->
  advance r (add_processed n (set_io b (set_cksum (f (cksum r) bs) r))) bs.
Proof. by intros ->. Qed.

End transfer.

Section writer.
Context {B : Type} `{RioWriter B} (f : Z -> list Z -> Z).

(** A stream in working order that was given [out]. *)
Record writing (r : rio B) (out : list Z) : Prop := {
  wr_sane : sane f r;
  wr_flag : Z.land (flags r) RIO_FLAG_WRITE_ERROR = 0;
  wr_io : written (io r) out }.

Lemma write_loop_spec fuel : forall buf r out,
  writing r out -> (length buf < fuel)%nat -> Forall is_byte buf -> zl out + zl buf < 2 ^ 61 ->
  exists r', write_loop fuel buf r = Done (r', 1) /\ advance f r r' buf /\ writing r' (out ++ buf).
Proof.
  induction fuel as [|fuel IH]; intros buf r out Hw Hf Hb Hsz; [lia|]. cbn [write_loop].
  destruct Hw as [Hs Hfl Hio]. destruct (Z.eqb_spec (zl buf) 0) as [Hz|Hnz].
  { destruct buf; [|simpl in Hz; lia]. exists r. rewrite app_nil_r. split_and!; [done|by apply advance_nil|done]. }
  rewrite bind_get. destruct (bytes_to_process_range f r (zl buf) Hs) as [Hn1 Hn2]; [lia|].
  set (n := bytes_to_process r (zl buf)) in *. set (piece := take (Z.to_nat n) buf).
  assert (zl piece = n) as Hlp by (unfold piece; rewrite length_take; lia).
  assert (Forall is_byte piece) as Hbp by by apply Forall_take.
  rewrite (bind_done _ _ _ _ _ (update_spec f r piece Hs Hbp)), bind_get.
  destruct (write_ok (io r) out piece Hio) as (b & Hwb & Hb'); [lia|].
  cbn [io set_cksum]. rewrite Hwb, bind_lift. cbn [negb]. rewrite bind_put.
  set (r1 := add_processed n (set_io b (set_cksum (f (cksum r) piece) r))).
  assert (advance f r r1 piece) as Ha by by apply advance_step.
  destruct (IH (drop (Z.to_nat n) buf) r1 (out ++ piece)) as (r' & He & Ha' & Hw').
  - split; [by apply (advance_sane f r r1 piece)|done|done].
  - rewrite length_drop. lia.
  - by apply Forall_drop.
  - rewrite length_app, length_drop. lia.
  - exists r'. split; [exact He|]. rewrite <- app_assoc in Hw'. unfold piece in *.
    rewrite take_drop in Hw'. split; [|done]. rewrite <- (take_drop (Z.to_nat n) buf). by eapply advance_trans.
Qed.

Lemma rioWrite_spec buf r out : writing r out -> Forall is_byte buf -> zl out + zl buf < 2 ^ 61 ->
  exists r', rioWrite buf r = Done (r', 1) /\ advance f r r' buf /\ writing r' (out ++ buf).
Proof.
  intros Hw Hb Hsz. unfold rioWrite. rewrite bind_get, (wr_flag _ _ Hw). apply write_loop_spec; [done|lia|done|done].
Qed.

End writer.

Section reader.
Context {B : Type} `{RioReader B} (f : Z -> list Z -> Z).

(** A stream in working order from which [inp] is still to be read. *)
Record reading (r : rio B) (inp : list Z) : Prop := {
  rd_sane : sane f r;
  rd_flag : Z.land (flags r) RIO_FLAG_READ_ERROR = 0;
  rd_io : left (io r) inp }.

Lemma read_loop_spec fuel : forall n buf r inp,
  reading r inp -> 0 <= n < Z.of_nat fuel -> n < 2 ^ 61 -> Forall is_byte inp ->
  exists r', if n <=? zl inp
    then read_loop fuel n buf r = Done (r', Some (buf ++ take (Z.to_nat n) inp)) /\
      advance f r r' (take (Z.to_nat n) inp) /\ reading r' (drop (Z.to_nat n) inp)
    else read_loop fuel n buf r = Done (r', None) /\ rioGetReadError r' = true.
Proof.
  induction fuel as [|fuel IH]; intros n buf r inp Hr Hf Hsz Hb; [lia|]. cbn [read_loop].
  destruct Hr as [Hs Hfl Hio]. destruct (Z.eqb_spec n 0) as [->|Hnz].
  { exists r. rewrite (proj2 (Z.leb_le 0 _)), take_0, drop_0, app_nil_r by lia. split_and!; [done|by apply advance_nil|done]. }
  rewrite bind_get. destruct (bytes_to_process_range f r n Hs) as [Hn1 Hn2]; [lia|].
  set (k := bytes_to_process r n) in *. destruct (Z.le_gt_cases k (zl inp)) as [Hk|Hk].
  2: { destruct (read_short (io r) inp k Hio) as (b & Hrb); [lia|]. eexists.
       rewrite (proj2 (Z.leb_gt n _)), Hrb, bind_lift by lia. rewrite bind_put. split; [reflexivity|].
       unfold rioGetReadError. cbn [flags set_flags set_io]. rewrite Z.land_lor_distr_l, Hfl. done. }
  destruct (read_ok (io r) inp k Hio) as (b & Hrb & Hb'); [lia|lia|]. rewrite Hrb, bind_lift, bind_put.
  set (piece := take (Z.to_nat k) inp) in *.
  assert (zl piece = k) as Hlp by (unfold piece; rewrite length_take; lia).
  assert (Forall is_byte piece) as Hbp by by apply Forall_take.
  assert (sane f (set_io b r)) as Hsb by (destruct Hs; by split).
  rewrite (bind_done _ _ _ _ _ (update_spec f _ piece Hsb Hbp)), bind_get, bind_put.
  set (r1 := add_processed k (set_cksum (f (cksum (set_io b r)) piece) (set_io b r))).
  assert (advance f r r1 piece) as Ha by (split; try done; cbn; by rewrite Hlp).
  destruct (IH (n - k) (buf ++ piece) r1 (drop (Z.to_nat k) inp)) as (r' & Hr').
  - split; [by apply (advance_sane f r r1 piece)|done|done].
  - lia.
  - lia.
  - by apply Forall_drop.
  - exists r'. rewrite length_drop in Hr'. destruct (Z.leb_spec n (zl inp)), (Z.leb_spec (n - k) (Z.of_nat (length inp - Z.to_nat k))); try lia; [|exact Hr'].
    rewrite drop_drop in Hr'. replace (Z.to_nat k + Z.to_nat (n - k))%nat with (Z.to_nat n) in Hr' by lia.
    assert (take (Z.to_nat n) inp = piece ++ take (Z.to_nat (n - k)) (drop (Z.to_nat k) inp)) as Et.
    { unfold piece. rewrite take_take_drop. f_equal. lia. }
    rewrite Et, app_assoc. destruct Hr' as (He & Ha' & Hrd). split_and!; [exact He|by eapply advance_trans|exact Hrd].
Qed.

Lemma rioRead_spec n r inp : reading r inp -> 0 <= n <= zl inp -> n < 2 ^ 61 -> Forall is_byte inp ->
  exists r', rioRead n r = Done (r', Some (take (Z.to_nat n) inp)) /\
    advance f r r' (take (Z.to_nat n) inp) /\ reading r' (drop (Z.to_nat n) inp).
Proof.
  intros Hr Hn Hsz Hb. unfold rioRead. rewrite bind_get, (rd_flag _ _ Hr).
  destruct (read_loop_spec (S (Z.to_nat n)) n [] r inp Hr) as (r' & Hr'); [lia|done|done|].
  rewrite (proj2 (Z.leb_le n _)) in Hr' by lia. by exists r'.
Qed.

Lemma rioRead_short n r inp : reading r inp -> zl inp < n < 2 ^ 61 -> Forall is_byte inp ->
  exists r', rioRead n r = Done (r', None) /\ rioGetReadError r' = true.
Proof.
  intros Hr Hn Hb. unfold rioRead. rewrite bind_get, (rd_flag _ _ Hr).
  destruct (read_loop_spec (S (Z.to_nat n)) n [] r inp Hr) as (r' & Hr'); [lia|lia|done|].
  rewrite (proj2 (Z.leb_gt n _)) in Hr' by lia. by exists r'.
Qed.

End reader.

(** ** The in-memory back end keeps the promises *)

Section buffer_laws.
Context (fill : nat -> Z).
#[local] Instance buffer_io : RioIO rioBuffer := rioBufferIO fill.

Lemma buffer_read_ok b c free n :
  Sds.rep (ptr b) c free -> 0 <= pos b <= zl c -> zl c < 2 ^ 62 -> 0 <= n <= zl c - pos b ->
  io_read n b = Some (mkBuf (ptr b) (pos b + n), Some (take (Z.to_nat n) (drop (Z.to_nat (pos b)) c))).
Proof.
  intros Hr Hp Hc Hn. cbn. unfold rioBufferRead. rewrite (Sds.sdslen_rep _ _ _ Hr). bsimpl.
  rewrite uwrap_small by mlia. rewrite (proj2 (Z.ltb_ge _ _)) by lia.
  rewrite (Sds.get_bytes_rep _ _ _ _ _ Hr) by lia. done.
Qed.

#[export, refine] Instance buffer_reader : RioReader rioBuffer := {|
  left b inp := exists c free, Sds.rep (ptr b) c free /\ 0 <= pos b <= zl c /\ zl c < 2 ^ 62 /\
    inp = drop (Z.to_nat (pos b)) c |}.
Proof.
  - intros b inp n (c & free & Hr & Hp & Hc & ->) Hn _. rewrite length_drop in Hn.
    eexists. split; [apply (buffer_read_ok b c free n); [done|lia|done|lia]|].
    exists c, free. cbn [ptr pos]. rewrite drop_drop. split_and!; [done|lia|lia|done|f_equal; lia].
  - intros b inp n (c & free & Hr & Hp & Hc & ->) Hn. rewrite length_drop in Hn. exists b.
    cbn. unfold rioBufferRead. rewrite (Sds.sdslen_rep _ _ _ Hr). bsimpl. rewrite uwrap_small by mlia.
    by rewrite (proj2 (Z.ltb_lt _ _)) by lia.
Defined.

#[export, refine] Instance buffer_writer : RioWriter rioBuffer := {|
  written b out := exists free, Sds.rep (ptr b) out free |}.
Proof.
  intros b out new (free & Hr) Hsz. cbn. unfold rioBufferWrite.
  destruct (Sds.sdscatlen_rep fill _ _ _ new (zl new) Hr) as (s' & free' & -> & Hr'); [lia|lia|].
  bsimpl. eexists. split; [done|]. exists free'. rewrite Nat2Z.id, firstn_all in Hr'. exact Hr'.
Defined.

End buffer_laws.

(** ** Protocol output *)

Section protocol.
Context {B : Type} `{RioWriter B} (f : Z -> list Z -> Z) (fill : nat -> Z).

Definition crlf : list Z := [13; 10].
Definition count_line (prefix count : Z) : list Z := prefix :: decimal count ++ crlf.
Definition bulk (s : list Z) : list Z := count_line 36 (zl s) ++ s ++ crlf.

Lemma crlf_bytes : Forall is_byte crlf.
Proof. repeat apply Forall_cons_2; done. Qed.

Lemma length_count_line prefix count : in_s 64 count -> zl (count_line prefix count) <= 23.
Proof. intros Hc%length_decimal. unfold count_line, crlf. cbn [length]. rewrite length_app. simpl. lia. Qed.

Lemma rioWriteBulkCount_spec prefix count r out :
  writing f r out -> in_s 64 count -> is_byte prefix -> zl out + 23 < 2 ^ 61 ->
  exists r', rioWriteBulkCount fill prefix count r = Done (r', zl (count_line prefix count)) /\
    advance f r r' (count_line prefix count) /\ writing f r' (out ++ count_line prefix count).
Proof.
  intros Hw Hc Hp Hsz. pose proof (length_count_line prefix count Hc) as Hln. unfold rioWriteBulkCount.
  assert (length (fill <$> seq 1 127) = 127%nat) as Hl by by rewrite length_fmap, length_seq.
  destruct (ll2string_fits (fill <$> seq 1 127) 127 count Hc) as (rest & Hll & Hlr); [lia|by rewrite Hl|].
  rewrite Hll, bind_lift. cbn beta iota. rewrite uwrap_small by done.
  pose proof (length_decimal count Hc). destruct rest as [|x rest]; [simpl in Hlr; lia|].
  rewrite (mwrite_at (prefix :: decimal count) 0 (x :: rest)), bind_lift by (cbn [length]; lia).
  replace ((prefix :: decimal count) ++ 13 :: x :: rest) with ((prefix :: decimal count ++ [13]) ++ x :: rest)
    by (cbn; by rewrite <- app_assoc).
  rewrite (mwrite_at (prefix :: decimal count ++ [13]) x rest), bind_lift by (cbn [length]; rewrite length_app; simpl; lia).
  replace ((prefix :: decimal count ++ [13]) ++ 10 :: rest) with (count_line prefix count ++ rest)
    by (unfold count_line, crlf; cbn; by rewrite <- !app_assoc).
  assert (1 + zl (decimal count) + 2 = zl (count_line prefix count)) as -> by (unfold count_line, crlf; cbn [length]; rewrite length_app; simpl; lia).
  rewrite mread_head, bind_lift by lia.
  destruct (rioWrite_spec f (count_line prefix count) r out Hw) as (r' & He & Ha & Hw').
  - constructor; [done|]. apply Forall_app. split; [by apply decimal_bytes|exact crlf_bytes].
  - lia.
  - exists r'. by rewrite (bind_done _ _ _ _ _ He).
Qed.

Lemma rioWriteBulkString_spec s r out :
  writing f r out -> Forall is_byte s -> zl out + zl s + 25 < 2 ^ 61 ->
  exists r', rioWriteBulkString fill s r = Done (r', zl (bulk s)) /\
    advance f r r' (bulk s) /\ writing f r' (out ++ bulk s).
Proof.
  intros Hw Hs Hsz. assert (in_s 64 (zl s)) as Hin by mlia. pose proof (length_count_line 36 (zl s) Hin) as Hln.
  unfold rioWriteBulkString. rewrite swrap_small by done.
  destruct (rioWriteBulkCount_spec 36 (zl s) r out Hw) as (r1 & He1 & Ha1 & Hw1); [done|done|lia|].
  rewrite (bind_done _ _ _ _ _ He1). rewrite (proj2 (Z.eqb_neq _ 0)) by (unfold count_line; cbn [length]; lia).
  assert (exists r2, (if zl s >? 0 then rioWrite s else mret 1) r1 = Done (r2, 1) /\ advance f r1 r2 s /\ writing f r2 ((out ++ count_line 36 (zl s)) ++ s))
    as (r2 & He2 & Ha2 & Hw2).
  { destruct s as [|x s]; [|apply rioWrite_spec; [done..|rewrite length_app; lia]].
    exists r1. rewrite app_nil_r. split_and!; [done|apply advance_nil, Hw1|done]. }
  rewrite (bind_done _ _ _ _ _ He2). cbn [Z.eqb].
  destruct (rioWrite_spec f crlf r2 _ Hw2 crlf_bytes) as (r3 & He3 & Ha3 & Hw3); [rewrite !length_app; change (length crlf) with 2%nat; lia|].
  fold crlf. rewrite (bind_done _ _ _ _ _ He3). cbn [Z.eqb]. exists r3. split_and!.
  - unfold mret, st_ret. do 2 f_equal. unfold bulk, crlf. rewrite !length_app. simpl. lia.
  - eapply advance_trans; [apply Hw|done|]. eapply advance_trans; [apply Hw1|done|done].
  - unfold bulk, crlf. by rewrite !app_assoc.
Qed.

Lemma rioWriteBulkLongLong_spec v r out :
  writing f r out -> in_s 64 v -> zl out + 45 < 2 ^ 61 ->
  exists r', rioWriteBulkLongLong fill v r = Done (r', zl (bulk (decimal v))) /\
    advance f r r' (bulk (decimal v)) /\ writing f r' (out ++ bulk (decimal v)).
Proof.
  intros Hw Hv Hsz. unfold rioWriteBulkLongLong.
  destruct (ll2string_fits (fill <$> seq 0 32) 32 v Hv) as (rest & Hll & _); [rewrite length_fmap, length_seq; lia|done|].
  rewrite Hll, bind_lift. cbn beta iota. rewrite mread_head, bind_lift by lia.
  pose proof (length_decimal v Hv). apply rioWriteBulkString_spec; [done|by apply decimal_bytes|lia].
Qed.

End protocol.

(** ** Whole transfers *)

Section sequences.
Context {B : Type} `{RioIO B}.

Fixpoint write_all (ws : list (list Z)) : st (rio B) bool :=
  match ws with
  | [] => mret true
  | w :: ws => n ← rioWrite w; if n =? 0 then mret false else write_all ws
  end.

Fixpoint read_all (ns : list Z) : st (rio B) (option (list Z)) :=
  match ns with
  | [] => mret (Some [])
  | n :: ns =>
      x ← rioRead n;
      match x with
      | None => mret None
      | Some bs => y ← read_all ns; mret (match y with Some t => Some (bs ++ t) | None => None end)
      end
  end.

Definition with_checksum (t : list (list Z)) (addr : list Z -> Z) (chunk : Z) (r : rio B) : rio B :=
  mkRio (Some (rioGenericUpdateChecksum t addr)) (cksum r) (flags r) (processed_bytes r) chunk (io r).

End sequences.

Lemma write_all_spec {B} `{RioWriter B} f ws : forall (r : rio B) out,
  writing f r out -> Forall (Forall is_byte) ws -> zl out + zl (concat ws) < 2 ^ 61 ->
  exists r', write_all ws r = Done (r', true) /\ advance f r r' (concat ws) /\ writing f r' (out ++ concat ws).
Proof.
  induction ws as [|w ws IH]; intros r out Hw Hb Hsz; cbn [write_all concat].
  - exists r. rewrite app_nil_r. split_and!; [done|apply advance_nil, Hw|done].
  - apply Forall_cons in Hb as [Hb Hbs]. cbn [concat] in Hsz. rewrite length_app in Hsz.
    destruct (rioWrite_spec f w r out Hw Hb) as (r1 & He & Ha & Hw1); [lia|]. rewrite (bind_done _ _ _ _ _ He). cbn [Z.eqb].
    destruct (IH r1 _ Hw1 Hbs) as (r2 & He2 & Ha2 & Hw2); [rewrite length_app; lia|].
    exists r2. rewrite app_assoc. split_and!; [done|by eapply advance_trans; [apply Hw|..]|done].
Qed.

Definition total (ns : list Z) : Z := foldr Z.add 0 ns.

Lemma read_all_spec {B} `{RioReader B} f ns : forall (r : rio B) inp rest,
  reading f r (inp ++ rest) -> Forall is_byte (inp ++ rest) -> Forall (fun n => 0 <= n) ns -> total ns = zl inp -> zl inp < 2 ^ 61 ->
  exists r', read_all ns r = Done (r', Some inp) /\ advance f r r' inp /\ reading f r' rest.
Proof.
  induction ns as [|n ns IH]; intros r inp rest Hr Hb Hns Ht Hsz; cbn [read_all].
  - destruct inp; [|simpl in Ht; lia]. exists r. split_and!; [done|apply advance_nil, Hr|done].
  - apply Forall_cons in Hns as [Hn Hns]. change (total (n :: ns)) with (n + total ns) in Ht.
    assert (0 <= total ns) as Hpos by (clear - Hns; induction Hns; simpl; lia).
    destruct (rioRead_spec f n r _ Hr) as (r1 & He & Ha & Hr1); [rewrite length_app; lia|lia|done|].
    rewrite take_app_le, drop_app_le in * by lia. rewrite (bind_done _ _ _ _ _ He).
    destruct (IH r1 (drop (Z.to_nat n) inp) rest Hr1) as (r2 & He2 & Ha2 & Hr2).
    + rewrite <- drop_app_le by lia. by apply Forall_drop.
    + done.
    + rewrite length_drop. lia.
    + rewrite length_drop. lia.
    + rewrite (bind_done _ _ _ _ _ He2). exists r2.
      pose proof (advance_trans f _ _ _ _ _ (rd_sane _ _ _ Hr) Ha Ha2) as Ha3. rewrite take_drop in Ha3.
      split_and!; [by rewrite take_drop|done|done].
Qed.

Lemma buffer_roundtrip fill t addr addr' chunk chunk' ws ns :
  Crc.table_ok t -> Forall (Forall is_byte) ws -> zl (concat ws) < 2 ^ 61 -> 0 <= chunk -> 0 <= chunk' ->
  Forall (fun n => 0 <= n) ns -> total ns = zl (concat ws) ->
  exists s0 r1 r2, Sds.sdsempty fill = Some s0 /\
    write_all (H := buffer_io fill) ws (with_checksum t addr chunk (rioInitWithBuffer s0)) = Done (r1, true) /\
    read_all (H := buffer_io fill) ns (with_checksum t addr' chunk' (rioInitWithBuffer (ptr (io r1)))) = Done (r2, Some (concat ws)) /\
    cksum r1 = Crc._crc64 0 (concat ws) /\ cksum r2 = cksum r1.
Proof.
  intros Hok Hb Hsz Hc Hc' Hns Ht.
  assert (Forall is_byte (concat ws)) as Hbc by by apply Forall_concat.
  destruct (Sds.sdsnewlen_rep fill (Sds.INIT_FROM []) 0) as (s0 & c & He0 & Hs0 & _ & ->); [lia|by intros p [= <-]|].
  pose (f := foldl Crc.rstep).
  destruct (write_all_spec (H := buffer_io fill) f ws (with_checksum t addr chunk (rioInitWithBuffer s0)) []) as (r1 & He1 & Ha1 & Hw1); [|done|done|].
  { split; [|done|by exists []]. split; [by apply computes_crc64|done|done|done]. }
  destruct (wr_io _ _ _ Hw1) as [free Hr1]. cbn [app] in Hr1.
  destruct (read_all_spec (H := buffer_io fill) f ns (with_checksum t addr' chunk' (rioInitWithBuffer (ptr (io r1)))) (concat ws) []) as (r2 & He2 & Ha2 & _);
    [|by rewrite app_nil_r|done|done|done|].
  { split; [|done|exists (concat ws), free; rewrite app_nil_r; cbn; split_and!; [done|lia|lia|mlia|done]].
    split; [by apply computes_crc64|done|done|done]. }
  exists s0, r1, r2. split_and!; [exact He0|exact He1|exact He2|..].
  - rewrite (adv_cksum _ _ _ _ Ha1). by rewrite Crc._crc64_rstep.
  - by rewrite (adv_cksum _ _ _ _ Ha2), (adv_cksum _ _ _ _ Ha1).
Qed.

(** C30: In-memory streams are transparent.  Whatever pieces are written to a
    buffer, whatever pieces it is read in, and whatever the chunk sizes, every
    transfer succeeds, the bytes read are those written, and both running
    checksums are the CRC-64 of the whole. *)
Theorem rio_roundtrip fill addr addr' chunk chunk' ws ns :
  Forall (Forall is_byte) ws -> zl (concat ws) < 2 ^ 61 -> 0 <= chunk -> 0 <= chunk' ->
  Forall (fun n => 0 <= n) ns -> total ns = zl (concat ws) ->
  exists t s0 r1 r2, Crc.crc64_init = Some t /\ Sds.sdsempty fill = Some s0 /\
    write_all (H := buffer_io fill) ws (with_checksum t addr chunk (rioInitWithBuffer s0)) = Done (r1, true) /\
    read_all (H := buffer_io fill) ns (with_checksum t addr' chunk' (rioInitWithBuffer (ptr (io r1)))) = Done (r2, Some (concat ws)) /\
    cksum r1 = Crc._crc64 0 (concat ws) /\ cksum r2 = cksum r1.
Proof.
  intros Hb Hsz Hc Hc' Hns Ht. destruct Crc.crc64_init_ok as (t & Hinit & Hok).
  exists t. destruct (buffer_roundtrip fill t addr addr' chunk chunk' ws ns Hok Hb Hsz Hc Hc' Hns Ht) as (s0 & r1 & r2 & H).
  exists s0, r1, r2. split; [exact Hinit|exact H].
Qed.

Lemma rio_roundtrip_witness :
  exists t s0 r1 r2, Crc.crc64_init = Some t /\ Sds.sdsempty (fun _ => 0) = Some s0 /\
    write_all (H := buffer_io (fun _ => 0)) [[1; 2; 3]; []; [4]] (with_checksum t (fun _ => 0) 2 (rioInitWithBuffer s0)) = Done (r1, true) /\
    read_all (H := buffer_io (fun _ => 0)) [1; 3] (with_checksum t (fun _ => 7) 0 (rioInitWithBuffer (ptr (io r1)))) = Done (r2, Some [1; 2; 3; 4]) /\
    cksum r1 = Crc._crc64 0 [1; 2; 3; 4] /\ cksum r2 = cksum r1.
Proof.
  apply (rio_roundtrip (fun _ => 0) (fun _ => 0) (fun _ => 7) 2 0 [[1; 2; 3]; []; [4]] [1; 3]);
    [repeat constructor; vm_compute; congruence|reflexivity|discriminate|discriminate|repeat constructor; discriminate|reflexivity].
Defined.

End Rio.
