(* ===== verification/Proto.v ===== *)
(** Model of the request side of [networking.c]: the query buffer of a client,
    the inline and the multi-bulk parser, and the loop that executes the
    requests it holds.

    The query buffer is the content of its sds string; the byte after it is
    the terminator, where [strchr] stops.  A failed assertion is [Abort]; a
    read outside the buffer, a write past the allocated arguments or a signed
    overflow is [Undef].  The execution of a command is a parameter.

    A stream of requests is executed in order and once, however the network
    cuts it into pieces; and no bytes at all make the parser fail an assertion
    or leave its buffers. *)

From S2P Require Import Prelude Effects UtilNum SdsArgs Rio.

#[local] Open Scope Z_scope.

Module Proto.
Import UtilNum.
#[local] Notation zl l := (Z.of_nat (length l)) (only parsing).

(** ** Constants *)

Abbreviation C_OK := 0 (only parsing).
Abbreviation C_ERR := (-1) (only parsing).
Abbreviation PROTO_IOBUF_LEN := (1024 * 16) (only parsing).
Abbreviation PROTO_INLINE_MAX_SIZE := (1024 * 64) (only parsing).
Abbreviation PROTO_MBULK_BIG_ARG := (1024 * 32) (only parsing).
Abbreviation PROTO_REQ_INLINE := 1 (only parsing).
Abbreviation PROTO_REQ_MULTIBULK := 2 (only parsing).

Abbreviation CLIENT_SLAVE := 1 (only parsing).
Abbreviation CLIENT_MASTER := 2 (only parsing).
Abbreviation CLIENT_MONITOR := 4 (only parsing).
Abbreviation CLIENT_MULTI := 8 (only parsing).
Abbreviation CLIENT_BLOCKED := 16 (only parsing).
Abbreviation CLIENT_CLOSE_AFTER_REPLY := 64 (only parsing).
Abbreviation CLIENT_ASKING := (2 ^ 9) (only parsing).
Abbreviation CLIENT_CLOSE_ASAP := (2 ^ 10) (only parsing).
Abbreviation CLIENT_LUA := (2 ^ 8) (only parsing).
Abbreviation CLIENT_REPLY_SKIP_NEXT := (2 ^ 23) (only parsing).
Abbreviation CLIENT_REPLY_SKIP := (2 ^ 24) (only parsing).
Abbreviation CLIENT_PENDING_READ := (2 ^ 29) (only parsing).
Abbreviation CLIENT_PENDING_COMMAND := (2 ^ 30) (only parsing).
Abbreviation CLIENT_TRACKING_CACHING := (2 ^ 36) (only parsing).
Abbreviation CLIENT_PROTOCOL_ERROR := (2 ^ 39) (only parsing).
Abbreviation BLOCKED_MODULE := 3 (only parsing).

(** ** The client *)

(** The commands [resetClient] tells apart. *)
Inductive command := NoCommand | AskingCommand | ClientCommand | OtherCommand.

Inductive proto_error :=
| TooBigInline | UnbalancedQuotes | MasterInline | TooBigMbulkCount | InvalidMbulkLength
| TooBigBulkCount | ExpectedDollar (got : Z) | InvalidBulkLength.

(** The parser's fields. *)
Record parser := mkParser {
  querybuf : list Z;
  qb_pos : Z;
  reqtype : Z;
  multibulklen : Z;
  bulklen : Z;
  argv : list (list Z);
  argv_slots : Z;
  argv_len_sum : Z }.

(** The others the request side touches. *)
Record link := mkLink {
  flags : Z;
  btype : Z;
  cmd : command;
  pending_querybuf : list Z;
  querybuf_peak : Z;
  read_reploff : Z;
  reploff : Z;
  repl_ack_time : Z;
  lastinteraction : Z;
  errors : list proto_error }.

Record client := mkClient { ps : parser; ln : link }.

Record server := mkServer {
  paused : bool;
  lua_timedout : bool;
  gopher_enabled : bool;
  io_threads_active : bool;
  io_threads_do_reads : bool;
  events_while_blocked : bool;
  proto_max_bulk_len : Z;
  client_max_querybuf_len : Z;
  unixtime : Z }.

Definition set_buf (p : parser) (b : list Z) (pos : Z) : parser :=
  mkParser b pos (reqtype p) (multibulklen p) (bulklen p) (argv p) (argv_slots p) (argv_len_sum p).
Definition set_reqtype (p : parser) (t : Z) : parser :=
  mkParser (querybuf p) (qb_pos p) t (multibulklen p) (bulklen p) (argv p) (argv_slots p) (argv_len_sum p).
Definition set_bulklen (p : parser) (n : Z) : parser :=
  mkParser (querybuf p) (qb_pos p) (reqtype p) (multibulklen p) n (argv p) (argv_slots p) (argv_len_sum p).
Definition set_multibulklen (p : parser) (n : Z) : parser :=
  mkParser (querybuf p) (qb_pos p) (reqtype p) n (bulklen p) (argv p) (argv_slots p) (argv_len_sum p).
Definition set_argv (p : parser) (a : list (list Z)) (slots sum : Z) : parser :=
  mkParser (querybuf p) (qb_pos p) (reqtype p) (multibulklen p) (bulklen p) a slots sum.

Definition set_flags (l : link) (f : Z) : link :=
  mkLink f (btype l) (cmd l) (pending_querybuf l) (querybuf_peak l) (read_reploff l) (reploff l)
    (repl_ack_time l) (lastinteraction l) (errors l).
Definition set_cmd (l : link) (k : command) : link :=
  mkLink (flags l) (btype l) k (pending_querybuf l) (querybuf_peak l) (read_reploff l) (reploff l)
    (repl_ack_time l) (lastinteraction l) (errors l).
Definition set_errors (l : link) (e : list proto_error) : link :=
  mkLink (flags l) (btype l) (cmd l) (pending_querybuf l) (querybuf_peak l) (read_reploff l) (reploff l)
    (repl_ack_time l) (lastinteraction l) e.
Definition set_ack_time (l : link) (t : Z) : link :=
  mkLink (flags l) (btype l) (cmd l) (pending_querybuf l) (querybuf_peak l) (read_reploff l) (reploff l)
    t (lastinteraction l) (errors l).
Definition set_reploff (l : link) (o : Z) (pending : list Z) : link :=
  mkLink (flags l) (btype l) (cmd l) pending (querybuf_peak l) (read_reploff l) o
    (repl_ack_time l) (lastinteraction l) (errors l).
Definition set_read (l : link) (pending : list Z) (peak off time : Z) : link :=
  mkLink (flags l) (btype l) (cmd l) pending peak off (reploff l) (repl_ack_time l) time (errors l).

Definition has_flag (l : link) (f : Z) : bool := negb (Z.land (flags l) f =? 0).

(** ** Searching the buffer *)

(** [strchr] on the bytes before the terminator. *)
Fixpoint find_char (ch : Z) (s : list Z) : option nat :=
  match s with
  | [] => None
  | c :: s => if c =? ch then Some O else if c =? 0 then None else S <$> find_char ch s
  end.

(** The index of the character from [pos] on; the pointer must be inside the
    string or at its terminator. *)
Definition strchr (s : list Z) (pos ch : Z) : option (option Z) :=
  if (pos <? 0) || (zl s <? pos) then None
  else Some ((fun i => pos + Z.of_nat i) <$> find_char ch (drop (Z.to_nat pos) s)).

(** ** Errors *)

Definition setProtocolError (l : link) : link :=
  set_flags l (Z.lor (flags l) (Z.lor CLIENT_CLOSE_AFTER_REPLY CLIENT_PROTOCOL_ERROR)).

(** [addReplyError] followed by [setProtocolError]. *)
Definition reply_error (l : link) (e : proto_error) : link := setProtocolError (set_errors l (errors l ++ [e])).

Definition with_ln (c : client) (l : link) : client := mkClient (ps c) l.
Definition with_ps (c : client) (p : parser) : client := mkClient p (ln c).

(** ** Multi-bulk requests *)

(** The test that the line feed has arrived too, [newline] being the carriage
    return: the unsigned difference is converted to a signed one. *)
Definition line_incomplete (p : parser) (newline : Z) : bool :=
  newline - qb_pos p >? s64 (u64 (zl (querybuf p) - qb_pos p - 2)).

(** The count of arguments; [Some rc] is a [return]. *)
Definition mbulk_header (c : client) : outcome (client * option Z) :=
  let p := ps c in
  if negb (zl (argv p) =? 0) then Abort
  else
    match strchr (querybuf p) (qb_pos p) 13 with
    | None => Undef
    | Some None =>
        if u64 (zl (querybuf p) - qb_pos p) >? PROTO_INLINE_MAX_SIZE
        then Done (with_ln c (reply_error (ln c) TooBigMbulkCount), Some C_ERR)
        else Done (c, Some C_ERR)
    | Some (Some newline) =>
        if line_incomplete p newline then Done (c, Some C_ERR)
        else
          match rd (querybuf p) (qb_pos p), mread (querybuf p) (qb_pos p + 1) (Z.to_nat (newline - (qb_pos p + 1))) with
          | Some star, Some digits =>
              if negb (star =? 42) then Abort
              else
                match string2ll digits with
                | Some ll =>
                    if ll >? 1024 * 1024 then Done (with_ln c (reply_error (ln c) InvalidMbulkLength), Some C_ERR)
                    else
                      let p := set_buf p (querybuf p) (newline + 2) in
                      if ll <=? 0 then Done (with_ps c p, Some C_OK)
                      else Done (with_ps c (set_argv (set_multibulklen p ll) [] ll 0), None)
                | None => Done (with_ln c (reply_error (ln c) InvalidMbulkLength), Some C_ERR)
                end
          | _, _ => Undef
          end
    end.

(** The length of the next argument; [false] ends the loop. *)
Definition read_bulklen (srv : server) (c : client) : outcome (client * bool) :=
  let p := ps c in
  match strchr (querybuf p) (qb_pos p) 13 with
  | None => Undef
  | Some None =>
      if u64 (zl (querybuf p) - qb_pos p) >? PROTO_INLINE_MAX_SIZE
      then Done (with_ln c (reply_error (ln c) TooBigBulkCount), false)
      else Done (c, false)
  | Some (Some newline) =>
      if line_incomplete p newline then Done (c, false)
      else
        match rd (querybuf p) (qb_pos p) with
        | None => Undef
        | Some ch =>
            if negb (ch =? 36) then Done (with_ln c (reply_error (ln c) (ExpectedDollar ch)), false)
            else
              match mread (querybuf p) (qb_pos p + 1) (Z.to_nat (newline - (qb_pos p + 1))) with
              | None => Undef
              | Some digits =>
                  match string2ll digits with
                  | None => Done (with_ln c (reply_error (ln c) InvalidBulkLength), false)
                  | Some ll =>
                      if (ll <? 0) || (negb (has_flag (ln c) CLIENT_MASTER) && (ll >? proto_max_bulk_len srv))
                      then Done (with_ln c (reply_error (ln c) InvalidBulkLength), false)
                      else
                        let p := set_buf p (querybuf p) (newline + 2) in
                        if (ll >=? PROTO_MBULK_BIG_ARG) &&
                           (u64 (zl (querybuf p) - qb_pos p) <=? u64 (u64 ll + 2))
                        then
                          if ll + 2 <=? LLONG_MAX
                          then Done (with_ps c (set_bulklen (set_buf p (drop (Z.to_nat (qb_pos p)) (querybuf p)) 0) ll), true)
                          else Undef
                        else Done (with_ps c (set_bulklen p ll), true)
                  end
              end
        end
  end.

(** [c->argv[c->argc++] = o] *)
Definition push_arg (p : parser) (a : list Z) (len : Z) : option parser :=
  if zl (argv p) <? argv_slots p
  then Some (set_argv p (argv p ++ [a]) (argv_slots p) (u64 (argv_len_sum p + len))) else None.

(** The argument itself; [None] is a read or write out of bounds, [Some None]
    missing data. *)
Definition read_arg (p : parser) : option (option parser) :=
  let len := bulklen p in
  if negb (len + 2 <=? LLONG_MAX) then None
  else if u64 (zl (querybuf p) - qb_pos p) <? u64 (len + 2) then Some None
  else
    p ← (if (qb_pos p =? 0) && (len >=? PROTO_MBULK_BIG_ARG) && (zl (querybuf p) =? u64 (len + 2))
         then
           a ← mread (querybuf p) 0 (Z.to_nat len);
           p ← push_arg p a len; Some (set_buf p [] (qb_pos p))
         else
           a ← mread (querybuf p) (qb_pos p) (Z.to_nat len);
           p ← push_arg p a len; Some (set_buf p (querybuf p) (qb_pos p + len + 2)));
    Some (Some (set_multibulklen (set_bulklen p (-1)) (multibulklen p - 1))).

(** [while(c->multibulklen)] and the return after it; the fuel bounds the
    arguments left. *)
Fixpoint mbulk_loop (fuel : nat) (srv : server) (c : client) : outcome (client * Z) :=
  match fuel with
  | O => Undef
  | S fuel =>
      if multibulklen (ps c) =? 0 then Done (c, C_OK)
      else
        match (if bulklen (ps c) =? -1 then read_bulklen srv c else Done (c, true)) with
        | Done (c, true) =>
            match read_arg (ps c) with
            | None => Undef
            | Some None => Done (c, C_ERR)
            | Some (Some p) => mbulk_loop fuel srv (with_ps c p)
            end
        | Done (c, false) => Done (c, C_ERR)
        | Abort => Abort
        | Undef => Undef
        end
  end.

Definition processMultibulkBuffer (srv : server) (c : client) : outcome (client * Z) :=
  match (if multibulklen (ps c) =? 0 then mbulk_header c else Done (c, None)) with
  | Done (c, Some rc) => Done (c, rc)
  | Done (c, None) =>
      if multibulklen (ps c) >? 0 then mbulk_loop (S (Z.to_nat (multibulklen (ps c)))) srv c else Abort
  | Abort => Abort
  | Undef => Undef
  end.

(** ** Inline requests *)

Definition is_slave (l : link) : bool :=
  negb (has_flag l CLIENT_MASTER) && has_flag l CLIENT_SLAVE && negb (has_flag l CLIENT_MONITOR).

Definition processInlineBuffer (srv : server) (c : client) : outcome (client * Z) :=
  let p := ps c in
  match strchr (querybuf p) (qb_pos p) 10 with
  | None => Undef
  | Some None =>
      if u64 (zl (querybuf p) - qb_pos p) >? PROTO_INLINE_MAX_SIZE
      then Done (with_ln c (reply_error (ln c) TooBigInline), C_ERR)
      else Done (c, C_ERR)
  | Some (Some newline) =>
      let cr := negb (newline =? qb_pos p) && bool_decide (rd (querybuf p) (newline - 1) = Some 13) in
      let newline := if cr then newline - 1 else newline in
      let linefeed_chars := if cr then 2 else 1 in
      let querylen := newline - qb_pos p in
      match mread (querybuf p) (qb_pos p) (Z.to_nat querylen) with
      | None => Undef
      | Some aux =>
          match SdsArgs.sdssplitargs (aux ++ [0]) with
          | None => Undef
          | Some None => Done (with_ln c (reply_error (ln c) UnbalancedQuotes), C_ERR)
          | Some (Some args) =>
              let l := if (querylen =? 0) && is_slave (ln c) then set_ack_time (ln c) (unixtime srv) else ln c in
              if negb (querylen =? 0) && has_flag l CLIENT_MASTER
              then Done (with_ln c (setProtocolError l), C_ERR)
              else
                let p := set_buf p (querybuf p) (qb_pos p + querylen + linefeed_chars) in
                let p :=
                  match args with
                  | [] => set_argv p [] (argv_slots p) (argv_len_sum p)
                  | _ => set_argv p args (zl args) (u64 (Z.of_nat (length (concat args))))
                  end in
                Done (mkClient p l, C_OK)
          end
      end
  end.

(** ** Between requests *)

Definition clear_flag (l : link) (f : Z) : link := set_flags l (Z.land (flags l) (Z.lnot f)).

(** [freeClientArgv] and the reset of the parser and of the one-command
    flags. *)
Definition resetClient (c : client) : client :=
  let prevcmd := cmd (ln c) in
  let p := set_argv (ps c) [] (argv_slots (ps c)) 0 in
  let p := set_bulklen (set_multibulklen (set_reqtype p 0) 0) (-1) in
  let l := set_cmd (ln c) NoCommand in
  let l := if negb (has_flag l CLIENT_MULTI) &&
              match prevcmd with AskingCommand => false | _ => true end
           then clear_flag l CLIENT_ASKING else l in
  let l := if negb (has_flag l CLIENT_MULTI) &&
              match prevcmd with ClientCommand => false | _ => true end
           then clear_flag l CLIENT_TRACKING_CACHING else l in
  let l := clear_flag l CLIENT_REPLY_SKIP in
  let l := if has_flag l CLIENT_REPLY_SKIP_NEXT
           then clear_flag (set_flags l (Z.lor (flags l) CLIENT_REPLY_SKIP)) CLIENT_REPLY_SKIP_NEXT else l in
  mkClient p l.

(** The applied replication offset of a master, and the reset. *)
Definition commandProcessed (c : client) : client :=
  let prev_offset := reploff (ln c) in
  let l := if has_flag (ln c) CLIENT_MASTER && negb (has_flag (ln c) CLIENT_MULTI)
           then set_reploff (ln c) (s64 (read_reploff (ln c) - zl (querybuf (ps c)) + qb_pos (ps c)))
                  (pending_querybuf (ln c))
           else ln c in
  let c := with_ln c l in
  let c := if negb (has_flag (ln c) CLIENT_BLOCKED) || negb (btype (ln c) =? BLOCKED_MODULE)
           then resetClient c else c in
  if has_flag (ln c) CLIENT_MASTER then
    let applied := reploff (ln c) - prev_offset in
    if negb (applied =? 0)
    then with_ln c (set_reploff (ln c) (reploff (ln c)) (drop (Z.to_nat applied) (pending_querybuf (ln c))))
    else c
  else c.

Section input.
(** [processCommand] on the rest of the server's state: the new states and its
    return value, with no client left if it was freed; and the Gopher reply. *)
Context {S : Type}.
Context (processCommand : S -> client -> S * option client * Z) (processGopherRequest : S -> client -> S).
Context (srv : server).

(** No client is [C_ERR]: it was freed, and touching it is undefined. *)
Definition processCommandAndResetClient (s : S) (c : client) : outcome (S * option client) :=
  match processCommand s c with
  | (s, Some c, rc) => Done (s, Some (if rc =? C_OK then commandProcessed c else c))
  | (s, None, rc) => if rc =? C_OK then Undef else Done (s, None)
  end.

(** The conditions under which the loop stops before the next request. *)
Definition must_stop (l : link) : bool :=
  (negb (has_flag l CLIENT_SLAVE) && paused srv) ||
  has_flag l CLIENT_BLOCKED ||
  has_flag l CLIENT_PENDING_COMMAND ||
  (lua_timedout srv && has_flag l CLIENT_MASTER) ||
  has_flag l (Z.lor CLIENT_CLOSE_AFTER_REPLY CLIENT_CLOSE_ASAP).

(** One request; the boolean tells whether the loop goes on, [None] is the
    early [return] when the client is gone. *)
Definition process_one (s : S) (c : client) : outcome (S * option (client * bool)) :=
  match rd (querybuf (ps c)) (qb_pos (ps c)) with
  | None => Undef
  | Some first =>
      let c := if reqtype (ps c) =? 0
               then with_ps c (set_reqtype (ps c) (if first =? 42 then PROTO_REQ_MULTIBULK else PROTO_REQ_INLINE))
               else c in
      match (if reqtype (ps c) =? PROTO_REQ_INLINE then processInlineBuffer srv c
             else if reqtype (ps c) =? PROTO_REQ_MULTIBULK then processMultibulkBuffer srv c
             else Abort) with
      | Abort => Abort
      | Undef => Undef
      | Done (c, rc) =>
          if negb (rc =? C_OK) then Done (s, Some (c, false))
          else
            let gopher := (reqtype (ps c) =? PROTO_REQ_INLINE) && gopher_enabled srv &&
              negb (io_threads_do_reads srv) &&
              match argv (ps c) with
              | [] => true
              | [a] => bool_decide (head a = Some 47)
              | _ => false
              end in
            if gopher then
              let s := processGopherRequest s c in
              let c := resetClient c in
              Done (s, Some (with_ln c (set_flags (ln c) (Z.lor (flags (ln c)) CLIENT_CLOSE_AFTER_REPLY)), false))
            else if zl (argv (ps c)) =? 0 then Done (s, Some (resetClient c, true))
            else if has_flag (ln c) CLIENT_PENDING_READ
            then Done (s, Some (with_ln c (set_flags (ln c) (Z.lor (flags (ln c)) CLIENT_PENDING_COMMAND)), false))
            else
              match processCommandAndResetClient s c with
              | Done (s, c) => Done (s, (fun c => (c, true)) <$> c)
              | Abort => Abort
              | Undef => Undef
              end
      end
  end.

Definition trim_to_pos (c : client) : client :=
  if negb (qb_pos (ps c) =? 0)
  then with_ps c (set_buf (ps c) (drop (Z.to_nat (qb_pos (ps c))) (querybuf (ps c))) 0) else c.

(** Every request takes at least one byte, so the bytes bound the rounds. *)
Fixpoint input_loop (fuel : nat) (s : S) (c : client) : outcome (S * option client) :=
  match fuel with
  | O => Undef
  | Datatypes.S fuel =>
      if negb (qb_pos (ps c) <? zl (querybuf (ps c))) || must_stop (ln c) then Done (s, Some (trim_to_pos c))
      else
        match process_one s c with
        | Abort => Abort
        | Undef => Undef
        | Done (s, Some (c, true)) => input_loop fuel s c
        | Done (s, Some (c, false)) => Done (s, Some (trim_to_pos c))
        | Done (s, None) => Done (s, None)
        end
  end.

Definition processInputBuffer (s : S) (c : client) : outcome (S * option client) :=
  input_loop (Datatypes.S (length (querybuf (ps c)))) s c.

(** ** Reading *)

Definition postponeClientRead (c : client) : option client :=
  if io_threads_active srv && io_threads_do_reads srv && negb (events_while_blocked srv) &&
     negb (has_flag (ln c) (Z.lor (Z.lor CLIENT_MASTER CLIENT_SLAVE) CLIENT_PENDING_READ))
  then Some (with_ln c (set_flags (ln c) (Z.lor (flags (ln c)) CLIENT_PENDING_READ)))
  else None.

Definition freeClientAsync (c : client) : client :=
  if has_flag (ln c) CLIENT_CLOSE_ASAP || has_flag (ln c) CLIENT_LUA then c
  else with_ln c (set_flags (ln c) (Z.lor (flags (ln c)) CLIENT_CLOSE_ASAP)).

(** The room asked for: at most what is missing of a big argument. *)
Definition read_len (p : parser) : Z :=
  if (reqtype p =? PROTO_REQ_MULTIBULK) && negb (multibulklen p =? 0) && negb (bulklen p =? -1) &&
     (bulklen p >=? PROTO_MBULK_BIG_ARG)
  then
    let remaining := s64 (u64 (bulklen p + 2) - zl (querybuf p)) in
    if (remaining >? 0) && (remaining <? PROTO_IOBUF_LEN) then remaining else PROTO_IOBUF_LEN
  else PROTO_IOBUF_LEN.

(** What [connRead] returns: an error with the connection still up or not, the
    end of the stream, or bytes. *)
Inductive read_result := ReadError (connected : bool) | ReadEOF | ReadData (data : list Z).

Definition readQueryFromClient (s : S) (c : client) (r : read_result) : outcome (S * option client) :=
  match postponeClientRead c with
  | Some c => Done (s, Some c)
  | None =>
      let qblen := zl (querybuf (ps c)) in
      let peak := if querybuf_peak (ln c) <? qblen then qblen else querybuf_peak (ln c) in
      let c := with_ln c (set_read (ln c) (pending_querybuf (ln c)) peak (read_reploff (ln c)) (lastinteraction (ln c))) in
      match r with
      | ReadError true => Done (s, Some c)
      | ReadError false | ReadEOF => Done (s, Some (freeClientAsync c))
      | ReadData data =>
          if read_len (ps c) <? zl data then Undef
          else
            let master := has_flag (ln c) CLIENT_MASTER in
            let l := set_read (ln c) (if master then pending_querybuf (ln c) ++ data else pending_querybuf (ln c))
                       peak (if master then s64 (read_reploff (ln c) + zl data) else read_reploff (ln c)) (unixtime srv) in
            let c := mkClient (set_buf (ps c) (querybuf (ps c) ++ data) (qb_pos (ps c))) l in
            if zl (querybuf (ps c)) >? client_max_querybuf_len srv then Done (s, Some (freeClientAsync c))
            else processInputBuffer s c
      end
  end.

(** The reads of a connection: read [i] gets at least one and at most [sizes i + 1] of the
    bytes that are left, and no more than there is room for.  A client that was
    freed is not read from any more. *)
Fixpoint connection (fuel : nat) (sizes : nat -> nat) (i : nat) (s : S) (c : client) (stream : list Z)
  : outcome (S * option client) :=
  match stream, fuel with
  | [], _ => Done (s, Some c)
  | _, O => Undef
  | _, Datatypes.S fuel =>
      let n := Nat.min (Datatypes.S (sizes i)) (Z.to_nat (read_len (ps c))) in
      match readQueryFromClient s c (ReadData (take n stream)) with
      | Done (s, Some c) => connection fuel sizes (Datatypes.S i) s c (drop n stream)
      | Done (s, None) => Done (s, None)
      | Abort => Abort
      | Undef => Undef
      end
  end.

End input.

End Proto.
