(* ===== verification/ProtoSafe.v ===== *)
(** Arbitrary input to the request parser of [Proto.v]: whatever bytes a client
    sends and however they arrive, no assertion fails, nothing is read or
    written out of bounds, and the loops end. *)

From S2P Require Import Prelude Effects UtilNum SdsArgs Proto.

#[local] Open Scope Z_scope.

Module ProtoSafe.
Import UtilNum Proto.
#[local] Notation zl l := (Z.of_nat (length l)) (only parsing).

(** ** Positions in the buffer *)

Record framed (p : parser) : Prop := mkFramed {
  fr_pos : 0 <= qb_pos p <= zl (querybuf p);
  fr_len : zl (querybuf p) < 2 ^ 62 }.

(** The bytes not parsed yet. *)
Definition left (p : parser) : Z := zl (querybuf p) - qb_pos p.

(** The buffer does not grow, nor what is left of it. *)
Record within (p p' : parser) : Prop := mkWithin {
  wi_framed : framed p';
  wi_buf : zl (querybuf p') <= zl (querybuf p);
  wi_left : left p' <= left p }.

Lemma within_refl p : framed p -> within p p.
Proof. intros H. split; [done|lia|lia]. Qed.

Lemma within_trans p p' p'' : within p p' -> within p' p'' -> within p p''.
Proof. intros [] []. split; [done|lia|lia]. Qed.

Lemma u64_left p : framed p -> u64 (zl (querybuf p) - qb_pos p) = left p.
Proof. intros [Hp Hl]. apply Z.mod_small. unfold left. lia. Qed.

Lemma find_char_Some ch s i : ch <> 0 -> find_char ch s = Some i -> s !! i = Some ch /\ (0 : Z) ∉ take i s.
Proof.
  intros Hch. revert i. induction s as [|x s IH]; intros i; cbn [find_char]; [done|].
  destruct (Z.eqb_spec x ch) as [->|Hx]; [intros [= <-]; split; [done|apply not_elem_of_nil]|].
  destruct (Z.eqb_spec x 0) as [->|Hx0]; [done|]. destruct (find_char ch s) as [j|] eqn:Hj; [|done].
  intros [= <-]. destruct (IH j eq_refl) as [Hl Hn]. split; [done|]. cbn [take].
  apply not_elem_of_cons. split; [congruence|done].
Qed.

Lemma strchr_safe p ch : framed p -> ch <> 0 ->
  exists r, strchr (querybuf p) (qb_pos p) ch = Some r /\
    forall nl, r = Some nl -> qb_pos p <= nl < zl (querybuf p) /\ rd (querybuf p) nl = Some ch /\
      (0 : Z) ∉ take (Z.to_nat (nl - qb_pos p)) (drop (Z.to_nat (qb_pos p)) (querybuf p)).
Proof.
  intros [Hp Hl] Hch. unfold strchr. rewrite (proj2 (Z.ltb_ge _ _)), (proj2 (Z.ltb_ge _ _)) by lia. cbn [orb].
  eexists. split; [done|]. intros nl Hnl. apply fmap_Some in Hnl as (i & Hi & ->).
  apply find_char_Some in Hi as [Hi Hn]; [|done]. rewrite lookup_drop in Hi. pose proof (lookup_lt_Some _ _ _ Hi).
  split_and!; [lia..| |].
  - unfold rd. rewrite (proj2 (Z.ltb_ge _ _)) by lia. rewrite <- Hi. f_equal. lia.
  - by replace (Z.to_nat (qb_pos p + Z.of_nat i - qb_pos p)) with i by lia.
Qed.

Lemma line_complete p nl : framed p -> qb_pos p <= nl < zl (querybuf p) ->
  line_incomplete p nl = false -> nl + 2 <= zl (querybuf p).
Proof.
  intros [Hp Hl] Hnl. unfold line_incomplete. rewrite Z.gtb_ltb, Z.ltb_ge.
  rewrite swrap_uwrap, swrap_small; unfold in_s; lia.
Qed.

Lemma mread_safe b off n : 0 <= off -> off + Z.of_nat n <= zl b ->
  mread b off n = Some (take n (drop (Z.to_nat off) b)).
Proof. intros ??. unfold mread. by rewrite bool_decide_eq_true_2 by lia. Qed.

Lemma set_buf_within p pos : framed p -> qb_pos p <= pos <= zl (querybuf p) -> within p (set_buf p (querybuf p) pos).
Proof. intros [Hp Hl] H. split; [split|..]; cbn [set_buf querybuf qb_pos left]; unfold left; cbn [set_buf querybuf qb_pos]; lia. Qed.

Lemma drop_within p : framed p -> within p (set_buf p (drop (Z.to_nat (qb_pos p)) (querybuf p)) 0).
Proof.
  intros [Hp Hl]. split; [split|..]; unfold left; cbn [set_buf querybuf qb_pos]; rewrite length_drop; lia.
Qed.

Lemma read_len_bounds p : 1 <= read_len p <= PROTO_IOBUF_LEN.
Proof.
  unfold read_len. destruct (_ && _ && _ && _); [|lia]. cbv zeta.
  generalize (s64 (u64 (bulklen p + 2) - zl (querybuf p))). intros r.
  destruct (Z.gtb_spec r 0), (Z.ltb_spec r (1024 * 16)); cbn [andb]; lia.
Qed.

(** ** Links *)

(** At most errors are sent. *)
Definition answered (l l' : link) : Prop := exists es, l' = fold_left reply_error es l.

Lemma answered_refl l : answered l l.
Proof. by exists []. Qed.

Lemma answered_once l e : answered l (reply_error l e).
Proof. by exists [e]. Qed.

Lemma answered_trans l l' l'' : answered l l' -> answered l' l'' -> answered l l''.
Proof. intros [es ->] [es' ->]. exists (es ++ es'). by rewrite fold_left_app. Qed.

#[local] Ltac answers := first [apply answered_refl | apply answered_once].

Lemma has_flag_lor l f g : has_flag (set_flags l (Z.lor (flags l) f)) g = has_flag l g || negb (Z.land f g =? 0).
Proof.
  unfold has_flag. cbn [set_flags flags]. rewrite Z.land_lor_distr_l.
  destruct (Z.eqb_spec (Z.land (flags l) g) 0) as [->|H]; [by rewrite Z.lor_0_l|]. cbn [negb orb].
  rewrite (proj2 (Z.eqb_neq _ _)); [done|]. intros [? _]%Z.lor_eq_0_iff. done.
Qed.

Lemma answered_master l l' : answered l l' -> has_flag l CLIENT_MASTER = false -> has_flag l' CLIENT_MASTER = false.
Proof.
  intros [es ->]. revert l. induction es as [|e es IH]; intros l Hm; [done|]. cbn [fold_left]. apply IH.
  unfold reply_error, setProtocolError. rewrite has_flag_lor. unfold has_flag in *. cbn [set_errors flags]. by rewrite Hm.
Qed.

(** ** Requests *)

Section limits.
Context (srv : server).
Hypothesis Hmax : proto_max_bulk_len srv + 2 <= LLONG_MAX.

(** The parser inside a request. *)
Record in_request (p : parser) : Prop := mkInRequest {
  ir_type : reqtype p = PROTO_REQ_MULTIBULK;
  ir_some : 0 <= multibulklen p;
  ir_slots : argv_slots p = zl (argv p) + multibulklen p;
  ir_bulk : bulklen p = -1 \/ 0 <= bulklen p <= proto_max_bulk_len srv }.

(** The parser between requests, or waiting for the rest of a first line. *)
Record between (p : parser) : Prop := mkBetween {
  bt_none : multibulklen p = 0;
  bt_argv : argv p = [];
  bt_bulk : bulklen p = -1;
  bt_type : reqtype p = 0 \/ reqtype p = PROTO_REQ_INLINE \/
    reqtype p = PROTO_REQ_MULTIBULK /\ rd (querybuf p) (qb_pos p) = Some 42 }.

Definition ready (p : parser) : Prop := between p \/ 0 < multibulklen p /\ in_request p.

Lemma header_safe c : framed (ps c) -> between (ps c) -> rd (querybuf (ps c)) (qb_pos (ps c)) = Some 42 ->
  reqtype (ps c) = PROTO_REQ_MULTIBULK ->
  exists c' o, mbulk_header c = Done (c', o) /\ answered (ln c) (ln c') /\ within (ps c) (ps c') /\
    reqtype (ps c') = PROTO_REQ_MULTIBULK /\
    match o with
    | Some rc => rc = C_ERR /\ ps c' = ps c \/
        rc = C_OK /\ left (ps c') < left (ps c)
    | None => left (ps c') < left (ps c) /\ 0 < multibulklen (ps c') /\ in_request (ps c')
    end.
Proof.
  intros Hf [Hm Ha Hb _] Hstar Ht. unfold mbulk_header. rewrite Ha. cbn [length Z.of_nat Z.eqb negb].
  pose proof (within_refl _ Hf) as Hrefl. assert (13 <> 0) as H13 by lia.
  destruct (strchr_safe _ 13 Hf H13) as ([nl|] & -> & Hnl).
  2: { destruct (_ >? _); eexists _, _; (split; [done|]).
    - split_and!; [answers|done|done|by left].
    - split_and!; [answers|done|done|by left]. }
  destruct (Hnl nl eq_refl) as (Hr & Hcr & _). destruct (line_incomplete _ nl) eqn:Hinc.
  { eexists _, _. split; [done|]. split_and!; [answers|done|done|by left]. }
  pose proof (line_complete _ _ Hf Hr Hinc) as H2. pose proof (fr_pos _ Hf).
  rewrite Hstar, mread_safe by lia. cbn [Z.eqb Pos.eqb negb].
  assert (within (ps c) (set_buf (ps c) (querybuf (ps c)) (nl + 2))) as Hw by (apply set_buf_within; [done|lia]).
  assert (left (set_buf (ps c) (querybuf (ps c)) (nl + 2)) < left (ps c)) as Hlt.
  { unfold left. cbn [set_buf querybuf qb_pos]. lia. }
  destruct (string2ll _) as [ll|]; [|by eexists _, _; split; [done|]; split_and!; [answers|done|done|left]].
  rewrite Z.gtb_ltb. destruct (Z.ltb_spec (1024 * 1024) ll);
    [by eexists _, _; split; [done|]; split_and!; [answers|done|done|left]|].
  destruct (Z.leb_spec ll 0).
  - eexists _, _. split; [done|]. split_and!; [answers|done|done|by right].
  - eexists _, _. split; [done|]. split_and!; [answers|by destruct Hw as [[]]; split; [split|..]|done|done|cbn; lia|].
    constructor; cbn; [done|lia|lia|by left].
Qed.

(** The fields that reading a length leaves alone. *)
Definition same_args (p p' : parser) : Prop :=
  multibulklen p' = multibulklen p /\ argv p' = argv p /\ argv_slots p' = argv_slots p /\ reqtype p' = reqtype p.

Lemma bulklen_safe c : framed (ps c) -> has_flag (ln c) CLIENT_MASTER = false ->
  exists c' go, read_bulklen srv c = Done (c', go) /\ answered (ln c) (ln c') /\ within (ps c) (ps c') /\
    same_args (ps c) (ps c') /\
    if (go : bool) then 0 <= bulklen (ps c') <= proto_max_bulk_len srv else bulklen (ps c') = bulklen (ps c).
Proof using Hmax.
  intros Hf Hnm. unfold read_bulklen. pose proof (within_refl _ Hf) as Hrefl. pose proof (fr_pos _ Hf).
  assert (forall e, exists c' go, Done (with_ln c (reply_error (ln c) e), false) = Done (c', go) /\
    answered (ln c) (ln c') /\ within (ps c) (ps c') /\ same_args (ps c) (ps c') /\
    if (go : bool) then 0 <= bulklen (ps c') <= proto_max_bulk_len srv else bulklen (ps c') = bulklen (ps c)) as Herr.
  { intros e. eexists _, _. split; [done|]. split_and!; [answers|done..]. }
  destruct (strchr_safe _ 13 Hf ltac:(done)) as ([nl|] & -> & Hnl).
  2: { destruct (_ >? _); [apply Herr|]. eexists _, _. split; [done|]. by split_and!; [answers|..]. }
  destruct (Hnl nl eq_refl) as (Hr & Hcr & _). destruct (line_incomplete _ nl) eqn:Hinc.
  { eexists _, _. split; [done|]. by split_and!; [answers|..]. }
  pose proof (line_complete _ _ Hf Hr Hinc) as H2.
  destruct (rd_Some (querybuf (ps c)) (qb_pos (ps c))) as (ch & -> & _); [lia|].
  destruct (Z.eqb_spec ch 36) as [->|]; cbn [negb]; [|apply Herr].
  rewrite mread_safe by lia. destruct (string2ll _) as [ll|]; [|apply Herr].
  rewrite Hnm. cbn [negb andb]. destruct (Z.ltb_spec ll 0); cbn [orb]; [apply Herr|].
  rewrite Z.gtb_ltb. destruct (Z.ltb_spec (proto_max_bulk_len srv) ll); [apply Herr|].
  assert (within (ps c) (set_buf (ps c) (querybuf (ps c)) (nl + 2))) as Hw by (apply set_buf_within; [done|lia]).
  pose proof (drop_within _ (wi_framed _ _ Hw)) as Hd%(within_trans _ _ _ Hw).
  destruct (_ && _); [|eexists _, _; split; [done|]; split_and!; [answers|by destruct Hw as [[]]|done|cbn; lia..]].
  rewrite (proj2 (Z.leb_le _ _)) by lia. eexists _, _. split; [done|].
  split_and!; [answers|by destruct Hd as [[]]|done|cbn; lia..].
Qed.

Lemma arg_safe p : framed p -> 0 <= bulklen p <= proto_max_bulk_len srv -> zl (argv p) < argv_slots p ->
  read_arg p = Some None \/
  exists p', read_arg p = Some (Some p') /\ within p p' /\ left p' + 2 <= left p /\
    multibulklen p' = multibulklen p - 1 /\ bulklen p' = -1 /\ zl (argv p') = zl (argv p) + 1 /\
    argv_slots p' = argv_slots p /\ reqtype p' = reqtype p.
Proof using Hmax.
  intros Hf Hb Hs. pose proof Hf as [Hp Hl]. unfold read_arg.
  rewrite (proj2 (Z.leb_le _ _)) by lia. cbn [negb]. rewrite (u64_left _ Hf).
  rewrite (uwrap_small 64 (bulklen p + 2)) by (unfold in_u; lia).
  destruct (Z.ltb_spec (left p) (bulklen p + 2)); [by left|right].
  unfold left in *. destruct (_ && _ && _) eqn:Hopt.
  - apply andb_prop in Hopt as [[Hpos%Z.eqb_eq _]%andb_prop Hlen%Z.eqb_eq].
    rewrite mread_safe by lia. bsimpl. unfold push_arg. rewrite (proj2 (Z.ltb_lt _ _)) by lia. bsimpl.
    eexists. split; [done|]. cbn. rewrite length_app. split_and!; [split; [split|..]|..]; unfold left; cbn; lia || done.
  - rewrite mread_safe by lia. bsimpl. unfold push_arg. rewrite (proj2 (Z.ltb_lt _ _)) by lia. bsimpl.
    eexists. split; [done|]. cbn. rewrite length_app. split_and!; [split; [split|..]|..]; unfold left; cbn; lia || done.
Qed.

Lemma loop_safe fuel : forall c, multibulklen (ps c) < Z.of_nat fuel -> framed (ps c) -> in_request (ps c) ->
  has_flag (ln c) CLIENT_MASTER = false ->
  exists c' rc, mbulk_loop fuel srv c = Done (c', rc) /\ answered (ln c) (ln c') /\ within (ps c) (ps c') /\
    reqtype (ps c') = PROTO_REQ_MULTIBULK /\
    (rc = C_OK /\ left (ps c') + multibulklen (ps c) <= left (ps c) \/ rc = C_ERR /\ ready (ps c')).
Proof using Hmax.
  induction fuel as [|fuel IH]; intros c Hfuel Hf Hin Hnm; pose proof Hin as [Ht Hm Hs Hb]; [lia|]. cbn [mbulk_loop].
  destruct (Z.eqb_spec (multibulklen (ps c)) 0) as [H0|H0].
  { exists c, C_OK. split_and!; [done|answers|by apply within_refl|done|]. left. split; [done|lia]. }
  assert (exists c1 go, (if bulklen (ps c) =? -1 then read_bulklen srv c else Done (c, true)) = Done (c1, go) /\
    answered (ln c) (ln c1) /\ within (ps c) (ps c1) /\ same_args (ps c) (ps c1) /\
    if (go : bool) then 0 <= bulklen (ps c1) <= proto_max_bulk_len srv else bulklen (ps c1) = bulklen (ps c))
    as (c1 & go & -> & Hans & Hw & (Hm1 & Ha1 & Hs1 & Ht1) & Hgo).
  { destruct (Z.eqb_spec (bulklen (ps c)) (-1)) as [|Hne]; [by apply bulklen_safe|].
    exists c, true. split_and!; [done|answers|by apply within_refl|done|lia..]. }
  assert (in_request (ps c1)) as Hin1.
  { constructor; rewrite ?Hm1, ?Ha1, ?Hs1, ?Ht1; try done. destruct go; [by right|by rewrite Hgo]. }
  assert (ready (ps c1)) as Hready by (right; split; [lia|done]).
  destruct go; [|by exists c1, C_ERR; split_and!; [..|congruence|right]].
  destruct (arg_safe (ps c1)) as [->|(p' & -> & Hw' & Hleft & Hm' & Hb' & Ha' & Hs' & Ht')]; [by destruct Hw|lia| | |].
  { rewrite Ha1, Hs1. lia. }
  { exists c1, C_ERR. split_and!; [done..|congruence|by right]. }
  destruct (IH (with_ps c1 p')) as (c' & rc & -> & Hans' & Hw2 & Ht2 & Hr); cbn [ps ln with_ps] in *.
  - lia.
  - by destruct Hw'.
  - constructor; [congruence|lia|rewrite Ha', Hs', Hs1, Ha1; lia|by left].
  - by eapply answered_master.
  - exists c', rc. split_and!; [done| |by eapply within_trans; [|eapply within_trans]|done|].
    + by eapply answered_trans.
    + destruct Hr as [[-> Hr]|[-> Hr]]; [left|by right]. split; [done|]. pose proof (wi_left _ _ Hw). lia.
Qed.

(** What a parsing function promises. *)
Definition parses (c : client) (r : outcome (client * Z)) : Prop :=
  exists c' rc, r = Done (c', rc) /\ has_flag (ln c') CLIENT_MASTER = false /\ within (ps c) (ps c') /\
    (rc = C_OK /\ left (ps c') < left (ps c) \/ rc = C_ERR /\ ready (ps c')).

Lemma multibulk_safe c : framed (ps c) -> ready (ps c) -> has_flag (ln c) CLIENT_MASTER = false ->
  reqtype (ps c) = PROTO_REQ_MULTIBULK -> parses c (processMultibulkBuffer srv c).
Proof using Hmax.
  intros Hf Hr Hnm Ht. unfold processMultibulkBuffer.
  assert (forall c1, within (ps c) (ps c1) -> has_flag (ln c1) CLIENT_MASTER = false -> 0 < multibulklen (ps c1) ->
    in_request (ps c1) ->
    parses c (if multibulklen (ps c1) >? 0 then mbulk_loop (S (Z.to_nat (multibulklen (ps c1)))) srv c1 else Abort)) as Hloop.
  { intros c1 Hw1 Hnm1 Hm1 Hin1. rewrite Z.gtb_ltb, (proj2 (Z.ltb_lt _ _)) by lia.
    destruct (loop_safe (S (Z.to_nat (multibulklen (ps c1)))) c1) as (c' & rc & -> & Ha & Hw & _ & Hres);
      [lia|by destruct Hw1|done|done|].
    exists c', rc. split_and!; [done|by eapply answered_master|by eapply within_trans|].
    destruct Hres as [[-> Hl]|Hres]; [left|by right]. pose proof (wi_left _ _ Hw1). split; [done|lia]. }
  destruct Hr as [Hb|[Hm Hin]].
  - pose proof Hb as [H0 _ _ [H1|[H1|[_ Hstar]]]]; [by rewrite Ht in H1|by rewrite Ht in H1|]. rewrite H0. cbn [Z.eqb].
    destruct (header_safe c Hf Hb Hstar Ht) as (c1 & o & -> & Ha & Hw & Ht1 & Ho).
    pose proof (answered_master _ _ Ha Hnm) as Hnm1. destruct o as [rc|].
    + exists c1, rc. split_and!; [done..|]. destruct Ho as [[-> Hp]|[-> Hl]]; [right|by left].
      split; [done|]. rewrite Hp. by left.
    + destruct Ho as (Hl & Hm1 & Hin1). by apply Hloop.
  - rewrite (proj2 (Z.eqb_neq _ _)) by lia. by apply Hloop; [apply within_refl|..].
Qed.

Lemma inline_safe c : framed (ps c) -> between (ps c) -> has_flag (ln c) CLIENT_MASTER = false ->
  parses c (processInlineBuffer srv c).
Proof.
  intros Hf Hb Hnm. unfold processInlineBuffer. pose proof (within_refl _ Hf) as Hrefl. pose proof (fr_pos _ Hf).
  assert (forall l, answered (ln c) l -> parses c (Done (with_ln c l, C_ERR))) as Herr.
  { intros l Ha. eexists _, _. split; [done|]. split_and!; [by eapply answered_master|done|]. right. split; [done|by left]. }
  destruct (strchr_safe _ 10 Hf ltac:(done)) as ([nl|] & -> & Hnl).
  2: { replace (Done (c, C_ERR)) with (Done (with_ln c (ln c), C_ERR)) by (by destruct c).
    destruct (_ >? _); apply Herr; answers. }
  destruct (Hnl nl eq_refl) as (Hr & _ & Hz). set (cr := negb (nl =? qb_pos (ps c)) && _).
  assert (cr = true -> qb_pos (ps c) <= nl - 1) as Hcr.
  { subst cr. destruct (Z.eqb_spec nl (qb_pos (ps c))); cbn [negb andb]; [done|lia]. }
  set (stop := if cr then nl - 1 else nl).
  assert (qb_pos (ps c) <= stop <= nl) as Hstop by (subst stop; destruct cr; [specialize (Hcr eq_refl)|]; lia).
  assert (stop + (if cr then 2 else 1) = nl + 1) as Hend by (subst stop; destruct cr; lia).
  cbv zeta. rewrite mread_safe by lia.
  destruct (SdsArgs.sdssplitargs_total (take (Z.to_nat (stop - qb_pos (ps c))) (drop (Z.to_nat (qb_pos (ps c))) (querybuf (ps c)))) [])
    as ([args|] & ->); [| |apply Herr; answers].
  { intros (i & Hi & Hlt)%elem_of_take. apply Hz, elem_of_take. exists i. split; [done|lia]. }
  set (l := if _ && is_slave (ln c) then _ else ln c).
  assert (has_flag l CLIENT_MASTER = false) as Hl by (subst l; by destruct (_ && is_slave (ln c))).
  rewrite Hl, andb_false_r.
  replace (qb_pos (ps c) + (stop - qb_pos (ps c)) + (if cr then 2 else 1)) with (nl + 1) by lia.
  assert (within (ps c) (set_buf (ps c) (querybuf (ps c)) (nl + 1))) as Hw by (apply set_buf_within; [done|lia]).
  assert (left (set_buf (ps c) (querybuf (ps c)) (nl + 1)) < left (ps c)) as Hlt.
  { unfold left. cbn [set_buf querybuf qb_pos]. lia. }
  destruct Hw as [[] Hw1 Hw2]. eexists _, C_OK. split; [done|]. split_and!; [done| |left; split; [done|]]; by destruct args.
Qed.

(** ** Executing *)


Lemma clear_flag_false l f g : has_flag l g = false -> has_flag (clear_flag l f) g = false.
Proof.
  unfold has_flag, clear_flag. cbn [set_flags flags]. rewrite !negb_false_iff, !Z.eqb_eq. intros H.
  rewrite <- Z.land_assoc, (Z.land_comm _ g), Z.land_assoc, H. by apply Z.land_0_l.
Qed.

Lemma reset_master c : has_flag (ln c) CLIENT_MASTER = false -> has_flag (ln (resetClient c)) CLIENT_MASTER = false.
Proof.
  intros H. unfold resetClient. cbn [ln]. set (l0 := set_cmd (ln c) NoCommand).
  assert (has_flag l0 CLIENT_MASTER = false) as H0 by done. generalize dependent l0. intros l0 H0.
  set (l1 := if _ && _ then clear_flag l0 CLIENT_ASKING else l0).
  assert (has_flag l1 CLIENT_MASTER = false) as H1 by (subst l1; case_match; [by apply clear_flag_false|done]).
  set (l2 := if _ && _ then clear_flag l1 CLIENT_TRACKING_CACHING else l1).
  assert (has_flag l2 CLIENT_MASTER = false) as H2 by (subst l2; case_match; [by apply clear_flag_false|done]).
  pose proof (clear_flag_false l2 CLIENT_REPLY_SKIP _ H2) as H3. case_match; [|done].
  apply clear_flag_false. by rewrite has_flag_lor, H3.
Qed.

Lemma reset_ready c : between (ps (resetClient c)).
Proof. by constructor; cbn; [..|left]. Qed.

Lemma reset_within c p : within p (ps c) -> within p (ps (resetClient c)).
Proof. by intros [[]]. Qed.

(** Processing has stopped for good. *)
Definition stopped (l : link) : Prop :=
  has_flag l CLIENT_BLOCKED = true \/ has_flag l CLIENT_PENDING_COMMAND = true \/
  has_flag l (Z.lor CLIENT_CLOSE_AFTER_REPLY CLIENT_CLOSE_ASAP) = true.

Lemma stopped_stops l : stopped l -> must_stop srv l = true.
Proof. intros [H|[H|H]]; unfold must_stop; rewrite H, ?orb_true_r; done. Qed.

Lemma stopped_lor l f : stopped l -> stopped (set_flags l (Z.lor (flags l) f)).
Proof. intros [H|[H|H]]; [left|right; left|right; right]; by rewrite has_flag_lor, H. Qed.

Section execute.
Context {S : Type} (processCommand : S -> client -> S * option client * Z) (gopher : S -> client -> S).

(** What the input side relies on in [processCommand] (server.c:3546): the
    client may be freed, and then [C_OK] is not returned; a client that is left
    keeps its query buffer, does not become a master, and after [C_ERR] is
    being closed (the QUIT command). *)
Definition tame : Prop := forall s c s' oc rc, processCommand s c = (s', oc, rc) ->
  has_flag (ln c) CLIENT_MASTER = false ->
  match oc with
  | None => rc = C_ERR
  | Some c' =>
      querybuf (ps c') = querybuf (ps c) /\ qb_pos (ps c') = qb_pos (ps c) /\
      has_flag (ln c') CLIENT_MASTER = false /\
      (rc = C_OK \/ has_flag (ln c') (Z.lor CLIENT_CLOSE_AFTER_REPLY CLIENT_CLOSE_ASAP) = true)
  end.
Hypothesis Htame : tame.

Record sound (c : client) : Prop := mkSound {
  so_framed : framed (ps c);
  so_master : has_flag (ln c) CLIENT_MASTER = false;
  so_ready : stopped (ln c) \/ ready (ps c) }.

Lemma reset_sound c p : within p (ps c) -> has_flag (ln c) CLIENT_MASTER = false ->
  sound (resetClient c) /\ within p (ps (resetClient c)) /\ left (ps (resetClient c)) = left (ps c).
Proof.
  intros Hw Hm. pose proof (reset_within _ _ Hw) as Hw'. split_and!; [|done|done].
  split; [by destruct Hw'|by apply reset_master|right; left; apply reset_ready].
Qed.

Lemma command_sound s c p : within p (ps c) -> has_flag (ln c) CLIENT_MASTER = false ->
  exists s' oc, processCommandAndResetClient processCommand s c = Done (s', oc) /\
    forall c', oc = Some c' -> sound c' /\ within p (ps c') /\ left (ps c') = left (ps c).
Proof using Htame.
  intros Hw Hnm. unfold processCommandAndResetClient.
  destruct (processCommand s c) as [[s1 [c1|]] rc] eqn:Hpc; pose proof (Htame _ _ _ _ _ Hpc Hnm) as Ht; cbv beta iota in Ht.
  2: { rewrite Ht. by exists s1, None. }
  destruct Ht as (Hq & Hp & Hm & Hrc). eexists _, _. split; [done|]. intros c' [= <-].
  assert (left (ps c1) = left (ps c)) as Hl by (unfold left; congruence).
  assert (within p (ps c1)) as Hw1.
  { destruct Hw as [[] Hb Hlf]. split; [split|..]; unfold left in *; rewrite ?Hq, ?Hp in *; lia. }
  rewrite <- Hl. destruct (Z.eqb_spec rc C_OK) as [->|Hne].
  - unfold commandProcessed. rewrite Hm. cbn [andb]. replace (with_ln c1 (ln c1)) with c1 by by destruct c1.
    destruct (has_flag (ln c1) CLIENT_BLOCKED) eqn:Hbl; cbn [negb orb].
    + destruct (btype (ln c1) =? BLOCKED_MODULE); cbn [negb].
      * rewrite Hm. split_and!; [|done|done]. split; [by destruct Hw1|done|]. left. by left.
      * rewrite (reset_master _ Hm). by apply reset_sound.
    + rewrite (reset_master _ Hm). by apply reset_sound.
  - split_and!; [|done|done]. split; [by destruct Hw1|done|]. left. destruct Hrc as [?|?]; [done|by right; right].
Qed.

(** The choice of the protocol by the first byte. *)
Definition typed (c : client) (first : Z) : client :=
  if reqtype (ps c) =? 0
  then with_ps c (set_reqtype (ps c) (if first =? 42 then PROTO_REQ_MULTIBULK else PROTO_REQ_INLINE))
  else c.

Lemma typed_ready c first : ready (ps c) -> rd (querybuf (ps c)) (qb_pos (ps c)) = Some first ->
  ready (ps (typed c first)) /\ ln (typed c first) = ln c /\
  querybuf (ps (typed c first)) = querybuf (ps c) /\ qb_pos (ps (typed c first)) = qb_pos (ps c) /\
  (reqtype (ps (typed c first)) = PROTO_REQ_INLINE /\ between (ps (typed c first)) \/
   reqtype (ps (typed c first)) = PROTO_REQ_MULTIBULK).
Proof.
  intros Hr Hfirst. unfold typed. destruct Hr as [Hb|[Hm Hin]].
  - pose proof Hb as [H0 Ha Hbl [Ht|[Ht|[Ht Hs]]]]; rewrite Ht; cbn [Z.eqb].
    + assert (between (ps (with_ps c (set_reqtype (ps c)
        (if first =? 42 then PROTO_REQ_MULTIBULK else PROTO_REQ_INLINE))))) as Hb'.
      { constructor; cbn; try done. destruct (Z.eqb_spec first 42) as [->|]; [by right; right|by right; left]. }
      split_and!; [by left|done..|]. cbn. destruct (first =? 42); [by right|by left].
    + split_and!; [by left|done..|by left].
    + split_and!; [by left|done..|by right].
  - pose proof Hin as [Ht _ _ _]. rewrite Ht. cbn [Z.eqb].
    split_and!; [by right|done..|by right].
Qed.

Lemma typed_parses c first : framed (ps c) -> has_flag (ln c) CLIENT_MASTER = false -> ready (ps c) ->
  rd (querybuf (ps c)) (qb_pos (ps c)) = Some first ->
  parses c (let c := typed c first in
    if reqtype (ps c) =? PROTO_REQ_INLINE then processInlineBuffer srv c
    else if reqtype (ps c) =? PROTO_REQ_MULTIBULK then processMultibulkBuffer srv c else Abort).
Proof using Hmax.
  intros Hf Hnm Hr Hfirst. destruct (typed_ready c first Hr Hfirst) as (Hr1 & Hl1 & Hq1 & Hp1 & Ht1). cbv zeta.
  assert (framed (ps (typed c first))) as Hf1 by (destruct Hf; split; rewrite ?Hq1, ?Hp1; done).
  assert (forall r, parses (typed c first) r -> parses c r) as Hsame.
  { intros r (c' & rc & -> & Hnm' & [Hw1 Hw2 Hw3] & Hres). unfold left in *. rewrite Hq1, ?Hp1 in *.
    exists c', rc. split_and!; try done. }
  rewrite <- Hl1 in Hnm. apply Hsame. destruct Ht1 as [[-> Hb]|Ht]; cbn [Z.eqb Pos.eqb].
  - by apply inline_safe.
  - rewrite Ht. cbn [Z.eqb Pos.eqb]. by apply multibulk_safe.
Qed.

Lemma one_sound s c : framed (ps c) -> has_flag (ln c) CLIENT_MASTER = false -> ready (ps c) -> 0 < left (ps c) ->
  exists s' o, process_one processCommand gopher srv s c = Done (s', o) /\
    match o with
    | None => True
    | Some (c', go) => sound c' /\ within (ps c) (ps c') /\ (go = true -> left (ps c') < left (ps c))
    end.
Proof using Hmax Htame.
  intros Hf Hnm Hr Hleft. unfold left in Hleft. pose proof (fr_pos _ Hf).
  destruct (rd_Some (querybuf (ps c)) (qb_pos (ps c))) as (ch & Hch & _); [lia|]. unfold process_one. rewrite Hch.
  destruct (typed_parses c ch Hf Hnm Hr Hch) as (c2 & rc & Hparse & Hnm2 & Hw & Hres).
  unfold typed in Hparse. cbv zeta in Hparse |- *. rewrite Hparse. clear Hparse.
  destruct Hres as [[-> Hlt]|[-> Hrd]]; cbn [Z.eqb negb].
  - destruct (reset_sound _ _ Hw Hnm2) as (Hso & Hrw & Hrl).
    destruct (_ && _ && _ && _); [|destruct (_ =? 0)].
    + eexists _, _. split; [done|]. split_and!; [|done|done]. destruct Hso as [? Hm' ?].
      split; [done| |by right; left; apply reset_ready]. cbn [ln with_ln]. by rewrite has_flag_lor, Hm'.
    + eexists _, _. split; [done|]. split_and!; [done|done|]. intros _. by rewrite Hrl.
    + destruct (has_flag (ln c2) CLIENT_PENDING_READ).
      * eexists _, _. split; [done|]. split_and!; [|done|done]. split; [by destruct Hw| |].
        -- cbn [ln with_ln]. by rewrite has_flag_lor, Hnm2.
        -- left. right; left. cbn [ln with_ln]. rewrite has_flag_lor. by rewrite orb_true_r.
      * destruct (command_sound s c2 _ Hw Hnm2) as (s' & oc & -> & Hoc).
        eexists _, _. split; [done|]. destruct oc as [c1|]; [|done]. cbn.
        destruct (Hoc _ eq_refl) as (Hso' & Hw' & Hl'). split_and!; [done|done|]. intros _. by rewrite Hl'.
  - eexists _, _. split; [done|]. split_and!; [|done|done]. split; [by destruct Hw|done|by right].
Qed.

Lemma trim_sound c : sound c -> sound (trim_to_pos c) /\ within (ps c) (ps (trim_to_pos c)).
Proof.
  intros [Hf Hm Hr]. unfold trim_to_pos. destruct (_ =? 0); cbn [negb]; [by split; [|apply within_refl]|].
  pose proof (drop_within _ Hf) as Hw. split; [|done]. split; [by destruct Hw|done|].
  destruct Hr as [Hs|Hr]; [by left|right]. destruct Hr as [[? ? ? Ht]|[? []]]; [left|by right].
  constructor; try done. cbn. destruct Ht as [?|[?|[? Hs]]]; [by left|by right; left|right; right]. split; [done|].
  unfold rd in *. pose proof (fr_pos _ Hf). rewrite (proj2 (Z.ltb_ge _ _)) in Hs by lia.
  cbn. rewrite lookup_drop, <- Hs. f_equal. lia.
Qed.

Lemma input_sound fuel : forall s c, left (ps c) < Z.of_nat fuel -> sound c ->
  exists s' oc, input_loop processCommand gopher srv fuel s c = Done (s', oc) /\
    forall c', oc = Some c' -> sound c' /\ within (ps c) (ps c').
Proof using Hmax Htame.
  induction fuel as [|fuel IH]; intros s c Hfuel Hso; pose proof Hso as [Hf Hm Hr]; pose proof (fr_pos _ Hf).
  { unfold left in Hfuel. lia. }
  cbn [input_loop]. destruct (_ || _) eqn:Hstop.
  { eexists _, _. split; [done|]. intros c' [= <-]. by apply trim_sound. }
  apply orb_false_elim in Hstop as [Hpos%negb_false_iff%Z.ltb_lt Hstop].
  destruct Hr as [Hst|Hr]; [by rewrite (stopped_stops _ Hst) in Hstop|].
  destruct (one_sound s c Hf Hm Hr) as (s1 & [[c1 go]|] & -> & Hone); [unfold left; lia| |by exists s1, None].
  destruct Hone as (Hso1 & Hw1 & Hlt). destruct go.
  - destruct (IH s1 c1) as (s' & oc & -> & Hoc); [specialize (Hlt eq_refl); lia|done|].
    eexists _, _. split; [done|]. intros c' Hc. destruct (Hoc _ Hc). split; [done|by eapply within_trans].
  - destruct (trim_sound _ Hso1). eexists _, _. split; [done|]. intros c' [= <-]. split; [done|by eapply within_trans].
Qed.

(** The state after appending the bytes read. *)
Lemma append_sound c data l : sound c -> zl (querybuf (ps c)) + zl data < 2 ^ 62 ->
  has_flag l CLIENT_MASTER = false -> (stopped (ln c) -> stopped l) ->
  sound (mkClient (set_buf (ps c) (querybuf (ps c) ++ data) (qb_pos (ps c))) l).
Proof.
  intros [[Hp Hl] Hm Hr] Hlen Hml Hst. split; [split; cbn; rewrite length_app; lia|done|].
  destruct Hr as [Hs|Hr]; [left; by apply Hst|right]. destruct Hr as [[? ? ? Ht]|[? []]]; [left|by right].
  constructor; try done. cbn. destruct Ht as [?|[?|[? Hs]]]; [by left|by right; left|right; right]. split; [done|].
  unfold rd in *. destruct (qb_pos (ps c) <? 0); [done|]. by apply lookup_app_l_Some.
Qed.

Lemma freeAsync_sound c : sound c -> sound (freeClientAsync c).
Proof.
  intros [Hf Hm Hr]. unfold freeClientAsync. destruct (_ || _); [done|]. split; [done| |].
  - cbn [ln with_ln]. by rewrite has_flag_lor, Hm.
  - left. right; right. cbn [ln with_ln]. rewrite has_flag_lor. by rewrite orb_true_r.
Qed.

Lemma read_sound s c data : sound c -> zl (querybuf (ps c)) + zl data < 2 ^ 62 -> zl data <= read_len (ps c) ->
  exists s' oc, readQueryFromClient processCommand gopher srv s c (ReadData data) = Done (s', oc) /\
    forall c', oc = Some c' -> sound c' /\ zl (querybuf (ps c')) <= zl (querybuf (ps c)) + zl data.
Proof using Hmax Htame.
  intros Hso Hlen Hdata. unfold readQueryFromClient, postponeClientRead.
  destruct (_ && _ && _ && _).
  { eexists _, _. split; [done|]. intros c' [= <-]. split; [|cbn; lia]. destruct Hso as [Hf Hm Hr]. split; [done| |].
    - cbn [ln with_ln]. by rewrite has_flag_lor, Hm.
    - destruct Hr as [Hs|Hr]; [left; by apply stopped_lor|by right]. }
  cbn [ps ln with_ln]. rewrite (proj2 (Z.ltb_ge _ _)) by lia. cbv zeta.
  match goal with |- context [mkClient (set_buf _ _ _) ?l] => set (l1 := l) end.
  assert (sound (mkClient (set_buf (ps c) (querybuf (ps c) ++ data) (qb_pos (ps c))) l1)) as Hso1.
  { apply append_sound; [done|done|by destruct Hso|done]. }
  cbn [ps set_buf querybuf]. destruct (_ >? _).
  - eexists _, _. split; [done|]. intros c' [= <-]. split; [by apply freeAsync_sound|].
    unfold freeClientAsync. destruct (_ || _); cbn; rewrite length_app; lia.
  - unfold processInputBuffer. edestruct (input_sound (Datatypes.S (length (querybuf (ps c) ++ data)))) as (s' & oc & Hin & Hoc);
      [|exact Hso1|].
    + unfold left. cbn. destruct Hso as [[] _ _]. lia.
    + cbn [ps set_buf querybuf]. rewrite Hin. eexists _, _. split; [done|]. intros c' Hc. destruct (Hoc _ Hc) as [Hso' Hw']. split; [done|].
      destruct Hw' as [_ Hb _]. cbn in Hb. rewrite length_app in Hb. lia.
Qed.

Lemma connection_sound fuel : forall sizes i s c stream, (length stream <= fuel)%nat -> sound c ->
  zl (querybuf (ps c)) + zl stream < 2 ^ 62 ->
  exists s' oc, connection processCommand gopher srv fuel sizes i s c stream = Done (s', oc) /\
    forall c', oc = Some c' -> sound c'.
Proof using Hmax Htame.
  induction fuel as [|fuel IH]; intros sizes i s c stream Hfuel Hso Hlen.
  { destruct stream; [|simpl in Hfuel; lia]. eexists _, _. split; [done|]. by intros c' [= <-]. }
  destruct stream as [|x stream]; [eexists _, _; split; [done|]; by intros c' [= <-]|]. cbn [connection]. set (n := Nat.min _ _).
  pose proof (read_len_bounds (ps c)) as Hrl. assert (1 <= n)%nat as Hn by lia.
  pose proof (take_drop n (x :: stream)) as Htd. apply (f_equal length) in Htd. rewrite length_app in Htd.
  destruct (read_sound s c (take n (x :: stream))) as (s1 & [c1|] & -> & Hread); [done|lia| | |by exists s1, None].
  { rewrite length_take. lia. }
  destruct (Hread _ eq_refl) as [Hso1 Hl1]. apply IH; [|done|lia]. rewrite length_drop. simpl in *. lia.
Qed.

End execute.
End limits.

(** C18: Whatever bytes a client that is not a master sends, and however the
    network cuts them into reads, the input side of the server handles them to
    the end: no assertion fails, no byte outside the buffer or the argument
    vector is accessed, a client that a command freed is not touched again, and
    one that is left has a well-formed structure.  The bound on bulk lengths is
    at most LLONG_MAX - 2 (above it [bulk_length_overflows]), the buffer and the
    stream together are below 2^62 bytes, and [processCommand] is [tame]: it may
    free the client but then returns C_ERR, and it returns C_ERR with a live
    client only when that is being closed. *)
Theorem input_never_fails {S} (processCommand : S -> client -> S * option client * Z) gopher srv sizes stream s c :
  proto_max_bulk_len srv + 2 <= LLONG_MAX -> tame processCommand -> sound srv c ->
  zl (querybuf (ps c)) + zl stream < 2 ^ 62 ->
  exists s' oc, connection processCommand gopher srv (length stream) sizes 0 s c stream = Done (s', oc) /\
    forall c', oc = Some c' -> sound srv c'.
Proof. intros Hmax Ht Hso Hlen. by apply connection_sound. Qed.

(** A server and a client that connected to it; commands are recorded, "quit"
    closes the connection, and "die" frees the client. *)
Definition server0 : server := mkServer false false false false false false (512 * 1024 * 1024) (1024 * 1024 * 1024) 0.
Definition client0 : client :=
  mkClient (mkParser [] 0 0 0 (-1) [] 0 0) (mkLink 0 0 NoCommand [] 0 0 0 0 0 []).
Definition record_command (s : list (list (list Z))) (c : client) : list (list (list Z)) * option client * Z :=
  if bool_decide (argv (ps c) = [[113; 117; 105; 116]])
  then (s, Some (with_ln c (set_flags (ln c) (Z.lor (flags (ln c)) CLIENT_CLOSE_AFTER_REPLY))), C_ERR)
  else if bool_decide (argv (ps c) = [[100; 105; 101]]) then (s, None, C_ERR)
  else (s ++ [argv (ps c)], Some c, C_OK).

Lemma record_tame : tame record_command.
Proof.
  unfold tame, record_command. intros s c s' oc rc Heq Hm. repeat case_bool_decide; injection Heq as <- <- <-; [..|done|].
  - split_and!; try done; [cbn [ln with_ln]; by rewrite has_flag_lor, Hm|].
    right. cbn [ln with_ln]. rewrite has_flag_lor. by rewrite orb_true_r.
  - split_and!; try done. by left.
Qed.

Lemma client0_sound : sound server0 client0.
Proof. split; [by split|done|right; left]. constructor; try done. by left. Qed.

(** Three bytes at a time: an inline command with a quoted argument, a bulk
    length that is not a number. *)
Lemma input_never_fails_witness :
  exists s' oc, connection record_command (fun s _ => s) server0 20 (fun _ => 2%nat) 0 [] client0
    [103; 32; 34; 97; 34; 10; 42; 50; 13; 10; 36; 49; 13; 10; 120; 13; 10; 36; 122; 13] = Done (s', oc) /\
    forall c', oc = Some c' -> sound server0 c'.
Proof.
  apply (input_never_fails record_command (fun s _ => s) server0 (fun _ => 2%nat)
    [103; 32; 34; 97; 34; 10; 42; 50; 13; 10; 36; 49; 13; 10; 120; 13; 10; 36; 122; 13] [] client0);
    [done|apply record_tame|apply client0_sound|done].
Defined.

(** A freed client: the request after "die" is neither parsed nor executed. *)
Example freed_client_left_alone :
  connection record_command (fun s _ => s) server0 15 (fun _ => 2%nat) 0 [] client0
    [103; 101; 116; 10; 100; 105; 101; 10; 115; 101; 116; 10; 120; 121; 10] = Done ([[[103; 101; 116]]], None).
Proof. by vm_compute. Qed.

(** With the limit on lengths lifted to its maximum the test whether an
    argument has arrived overflows. *)
Lemma bulk_length_overflows :
  let srv := mkServer false false false false false false LLONG_MAX (1024 * 1024 * 1024) 0 in
  let request := [42; 49; 13; 10; 36] ++ decimal LLONG_MAX ++ [13; 10] in
  readQueryFromClient record_command (fun s _ => s) srv [] client0 (ReadData request) = Undef.
Proof. by vm_compute. Qed.

End ProtoSafe.
