(* ===== verification/ProtoFacts.v ===== *)
(** The request parser of [Proto.v] on well-formed input: a stream of requests
    is executed in order whatever its fragmentation. *)

From S2P Require Import Prelude Effects UtilNum SdsArgs Rio Proto ProtoSafe.

#[local] Open Scope Z_scope.

Module ProtoFacts.
Import UtilNum Rio Proto.
#[local] Notation zl l := (Z.of_nat (length l)) (only parsing).

(** ** Lines *)

(** Text that [strchr] passes over. *)
Definition clean (l : list Z) : Prop := (13 : Z) ∉ l /\ (0 : Z) ∉ l.

Lemma find_char_clean L r : clean L -> find_char 13 (L ++ 13 :: r) = Some (length L).
Proof.
  intros [Hc Hn]. induction L as [|x L IH]; [done|]. apply not_elem_of_cons in Hc as [Hx Hc].
  apply not_elem_of_cons in Hn as [Hx0 Hn]. cbn [app find_char length].
  rewrite (proj2 (Z.eqb_neq x 13)), (proj2 (Z.eqb_neq x 0)) by congruence. by rewrite IH.
Qed.

Lemma find_char_absent L : clean L -> find_char 13 L = None.
Proof.
  intros [Hc Hn]. induction L as [|x L IH]; [done|]. apply not_elem_of_cons in Hc as [Hx Hc].
  apply not_elem_of_cons in Hn as [Hx0 Hn]. cbn [find_char].
  rewrite (proj2 (Z.eqb_neq x 13)), (proj2 (Z.eqb_neq x 0)) by congruence. by rewrite IH.
Qed.

Lemma clean_take n L : clean L -> clean (take n L).
Proof.
  intros [Hc Hn]. split; intros (i & Hi & _)%elem_of_take; apply list_elem_of_lookup_2 in Hi; done.
Qed.

(** How much of a line has arrived. *)
Lemma line_cases L b f rest :
  b ++ f = L ++ 13 :: 10 :: rest ->
  (b = take (length b) L /\ (length b <= length L)%nat /\ f <> []) \/
  (b = L ++ [13] /\ f <> []) \/
  (exists b', b = L ++ 13 :: 10 :: b' /\ b' ++ f = rest).
Proof.
  intros Heq. destruct (app_eq_inv b f L _ Heq) as [(k & Hb & Hk)|(k & HL & Hf)].
  - destruct k as [|x [|y k]]; simpl in Hk.
    + left. rewrite app_nil_r in Hb. subst b f. split_and!; [by rewrite firstn_all|done|done].
    + right; left. injection Hk as <- <-. by subst b.
    + right; right. injection Hk as <- <- Hk. exists k. by subst b.
  - left. subst L. split_and!; [by rewrite take_app_length|rewrite length_app; lia|].
    intros ->. symmetry in Hf. by apply app_eq_nil in Hf as [_ ?].
Qed.

Definition count_text (prefix n : Z) : list Z := prefix :: decimal n.

Lemma count_line_text prefix n rest : count_line prefix n ++ rest = count_text prefix n ++ 13 :: 10 :: rest.
Proof. unfold count_line, count_text, crlf. simpl. by rewrite <- app_assoc. Qed.

Lemma count_text_clean prefix n : in_s 64 n -> prefix <> 13 -> prefix <> 0 -> clean (count_text prefix n).
Proof.
  intros Hn H13 H0. split; apply not_elem_of_cons; (split; [congruence|]).
  - intros Hin. pose proof (proj1 (Forall_forall _ _) (decimal_chars n Hn) _ Hin) as Hc.
    unfold dec_char, is_digit, chr_minus, chr0, chr9 in Hc. lia.
  - by apply decimal_nonzero.
Qed.

Lemma count_text_length prefix n : in_s 64 n -> (1 <= length (count_text prefix n) <= 21)%nat.
Proof. intros Hn%length_decimal. simpl. lia. Qed.

(** ** The parser at a position *)

(** The bytes before the position and those after it. *)
Definition at_pos (p : parser) (d b : list Z) : Prop :=
  querybuf p = d ++ b /\ qb_pos p = zl d /\ zl d + zl b < 2 ^ 62.

Lemma strchr_at p d b ch :
  at_pos p d b ->
  strchr (querybuf p) (qb_pos p) ch = Some ((fun i => zl d + Z.of_nat i) <$> find_char ch b).
Proof.
  intros (-> & -> & _). unfold strchr. rewrite length_app.
  rewrite (proj2 (Z.ltb_ge _ _)), (proj2 (Z.ltb_ge _ _)) by lia. cbn [orb].
  by rewrite Nat2Z.id, drop_app_length.
Qed.

Lemma left_at p d b : at_pos p d b -> u64 (zl (querybuf p) - qb_pos p) = zl b.
Proof. intros (-> & -> & Hl). rewrite length_app, uwrap_small by mlia. lia. Qed.

Lemma line_incomplete_at p d b n :
  at_pos p d b -> (1 <= length b)%nat ->
  line_incomplete p (zl d + n) = (zl b - 2 <? n).
Proof.
  intros (Hq & Hp & Hl) Hb. unfold line_incomplete. rewrite Hq, Hp, length_app, Z.gtb_ltb.
  replace (zl d + n - zl d) with n by lia. f_equal.
  rewrite swrap_uwrap, swrap_small by (lia || mlia). lia.
Qed.

Lemma rd_at_pos p d x b : at_pos p d (x :: b) -> rd (querybuf p) (qb_pos p) = Some x.
Proof.
  intros (-> & -> & _). unfold rd. rewrite (proj2 (Z.ltb_ge _ _)) by lia. rewrite Nat2Z.id.
  by rewrite list_lookup_middle.
Qed.

Lemma mread_at_pos p d x t b :
  at_pos p d (x :: t ++ b) -> mread (querybuf p) (qb_pos p + 1) (length t) = Some t.
Proof.
  intros (-> & -> & _). replace (d ++ x :: t ++ b) with ((d ++ [x]) ++ t ++ b) by by rewrite <- app_assoc.
  apply mread_mid; [rewrite length_app; simpl; lia|done].
Qed.

(** A line that has fully arrived. *)
Lemma line_arrived p d L b :
  at_pos p d (L ++ 13 :: 10 :: b) -> clean L ->
  strchr (querybuf p) (qb_pos p) 13 = Some (Some (zl d + zl L)) /\ line_incomplete p (zl d + zl L) = false /\
  at_pos (set_buf p (querybuf p) (zl d + zl L + 2)) (d ++ L ++ [13; 10]) b.
Proof.
  intros Hp HL. rewrite (strchr_at _ _ _ _ Hp), find_char_clean by done. split; [done|].
  pose proof Hp as (Hq & Hpos & Hl). rewrite length_app in Hl. simpl in Hl. split.
  - rewrite (line_incomplete_at _ _ _ _ Hp) by (rewrite length_app; simpl; lia). rewrite length_app. simpl.
    apply Z.ltb_ge. lia.
  - unfold at_pos. cbn [set_buf querybuf qb_pos]. rewrite Hq, !length_app. simpl. rewrite <- !app_assoc.
    split_and!; [done|lia|lia].
Qed.

(** A line that has not: the parser waits for more. *)
Lemma line_waits p d L b f rest :
  at_pos p d b -> clean L -> (1 <= length L)%nat -> b ++ f = L ++ 13 :: 10 :: rest ->
  (f <> [] /\ (length b <= S (length L))%nat /\
   (strchr (querybuf p) (qb_pos p) 13 = Some None \/
    strchr (querybuf p) (qb_pos p) 13 = Some (Some (zl d + zl L)) /\ line_incomplete p (zl d + zl L) = true)) \/
  (exists b', b = L ++ 13 :: 10 :: b' /\ b' ++ f = rest).
Proof.
  intros Hp HL HL1 Heq. destruct (line_cases L b f rest Heq) as [(Hb & Hlen & Hf)|[[-> Hf]|Hb]]; [..|by right]; left.
  - split_and!; [done|lia|]. left. rewrite (strchr_at _ _ _ _ Hp), Hb, find_char_absent; [done|by apply clean_take].
  - split_and!; [done|rewrite length_app; simpl; lia|]. right.
    rewrite (strchr_at _ _ _ _ Hp), find_char_clean by done. split; [done|].
    rewrite (line_incomplete_at _ _ _ _ Hp) by (rewrite length_app; simpl; lia). rewrite length_app. simpl.
    apply Z.ltb_lt. lia.
Qed.

(** ** The pieces of a request *)

Lemma header_spec c d b f n rest :
  at_pos (ps c) d b -> argv (ps c) = [] -> 1 <= n <= 1024 * 1024 ->
  b ++ f = count_line 42 n ++ rest ->
  (mbulk_header c = Done (c, Some C_ERR) /\ f <> [] /\ (length b <= 22)%nat) \/
  (exists p' d' b', mbulk_header c = Done (with_ps c (set_argv (set_multibulklen p' n) [] n 0), None) /\
     at_pos p' d' b' /\ b' ++ f = rest /\ bulklen p' = bulklen (ps c) /\ reqtype p' = reqtype (ps c)).
Proof.
  intros Hp Ha Hn. rewrite count_line_text. intros Heq. assert (in_s 64 n) as Hin by mlia.
  pose proof (count_text_length 42 n Hin) as Hlen.
  assert (clean (count_text 42 n)) as Hcl by by apply count_text_clean.
  unfold mbulk_header. rewrite Ha. cbn [length Z.of_nat Z.eqb negb].
  destruct (line_waits _ _ _ _ _ _ Hp Hcl ltac:(lia) Heq) as [(Hf & Hb & Hw)|(b' & -> & Hf)]; [left|right].
  - split_and!; [|done|lia]. destruct Hw as [->|[-> ->]]; [|done].
    rewrite (left_at _ _ _ Hp), Z.gtb_ltb, (proj2 (Z.ltb_ge _ _)); [done|]. lia.
  - destruct (line_arrived _ _ _ _ Hp Hcl) as (-> & -> & Hp'). eexists _, _, b'. split_and!; [|exact Hp'|done..].
    unfold count_text in Hp. cbn [app] in Hp. rewrite (rd_at_pos _ _ _ _ Hp).
    replace (Z.to_nat _) with (length (decimal n)).
    2: { destruct Hp as (_ & -> & _). unfold count_text. cbn [length]. lia. }
    rewrite (mread_at_pos _ _ _ _ _ Hp). cbn [Z.eqb Pos.eqb negb].
    rewrite (proj2 (string2ll_decimal (decimal n) n)) by done.
    rewrite Z.gtb_ltb, (proj2 (Z.ltb_ge _ _)), (proj2 (Z.leb_gt _ _)) by lia. done.
Qed.

Lemma bulklen_spec srv c d b f (a rest : list Z) :
  at_pos (ps c) d b -> has_flag (ln c) CLIENT_MASTER = false ->
  zl a <= proto_max_bulk_len srv -> zl a < 2 ^ 61 ->
  b ++ f = count_line 36 (zl a) ++ rest ->
  (read_bulklen srv c = Done (c, false) /\ f <> [] /\ (length b <= 22)%nat) \/
  (exists p' d' b', read_bulklen srv c = Done (with_ps c (set_bulklen p' (zl a)), true) /\
     at_pos p' d' b' /\ b' ++ f = rest /\ multibulklen p' = multibulklen (ps c) /\
     reqtype p' = reqtype (ps c) /\ argv p' = argv (ps c) /\ argv_slots p' = argv_slots (ps c)).
Proof.
  intros Hp Hm Hmax Ha. rewrite count_line_text. intros Heq. assert (in_s 64 (zl a)) as Hin by mlia.
  pose proof (count_text_length 36 (zl a) Hin) as Hlen.
  assert (clean (count_text 36 (zl a))) as Hcl by by apply count_text_clean.
  unfold read_bulklen.
  destruct (line_waits _ _ _ _ _ _ Hp Hcl ltac:(lia) Heq) as [(Hf & Hb & Hw)|(b' & -> & Hf)]; [left|right].
  - split_and!; [|done|lia]. destruct Hw as [->|[-> ->]]; [|done].
    rewrite (left_at _ _ _ Hp), Z.gtb_ltb, (proj2 (Z.ltb_ge _ _)); [done|]. lia.
  - destruct (line_arrived _ _ _ _ Hp Hcl) as (-> & -> & Hp').
    unfold count_text in Hp. cbn [app] in Hp. rewrite (rd_at_pos _ _ _ _ Hp). cbn [Z.eqb Pos.eqb negb].
    replace (Z.to_nat _) with (length (decimal (zl a))).
    2: { destruct Hp as (_ & -> & _). unfold count_text. cbn [length]. lia. }
    rewrite (mread_at_pos _ _ _ _ _ Hp), (proj2 (string2ll_decimal (decimal (zl a)) (zl a))) by done.
    rewrite Hm. cbn [negb andb]. rewrite (proj2 (Z.ltb_ge _ _)), Z.gtb_ltb, (proj2 (Z.ltb_ge _ _)) by lia. cbn [orb].
    set (p1 := set_buf _ _ _) in *. destruct (_ && _).
    + rewrite (proj2 (Z.leb_le _ _)) by mlia.
      exists (set_buf p1 b' 0), [], b'. destruct Hp' as (Hq & Hpos & Hl). rewrite Hq, Hpos, Nat2Z.id, drop_app_length.
      split_and!; [done| |done..]. unfold at_pos. cbn [set_buf querybuf qb_pos app length]. split_and!; [done|done|lia].
    + eexists p1, _, b'. by split_and!.
Qed.

Lemma push_arg_spec p a len :
  zl (argv p) < argv_slots p ->
  push_arg p a len = Some (set_argv p (argv p ++ [a]) (argv_slots p) (u64 (argv_len_sum p + len))).
Proof. intros Hs. unfold push_arg. by rewrite (proj2 (Z.ltb_lt _ _)). Qed.

Lemma arg_spec p d b f (a rest : list Z) :
  at_pos p d b -> bulklen p = zl a -> zl (argv p) < argv_slots p -> zl a < 2 ^ 61 ->
  b ++ f = a ++ crlf ++ rest ->
  (read_arg p = Some None /\ f <> [] /\ (length b < length a + 2)%nat) \/
  (exists p' d' b', read_arg p = Some (Some p') /\ at_pos p' d' b' /\ b' ++ f = rest /\
     multibulklen p' = multibulklen p - 1 /\ bulklen p' = -1 /\
     reqtype p' = reqtype p /\ argv p' = argv p ++ [a] /\ argv_slots p' = argv_slots p).
Proof.
  intros Hp Hbl Hs Ha Heq. unfold read_arg. rewrite Hbl, (proj2 (Z.leb_le _ _)) by mlia. cbn [negb].
  rewrite (left_at _ _ _ Hp), (uwrap_small _ (zl a + 2)) by mlia. destruct (Z.ltb_spec (zl b) (zl a + 2)) as [Hlt|Hge].
  - left. split_and!; [done| |lia]. intros ->. rewrite app_nil_r in Heq. subst b.
    rewrite !length_app in Hlt. simpl in Hlt. lia.
  - right. assert (exists b', b = a ++ crlf ++ b' /\ b' ++ f = rest) as (b' & -> & Hf).
    { rewrite app_assoc in Heq. apply app_eq_inv in Heq as [(k & -> & ->)|(k & Hk & Hf)].
      - exists k. by rewrite <- app_assoc.
      - pose proof (f_equal length Hk) as Hlk. rewrite !length_app in Hlk. simpl in Hlk.
        assert (k = []) as -> by (apply nil_length_inv; lia). rewrite app_nil_r in Hk. subst b.
        exists []. split; [by rewrite app_nil_r|done]. }
    pose proof Hp as (Hq & Hpos & Hl).
    destruct (_ && _) eqn:Hbig.
    + rewrite !andb_true_iff in Hbig. destruct Hbig as [[Hp0%Z.eqb_eq _] Hlen%Z.eqb_eq].
      assert (d = []) as -> by (apply nil_length_inv; lia). rewrite Hq in *. cbn [app] in *.
      rewrite !length_app in Hlen. simpl in Hlen.
      assert (b' = []) as -> by (apply nil_length_inv; lia).
      rewrite mread_head by lia. bsimpl. rewrite push_arg_spec by done. bsimpl.
      eexists _, [], []. split_and!; [reflexivity| |done..]. unfold at_pos. cbn [set_buf set_multibulklen set_bulklen set_argv querybuf qb_pos]. rewrite Hpos.
      split_and!; [done|done|by vm_compute].
    + rewrite Hq, Hpos, mread_mid by lia. bsimpl. rewrite push_arg_spec by done. bsimpl.
      eexists _, (d ++ a ++ crlf), b'. split_and!; [reflexivity| |done..].
      unfold at_pos. cbn [set_buf set_multibulklen set_bulklen set_argv querybuf qb_pos]. rewrite ?Hq, ?Hpos.
      rewrite !length_app in *. unfold crlf in *. simpl in *. rewrite <- !app_assoc. split_and!; [done|lia|lia].
Qed.

(** ** Requests *)

(** A request as clients and the append-only file write it. *)
Definition request (args : list (list Z)) : list Z := count_line 42 (zl args) ++ concat (bulk <$> args).
Definition encode (cmds : list (list (list Z))) : list Z := concat (request <$> cmds).

Section stream.
Context (srv : server) (B : nat).

(** The limits an argument has to respect; [B] bounds what the buffer has to
    hold before it is complete. *)
Definition arg_fits (a : list Z) : Prop :=
  zl a <= proto_max_bulk_len srv /\ zl a < 2 ^ 61 /\ (length a + 2 <= B)%nat.
Hypothesis HB : (22 <= B)%nat.

(** The parser is inside a request of which [args] are missing. *)
Record in_args (p : parser) (args : list (list Z)) : Prop := mkInArgs {
  ia_type : reqtype p = PROTO_REQ_MULTIBULK;
  ia_some : args <> [];
  ia_left : multibulklen p = zl args;
  ia_slots : argv_slots p = zl (argv p) + zl args }.

(** What is still to come of them. *)
Definition args_left (p : parser) (args : list (list Z)) (after rest : list Z) : Prop :=
  bulklen p = -1 /\ rest = concat (bulk <$> args) ++ after \/
  exists a args', args = a :: args' /\ bulklen p = zl a /\ rest = a ++ crlf ++ concat (bulk <$> args') ++ after.

(** The result of the loop over the arguments. *)
Definition loop_result (c : client) (args : list (list Z)) (after f : list Z) (r : outcome (client * Z)) : Prop :=
  exists c' rc d' b', r = Done (c', rc) /\ ln c' = ln c /\ at_pos (ps c') d' b' /\
    (rc = C_OK /\ b' ++ f = after /\ multibulklen (ps c') = 0 /\ bulklen (ps c') = -1 /\
       argv (ps c') = argv (ps c) ++ args /\ reqtype (ps c') = PROTO_REQ_MULTIBULK \/
     rc = C_ERR /\ f <> [] /\ (length b' <= B)%nat /\
       exists args', in_args (ps c') args' /\ args_left (ps c') args' after (b' ++ f) /\
         argv (ps c') ++ args' = argv (ps c) ++ args).

Lemma loop_spec args : forall fuel c d b f after rest,
  (length args < fuel)%nat -> at_pos (ps c) d b -> b ++ f = rest ->
  has_flag (ln c) CLIENT_MASTER = false -> Forall arg_fits args ->
  in_args (ps c) args -> args_left (ps c) args after rest ->
  loop_result c args after f (mbulk_loop fuel srv c).
Proof using HB.
  induction args as [|a args IH]; intros fuel c d b f after rest Hfuel Hp Hf Hm Hfit Hin Hleft; [by destruct Hin|].
  destruct fuel as [|fuel]; [simpl in Hfuel; lia|]. cbn [mbulk_loop].
  apply Forall_cons in Hfit as [(Hmax & Ha & HaB) Hfit].
  pose proof Hin as [Ht _ Hl Hs]. rewrite Hl. rewrite (proj2 (Z.eqb_neq _ _)) by (cbn [length]; lia).
  (* once the length is known *)
  assert (forall p d b, at_pos p d b -> b ++ f = a ++ crlf ++ concat (bulk <$> args) ++ after ->
    bulklen p = zl a -> in_args p (a :: args) -> argv p = argv (ps c) ->
    loop_result c (a :: args) after f
      match read_arg p with
      | None => Undef
      | Some None => Done (with_ps c p, C_ERR)
      | Some (Some p) => mbulk_loop fuel srv (with_ps c p)
      end) as Harg.
  { clear d b Hp Hf Hleft. intros p d b Hp Hf Hbl Hi Hav.
    destruct (arg_spec p d b f a (concat (bulk <$> args) ++ after) Hp Hbl) as [(-> & Hf' & Hb)|(p' & d' & b' & -> & Hp' & Hf' & Hml & Hbl' & Ht' & Hav' & Hs')];
      [destruct Hi as [_ _ _ ->]; cbn [length]; lia|done|done| |].
    - eexists _, _, d, b. split_and!; [done|done|done|]. right. split_and!; [done|done|lia|].
      exists (a :: args). split_and!; [done| |by rewrite <- Hav]. right. exists a, args. by rewrite Hf.
    - cbn [ps with_ps] in *. destruct args as [|a' args].
      + exists (with_ps c p'), C_OK, d', b'. destruct fuel; [simpl in Hfuel; lia|]. cbn [mbulk_loop with_ps ps].
        destruct Hi as [Hit _ Hil _]. rewrite Hml, Hil. cbn [length Z.of_nat Z.sub Z.opp Z.add Z.pos_sub Pos.of_succ_nat Z.eqb].
        split_and!; [done|done|done|]. left. cbn [with_ps ps]. split_and!; [done|done|done|done|by rewrite Hav', Hav|congruence].
      + destruct Hi as [Hit _ Hil His].
        destruct (IH fuel (with_ps c p') d' b' f after (b' ++ f)) as (c2 & rc & d2 & b2 & He & Hln & Hp2 & Hr); try done.
        * simpl in *. lia.
        * constructor; cbn [with_ps ps]; [congruence|done|rewrite Hml, Hil; cbn [length]; lia|].
          rewrite Hs', His, Hav', length_app. cbn [length]. lia.
        * left. split; [done|]. by rewrite Hf'.
        * exists c2, rc, d2, b2. split_and!; [done|done|done|]. cbn [with_ps ps] in Hr. rewrite Hav', Hav in Hr.
          destruct Hr as [(?&?&?&?&Hav2&?)|(?&?&?&args2&?&?&Hav2)]; [left|right].
          -- split_and!; try done. by rewrite Hav2, <- app_assoc.
          -- split_and!; try done. exists args2. split_and!; try done. by rewrite Hav2, <- app_assoc. }
  destruct Hleft as [[Hbl ->]|(a' & args' & [= <- <-] & Hbl & ->)].
  - rewrite Hbl. cbn [Z.eqb Pos.eqb]. cbn [fmap list_fmap concat] in Hf. unfold bulk at 1 in Hf. rewrite <- !app_assoc in Hf.
    destruct (bulklen_spec srv c d b f a _ Hp Hm Hmax Ha Hf)
      as [(-> & Hf' & Hb)|(p' & d' & b' & -> & Hp' & Hf' & Hml & Ht' & Hav & Hs')].
    + eexists _, _, d, b. split_and!; [done|done|done|]. right. split_and!; [done|done|lia|].
      exists (a :: args). split_and!; [done| |done]. left. split; [done|]. rewrite Hf. cbn [fmap list_fmap concat].
      unfold bulk at 2. by rewrite <- !app_assoc.
    + apply (Harg (set_bulklen p' (zl a)) d' b'); try done. constructor; cbn [set_bulklen reqtype multibulklen argv_slots argv]; congruence.
  - rewrite Hbl, (proj2 (Z.eqb_neq _ _)) by lia. destruct c as [p l]. by apply (Harg p d b).
Qed.

Definition cmd_fits (args : list (list Z)) : Prop :=
  args <> [] /\ zl args <= 1024 * 1024 /\ Forall arg_fits args.

(** The parser, idle or inside a request, is to execute [cmds] on [rest]. *)
Definition awaits (p : parser) (cmds : list (list (list Z))) (rest : list Z) : Prop :=
  (multibulklen p = 0 /\ bulklen p = -1 /\ argv p = [] /\ (reqtype p = 0 \/ reqtype p = PROTO_REQ_MULTIBULK) /\
   rest = encode cmds) \/
  (exists args cmds', in_args p args /\ args_left p args (encode cmds') rest /\
     cmds = (argv p ++ args) :: cmds' /\ Forall arg_fits args).

Lemma multibulk_spec c d b f args cmds :
  at_pos (ps c) d b -> awaits (ps c) (args :: cmds) (b ++ f) -> reqtype (ps c) = PROTO_REQ_MULTIBULK ->
  cmd_fits args -> has_flag (ln c) CLIENT_MASTER = false ->
  exists c' rc d' b', processMultibulkBuffer srv c = Done (c', rc) /\ ln c' = ln c /\ at_pos (ps c') d' b' /\
    (rc = C_OK /\ b' ++ f = encode cmds /\ multibulklen (ps c') = 0 /\ bulklen (ps c') = -1 /\
       argv (ps c') = args /\ reqtype (ps c') = PROTO_REQ_MULTIBULK \/
     rc = C_ERR /\ f <> [] /\ (length b' <= B)%nat /\ awaits (ps c') (args :: cmds) (b' ++ f)).
Proof using HB.
  intros Hp Hw Ht (Hne & Hmax & Hfit) Hm. unfold processMultibulkBuffer.
  assert (forall c1 d1 b1 args1, at_pos (ps c1) d1 b1 -> in_args (ps c1) args1 ->
    args_left (ps c1) args1 (encode cmds) (b1 ++ f) -> argv (ps c1) ++ args1 = args -> Forall arg_fits args1 -> ln c1 = ln c ->
    exists c' rc d' b', (if multibulklen (ps c1) >? 0
        then mbulk_loop (S (Z.to_nat (multibulklen (ps c1)))) srv c1 else Abort) = Done (c', rc) /\
      ln c' = ln c /\ at_pos (ps c') d' b' /\
      (rc = C_OK /\ b' ++ f = encode cmds /\ multibulklen (ps c') = 0 /\ bulklen (ps c') = -1 /\
         argv (ps c') = args /\ reqtype (ps c') = PROTO_REQ_MULTIBULK \/
       rc = C_ERR /\ f <> [] /\ (length b' <= B)%nat /\ awaits (ps c') (args :: cmds) (b' ++ f))) as Hloop.
  { intros c1 d1 b1 args1 Hp1 Hin1 Hl1 Hav1 Hfit1 Hln1. pose proof Hin1 as [_ Hsome1 Hml1 _].
    destruct args1 as [|a1 args1]; [done|]. rewrite Hml1. rewrite Z.gtb_ltb, (proj2 (Z.ltb_lt _ _)) by (cbn [length]; lia).
    destruct (loop_spec (a1 :: args1) (S (Z.to_nat (zl (a1 :: args1)))) c1 d1 b1 f (encode cmds) (b1 ++ f))
      as (c' & rc & d' & b' & -> & Hln & Hp' & Hr); try done; [lia|by rewrite Hln1|].
    exists c', rc, d', b'. split_and!; [done|congruence|done|].
    destruct Hr as [(-> & ? & ? & ? & Hav & ?)|(-> & ? & ? & args2 & Hin2 & Hl2 & Hav2)]; [left|right].
    - split_and!; try done. congruence.
    - split_and!; try done. right. exists args2, cmds. split_and!; [done|done|by rewrite Hav2, Hav1|].
      rewrite <- Hav1, <- Hav2 in Hfit. apply Forall_app in Hfit. tauto. }
  destruct Hw as [(Hml & Hbl & Hav & _ & Hrest)|(args1 & cmds1 & Hin1 & Hl1 & [= Hav1 <-] & Hfit1)].
  - rewrite Hml. cbn [Z.eqb]. cbn [encode fmap list_fmap concat] in Hrest. unfold request at 1 in Hrest.
    rewrite <- app_assoc in Hrest. assert (1 <= zl args) as H1 by (destruct args; [done|cbn [length]; lia]).
    destruct (header_spec c d b f (zl args) _ Hp Hav ltac:(lia) Hrest)
      as [(-> & Hf & Hb)|(p' & d' & b' & -> & Hp' & Hf & Hbl' & Ht')].
    + exists c, C_ERR, d, b. split_and!; [done..|]. right. split_and!; [done|done|lia|]. left.
      split_and!; [done..|by right|]. rewrite Hrest. cbn [encode fmap list_fmap concat]. unfold request at 2.
      by rewrite <- app_assoc.
    + apply (Hloop (with_ps c (set_argv (set_multibulklen p' (zl args)) [] (zl args) 0)) d' b' args); try done.
      * constructor; cbn; [congruence|done|done|lia].
      * left. split; [cbn; congruence|]. done.
  - pose proof Hin1 as [_ Hs1 Hml1 _]. rewrite Hml1. destruct args1 as [|a1 args1]; [done|].
    rewrite (proj2 (Z.eqb_neq _ _)) by (cbn [length]; lia). by apply (Hloop c d b (a1 :: args1)).
Qed.

(** A request takes bytes. *)
Lemma request_length args : (1 <= length (request args))%nat.
Proof. clear HB. unfold request, count_line. simpl. lia. Qed.

Lemma awaits_longer p args cmds rest : awaits p (args :: cmds) rest -> (length (encode cmds) < length rest)%nat.
Proof.
  clear HB.
  intros [(_ & _ & _ & _ & ->)|(args1 & cmds1 & [_ Hs _ _] & Hl & [= _ <-] & _)].
  - cbn [encode fmap list_fmap concat]. rewrite length_app. pose proof (request_length args). unfold encode in *. lia.
  - destruct Hl as [[_ ->]|(a & args' & _ & _ & ->)].
    + destruct args1 as [|a args1]; [done|]. cbn [fmap list_fmap concat]. rewrite !length_app.
      unfold bulk, count_line. simpl. lia.
    + rewrite !length_app. simpl. lia.
Qed.

Lemma awaits_none p rest : awaits p [] rest -> rest = [].
Proof. intros [(_ & _ & _ & _ & ->)|(? & ? & _ & _ & [=] & _)]. done. Qed.

(** ** The loop over requests, for a client without flags *)

Section execute.
Context {S : Type} (exec : S -> list (list Z) -> S) (gopher : S -> client -> S).
Hypothesis Hpaused : paused srv = false.

(** An instance of [processCommand] for commands that leave the client as it
    is: [exec] on the rest of the server. *)
Definition run_command (s : S) (c : client) : S * option client * Z := (exec s (argv (ps c)), Some c, C_OK).

(** No flag is set, and the errors [e] were sent. *)
Definition plain (l : link) (e : list proto_error) : Prop := flags l = 0 /\ errors l = e.

Lemma plain_flag l e f : plain l e -> has_flag l f = false.
Proof. intros [Hf _]. unfold has_flag. by rewrite Hf. Qed.

Lemma plain_goes_on l e : plain l e -> must_stop srv l = false.
Proof using Hpaused.
  intros H. unfold must_stop. rewrite Hpaused, !(plain_flag _ _ _ H), !andb_false_r. done.
Qed.

Lemma processed_plain c e : plain (ln c) e ->
  commandProcessed c = resetClient c /\ plain (ln (resetClient c)) e.
Proof.
  intros H. pose proof H as [Hf He]. unfold commandProcessed. rewrite !(plain_flag _ _ _ H). cbn [andb negb orb].
  replace (with_ln c (ln c)) with c by by destruct c.
  assert (plain (ln (resetClient c)) e) as Hr.
  { destruct c as [p [fl bt cm pq pk ro rl at_ li er]]. cbn in Hf, He. subst fl er. by destruct cm. }
  by rewrite (plain_flag _ _ _ Hr).
Qed.

Lemma trim_at c d b : at_pos (ps c) d b ->
  ln (trim_to_pos c) = ln c /\ at_pos (ps (trim_to_pos c)) [] b /\
  (forall cmds rest, awaits (ps c) cmds rest -> awaits (ps (trim_to_pos c)) cmds rest).
Proof.
  clear HB. intros (Hq & Hpos & Hlen). unfold trim_to_pos. destruct (Z.eqb_spec (qb_pos (ps c)) 0) as [H0|H0]; cbn [negb].
  - split_and!; [done| |done]. destruct d as [|x d]; [|cbn [length] in *; lia]. done.
  - split_and!; [done| |].
    + split_and!; cbn [length]; [|done|lia]. cbn. by rewrite Hq, Hpos, Nat2Z.id, drop_app_length.
    + intros cmds rest [H|(args & cmds' & [] & ?)]; [by left|right]. exists args, cmds'. by split.
Qed.

(** The type of a request is chosen by its first byte. *)
Lemma awaits_type c args cmds rest x b :
  awaits (ps c) (args :: cmds) rest -> rest = x :: b ->
  reqtype (ps c) = 0 /\ x = 42 \/ reqtype (ps c) = PROTO_REQ_MULTIBULK.
Proof.
  intros [(_ & _ & _ & [Ht|Ht] & Hr)|(? & ? & [Ht _ _ _] & _)] ->; [left|by right|by right].
  split; [done|]. by injection Hr.
Qed.

Lemma one_spec s c d b f args cmds e :
  at_pos (ps c) d b -> b <> [] -> awaits (ps c) (args :: cmds) (b ++ f) -> cmd_fits args -> plain (ln c) e ->
  exists c' d' b', at_pos (ps c') d' b' /\ plain (ln c') e /\
    (process_one run_command gopher srv s c = Done (exec s args, Some (c', true)) /\
       awaits (ps c') cmds (b' ++ f) /\ (length b' < length b)%nat \/
     process_one run_command gopher srv s c = Done (s, Some (c', false)) /\
       f <> [] /\ (length b' <= B)%nat /\ awaits (ps c') (args :: cmds) (b' ++ f)).
Proof using HB.
  intros Hp Hb Hw Hfit Hpl. destruct b as [|x b]; [done|]. unfold process_one. rewrite (rd_at_pos _ _ _ _ Hp).
  set (c1 := if reqtype (ps c) =? 0 then _ else c).
  assert (at_pos (ps c1) d (x :: b) /\ awaits (ps c1) (args :: cmds) ((x :: b) ++ f) /\
    reqtype (ps c1) = PROTO_REQ_MULTIBULK /\ ln c1 = ln c) as (Hp1 & Hw1 & Ht1 & Hl1).
  { subst c1. destruct (awaits_type _ _ _ _ x (b ++ f) Hw eq_refl) as [[Ht ->]|Ht]; rewrite Ht; cbn; [|done].
    split_and!; [done| |done|done]. destruct Hw as [(? & ? & ? & _ & ?)|(? & ? & [Ht' _ _ _] & _)]; [|by rewrite Ht in Ht'].
    left. cbn. by split_and!; [..|right|]. }
  rewrite Ht1. cbn [Z.eqb Pos.eqb].
  destruct (multibulk_spec c1 d (x :: b) f args cmds) as (c2 & rc & d2 & b2 & -> & Hl2 & Hp2 & Hr); try done.
  { rewrite Hl1. by eapply plain_flag. }
  assert (plain (ln c2) e) as Hpl2 by (by rewrite Hl2, Hl1).
  destruct Hr as [(-> & Hb2 & Hml & Hbl & Hav & Ht2)|(-> & Hf & HbB & Hw2)]; cbn [Z.eqb negb].
  - destruct (processed_plain c2 e Hpl2) as [Hcp Hpl3]. exists (resetClient c2), d2, b2.
    split_and!; [done|done|]. left. rewrite Ht2. cbn [Z.eqb Pos.eqb andb].
    destruct Hfit as (Hne & _). rewrite Hav, (proj2 (Z.eqb_neq _ _)) by (destruct args; [done|cbn [length]; lia]).
    rewrite (plain_flag _ _ _ Hpl2). unfold processCommandAndResetClient, run_command. rewrite Hav.
    cbn [Z.eqb]. rewrite Hcp. split_and!; [done|left; cbn; split_and!; try done; by left|].
    pose proof (awaits_longer _ _ _ _ Hw) as Hlt. rewrite <- Hb2, !length_app in Hlt. lia.
  - exists c2, d2, b2. split_and!; [done|done|]. right. by split_and!.
Qed.

Lemma input_spec fuel : forall s c d b f cmds e,
  (length b < fuel)%nat -> at_pos (ps c) d b -> awaits (ps c) cmds (b ++ f) -> Forall cmd_fits cmds ->
  plain (ln c) e ->
  exists c' b' ran todo, input_loop run_command gopher srv fuel s c = Done (fold_left exec ran s, Some c') /\
    cmds = ran ++ todo /\ at_pos (ps c') [] b' /\ (length b' <= B)%nat /\ awaits (ps c') todo (b' ++ f) /\
    plain (ln c') e /\ (f = [] -> todo = []).
Proof using HB Hpaused.
  induction fuel as [|fuel IH]; intros s c d b f cmds e Hfuel Hp Hw Hfit Hpl; [lia|]. cbn [input_loop].
  assert ((qb_pos (ps c) <? zl (querybuf (ps c))) = negb (bool_decide (b = []))) as ->.
  { destruct Hp as (-> & -> & _). rewrite length_app. destruct b; cbn [length]; apply Z.ltb_lt || apply Z.ltb_ge; lia. }
  rewrite negb_involutive, (plain_goes_on _ _ Hpl), orb_false_r.
  destruct (trim_at _ _ _ Hp) as (Hl & Hpt & Hwt). case_bool_decide as Hb.
  { subst b. exists (trim_to_pos c), [], [], cmds. split_and!; try done; [simpl; lia|by apply Hwt|by rewrite Hl|].
    intros ->. destruct cmds; [done|]. by apply awaits_longer, Nat.nlt_0_r in Hw. }
  destruct cmds as [|args cmds].
  { apply awaits_none, app_eq_nil in Hw. tauto. }
  apply Forall_cons in Hfit as [Hfit Hfits].
  destruct (one_spec s c d b f args cmds e) as (c' & d' & b' & Hp' & Hpl' & [(-> & Hw' & Hlt)|(-> & Hf & HbB & Hw')]); try done.
  - destruct (IH (exec s args) c' d' b' f cmds e) as (c2 & b2 & ran & todo & -> & -> & ?); try done; [lia|].
    by exists c2, b2, (args :: ran), todo.
  - destruct (trim_at _ _ _ Hp') as (Hl' & Hpt' & Hwt'). exists (trim_to_pos c'), b', [], (args :: cmds).
    split_and!; try done; [by apply Hwt'|by rewrite Hl'].
Qed.

(** ** Reads of any size *)

Hypothesis Hthreads : io_threads_active srv = false.
Hypothesis Hroom : Z.of_nat B + PROTO_IOBUF_LEN <= client_max_querybuf_len srv < 2 ^ 62.

Lemma read_spec s c b data f cmds e :
  at_pos (ps c) [] b -> (length b <= B)%nat -> zl data <= read_len (ps c) ->
  awaits (ps c) cmds (b ++ data ++ f) -> Forall cmd_fits cmds -> plain (ln c) e ->
  exists c' b' ran todo,
    readQueryFromClient run_command gopher srv s c (ReadData data) = Done (fold_left exec ran s, Some c') /\
    cmds = ran ++ todo /\ at_pos (ps c') [] b' /\ (length b' <= B)%nat /\ awaits (ps c') todo (b' ++ f) /\
    plain (ln c') e /\ (f = [] -> todo = []).
Proof using HB Hpaused Hthreads Hroom.
  intros (Hq & Hpos & Hlen) HbB Hdata Hw Hfit Hpl. pose proof (ProtoSafe.read_len_bounds (ps c)) as [_ Hrl].
  unfold readQueryFromClient, postponeClientRead. rewrite Hthreads. cbn [andb ps with_ln].
  rewrite (proj2 (Z.ltb_ge _ _)) by lia. cbn [ps set_buf querybuf qb_pos]. simpl in Hq.
  rewrite Hq, Z.gtb_ltb, (proj2 (Z.ltb_ge _ _)) by (rewrite length_app; lia).
  unfold processInputBuffer. cbn [ps set_buf querybuf].
  apply (input_spec _ _ _ [] (b ++ data) f cmds e); [lia| | |done|].
  - split_and!; cbn [ps set_buf querybuf qb_pos length]; [done|done|rewrite length_app; lia].
  - rewrite <- app_assoc. destruct Hw as [Hw|(args & cmds' & [] & ?)]; [by left|right].
    exists args, cmds'. by split.
  - destruct Hpl. by split.
Qed.

Lemma connection_spec fuel : forall sizes i s c b stream cmds e,
  (length stream <= fuel)%nat -> at_pos (ps c) [] b -> (length b <= B)%nat ->
  awaits (ps c) cmds (b ++ stream) -> Forall cmd_fits cmds -> plain (ln c) e -> (stream = [] -> cmds = []) ->
  exists c', connection run_command gopher srv fuel sizes i s c stream = Done (fold_left exec cmds s, Some c') /\
    at_pos (ps c') [] [] /\ awaits (ps c') [] [] /\ plain (ln c') e.
Proof using HB Hpaused Hthreads Hroom.
  induction fuel as [|fuel IH]; intros sizes i s c b stream cmds e Hfuel Hp HbB Hw Hfit Hpl Hend.
  - destruct stream; [|simpl in Hfuel; lia]. rewrite (Hend eq_refl), app_nil_r in *.
    pose proof (awaits_none _ _ Hw) as ->. by exists c.
  - destruct stream as [|x stream].
    { rewrite (Hend eq_refl), app_nil_r in *. pose proof (awaits_none _ _ Hw) as ->. by exists c. }
    cbn [connection]. set (n := Nat.min _ _). pose proof (ProtoSafe.read_len_bounds (ps c)) as Hrl.
    assert (1 <= n)%nat as Hn by lia.
    destruct (read_spec s c b (take n (x :: stream)) (drop n (x :: stream)) cmds e)
      as (c' & b' & ran & todo & -> & -> & Hp' & HbB' & Hw' & Hpl' & Hend'); try done.
    { rewrite length_take. lia. }
    { by rewrite take_drop. }
    rewrite fold_left_app. apply IH with (b := b'); try done.
    + rewrite length_drop. simpl in *. lia.
    + by apply Forall_app in Hfit as [_ ?].
Qed.

End execute.
End stream.

(** A client between requests. *)
Record idle (c : client) : Prop := mkIdle {
  idle_flags : flags (ln c) = 0;
  idle_buf : querybuf (ps c) = [];
  idle_pos : qb_pos (ps c) = 0;
  idle_type : reqtype (ps c) = 0 \/ reqtype (ps c) = PROTO_REQ_MULTIBULK;
  idle_multibulk : multibulklen (ps c) = 0;
  idle_bulk : bulklen (ps c) = -1;
  idle_argv : argv (ps c) = [] }.

(** C6: A stream of requests is executed request by request, in order, however
    the network cuts it into reads: the commands run are the ones encoded, no
    error is sent, and the client is idle again at the end.  The requests are
    within the limits of the protocol, the client is not paused and has no
    flags set, there are no I/O threads, and commands leave the client as it
    is. *)
Theorem requests_any_fragmentation {S} (exec : S -> list (list Z) -> S) gopher srv B sizes cmds s c :
  (22 <= B)%nat -> paused srv = false -> io_threads_active srv = false ->
  Z.of_nat B + PROTO_IOBUF_LEN <= client_max_querybuf_len srv < 2 ^ 62 ->
  Forall (cmd_fits srv B) cmds -> idle c ->
  exists c', connection (run_command exec) gopher srv (length (encode cmds)) sizes 0 s c (encode cmds) =
      Done (fold_left exec cmds s, Some c') /\
    idle c' /\ errors (ln c') = errors (ln c).
Proof.
  intros HB Hpa Hth Hroom Hfit [].
  destruct (connection_spec srv B HB exec gopher Hpa Hth Hroom (length (encode cmds)) sizes 0 s c []
    (encode cmds) cmds (errors (ln c))) as (c' & Hrun & (Hq & Hpos & _) & Hw & Hpl & He); try done.
  - simpl. lia.
  - left. split_and!; try done.
  - intros Hnil. destruct cmds as [|args cmds]; [done|].
    assert (awaits srv B (ps c) (args :: cmds) []) as Hl%awaits_longer by (left; split_and!; done). simpl in Hl. lia.
  - exists c'. split_and!; [done| |done]. destruct Hw as [(? & ? & ? & ? & _)|(? & ? & _ & _ & [=] & _)].
    by constructor.
Qed.

(** "SET k v" and "GET k", one byte at a time. *)
Lemma requests_any_fragmentation_witness :
  let cmds := [[[83; 69; 84]; [107]; [118]]; [[71; 69; 84]; [107]]] in
  exists c', connection (run_command (fun s a => s ++ [a])) (fun s _ => s) ProtoSafe.server0 (length (encode cmds))
      (fun _ => 0%nat) 0 [] ProtoSafe.client0 (encode cmds) = Done (cmds, Some c') /\
    idle c' /\ errors (ln c') = [].
Proof.
  intros cmds.
  apply (requests_any_fragmentation (fun s a => s ++ [a]) (fun s _ => s) ProtoSafe.server0 100 (fun _ => 0%nat)
    cmds [] ProtoSafe.client0); [lia|done|done|by vm_compute| |by constructor; [..|left| | |]].
  repeat first [apply Forall_nil_2|apply Forall_cons_2]; (split_and!; [done|cbn; lia|]);
    repeat first [apply Forall_nil_2|apply Forall_cons_2]; split_and!; cbn; lia.
Defined.

End ProtoFacts.
