(* ===== verification/Rdb.v ===== *)
(** Model of the string layer of [rdb.c], the snapshot format: lengths,
    integers and strings, raw or LZF-compressed, written to and read from a
    [rio] stream; loading creates objects on the heap of [Object.v].

    The result -1 or NULL of an I/O error is a value; [rdbExitReportCorruptRDB]
    and an allocation that the memory cannot satisfy stop the server. *)

From S2P Require Import Prelude Effects UtilNum Endian Lzf Sds Object Rio.

#[local] Open Scope Z_scope.

Module Rdb.
Import UtilNum Endian Rio.

Abbreviation RDB_6BITLEN := 0 (only parsing).
Abbreviation RDB_14BITLEN := 1 (only parsing).
Abbreviation RDB_32BITLEN := 0x80 (only parsing).
Abbreviation RDB_64BITLEN := 0x81 (only parsing).
Abbreviation RDB_ENCVAL := 3 (only parsing).
Abbreviation RDB_LENERR := ULLONG_MAX (only parsing).
Abbreviation RDB_ENC_INT8 := 0 (only parsing).
Abbreviation RDB_ENC_INT16 := 1 (only parsing).
Abbreviation RDB_ENC_INT32 := 2 (only parsing).
Abbreviation RDB_ENC_LZF := 3 (only parsing).
Abbreviation RDB_LOAD_NONE := 0 (only parsing).
Abbreviation RDB_LOAD_ENC := (Z.shiftl 1 0) (only parsing).
Abbreviation RDB_LOAD_PLAIN := (Z.shiftl 1 1) (only parsing).
Abbreviation RDB_LOAD_SDS := (Z.shiftl 1 2) (only parsing).
Definition UINT32_MAX : Z := 4294967295.
Definition LONG_STR_SIZE : Z := 21.

(** [htonl] and [ntohl] on a little-endian machine. *)
Definition htonl (v : Z) : option Z := intrev32 (u32 v).

(** ** Writing *)

Section save.
Context {B : Type} `{RioIO B}.

(** The stream written to; with NULL only the size is computed. *)
Abbreviation W := (st (option (rio B))).

Definition rdbWriteRaw (p : list Z) : W Z := fun rdb =>
  match rdb with
  | None => Done (None, Z.of_nat (length p))
  | Some r =>
      match rioWrite p r with
      | Done (r, n) => Done (Some r, if n =? 0 then -1 else Z.of_nat (length p))
      | Abort => Abort
      | Undef => Undef
      end
  end.

(** [if (e == -1) return -1;] *)
Definition or_fail (e : W Z) (k : Z -> W Z) : W Z := n ← e; if n =? -1 then mret (-1) else k n.

Definition rdbSaveType (type : Z) : W Z := rdbWriteRaw [u8 type].

Definition rdbSaveMillisecondTime (t : Z) : W Z := rdbWriteRaw (le_encode 8 t).

Definition rdbSaveLen (len : Z) : W Z :=
  if len <? Z.shiftl 1 6 then
    or_fail (rdbWriteRaw [u8 (Z.lor (Z.land len 0xFF) (Z.shiftl RDB_6BITLEN 6))]) (fun _ => mret 1)
  else if len <? Z.shiftl 1 14 then
    or_fail (rdbWriteRaw [u8 (Z.lor (Z.land (Z.shiftr len 8) 0xFF) (Z.shiftl RDB_14BITLEN 6)); u8 (Z.land len 0xFF)]) (fun _ => mret 2)
  else if len <=? UINT32_MAX then
    or_fail (rdbWriteRaw [RDB_32BITLEN]) (fun _ =>
    len32 ← lift (htonl len);
    or_fail (rdbWriteRaw (le_encode 4 len32)) (fun _ => mret (1 + 4)))
  else
    or_fail (rdbWriteRaw [RDB_64BITLEN]) (fun _ =>
    len ← lift (htonu64 len);
    or_fail (rdbWriteRaw (le_encode 8 len)) (fun _ => mret (1 + 8))).

(** The bytes stored in [enc]; none is the result 0. *)
Definition rdbEncodeInteger (value : Z) : list Z :=
  if (value >=? - Z.shiftl 1 7) && (value <=? Z.shiftl 1 7 - 1) then
    [u8 (Z.lor (Z.shiftl RDB_ENCVAL 6) RDB_ENC_INT8); Z.land value 0xFF]
  else if (value >=? - Z.shiftl 1 15) && (value <=? Z.shiftl 1 15 - 1) then
    [u8 (Z.lor (Z.shiftl RDB_ENCVAL 6) RDB_ENC_INT16); Z.land value 0xFF; Z.land (Z.shiftr value 8) 0xFF]
  else if (value >=? - Z.shiftl 1 31) && (value <=? Z.shiftl 1 31 - 1) then
    [u8 (Z.lor (Z.shiftl RDB_ENCVAL 6) RDB_ENC_INT32); Z.land value 0xFF; Z.land (Z.shiftr value 8) 0xFF;
     Z.land (Z.shiftr value 16) 0xFF; Z.land (Z.shiftr value 24) 0xFF]
  else [].

(** [strtoll] in base 10 on the memory from [s] on: the value, clamped to
    [long long], and the memory from [endptr] on. *)
Definition isspace (c : Z) : bool := (c =? 32) || ((9 <=? c) && (c <=? 13)).
Definition isdigit (c : Z) : bool := (48 <=? c) && (c <=? 57).

Fixpoint skip_space (m : list Z) : option (list Z) :=
  match m with
  | [] => None
  | c :: m' => if isspace c then skip_space m' else Some m
  end.

Fixpoint read_digits (acc : Z) (m : list Z) : option (Z * list Z) :=
  match m with
  | [] => None
  | c :: m' => if isdigit c then read_digits (acc * 10 + (c - 48)) m' else Some (acc, m)
  end.

Definition strtoll (s : list Z) : option (Z * list Z) :=
  m ← skip_space s;
  c ← head m;
  let negative := c =? 45 in
  let m := if negative || (c =? 43) then tail m else m in
  d ← head m;
  if negb (isdigit d) then Some (0, s)
  else
    '(n, endptr) ← read_digits 0 m;
    Some (Z.max LLONG_MIN (Z.min LLONG_MAX (if negative then - n else n)), endptr).

Section strings.
(** [htab]: the uninitialised hash table of the compressor. *)
Context (fill : nat -> Z) (htab : Z -> Z) (rdb_compression : bool).

(** [s] is the memory from the string on. *)
Definition rdbTryIntegerEncoding (s : list Z) (len : Z) : option (list Z) :=
  '(value, endptr) ← strtoll s;
  c ← head endptr;
  if negb (c =? 0) then Some []
  else
    '(buf, _) ← ll2string (fill <$> seq 0 32) 32 value;
    n ← Sds.strlen buf;
    if negb (n =? len) then Some []
    else
      x ← mread buf 0 (Z.to_nat len); y ← mread s 0 (Z.to_nat len);
      if negb (Sds.memcmp x y =? 0) then Some [] else Some (rdbEncodeInteger value).

Definition rdbSaveLzfBlob (data : list Z) (original_len : Z) : W Z :=
  or_fail (rdbWriteRaw [u8 (Z.lor (Z.shiftl RDB_ENCVAL 6) RDB_ENC_LZF)]) (fun n1 =>
  or_fail (rdbSaveLen (Z.of_nat (length data))) (fun n2 =>
  or_fail (rdbSaveLen original_len) (fun n3 =>
  or_fail (rdbWriteRaw data) (fun n4 => mret (n1 + n2 + n3 + n4))))).

(** The compressor's lengths are [unsigned int]. *)
Definition rdbSaveLzfStringObject (s : list Z) (len : Z) : W Z :=
  if len <=? 4 then mret 0
  else
    let outlen := len - 4 in
    inp ← lift (mread s 0 (Z.to_nat (u32 len)));
    '(comprlen, out) ← lift (Lzf.lzf_compress inp htab (fill <$> seq 0 (Z.to_nat (outlen + 1))) (u32 outlen));
    if comprlen =? 0 then mret 0
    else data ← lift (mread out 0 (Z.to_nat comprlen)); rdbSaveLzfBlob data len.

Definition rdbSaveRawString (s : list Z) (len : Z) : W Z :=
  buf ← (if len <=? 11 then lift (rdbTryIntegerEncoding s len) else mret []);
  if Z.of_nat (length buf) >? 0 then or_fail (rdbWriteRaw buf) (fun _ => mret (Z.of_nat (length buf)))
  else
    n ← (if rdb_compression && (len >? 20) then rdbSaveLzfStringObject s len else mret 0);
    if n =? -1 then mret (-1)
    else if n >? 0 then mret n
    else
      or_fail (rdbSaveLen len) (fun nwritten =>
      if len >? 0 then
        data ← lift (mread s 0 (Z.to_nat len));
        or_fail (rdbWriteRaw data) (fun _ => mret (nwritten + len))
      else mret nwritten).

Definition rdbSaveLongLongAsStringObject (value : Z) : W Z :=
  let buf := rdbEncodeInteger value in
  if Z.of_nat (length buf) >? 0 then rdbWriteRaw buf
  else
    '(buf, enclen) ← lift (ll2string (fill <$> seq 0 32) 32 value);
    _ ← assert (enclen <? 32);
    data ← lift (mread buf 0 (Z.to_nat enclen));
    or_fail (rdbSaveLen enclen) (fun n1 => or_fail (rdbWriteRaw data) (fun n2 => mret (n1 + n2))).

(** An sds is followed by its terminator. *)
Definition rdbSaveStringObject (obj : Object.robj) : W Z :=
  match Object.encoding obj, Object.ptr obj with
  | Object.OBJ_ENCODING_INT, Object.PLong v => rdbSaveLongLongAsStringObject v
  | Object.OBJ_ENCODING_INT, _ => undef
  | _, Object.PSds bs _ =>
      _ ← assert (Object.sdsEncodedObject obj);
      rdbSaveRawString (bs ++ [0]) (Z.of_nat (length bs))
  | _, _ => _ ← assert (Object.sdsEncodedObject obj); undef
  end.

End strings.
End save.

(** ** Reading *)

Section load.
Context {B : Type} `{RioIO B}.

Definition rdbLoadType : st (rio B) Z :=
  x ← rioRead 1; match x with None => mret (-1) | Some bs => lift (head bs) end.

Definition rdbLoadTime : st (rio B) Z :=
  x ← rioRead 4; mret (match x with None => -1 | Some bs => s32 (le_decode bs) end).

(** The byte reversal concerns big-endian machines only. *)
Definition rdbLoadMillisecondTime (rdbver : Z) : st (rio B) Z :=
  x ← rioRead 8; mret (match x with None => LLONG_MAX | Some bs => s64 (le_decode bs) end).

(** The return value, [isencoded] and the length. *)
Definition rdbLoadLenByRef : st (rio B) (Z * bool * Z) :=
  x ← rioRead 1;
  match x with
  | None => mret (-1, false, 0)
  | Some bs =>
      buf0 ← lift (head bs);
      let type := Z.shiftr (Z.land buf0 0xC0) 6 in
      if type =? RDB_ENCVAL then mret (0, true, Z.land buf0 0x3F)
      else if type =? RDB_6BITLEN then mret (0, false, Z.land buf0 0x3F)
      else if type =? RDB_14BITLEN then
        x ← rioRead 1;
        match x with
        | None => mret (-1, false, 0)
        | Some bs => buf1 ← lift (head bs); mret (0, false, Z.lor (Z.shiftl (Z.land buf0 0x3F) 8) buf1)
        end
      else if buf0 =? RDB_32BITLEN then
        x ← rioRead 4;
        match x with
        | None => mret (-1, false, 0)
        | Some bs => len ← lift (intrev32 (le_decode bs)); mret (0, false, len)
        end
      else if buf0 =? RDB_64BITLEN then
        x ← rioRead 8;
        match x with
        | None => mret (-1, false, 0)
        | Some bs => len ← lift (ntohu64 (le_decode bs)); mret (0, false, len)
        end
      else abort
  end.

Definition rdbLoadLen : st (rio B) (bool * Z) :=
  '(ret, isencoded, len) ← rdbLoadLenByRef;
  mret (isencoded, if ret =? -1 then RDB_LENERR else len).

(** The stream and the object heap. *)
Record ld := mkLd { stream : rio B; objs : Object.hst }.

Definition on_stream {A} (m : st (rio B) A) : st ld A := fun l =>
  match m (stream l) with Done (r, a) => Done (mkLd r (objs l), a) | Abort => Abort | Undef => Undef end.
Definition on_heap {A} (m : st Object.hst A) : st ld A := fun l =>
  match m (objs l) with Done (h, a) => Done (mkLd (stream l) h, a) | Abort => Abort | Undef => Undef end.

(** What a loading routine returns: NULL, a [zmalloc]ed block, an sds or an
    object. *)
Inductive loaded := LNull | LPlain (bs : list Z) | LSds (bs : list Z) | LObj (a : Z).

(** [limit]: the size of the largest allocation the memory can satisfy;
    [zmalloc] stops the server for a larger one. *)
Context (sv : Object.server) (fill : nat -> Z) (limit : Z).

Definition zmalloc (size : Z) : st ld (list Z) :=
  _ ← assert (size <=? limit); mret (fill <$> seq 0 (Z.to_nat size)).

(** The size [sdsnewlen] asks for. *)
Definition sds_size (len : Z) : Z :=
  let type := Sds.sdsReqType len in
  let type := if (type =? Sds.SDS_TYPE_5) && (len =? 0) then Sds.SDS_TYPE_8 else type in
  u64 (Sds.sdsHdrSize type + len + 1).

Definition sdsnewlen_noinit (len : Z) : st ld (list Z) :=
  _ ← assert (sds_size len <=? limit); lift (Object.new_sds fill Sds.SDS_NOINIT len).

Definition has_flag (flags f : Z) : bool := negb (Z.land flags f =? 0).

Definition rdbLoadIntegerObject (enctype flags : Z) : st ld loaded :=
  let plain := has_flag flags RDB_LOAD_PLAIN in
  let sds := has_flag flags RDB_LOAD_SDS in
  let encode := has_flag flags RDB_LOAD_ENC in
  val ← (if enctype =? RDB_ENC_INT8 then
           x ← on_stream (rioRead 1);
           match x with
           | None => mret None
           | Some enc => e0 ← lift (rd enc 0); mret (Some (s8 e0))
           end
         else if enctype =? RDB_ENC_INT16 then
           x ← on_stream (rioRead 2);
           match x with
           | None => mret None
           | Some enc =>
               e0 ← lift (rd enc 0); e1 ← lift (rd enc 1);
               mret (Some (s16 (u16 (Z.lor e0 (Z.shiftl e1 8)))))
           end
         else if enctype =? RDB_ENC_INT32 then
           x ← on_stream (rioRead 4);
           match x with
           | None => mret None
           | Some enc =>
               e0 ← lift (rd enc 0); e1 ← lift (rd enc 1); e2 ← lift (rd enc 2); e3 ← lift (rd enc 3);
               mret (Some (s32 (u32 (Z.lor (Z.lor (Z.lor e0 (Z.shiftl e1 8)) (Z.shiftl e2 16)) (Z.shiftl e3 24)))))
           end
         else abort);
  match val with
  | None => mret LNull
  | Some val =>
      if plain || sds then
        '(buf, len) ← lift (ll2string (fill <$> seq 0 (Z.to_nat LONG_STR_SIZE)) LONG_STR_SIZE val);
        p ← (if plain then zmalloc len else sdsnewlen_noinit len);
        bs ← lift (mread buf 0 (Z.to_nat len));
        p ← lift (mwrite p 0 bs);
        mret (if plain then LPlain p else LSds p)
      else if encode then a ← on_heap (Object.createStringObjectFromLongLongForValue sv fill val); mret (LObj a)
      else
        t ← lift (Sds.sdsfromlonglong fill val);
        l ← lift (Sds.sdslen t); bs ← lift (Sds.get_bytes t 0 (Z.to_nat l));
        a ← on_heap (Object.createObject sv Object.OBJ_STRING (Object.PSds bs 0)); mret (LObj a)
  end.

(** The decompressor's lengths are [unsigned int]; what it does not write of
    the target keeps its contents. *)
Definition rdbLoadLzfStringObject (flags : Z) : st ld loaded :=
  let plain := has_flag flags RDB_LOAD_PLAIN in
  let sds := has_flag flags RDB_LOAD_SDS in
  '(_, clen) ← on_stream rdbLoadLen;
  if clen =? RDB_LENERR then mret LNull
  else
    '(_, len) ← on_stream rdbLoadLen;
    if len =? RDB_LENERR then mret LNull
    else
      c ← zmalloc clen;
      val ← (if plain then zmalloc len else sdsnewlen_noinit len);
      x ← on_stream (rioRead clen);
      match x with
      | None => mret LNull
      | Some c =>
          c ← lift (mread c 0 (Z.to_nat (u32 clen)));
          '(n, out) ← lift (Lzf.lzf_decompress c (u32 len));
          if n =? 0 then abort
          else
            val ← lift (mwrite val 0 out);
            if plain then mret (LPlain val)
            else if sds then mret (LSds val)
            else a ← on_heap (Object.createObject sv Object.OBJ_STRING (Object.PSds val 0)); mret (LObj a)
      end.

(** [memcpy] into the sds of an object. *)
Definition fill_object (a : Z) (bs : list Z) : st ld unit :=
  o ← on_heap (Object.load a);
  match Object.ptr o with
  | Object.PSds old av =>
      new ← lift (mwrite old 0 bs);
      on_heap (Object.store a (Object.set_payload o (Object.encoding o) (Object.PSds new av)))
  | _ => undef
  end.

(** [createStringObject(SDS_NOINIT,len)] or [createRawStringObject]. *)
Definition create_noinit (encode : bool) (len : Z) : st ld Z :=
  _ ← assert ((encode && (len <=? Object.OBJ_ENCODING_EMBSTR_SIZE_LIMIT)) || (sds_size len <=? limit));
  on_heap (if encode then Object.createStringObject sv fill Sds.SDS_NOINIT len
           else Object.createRawStringObject sv fill Sds.SDS_NOINIT len).

Definition rdbGenericLoadStringObject (flags : Z) : st ld loaded :=
  let encode := has_flag flags RDB_LOAD_ENC in
  let plain := has_flag flags RDB_LOAD_PLAIN in
  let sds := has_flag flags RDB_LOAD_SDS in
  '(isencoded, len) ← on_stream rdbLoadLen;
  if isencoded : bool then
    if (len =? RDB_ENC_INT8) || (len =? RDB_ENC_INT16) || (len =? RDB_ENC_INT32) then rdbLoadIntegerObject len flags
    else if len =? RDB_ENC_LZF then rdbLoadLzfStringObject flags
    else abort
  else if len =? RDB_LENERR then mret LNull
  else if plain || sds then
    buf ← (if plain then zmalloc len else sdsnewlen_noinit len);
    if negb (len =? 0) then
      x ← on_stream (rioRead len);
      match x with
      | None => mret LNull
      | Some bs => buf ← lift (mwrite buf 0 bs); mret (if plain then LPlain buf else LSds buf)
      end
    else mret (if plain then LPlain buf else LSds buf)
  else
    o ← create_noinit encode len;
    if negb (len =? 0) then
      x ← on_stream (rioRead len);
      match x with
      | None => _ ← on_heap (Object.decrRefCount o); mret LNull
      | Some bs => _ ← fill_object o bs; mret (LObj o)
      end
    else mret (LObj o).

Definition rdbLoadStringObject : st ld loaded := rdbGenericLoadStringObject RDB_LOAD_NONE.
Definition rdbLoadEncodedStringObject : st ld loaded := rdbGenericLoadStringObject RDB_LOAD_ENC.

End load.

(** * Facts *)

(** ** The format *)

Definition be (n : nat) (v : Z) : list Z := reverse (le_encode n v).

Definition enc_len (len : Z) : list Z :=
  if len <? 64 then [len]
  else if len <? 16384 then [64 + len / 256; len mod 256]
  else if len <=? UINT32_MAX then 0x80 :: be 4 len
  else 0x81 :: be 8 len.

(** Integers of one, two or four bytes. *)
Definition enc_int (v : Z) : list Z :=
  if (-128 <=? v) && (v <=? 127) then [0xC0; u8 v]
  else if (-32768 <=? v) && (v <=? 32767) then 0xC1 :: le_encode 2 v
  else if (-2147483648 <=? v) && (v <=? 2147483647) then 0xC2 :: le_encode 4 v
  else [].

Definition enc_raw (s : list Z) : list Z := enc_len (zl s) ++ s.
Definition enc_lzf (c : list Z) (len : Z) : list Z := 0xC3 :: enc_len (zl c) ++ enc_len len ++ c.

(** The encodings of a string. *)
Inductive encodes (s : list Z) : list Z -> Prop :=
| E_int v : s = decimal v -> enc_int v <> [] -> encodes s (enc_int v)
| E_lzf c : c <> [] -> zl c < zl s -> Forall is_byte c -> (forall len, zl s <= len -> Lzf.lzf_decompress c len = Some (zl s, s)) ->
    encodes s (enc_lzf c (zl s))
| E_raw : encodes s (enc_raw s).

Lemma be_bytes n v : Forall is_byte (be n v).
Proof. apply Forall_reverse, le_encode_bytes. Qed.

Lemma length_be n v : length (be n v) = n.
Proof. unfold be. by rewrite length_reverse, length_le_encode. Qed.

Lemma enc_len_bytes len : 0 <= len -> Forall is_byte (enc_len len).
Proof.
  intros Hl. unfold enc_len. unfold is_byte. destruct (Z.ltb_spec len 64); [by apply Forall_singleton; lia|].
  destruct (Z.ltb_spec len 16384); [repeat (apply Forall_cons; split); try done; dlia|].
  destruct (len <=? UINT32_MAX); (apply Forall_cons; split; [done|apply be_bytes]).
Qed.

Lemma length_enc_len len : 1 <= zl (enc_len len) <= 9.
Proof. unfold enc_len. repeat case_match; cbn [length]; rewrite ?length_be; lia. Qed.

Lemma enc_int_bytes v : Forall is_byte (enc_int v).
Proof.
  unfold enc_int. repeat case_match; [| | |by apply Forall_nil]; (apply Forall_cons; split; [done|]).
  - apply Forall_singleton, (uwrap_range 8 v). lia.
  - apply le_encode_bytes.
  - apply le_encode_bytes.
Qed.

Lemma intrev_be n v f : (forall x rest, length x = n -> f (x ++ rest) = Some (reverse x ++ rest)) ->
  (x ← f (le_encode n v); Some (le_decode x)) = Some (le_decode (be n v)).
Proof.
  intros Hf. pose proof (Hf (le_encode n v) [] (length_le_encode n v)) as H. rewrite !app_nil_r in H. rewrite H. done.
Qed.

Lemma le_encode_uwrap n v : le_encode n (uwrap (8 * Z.of_nat n) v) = le_encode n v.
Proof.
  unfold uwrap. rewrite <- le_decode_encode. rewrite <- (length_le_encode n v) at 1. apply le_encode_decode, le_encode_bytes.
Qed.

Lemma htonl_be v : exists w, htonl v = Some w /\ le_encode 4 w = be 4 v.
Proof.
  unfold htonl, intrev32. rewrite (intrev_be 4 _ _ memrev32_spec). eexists. split; [done|].
  rewrite <- (length_be 4 (u32 v)) at 1. rewrite le_encode_decode by apply be_bytes.
  unfold be. f_equal. apply (le_encode_uwrap 4).
Qed.

Lemma htonu64_be v : exists w, htonu64 v = Some w /\ le_encode 8 w = be 8 v.
Proof.
  unfold htonu64, intrev64. rewrite (intrev_be 8 _ _ memrev64_spec). eexists. split; [done|].
  rewrite <- (length_be 8 v) at 1. by rewrite le_encode_decode by apply be_bytes.
Qed.

Lemma ntohl_be v : 0 <= v < 2 ^ 32 -> intrev32 (le_decode (be 4 v)) = Some v.
Proof.
  intros Hv. unfold intrev32. rewrite <- (length_be 4 v) at 1. rewrite le_encode_decode by apply be_bytes.
  pose proof (memrev32_spec (be 4 v) [] (length_be 4 v)) as H. rewrite !app_nil_r in H. rewrite H. bsimpl.
  unfold be. rewrite reverse_involutive, le_decode_encode. f_equal. by apply Z.mod_small.
Qed.

Lemma ntohu64_be v : 0 <= v < 2 ^ 64 -> ntohu64 (le_decode (be 8 v)) = Some v.
Proof.
  intros Hv. unfold ntohu64, intrev64. rewrite <- (length_be 8 v) at 1. rewrite le_encode_decode by apply be_bytes.
  pose proof (memrev64_spec (be 8 v) [] (length_be 8 v)) as H. rewrite !app_nil_r in H. rewrite H. bsimpl.
  unfold be. rewrite reverse_involutive, le_decode_encode. f_equal. by apply Z.mod_small.
Qed.

(** ** Writers *)

Section writers.
Context {B : Type} `{RioWriter B} (f : Z -> list Z -> Z).
Abbreviation W := (st (option (rio B))).

(** [m] writes [bs] to any stream in working order and returns [n]; without a
    stream it returns the same. *)
Definition emits (m : W Z) (n : Z) (bs : list Z) : Prop :=
  m None = Done (None, n) /\
  forall r out, writing f r out -> zl out + zl bs < 2 ^ 61 ->
    exists r', m (Some r) = Done (Some r', n) /\ advance f r r' bs /\ writing f r' (out ++ bs).

Lemma emits_ret n : emits (mret n) n [].
Proof.
  split; [done|]. intros r out Hw _. exists r. rewrite app_nil_r.
  split_and!; [done|apply advance_nil, Hw|done].
Qed.

Lemma emits_write p : Forall is_byte p -> emits (rdbWriteRaw p) (zl p) p.
Proof.
  intros Hp. split; [done|]. intros r out Hw Hsz. unfold rdbWriteRaw.
  destruct (rioWrite_spec f p r out Hw Hp Hsz) as (r' & -> & Ha & Hw'). by exists r'.
Qed.

Lemma emits_bind (m : W Z) (k : Z -> W Z) n1 b1 n2 b2 :
  emits m n1 b1 -> emits (k n1) n2 b2 -> emits (m ≫= k) n2 (b1 ++ b2).
Proof.
  intros [H1 H1'] [H2 H2']. split; [by rewrite (bind_done _ _ _ _ _ H1)|]. intros r out Hw Hsz. rewrite length_app in Hsz.
  destruct (H1' r out Hw) as (r1 & He1 & Ha1 & Hw1); [lia|]. rewrite (bind_done _ _ _ _ _ He1).
  destruct (H2' r1 _ Hw1) as (r2 & He2 & Ha2 & Hw2); [rewrite length_app; lia|].
  exists r2. rewrite app_assoc. split_and!; [done|by eapply advance_trans; [apply Hw|..]|done].
Qed.

Lemma emits_or_fail (m : W Z) (k : Z -> W Z) n1 b1 n2 b2 :
  emits m n1 b1 -> 0 <= n1 -> emits (k n1) n2 b2 -> emits (or_fail m k) n2 (b1 ++ b2).
Proof.
  intros H1 Hn H2. unfold or_fail. apply emits_bind with n1; [done|]. by rewrite (proj2 (Z.eqb_neq _ _)) by lia.
Qed.

(** A last write before the result. *)
Lemma emits_last (m : W Z) (k : Z -> W Z) n1 bs n2 :
  emits m n1 bs -> 0 <= n1 -> k n1 = mret n2 -> emits (or_fail m k) n2 bs.
Proof. intros H1 Hn Hk. rewrite <- (app_nil_r bs). eapply emits_or_fail; [done|done|]. rewrite Hk. apply emits_ret. Qed.

Lemma emits_lift {A} (a : A) (k : A -> W Z) n bs : emits (k a) n bs -> emits (lift (Some a) ≫= k) n bs.
Proof. done. Qed.

Lemma byte1 b : is_byte b -> Forall is_byte [b].
Proof. intros Hb. by apply Forall_singleton. Qed.

Lemma land_255 v : Z.land v 0xFF = v mod 256.
Proof. change 0xFF with (Z.ones 8). by rewrite Z.land_ones by done. Qed.

Lemma rdbSaveLen_emits len : in_u 64 len -> emits (rdbSaveLen len) (zl (enc_len len)) (enc_len len).
Proof.
  intros Hl. pose proof (enc_len_bytes len ltac:(mlia)) as Hb. unfold rdbSaveLen. unfold enc_len in *.
  change (len <? Z.shiftl 1 6) with (len <? 64). change (len <? Z.shiftl 1 14) with (len <? 16384). rewrite !land_255.
  change (Z.shiftl RDB_6BITLEN 6) with 0. rewrite Z.lor_0_r.
  destruct (Z.ltb_spec len 64).
  { rewrite Z.mod_small, uwrap_small by mlia. eapply emits_last; [by apply emits_write|lia|done]. }
  destruct (Z.ltb_spec len 16384).
  { rewrite Z.shiftr_div_pow2 by done. change (2 ^ 8) with 256.
    assert (0 <= (len / 256) mod 256 < 2 ^ 6) as Hr by (eval_pow; dlia).
    rewrite lor_shift_add by (done || lia). change (1 * 2 ^ 6) with 64.
    rewrite !uwrap_small by (unfold in_u; eval_pow; dlia).
    replace ((len / 256) mod 256 + 64) with (64 + len / 256) by dlia. eapply emits_last; [by apply emits_write|lia|done]. }
  destruct (Z.leb_spec len UINT32_MAX).
  - destruct (htonl_be len) as (w & -> & Hw). change (0x80 :: be 4 len) with ([RDB_32BITLEN] ++ be 4 len).
    eapply emits_or_fail; [by apply emits_write, byte1|lia|]. apply emits_lift. rewrite Hw.
    eapply emits_last; [by apply emits_write, be_bytes|lia|]. by rewrite length_app, length_be.
  - destruct (htonu64_be len) as (w & -> & Hw). change (0x81 :: be 8 len) with ([RDB_64BITLEN] ++ be 8 len).
    eapply emits_or_fail; [by apply emits_write, byte1|lia|]. apply emits_lift. rewrite Hw.
    eapply emits_last; [by apply emits_write, be_bytes|lia|]. by rewrite length_app, length_be.
Qed.

Lemma rdbEncodeInteger_enc v : rdbEncodeInteger v = enc_int v.
Proof.
  unfold rdbEncodeInteger, enc_int. rewrite !Z.geb_leb, !land_255. cbn [Z.opp].
  change (- Z.shiftl 1 7) with (-128). change (Z.shiftl 1 7 - 1) with 127. change (- Z.shiftl 1 15) with (-32768).
  change (Z.shiftl 1 15 - 1) with 32767. change (- Z.shiftl 1 31) with (-2147483648). change (Z.shiftl 1 31 - 1) with 2147483647.
  rewrite !Z.shiftr_div_pow2 by done. cbn [le_encode]. rewrite !Z.div_div by lia. reflexivity.
Qed.

(** *** [strtoll] *)

Lemma read_digits_dval ds : forall acc rest, Forall is_digit ds ->
  read_digits acc (ds ++ 0 :: rest) = Some (dval acc ds, 0 :: rest).
Proof.
  induction ds as [|d ds IH]; intros acc rest Hd; cbn [app read_digits]; [done|]. apply Forall_cons in Hd as [Hd Hds].
  unfold is_digit, chr0, chr9 in Hd. unfold isdigit. rewrite !(proj2 (Z.leb_le _ _)) by lia. cbn [andb]. by apply IH.
Qed.

Lemma strtoll_decimal v rest : in_s 64 v -> strtoll (decimal v ++ 0 :: rest) = Some (v, 0 :: rest).
Proof.
  intros Hv. rewrite decimal_abs. destruct (udec_spec (Z.abs v)) as [[Hd _] Hval]; [mlia|].
  pose proof (udec_nonempty (Z.abs v)). destruct (udec (Z.abs v)) as [|d ds] eqn:Hu; [simpl in *; lia|].
  pose proof (read_digits_dval (d :: ds) 0 rest Hd) as Hr. rewrite Hval in Hr. apply Forall_cons in Hd as [Hd _].
  unfold is_digit, chr0, chr9 in Hd. unfold strtoll, chr_minus.
  assert (isspace d = false) as Hs by (unfold isspace; rewrite (proj2 (Z.eqb_neq d 32)), (proj2 (Z.leb_gt d 13)) by lia; by rewrite andb_false_r).
  assert (isdigit d = true) as Hdig by (unfold isdigit; by rewrite !(proj2 (Z.leb_le _ _)) by lia).
  destruct (Z.ltb_spec v 0); cbn [app].
  - change (skip_space (45 :: d :: ds ++ 0 :: rest)) with (Some (45 :: d :: ds ++ 0 :: rest)). bsimpl. cbn [head].
    bsimpl. change (45 =? 45) with true. cbn [orb tail head]. bsimpl. rewrite Hdig. cbn [negb]. cbn [app] in Hr. rewrite Hr. bsimpl.
    rewrite Z.abs_neq, Z.opp_involutive, Z.min_r, Z.max_r by mlia. done.
  - cbn [skip_space]. rewrite Hs. bsimpl. cbn [head]. bsimpl. rewrite (proj2 (Z.eqb_neq d 45)), (proj2 (Z.eqb_neq d 43)) by lia.
    cbn [orb]. cbn [head]. bsimpl. rewrite Hdig. cbn [negb]. cbn [app] in Hr. rewrite Hr. bsimpl.
    rewrite Z.abs_eq, Z.min_r, Z.max_r by mlia. done.
Qed.

Lemma skip_space_total l rest : exists l', skip_space (l ++ 0 :: rest) = Some (l' ++ 0 :: rest).
Proof.
  induction l as [|c l IH]; cbn [app skip_space]; [by exists []|]. destruct (isspace c); [done|by exists (c :: l)].
Qed.

Lemma read_digits_total l rest : forall acc, exists n l', read_digits acc (l ++ 0 :: rest) = Some (n, l' ++ 0 :: rest).
Proof.
  induction l as [|c l IH]; intros acc; cbn [app read_digits]; [by eexists _, []|].
  destruct (isdigit c); [apply IH|by eexists _, (c :: l)].
Qed.

(** On a terminated string it stops inside it. *)
Lemma strtoll_total l rest : exists v l', strtoll (l ++ 0 :: rest) = Some (v, l' ++ 0 :: rest) /\ in_s 64 v.
Proof.
  unfold strtoll. destruct (skip_space_total l rest) as (m & ->). bsimpl.
  assert (exists c, head (m ++ 0 :: rest) = Some c /\ exists m', (if (c =? 45) || (c =? 43) then tail (m ++ 0 :: rest) else m ++ 0 :: rest) = m' ++ 0 :: rest)
    as (c & -> & m' & Hm').
  { destruct m as [|c m]; [exists 0; split; [done|by exists []]|]. exists c. split; [done|].
    destruct ((c =? 45) || (c =? 43)); [by exists m|by exists (c :: m)]. }
  bsimpl. rewrite Hm'. assert (exists d, head (m' ++ 0 :: rest) = Some d) as (d & ->) by (destruct m'; by eexists).
  bsimpl. destruct (negb (isdigit d)); [exists 0, l; by split|].
  destruct (read_digits_total m' rest 0) as (n & l' & ->). bsimpl. eexists _, l'. split; [done|].
  unfold in_s. mlia.
Qed.

(** A terminated string is encoded exactly if it is an integer in range. *)
Lemma rdbTryIntegerEncoding_spec fill s rest :
  rdbTryIntegerEncoding fill (s ++ 0 :: rest) (zl s) =
    Some (match string2ll s with Some v => enc_int v | None => [] end).
Proof.
  assert (exists v l', strtoll (s ++ 0 :: rest) = Some (v, l' ++ 0 :: rest) /\ in_s 64 v /\
    match string2ll s with Some w => w = v /\ s = decimal v /\ l' = [] | None => s <> decimal v end) as (v & l' & Hst & Hv & Hs).
  { destruct (string2ll s) as [w|] eqn:Hs.
    - apply string2ll_decimal in Hs as [Hw ->]. exists w, []. split_and!; [by apply strtoll_decimal|done..].
    - destruct (strtoll_total s rest) as (v & l' & Hst & Hv). exists v, l'. split_and!; [done|done|].
      intros ->. by rewrite (proj2 (string2ll_decimal (decimal v) v)) in Hs. }
  unfold rdbTryIntegerEncoding. rewrite Hst. bsimpl.
  destruct (ll2string_fits (fill <$> seq 0 32) 32 v Hv) as (r & -> & _); [rewrite length_fmap, length_seq; lia|done|].
  bsimpl. rewrite Object.strlen_app by by apply decimal_nonzero. bsimpl.
  destruct (string2ll s) as [w|].
  - destruct Hs as (-> & -> & ->). cbn [app head]. bsimpl. cbn [Z.eqb negb]. rewrite Z.eqb_refl. cbn [negb].
    rewrite !mread_head by lia. bsimpl. rewrite (proj2 (Sds.memcmp_eq _ _ eq_refl)) by done. cbn [Z.eqb negb].
    by rewrite rdbEncodeInteger_enc.
  - assert (exists c, head (l' ++ 0 :: rest) = Some c) as (c & ->) by (destruct l'; by eexists). bsimpl.
    destruct (negb (c =? 0)); [done|]. destruct (Z.eqb_spec (zl (decimal v)) (zl s)) as [Hl|]; [|done]. cbn [negb].
    rewrite !mread_head by lia. bsimpl. destruct (Z.eqb_spec (Sds.memcmp (decimal v) s) 0) as [Hm|]; [|done].
    apply Sds.memcmp_eq in Hm; [congruence|lia].
Qed.

(** *** Strings *)

Lemma rdbSaveLzfBlob_emits c len : Forall is_byte c -> zl c < 2 ^ 62 -> in_u 64 len ->
  emits (rdbSaveLzfBlob c len) (zl (enc_lzf c len)) (enc_lzf c len).
Proof.
  intros Hc Hlc Hl. unfold rdbSaveLzfBlob, enc_lzf. change (0xC3 :: ?t) with ([0xC3] ++ t).
  change (u8 (Z.lor (Z.shiftl RDB_ENCVAL 6) RDB_ENC_LZF)) with 0xC3.
  eapply emits_or_fail; [by apply emits_write, byte1|lia|]. eapply emits_or_fail; [apply rdbSaveLen_emits; mlia|lia|].
  eapply emits_or_fail; [by apply rdbSaveLen_emits|lia|].
  eapply emits_last; [by apply emits_write|lia|]. rewrite !length_app. f_equal. lia.
Qed.

Lemma rdbSaveLzfStringObject_emits fill htab s rest : Forall is_byte s -> 4 < zl s < 2 ^ 32 ->
  emits (rdbSaveLzfStringObject fill htab (s ++ rest) (zl s)) 0 [] \/
  exists c, encodes s (enc_lzf c (zl s)) /\
    emits (rdbSaveLzfStringObject fill htab (s ++ rest) (zl s)) (zl (enc_lzf c (zl s))) (enc_lzf c (zl s)).
Proof.
  intros Hs Hl. unfold rdbSaveLzfStringObject. rewrite (proj2 (Z.leb_gt _ _)), !uwrap_small by mlia.
  rewrite mread_head by lia. set (buf := fill <$> seq 0 _).
  assert (zl buf = zl s - 4 + 1) as Hbuf by (unfold buf; rewrite length_fmap, length_seq; lia).
  destruct (Lzf.lzf_restores s htab buf (zl s - 4)) as (n & out & Hz & Hn); [done|lia|lia|].
  assert (forall k : Z * list Z -> st (option (rio B)) Z, (lift (Some s) ≫= (fun inp => lift (Lzf.lzf_compress inp htab buf (zl s - 4)) ≫= k)) =
    (lift (Some (n, out)) ≫= k)) as Hrun.
  { intros k. by rewrite <- Hz. }
  rewrite Hrun. clear Hrun Hz. destruct Hn as [->|(Hn & Hno & Hb & Hd)]; [left; apply emits_lift, emits_ret|].
  right. exists (take (Z.to_nat n) out). assert (zl (take (Z.to_nat n) out) = n) as Hlt by (rewrite length_take; lia). split.
  - constructor; [by intros Hnil; rewrite Hnil in Hlt; simpl in Hlt; lia|lia|done|done].
  - apply emits_lift. cbn beta iota. rewrite (proj2 (Z.eqb_neq _ _)) by lia.
    rewrite mread_Some, drop_0 by lia. apply emits_lift, rdbSaveLzfBlob_emits; [done|mlia|mlia].
Qed.

Lemma enc_int_short v : enc_int v <> [] -> in_s 32 v.
Proof.
  unfold enc_int. destruct (Z.leb_spec (-128) v), (Z.leb_spec v 127); cbn [andb]; try mlia.
  all: destruct (Z.leb_spec (-32768) v), (Z.leb_spec v 32767); cbn [andb]; try mlia.
  all: destruct (Z.leb_spec (-2147483648) v), (Z.leb_spec v 2147483647); cbn [andb]; try mlia; done.
Qed.

Lemma rdbSaveRawString_emits fill htab rc s rest : Forall is_byte s -> zl s < 2 ^ 32 ->
  exists bs, encodes s bs /\ emits (rdbSaveRawString fill htab rc (s ++ 0 :: rest) (zl s)) (zl bs) bs.
Proof.
  intros Hs Hl. unfold rdbSaveRawString.
  assert (exists buf, (forall k : list Z -> st (option (rio B)) Z,
      ((if zl s <=? 11 then lift (rdbTryIntegerEncoding fill (s ++ 0 :: rest) (zl s)) else mret []) ≫= k) = k buf) /\
      (buf = [] \/ exists v, buf = enc_int v /\ buf <> [] /\ s = decimal v)) as (buf & Hbuf & Hi).
  { destruct (zl s <=? 11); [|exists []; split; [done|by left]]. rewrite rdbTryIntegerEncoding_spec.
    destruct (string2ll s) as [v|] eqn:Hv; [|exists []; split; [done|by left]]. exists (enc_int v). split; [done|].
    destruct (enc_int v) eqn:He; [by left|right]. exists v. apply string2ll_decimal in Hv as [_ ->]. by rewrite He. }
  rewrite Hbuf. clear Hbuf. destruct Hi as [->|(v & -> & Hne & ->)].
  2: { exists (enc_int v). split; [by constructor|]. destruct (enc_int v) eqn:He; [done|]. rewrite <- He.
       rewrite (proj2 (Z.gtb_lt _ _)) by (rewrite He; simpl; lia). eapply emits_last; [apply emits_write, enc_int_bytes|lia|done]. }
  change (Z.of_nat (length []) >? 0) with false. cbn iota.
  assert (emits (or_fail (rdbSaveLen (zl s)) (fun nwritten => if zl s >? 0 then
      data ← lift (mread (s ++ 0 :: rest) 0 (Z.to_nat (zl s))); or_fail (rdbWriteRaw data) (fun _ => mret (nwritten + zl s))
      else mret nwritten)) (zl (enc_raw s)) (enc_raw s)) as Hraw.
  { eapply emits_or_fail; [apply rdbSaveLen_emits; mlia|lia|]. rewrite mread_head by lia. unfold enc_raw. rewrite length_app.
    destruct (Z.gtb_spec (zl s) 0).
    - apply emits_lift. eapply emits_last; [by apply emits_write|lia|]. f_equal. lia.
    - destruct s; [|simpl in *; lia]. rewrite Z.add_0_r || simpl. replace (Z.of_nat (length (enc_len 0) + 0)) with (zl (enc_len 0)) by lia. apply emits_ret. }
  destruct (rc && (zl s >? 20)) eqn:Hc.
  - apply andb_true_iff in Hc as [_ Hc%Z.gtb_lt].
    destruct (rdbSaveLzfStringObject_emits fill htab s (0 :: rest) Hs ltac:(lia)) as [Hno|(c & He & Hyes)].
    + exists (enc_raw s). split; [constructor|]. change (enc_raw s) with ([] ++ enc_raw s) at 2. eapply emits_bind; [exact Hno|exact Hraw].
    + exists (enc_lzf c (zl s)). split; [done|]. rewrite <- (app_nil_r (enc_lzf c (zl s))) at 2. eapply emits_bind; [exact Hyes|].
      assert (0 < zl (enc_lzf c (zl s))) by (unfold enc_lzf; cbn [length]; lia).
      cbn beta. rewrite (proj2 (Z.eqb_neq _ _)), (proj2 (Z.gtb_lt _ _)) by lia. apply emits_ret.
  - exists (enc_raw s). split; [constructor|]. exact Hraw.
Qed.

Lemma rdbSaveLongLongAsStringObject_emits fill v : in_s 64 v ->
  exists bs, encodes (decimal v) bs /\ emits (rdbSaveLongLongAsStringObject fill v) (zl bs) bs.
Proof.
  intros Hv. unfold rdbSaveLongLongAsStringObject. rewrite rdbEncodeInteger_enc.
  destruct (enc_int v) as [|b t] eqn:He.
  - exists (enc_raw (decimal v)). split; [constructor|]. cbn [length]. change (Z.of_nat 0 >? 0) with false. cbn iota.
    destruct (ll2string_fits (fill <$> seq 0 32) 32 v Hv) as (r & -> & _); [rewrite length_fmap, length_seq; lia|done|].
    apply emits_lift. cbn beta iota. pose proof (length_decimal v Hv). rewrite (proj2 (Z.ltb_lt _ _)) by lia.
    rewrite mread_head by lia. change (emits (or_fail (rdbSaveLen (zl (decimal v))) (fun n1 =>
      or_fail (rdbWriteRaw (decimal v)) (fun n2 => mret (n1 + n2)))) (zl (enc_raw (decimal v))) (enc_raw (decimal v))).
    unfold enc_raw. eapply emits_or_fail; [apply rdbSaveLen_emits; mlia|lia|].
    eapply emits_last; [apply emits_write, decimal_bytes, Hv|lia|]. rewrite length_app. f_equal. lia.
  - exists (enc_int v). split; [constructor; [done|by rewrite He]|]. rewrite <- He.
    rewrite (proj2 (Z.gtb_lt _ _)) by (rewrite He; simpl; lia). apply emits_write, enc_int_bytes.
Qed.

Lemma rdbSaveStringObject_emits fill htab rc o s :
  Object.obj_ok o -> Object.value o = Some s -> Forall is_byte s -> zl s < 2 ^ 32 ->
  exists bs, encodes s bs /\ emits (rdbSaveStringObject fill htab rc o) (zl bs) bs.
Proof.
  intros Hok Hv Hs Hl. unfold Object.obj_ok, Object.value in *. unfold rdbSaveStringObject.
  destruct (Object.type o), (Object.encoding o) eqn:He, (Object.ptr o) eqn:Hp; try done; injection Hv as <-.
  1, 3: unfold Object.sdsEncodedObject; rewrite He; by apply rdbSaveRawString_emits.
  by apply rdbSaveLongLongAsStringObject_emits.
Qed.

End writers.

End Rdb.
