(* ===== verification/RdbLoad.v ===== *)
(** The snapshot format read back: a grammar of the lengths and strings of
    [rdb.c], that the loading routines of [Rdb.v] follow it on every input,
    malformed ones included, and that what the saving routines write is read
    back as it was. *)

From S2P Require Import Prelude Effects UtilNum Endian Lzf Sds Object Rio Rdb.

#[local] Open Scope Z_scope.

Module RdbLoad.
Import UtilNum Endian Rio Rdb.

(** ** The grammar *)

(** A parser's result: the value and the rest of the input, [Done None] at
    the end of the input, [Abort] for a malformed one. *)
Definition parser (A : Type) : Type := list Z -> outcome (option (A * list Z)).

(** [n] bytes. *)
Definition take_n (n : Z) : parser (list Z) := fun inp =>
  Done (if n <=? zl inp then Some (take (Z.to_nat n) inp, drop (Z.to_nat n) inp) else None).

Definition pmap {A A'} (g : A -> A') (p : parser A) : parser A' := fun inp =>
  match p inp with
  | Done (Some (a, rest)) => Done (Some (g a, rest))
  | Done None => Done None
  | Abort => Abort
  | Undef => Undef
  end.

Definition pret {A} (a : A) : parser A := fun inp => Done (Some (a, inp)).
Definition pabort {A} : parser A := fun _ => Abort.
Definition pbind {A A'} (p : parser A) (q : A -> parser A') : parser A' := fun inp =>
  match p inp with
  | Done (Some (a, rest)) => q a rest
  | Done None => Done None
  | Abort => Abort
  | Undef => Undef
  end.

(** A length, or the kind of a special encoding. *)
Definition parse_len : parser (bool * Z) := fun inp =>
  match inp with
  | [] => Done None
  | b :: t =>
      if b <? 64 then Done (Some ((false, b), t))
      else if b <? 128 then pmap (fun bs => (false, (b - 64) * 256 + be_decode bs)) (take_n 1) t
      else if b =? 0x80 then pmap (fun bs => (false, be_decode bs)) (take_n 4) t
      else if b =? 0x81 then pmap (fun bs => (false, be_decode bs)) (take_n 8) t
      else if b <? 192 then Abort
      else Done (Some ((true, b - 192), t))
  end.

Lemma take_n_app (bs rest : list Z) n : n = zl bs -> take_n n (bs ++ rest) = Done (Some (bs, rest)).
Proof.
  intros ->. unfold take_n. rewrite (proj2 (Z.leb_le _ _)) by (rewrite length_app; lia).
  by rewrite Nat2Z.id, take_app_length, drop_app_length.
Qed.

Lemma parse_enc_len len rest : in_u 64 len -> parse_len (enc_len len ++ rest) = Done (Some ((false, len), rest)).
Proof.
  intros Hl. unfold enc_len. destruct (Z.ltb_spec len 64).
  { cbn [app parse_len]. by rewrite (proj2 (Z.ltb_lt _ _)). }
  destruct (Z.ltb_spec len 16384).
  { cbn [app parse_len]. rewrite (proj2 (Z.ltb_ge _ _)), (proj2 (Z.ltb_lt _ _)) by dlia.
    unfold pmap. change (len mod 256 :: rest) with ([len mod 256] ++ rest). rewrite take_n_app by done.
    unfold be_decode. simpl. do 4 f_equal. dlia. }
  destruct (Z.leb_spec len UINT32_MAX) as [Hu|Hu]; unfold UINT32_MAX in Hu; cbn [app parse_len Z.ltb Z.eqb Z.compare Pos.compare Pos.compare_cont Pos.eqb].
  - unfold pmap. rewrite take_n_app by by rewrite length_be.
    unfold be_decode, be. rewrite reverse_involutive, le_decode_encode, Z.mod_small by mlia. done.
  - unfold pmap. rewrite take_n_app by by rewrite length_be.
    unfold be_decode, be. rewrite reverse_involutive, le_decode_encode, Z.mod_small by mlia. done.
Qed.

Lemma parse_len_rest inp e len rest : Forall is_byte inp -> parse_len inp = Done (Some ((e, len), rest)) ->
  Forall is_byte rest /\ in_u 64 len /\ (length rest < length inp)%nat.
Proof.
  assert (forall n t bs rest', 0 <= n -> Forall is_byte t -> take_n n t = Done (Some (bs, rest')) ->
    Forall is_byte rest' /\ 0 <= be_decode bs < 2 ^ (8 * n) /\ (length rest' <= length t)%nat) as Ht.
  { unfold take_n. intros n t bs rest' Hn Hb. destruct (Z.leb_spec n (zl t)); [|done]. intros [= <- <-].
    split; [by apply Forall_drop|]. split; [|rewrite length_drop; lia].
    pose proof (le_decode_range (reverse (take (Z.to_nat n) t))) as Hr.
    rewrite length_reverse, length_take, Nat.min_l, Z2Nat.id in Hr by lia. by apply Hr, Forall_reverse, Forall_take. }
  destruct inp as [|b t]; [done|]. intros [Hb Hbt]%Forall_cons. cbn [parse_len length]. unfold is_byte in Hb.
  destruct (Z.ltb_spec b 64); [intros [= <- <- <-]; split_and!; [done|mlia|lia]|].
  destruct (Z.ltb_spec b 128); [|destruct (Z.eqb_spec b 128); [|destruct (Z.eqb_spec b 129); [|destruct (Z.ltb_spec b 192); [done|]]]].
  4: { intros [= <- <- <-]. split_and!; [done|mlia|lia]. }
  all: unfold pmap.
  1: destruct (take_n 1 t) as [[[bs r]|]| |] eqn:E; try done; destruct (Ht 1 t bs r ltac:(lia) Hbt E) as (? & Hr & ?).
  2: destruct (take_n 4 t) as [[[bs r]|]| |] eqn:E; try done; destruct (Ht 4 t bs r ltac:(lia) Hbt E) as (? & Hr & ?).
  3: destruct (take_n 8 t) as [[[bs r]|]| |] eqn:E; try done; destruct (Ht 8 t bs r ltac:(lia) Hbt E) as (? & Hr & ?).
  all: intros [= <- <- <-]; split_and!; [done|mlia|lia].
Qed.

(** ** Readers *)

Section readers.
Context {B : Type} `{RioReader B} (f : Z -> list Z -> Z).

(** From the stream [r] before [inp], [m] reads up to [rest] and returns [a]. *)
Definition reads {A} (m : st (rio B) A) (r : rio B) (inp : list Z) (a : A) (rest : list Z) : Prop :=
  exists r' bs, inp = bs ++ rest /\ m r = Done (r', a) /\ advance f r r' bs /\ reading f r' rest.

Definition fails {A} (m : st (rio B) A) (r : rio B) (a : A) : Prop :=
  exists r', m r = Done (r', a) /\ rioGetReadError r' = true.

(** [m] follows the grammar [p]; [a] is the result of a failure. *)
Definition follows {A} (m : st (rio B) A) (p : parser A) (a : A) : Prop :=
  forall r inp, reading f r inp -> Forall is_byte inp ->
  match p inp with
  | Done (Some (a, rest)) => reads m r inp a rest
  | Done None => fails m r a
  | Abort => m r = Abort
  | Undef => m r = Undef
  end.

Lemma reads_ret {A} (a : A) r inp : reading f r inp -> reads (mret a) r inp a inp.
Proof. intros Hr. exists r, []. split_and!; [done|done|apply advance_nil, Hr|done]. Qed.

Lemma follows_read n : 0 <= n < 2 ^ 61 -> follows (rioRead n) (pmap Some (take_n n)) None.
Proof.
  intros Hn r inp Hr Hb. unfold pmap, take_n. destruct (Z.leb_spec n (zl inp)).
  - destruct (rioRead_spec f n r inp Hr) as (r' & He & Ha & Hr'); [lia|lia|done|].
    exists r', (take (Z.to_nat n) inp). by rewrite take_drop.
  - destruct (rioRead_short f n r inp Hr) as (r' & He & Herr); [lia|done|]. by exists r'.
Qed.

Lemma follows_ext {A} (m : st (rio B) A) p q a : (forall inp, p inp = q inp) -> follows m p a -> follows m q a.
Proof. intros Hpq Hm r inp Hr Hb. rewrite <- Hpq. by apply Hm. Qed.

Lemma follows_ret {A} (a e : A) : follows (mret a) (pret a) e.
Proof. intros r inp Hr Hb. by apply reads_ret. Qed.

Lemma follows_lift {A C} (a : A) (k : A -> st (rio B) C) p c : follows (k a) p c -> follows (lift (Some a) ≫= k) p c.
Proof. done. Qed.

Lemma follows_abort {A} (e : A) : follows abort pabort e.
Proof. by intros r inp Hr Hb. Qed.

Lemma follows_bind {A C} (m : st (rio B) A) p e (k : A -> st (rio B) C) q c :
  follows m p e -> k e = mret c ->
  (forall inp a rest, Forall is_byte inp -> p inp = Done (Some (a, rest)) -> follows (k a) (q a) c) ->
  follows (m ≫= k) (pbind p q) c.
Proof.
  intros Hm Hke Hk r inp Hr Hb. specialize (Hm r inp Hr Hb). unfold pbind.
  destruct (p inp) as [[[a mid]|]| |] eqn:Hp.
  - destruct Hm as (r1 & b1 & -> & He1 & Ha1 & Hr1). pose proof Hb as [_ Hb2]%Forall_app.
    specialize (Hk _ a mid Hb Hp r1 mid Hr1 Hb2). destruct (q a mid) as [[[d rest]|]| |].
    + destruct Hk as (r2 & b2 & -> & He2 & Ha2 & Hr2). exists r2, (b1 ++ b2).
      rewrite <- app_assoc, (bind_done _ _ _ _ _ He1). split_and!; [done|done| |done].
      eapply advance_trans; [apply Hr|done|done].
    + destruct Hk as (r2 & He2 & Herr). exists r2. by rewrite (bind_done _ _ _ _ _ He1).
    + by rewrite (bind_done _ _ _ _ _ He1).
    + by rewrite (bind_done _ _ _ _ _ He1).
  - destruct Hm as (r1 & He1 & Herr). exists r1. by rewrite (bind_done _ _ _ _ _ He1), Hke.
  - unfold mbind, st_bind. by rewrite Hm.
  - unfold mbind, st_bind. by rewrite Hm.
Qed.

(** A read followed by a computation on the bytes read. *)
Lemma follows_read_then {A} n (k : option (list Z) -> st (rio B) A) (g : list Z -> A) a :
  0 <= n < 2 ^ 61 -> k None = mret a ->
  (forall bs r, zl bs = n -> Forall is_byte bs -> k (Some bs) r = Done (r, g bs)) ->
  follows (rioRead n ≫= k) (pmap g (take_n n)) a.
Proof.
  intros Hn Hnone Hsome. eapply follows_ext; [|eapply follows_bind; [by apply follows_read|exact Hnone|]].
  { instantiate (1 := fun x => match x with Some bs => pret (g bs) | None => pabort end).
    intros inp. unfold pmap, pbind, take_n. by destruct (n <=? zl inp). }
  intros inp x rest Hb. unfold pmap, take_n. destruct (Z.leb_spec n (zl inp)); [|done]. intros [= <- <-].
  intros r t Hr Ht. unfold pret. eexists r, []. split_and!; [done| |apply advance_nil, Hr|done].
  apply Hsome; [rewrite length_take; lia|by apply Forall_take].
Qed.

Lemma kind_bits b : is_byte b ->
  Z.shiftr (Z.land b 0xC0) 6 = b / 64 /\ Z.land b 0x3F = b mod 64.
Proof.
  intros Hb. split; [|change 0x3F with (Z.ones 6); by rewrite Z.land_ones by done].
  apply Z.bits_inj'. intros i Hi. change 64 with (2 ^ 6). rewrite <- (Z.shiftr_div_pow2 b 6), !Z.shiftr_spec, Z.land_spec by done.
  destruct (Z.le_gt_cases 2 i); [rewrite (testbit_above b 8) by (unfold is_byte in Hb; lia); done|].
  assert (i = 0 \/ i = 1) as [-> | ->] by lia; by rewrite andb_comm.
Qed.

Lemma one_byte (bs : list Z) : zl bs = 1 -> exists b, bs = [b].
Proof. destruct bs as [|b [|]]; simpl; intros; [lia|by exists b|lia]. Qed.

Lemma intrev_be_decode bs (n : nat) g : zl bs = Z.of_nat n -> Forall is_byte bs ->
  (forall x rest, length x = n -> g (x ++ rest) = Some (reverse x ++ rest)) ->
  (x ← g (le_encode n (le_decode bs)); Some (le_decode x)) = Some (be_decode bs).
Proof.
  intros Hl Hb Hg. assert (length bs = n) as <- by lia. rewrite le_encode_decode by done.
  pose proof (Hg bs [] eq_refl) as E. rewrite !app_nil_r in E. by rewrite E.
Qed.

Definition len_result (x : option (bool * Z)) : Z * bool * Z :=
  match x with Some (e, len) => (0, e, len) | None => (-1, false, 0) end.

Lemma pmap_pbind {A A' C} (g : A' -> C) (p : parser A) (q : A -> parser A') inp :
  pmap g (pbind p q) inp = pbind p (fun a => pmap g (q a)) inp.
Proof. unfold pmap, pbind. by destruct (p inp) as [[[a rest]|]| |]. Qed.

Lemma rdbLoadLenByRef_follows : follows rdbLoadLenByRef (pmap (fun x => len_result (Some x)) parse_len) (len_result None).
Proof.
  eapply follows_ext; [|eapply (follows_bind _ (pmap Some (take_n 1)) None); [by apply follows_read|done|]].
  { instantiate (1 := fun x => match x with
      | Some (b :: _) =>
        if b <? 64 then pret (0, false, b)
        else if b <? 128 then pmap (fun bs => (0, false, (b - 64) * 256 + be_decode bs)) (take_n 1)
        else if b =? 0x80 then pmap (fun bs => (0, false, be_decode bs)) (take_n 4)
        else if b =? 0x81 then pmap (fun bs => (0, false, be_decode bs)) (take_n 8)
        else if b <? 192 then pabort else pret (0, true, b - 192)
      | _ => pabort end).
    intros [|b t]; [done|]. unfold parse_len, pmap, pbind.
    change (take_n 1 (b :: t)) with (take_n 1 ([b] ++ t)). rewrite take_n_app by done.
    destruct (b <? 64), (b <? 128), (b =? 128), (b =? 129), (b <? 192); try done; unfold take_n;
      match goal with |- context [?n <=? zl t] => by destruct (n <=? zl t) end. }
  intros inp x rest Hb. unfold pmap, take_n. destruct (Z.leb_spec 1 (zl inp)); [|done]. intros [= <- <-].
  destruct inp as [|b t]; [simpl in *; lia|]. apply Forall_cons in Hb as [Hb _]. destruct (kind_bits b Hb) as [Hk Hm].
  change (take (Z.to_nat 1) (b :: t)) with [b]. cbn [head].
  apply follows_lift. cbv beta zeta. rewrite Hk, Hm. unfold is_byte in Hb.
  destruct (Z.ltb_spec b 64).
  { rewrite (Z.div_small b), (Z.mod_small b) by lia. apply follows_ret. }
  destruct (Z.ltb_spec b 128).
  { assert (b / 64 = 1) as -> by dlia. cbn [Z.eqb Pos.eqb]. apply follows_read_then; [lia|done|].
    intros bs r Hl Hbs. destruct (one_byte bs Hl) as [c ->]. apply Forall_cons in Hbs as [Hbs _]. cbn [head].
    rewrite bind_lift. unfold mret, st_ret, be_decode. change (le_decode (reverse [c])) with (c + 256 * 0).
    assert (b mod 64 = b - 64) as -> by dlia. rewrite Z.lor_comm, lor_shift_add by (done || exact Hbs).
    do 3 f_equal. change (2 ^ 8) with 256. lia. }
  assert (b / 64 = 2 \/ b / 64 = 3) as [E|E] by dlia; rewrite E; cbn [Z.eqb Pos.eqb].
  2: { rewrite (proj2 (Z.eqb_neq b 128)), (proj2 (Z.eqb_neq b 129)), (proj2 (Z.ltb_ge b 192)) by dlia.
       replace (b mod 64) with (b - 192) by dlia. apply follows_ret. }
  destruct (Z.eqb_spec b 128).
  { apply follows_read_then; [lia|done|]. intros bs r Hl Hbs. unfold intrev32.
    by rewrite (intrev_be_decode bs 4 memrev32 Hl Hbs memrev32_spec). }
  destruct (Z.eqb_spec b 129).
  { apply follows_read_then; [lia|done|]. intros bs r Hl Hbs. unfold ntohu64, intrev64.
    by rewrite (intrev_be_decode bs 8 memrev64 Hl Hbs memrev64_spec). }
  rewrite (proj2 (Z.ltb_lt b 192)) by dlia. apply follows_abort.
Qed.

Lemma rdbLoadLen_follows : follows rdbLoadLen parse_len (false, RDB_LENERR).
Proof.
  eapply follows_ext; [|eapply follows_bind; [apply rdbLoadLenByRef_follows|done|]].
  { instantiate (1 := fun x => pret (x.1.2, x.2)). intros inp. unfold pbind, pmap.
    by destruct (parse_len inp) as [[[[e len] rest]|]| |]. }
  intros inp x rest Hb. unfold pmap. destruct (parse_len inp) as [[[[e len] rest']|]| |]; try done.
  intros [= <- <-]. apply follows_ret.
Qed.

End readers.

(** ** Allocation *)

(** A block too small for the header it should hold. *)
Lemma mwrite_out b off bs : zl b < off + zl bs -> mwrite b off bs = None.
Proof. intros Hb. unfold mwrite. by rewrite bool_decide_eq_false_2 by lia. Qed.

(** The size computation of [sdsnewlen] wraps around for the largest lengths,
    and the header is then written outside the block. *)
Lemma sdsnewlen_overflow fill n : 2 ^ 64 - 18 <= n < 2 ^ 64 -> Sds.sdsnewlen fill Sds.SDS_NOINIT n = None.
Proof.
  intros Hn. unfold Sds.sdsnewlen, Sds.sdsReqType.
  rewrite !(proj2 (Z.ltb_ge n _)) by (vm_compute Z.shiftl; mlia). change (Sds.SDS_TYPE_64 =? Sds.SDS_TYPE_5) with false.
  cbn [andb]. change (Sds.sdsHdrSize Sds.SDS_TYPE_64) with 17. change (Sds.field_width Sds.SDS_TYPE_64) with (Some 8%nat). cbn iota.
  assert (u64 (17 + n + 1) = n + 18 - 2 ^ 64) as ->.
  { unfold uwrap. replace (17 + n + 1) with (n + 18 - 2 ^ 64 + 1 * 2 ^ 64) by lia. rewrite Z.mod_add by done. apply Z.mod_small. mlia. }
  set (b := Sds.s_malloc fill (n + 18 - 2 ^ 64)).
  assert (zl b = n + 18 - 2 ^ 64) as Hb by (unfold b, Sds.s_malloc; rewrite length_mresize; lia).
  unfold Sds.set_hdr_len, Sds.set_hdr_alloc. cbn [Sds.blk Sds.off].
  destruct (mwrite b (17 - (Z.of_nat 8 + Z.of_nat 8 + 1)) (le_encode 8 n)) as [b1|] eqn:E1; [|done]. bsimpl. cbn [Sds.blk Sds.off].
  destruct (mwrite b1 (17 - (Z.of_nat 8 + 1)) (le_encode 8 n)) as [b2|] eqn:E2; [|done]. bsimpl.
  pose proof (mwrite_length _ _ _ _ E1) as L1. pose proof (mwrite_length _ _ _ _ E2) as L2.
  unfold Sds.set_flags. cbn [Sds.blk Sds.off].
  destruct (mwrite b2 (17 - 1) [u8 Sds.SDS_TYPE_64]) as [b3|] eqn:E3; [|done]. bsimpl.
  pose proof (mwrite_length _ _ _ _ E3) as L3. unfold Sds.put_bytes. cbn [Sds.blk Sds.off].
  change (Sds.SDS_TYPE_64 =? Sds.SDS_TYPE_5) with false. bsimpl. cbn [Sds.blk Sds.off].
  rewrite mwrite_out; [reflexivity|]. cbn [length]. rewrite L3, L2, L1, Hb. mlia.
Qed.

Section allocation.
Context {B : Type} (fill : nat -> Z) (limit : Z).

(** What a new sds of [len] bytes leads to. *)
Definition alloc_sds (len : Z) : outcome unit :=
  if 2 ^ 64 - 18 <=? len then Undef
  else if sds_size len <=? limit then Done tt else Abort.

Lemma sds_size_plain len : 0 <= len < 2 ^ 64 - 18 -> len + 2 <= sds_size len <= len + 18.
Proof.
  intros Hl. unfold sds_size. destruct (Sds.sdsReqType_spec len) as (Ht & _); [mlia|].
  set (t := if (Sds.sdsReqType len =? Sds.SDS_TYPE_5) && (len =? 0) then Sds.SDS_TYPE_8 else Sds.sdsReqType len).
  assert (Sds.is_type t) as Ht'.
  { unfold t. destruct ((Sds.sdsReqType len =? Sds.SDS_TYPE_5) && (len =? 0)); [|done]. by unfold Sds.is_type, Sds.SDS_TYPE_8. }
  pose proof (Sds.sdsHdrSize_bound t Ht'). rewrite uwrap_small by mlia. lia.
Qed.

Lemma sds_size_wrapped len : 2 ^ 64 - 18 <= len < 2 ^ 64 -> sds_size len <= 17.
Proof.
  intros Hn. unfold sds_size, Sds.sdsReqType.
  rewrite !(proj2 (Z.ltb_ge len _)) by (vm_compute Z.shiftl; mlia). change (Sds.SDS_TYPE_64 =? Sds.SDS_TYPE_5) with false.
  cbn [andb]. change (Sds.sdsHdrSize Sds.SDS_TYPE_64) with 17.
  unfold uwrap. replace (17 + len + 1) with (len + 18 - 2 ^ 64 + 1 * 2 ^ 64) by lia. rewrite Z.mod_add by done.
  rewrite Z.mod_small by mlia. mlia.
Qed.

Lemma new_sds_noinit len : 0 <= len < 2 ^ 62 -> exists junk, Object.new_sds fill Sds.SDS_NOINIT len = Some junk /\ zl junk = len.
Proof.
  intros Hl. unfold Object.new_sds.
  destruct (Sds.sdsnewlen_rep fill Sds.SDS_NOINIT len Hl) as (t & c & -> & Ht & Hc); [done|]. bsimpl. cbn in Hc.
  rewrite (Sds.get_bytes_rep _ _ _ _ _ Ht) by lia. eexists. split; [done|]. rewrite drop_0, length_take. lia.
Qed.

Context (Hlim : 64 <= limit < 2 ^ 61).

Lemma sdsnewlen_noinit_spec (l : ld (B := B)) len : in_u 64 len ->
  match alloc_sds len with
  | Done _ => len < 2 ^ 61 /\ exists junk, sdsnewlen_noinit fill limit len l = Done (l, junk) /\ zl junk = len
  | Abort => sdsnewlen_noinit fill limit len l = Abort
  | Undef => sdsnewlen_noinit fill limit len l = Undef
  end.
Proof using Hlim.
  intros Hl. unfold alloc_sds, sdsnewlen_noinit. destruct (Z.leb_spec (2 ^ 64 - 18) len) as [Hw|Hw].
  - pose proof (sds_size_wrapped len ltac:(unfold in_u in *; lia)). rewrite (proj2 (Z.leb_le _ limit)) by lia.
    unfold assert. rewrite bind_ret. unfold Object.new_sds. by rewrite sdsnewlen_overflow by (unfold in_u in *; lia).
  - pose proof (sds_size_plain len ltac:(unfold in_u in *; lia)).
    destruct (Z.leb_spec (sds_size len) limit); [|done]. split; [lia|].
    destruct (new_sds_noinit len) as (junk & E & Hj); [unfold in_u in *; mlia|]. exists junk. by rewrite E.
Qed.

Lemma zmalloc_spec (l : ld (B := B)) n : 0 <= n ->
  if n <=? limit then exists junk, zmalloc fill limit n l = Done (l, junk) /\ zl junk = n
  else zmalloc fill limit n l = Abort.
Proof.
  intros Hn. unfold zmalloc. destruct (n <=? limit); [|done]. eexists. split; [done|].
  rewrite length_fmap, length_seq. lia.
Qed.

End allocation.

(** ** Strings *)

Section grammar.
Context (limit flags : Z).

Definition is_plain : bool := has_flag flags RDB_LOAD_PLAIN.
Definition is_sds : bool := has_flag flags RDB_LOAD_SDS.
Definition is_encode : bool := has_flag flags RDB_LOAD_ENC.

Definition pnone {A} : parser A := fun _ => Done None.

(** The allocation of the target comes before the bytes are read. *)
Definition palloc {A} (o : outcome unit) (p : parser A) : parser A := fun inp =>
  match o with Done _ => p inp | Abort => Abort | Undef => Undef end.

Definition alloc_block (n : Z) : outcome unit := if n <=? limit then Done tt else Abort.

Definition alloc_target (len : Z) : outcome unit :=
  if is_plain then alloc_block len
  else if negb is_sds && is_encode && (len <=? Object.OBJ_ENCODING_EMBSTR_SIZE_LIMIT) then Done tt
  else alloc_sds limit len.

(** The kinds 0, 1 and 2: little-endian integers of one, two and four bytes. *)
Definition int_size (kind : Z) : Z := if kind =? 0 then 1 else if kind =? 1 then 2 else 4.
Definition parse_int (kind : Z) : parser Z :=
  pmap (fun bs => swrap (8 * int_size kind) (le_decode bs)) (take_n (int_size kind)).

(** What LZF data stands for.  The empty input is read out of bounds. *)
Definition decompressed (c : list Z) (len : Z) : parser (list Z * Z) := fun inp =>
  match Lzf.lzf_decompress (take (Z.to_nat (u32 (zl c))) c) (u32 len) with
  | None => Undef
  | Some (n, out) => if n =? 0 then Abort else Done (Some ((out, len), inp))
  end.

Definition parse_lzf : parser (list Z * Z) :=
  pbind parse_len (fun '(_, clen) =>
  if clen =? RDB_LENERR then pnone
  else pbind parse_len (fun '(_, len) =>
  if len =? RDB_LENERR then pnone
  else palloc (alloc_block clen)
      (palloc (if is_plain then alloc_block len else alloc_sds limit len)
      (pbind (take_n clen) (fun c => decompressed c len))))).

(** A string: the bytes read and its length, which is larger when compressed
    data was shorter than announced. *)
Definition parse_string : parser (list Z * Z) :=
  pbind parse_len (fun '(special, len) =>
  if special : bool then
    if (len =? 0) || (len =? 1) || (len =? 2) then pmap (fun v => (decimal v, zl (decimal v))) (parse_int len)
    else if len =? 3 then parse_lzf
    else pabort
  else if len =? RDB_LENERR then pnone
  else palloc (alloc_target len) (pmap (fun bs => (bs, len)) (take_n len))).

End grammar.

Section loading.
Context {B : Type} `{RioReader B} (f : Z -> list Z -> Z) (sv : Object.server) (fill : nat -> Z) (limit : Z).
Context (Hlim : 64 <= limit < 2 ^ 61) (flags : Z).
Abbreviation ld := (ld (B := B)).

(** What the caller is handed: a value of the kind asked for that holds [bs];
    an object comes with one reference, and no other object has changed. *)
Definition delivers (refs : Z -> Z) (h h' : Object.hst) (v : loaded) (bs : list Z) : Prop :=
  match v with
  | LNull => False
  | LPlain b => is_plain flags = true /\ b = bs /\ h' = h
  | LSds b => is_plain flags = false /\ is_sds flags = true /\ b = bs /\ h' = h
  | LObj a => is_plain flags = false /\ is_sds flags = false /\
      Object.inv h' (Object.give refs a 1) /\ Object.keeps h h' /\ Object.has h' a bs
  end.

(** [m] loads a string as the grammar [p] says. *)
Definition loads (m : st ld loaded) (p : parser (list Z * Z)) : Prop :=
  forall l refs inp, reading f (stream l) inp -> Forall is_byte inp -> Object.inv (objs l) refs ->
  match p inp with
  | Done (Some ((out, len), rest)) =>
      exists l' v bs used, inp = used ++ rest /\ m l = Done (l', v) /\
        advance f (stream l) (stream l') used /\ reading f (stream l') rest /\
        delivers refs (objs l) (objs l') v bs /\ zl bs = len /\ take (length out) bs = out
  | Done None => exists l', m l = Done (l', LNull) /\ Object.inv (objs l') refs /\ Object.keeps (objs l) (objs l')
  | Abort => m l = Abort
  | Undef => m l = Undef
  end.

Lemma on_stream_done {A} (m : st (rio B) A) (l : ld) r a :
  m (stream l) = Done (r, a) -> on_stream m l = Done (mkLd r (objs l), a).
Proof. intros E. unfold on_stream. by rewrite E. Qed.

Lemma on_heap_done {A} (m : st Object.hst A) (l : ld) h a :
  m (objs l) = Done (h, a) -> on_heap m l = Done (mkLd (stream l) h, a).
Proof. intros E. unfold on_heap. by rewrite E. Qed.

Lemma loads_none : loads (mret LNull) pnone.
Proof. intros l refs inp _ _ Hi. exists l. split_and!; [done|done|apply Object.keeps_refl]. Qed.

Lemma loads_abort : loads abort pabort.
Proof. by intros l refs inp _ _ Hi. Qed.

Lemma loads_ext m p q : (forall inp, p inp = q inp) -> loads m p -> loads m q.
Proof. intros Hpq Hm l refs inp Hr Hb Hi. rewrite <- Hpq. by apply Hm. Qed.

Lemma loads_bind {A} (m : st (rio B) A) p e (k : A -> st ld loaded) q :
  follows f m p e -> (forall l, k e l = Done (l, LNull)) ->
  (forall inp a rest, Forall is_byte inp -> p inp = Done (Some (a, rest)) -> loads (k a) (q a)) ->
  loads (on_stream m ≫= k) (pbind p q).
Proof.
  intros Hm Hke Hk l refs inp Hr Hb Hi. specialize (Hm (stream l) inp Hr Hb). unfold pbind.
  destruct (p inp) as [[[a mid]|]| |] eqn:Hp.
  - destruct Hm as (r1 & b1 & -> & He1 & Ha1 & Hr1). pose proof Hb as [_ Hb2]%Forall_app.
    rewrite (bind_done _ _ _ _ _ (on_stream_done _ _ _ _ He1)).
    specialize (Hk _ a mid Hb Hp (mkLd r1 (objs l)) refs mid Hr1 Hb2 Hi). destruct (q a mid) as [[[[out len] rest]|]| |]; [|done..].
    destruct Hk as (l' & v & bs & used & -> & He2 & Ha2 & Hrest). exists l', v, bs, (b1 ++ used).
    rewrite <- app_assoc. split_and!; [done|done| |apply Hrest..]. eapply advance_trans; [apply Hr|done|done].
  - destruct Hm as (r1 & He1 & Herr). exists (mkLd r1 (objs l)).
    rewrite (bind_done _ _ _ _ _ (on_stream_done _ _ _ _ He1)), Hke. split_and!; [done|done|apply Object.keeps_refl].
  - unfold mbind, st_bind, on_stream. by rewrite Hm.
  - unfold mbind, st_bind, on_stream. by rewrite Hm.
Qed.

(** A result that needs no more input. *)
Lemma loads_value m out bs len : zl bs = len -> take (length out) bs = out ->
  (forall (l : ld) refs, Object.inv (objs l) refs -> exists h v, m l = Done (mkLd (stream l) h, v) /\ delivers refs (objs l) h v bs) ->
  loads m (pret (out, len)).
Proof.
  intros Hl Ho Hm l refs inp Hr Hb Hi. destruct (Hm l refs Hi) as (h & v & He & Hd).
  exists (mkLd (stream l) h), v, bs, []. split_and!; [done|done|apply advance_nil, Hr|done|done|done|done].
Qed.

Lemma loads_eqv m m' p : (forall l, m l = m' l) -> loads m' p -> loads m p.
Proof.
  intros He Hm l refs inp Hr Hb Hi. specialize (Hm l refs inp Hr Hb Hi). by rewrite He.
Qed.

(** *** Integers *)

Lemma mwrite_all (old new : list Z) : length new = length old -> mwrite old 0 new = Some new.
Proof. intros Hl. pose proof (mwrite_head old [] 0 new eq_refl Hl) as E. by rewrite !app_nil_r in E. Qed.

Definition int_value (val : Z) : st ld loaded :=
  if is_plain flags || is_sds flags then
    '(buf, len) ← lift (ll2string (fill <$> seq 0 (Z.to_nat LONG_STR_SIZE)) LONG_STR_SIZE val);
    p ← (if is_plain flags then zmalloc fill limit len else sdsnewlen_noinit fill limit len);
    bs ← lift (mread buf 0 (Z.to_nat len));
    p ← lift (mwrite p 0 bs);
    mret (if is_plain flags then LPlain p else LSds p)
  else if is_encode flags then a ← on_heap (Object.createStringObjectFromLongLongForValue sv fill val); mret (LObj a)
  else
    t ← lift (Sds.sdsfromlonglong fill val);
    l ← lift (Sds.sdslen t); bs ← lift (Sds.get_bytes t 0 (Z.to_nat l));
    a ← on_heap (Object.createObject sv Object.OBJ_STRING (Object.PSds bs 0)); mret (LObj a).

Lemma int_value_delivers val (l : ld) refs : in_s 32 val -> Object.inv (objs l) refs ->
  exists h v, int_value val l = Done (mkLd (stream l) h, v) /\ delivers refs (objs l) h v (decimal val).
Proof using Hlim.
  intros Hv Hi. assert (in_s 64 val) as Hv64 by mlia. unfold int_value. pose proof (length_decimal val Hv64) as Hlen.
  destruct (is_plain flags) eqn:Ep; [|destruct (is_sds flags) eqn:Es]; cbn [orb].
  1, 2: destruct (ll2string_fits (fill <$> seq 0 (Z.to_nat LONG_STR_SIZE)) LONG_STR_SIZE val Hv64) as (rest & -> & _);
    [rewrite length_fmap, length_seq; unfold LONG_STR_SIZE; lia|by rewrite length_fmap, length_seq|]; rewrite bind_lift; cbn beta iota.
  - pose proof (zmalloc_spec (B := B) fill limit l (zl (decimal val)) ltac:(lia)) as Hz.
    rewrite (proj2 (Z.leb_le _ limit)) in Hz by lia. destruct Hz as (junk & Hz & Hj). rewrite (bind_done _ _ _ _ _ Hz).
    rewrite mread_head, bind_lift by lia. rewrite mwrite_all, bind_lift by lia. exists (objs l). eexists. split; [by destruct l|by cbn [delivers]; split_and!].
  - pose proof (sdsnewlen_noinit_spec (B := B) fill limit Hlim l (zl (decimal val)) ltac:(mlia)) as Hz.
    unfold alloc_sds in Hz. rewrite (proj2 (Z.leb_gt _ _)) in Hz by lia.
    pose proof (sds_size_plain (zl (decimal val)) ltac:(lia)). rewrite (proj2 (Z.leb_le _ limit)) in Hz by lia.
    destruct Hz as (_ & junk & Hz & Hj). rewrite (bind_done _ _ _ _ _ Hz).
    rewrite mread_head, bind_lift by lia. rewrite mwrite_all, bind_lift by lia. exists (objs l). eexists. split; [by destruct l|by cbn [delivers]; split_and!].
  - destruct (is_encode flags).
    + destruct (Object.create_ll_gives sv fill (objs l) refs Hi val true Hv64) as [(s' & a & He & Hi' & Hk & _ & Hh) _].
      rewrite (bind_done _ _ _ _ _ (on_heap_done _ _ _ _ He)). eexists _, _. split; [done|]. by split_and!.
    + destruct (Sds.sdsfromlonglong_rep fill val) as (t & -> & Ht); [mlia|mlia|]. rewrite bind_lift, (Sds.sdslen_rep _ _ _ Ht), bind_lift.
      rewrite (Sds.get_bytes_rep _ _ _ _ _ Ht), bind_lift by lia. rewrite drop_0, Nat2Z.id, firstn_all.
      destruct (Object.gives_new refs (decimal val) (objs l) (Object.mkObj Object.OBJ_STRING Object.OBJ_ENCODING_RAW (Object.initial_lru sv) 1 (Object.PSds (decimal val) 0)) Hi)
        as (s' & a & He & Hi' & Hk & _ & Hh); [split; [done|mlia]|done|done|].
      rewrite (bind_done _ _ _ _ _ (on_heap_done _ _ _ _ He)). eexists _, _. split; [done|]. by split_and!.
Qed.

Lemma bytes_le (bs : list Z) n : zl bs = n -> Forall is_byte bs -> n = 1 \/ n = 2 \/ n = 4 ->
  match bs with
  | [a] => le_decode bs = a
  | [a; b] => le_decode bs = Z.lor a (Z.shiftl b 8)
  | [a; b; c; d] => le_decode bs = Z.lor (Z.lor (Z.lor a (Z.shiftl b 8)) (Z.shiftl c 16)) (Z.shiftl d 24)
  | _ => False
  end.
Proof.
  intros Hl Hb Hn. destruct bs as [|a [|b [|c [|d [|]]]]]; try (cbn [length] in Hl; lia);
    repeat apply Forall_cons in Hb as [? Hb]; unfold is_byte in *; cbn [le_decode].
  - lia.
  - rewrite lor_shift_add by (eval_pow; lia). eval_pow. lia.
  - rewrite (lor_shift_add _ _ 8) by (eval_pow; lia). rewrite (lor_shift_add _ _ 16) by (eval_pow; lia).
    rewrite (lor_shift_add _ _ 24) by (eval_pow; lia). eval_pow. lia.
Qed.

(** A read of [n] bytes that are then turned into a value. *)
Lemma loads_read n (k : option (list Z) -> st ld loaded) (g : list Z -> list Z) :
  0 <= n < 2 ^ 61 -> (forall l, k None l = Done (l, LNull)) ->
  (forall bs, zl bs = n -> Forall is_byte bs -> loads (k (Some bs)) (pret (g bs, zl (g bs)))) ->
  loads (on_stream (rioRead n) ≫= k) (pmap (fun bs => (g bs, zl (g bs))) (take_n n)).
Proof.
  intros Hn Hnone Hsome. eapply loads_ext; [|eapply loads_bind; [by apply follows_read|exact Hnone|]].
  { instantiate (1 := fun x => match x with Some bs => pret (g bs, zl (g bs)) | None => pabort end).
    intros inp. unfold pmap, pbind, take_n. by destruct (n <=? zl inp). }
  intros inp x rest Hb. unfold pmap, take_n. destruct (Z.leb_spec n (zl inp)); [|done]. intros [= <- <-].
  apply Hsome; [rewrite length_take; lia|by apply Forall_take].
Qed.

Lemma swrap_in_s32 n bs : n = 1 \/ n = 2 \/ n = 4 -> in_s 32 (swrap (8 * n) (le_decode bs)).
Proof.
  intros Hn. pose proof (swrap_range (8 * n) (le_decode bs) ltac:(lia)) as Hr. destruct Hn as [ -> | [ -> | -> ]]; mlia.
Qed.

Lemma rdbLoadIntegerObject_loads kind : kind = 0 \/ kind = 1 \/ kind = 2 ->
  loads (rdbLoadIntegerObject sv fill limit kind flags) (pmap (fun v => (decimal v, zl (decimal v))) (parse_int kind)).
Proof using Hlim.
  intros Hk. set (n := int_size kind).
  assert (n = 1 \/ n = 2 \/ n = 4) as Hn by (subst n; destruct Hk as [ -> | [ -> | -> ]]; vm_compute; eauto).
  pose (g := fun bs => decimal (swrap (8 * n) (le_decode bs))).
  apply (loads_ext _ (pmap (fun bs => (g bs, zl (g bs))) (take_n n))).
  { intros inp. unfold parse_int, pmap, take_n. fold n. by destruct (n <=? zl inp). }
  unfold rdbLoadIntegerObject. fold (is_plain flags) (is_sds flags) (is_encode flags).
  destruct Hk as [ -> | [ -> | -> ]]; subst n; cbn [int_size Z.eqb Pos.eqb] in *;
    cbn [Z.eqb Pos.eqb]; (eapply loads_eqv; [intros l; apply bind_assoc|]); (apply loads_read; [lia|done|]); intros bs Hl Hb;
    (eapply loads_value; [done|apply firstn_all|]); intros l refs Hi.
  - pose proof (bytes_le bs 1 Hl Hb Hn) as Hle; destruct bs as [|a [|b [|c [|d [|]]]]]; try (cbn [length] in Hl; lia).
    match goal with |- context [?m l] => change (m l) with (int_value (s8 a) l) end.
    pose proof (swrap_in_s32 1 [a] Hn) as Hv. unfold g. rewrite Hle in Hv |- *. change (8 * 1) with 8 in *.
    by apply int_value_delivers.
  - pose proof (bytes_le bs 2 Hl Hb Hn) as Hle; destruct bs as [|a [|b [|c [|d [|]]]]]; try (cbn [length] in Hl; lia).
    match goal with |- context [?m l] => change (m l) with (int_value (s16 (u16 (Z.lor a (Z.shiftl b 8)))) l) end.
    pose proof (swrap_in_s32 2 [a; b] Hn) as Hv. unfold g. rewrite Hle in Hv |- *. change (8 * 2) with 16 in *.
    rewrite swrap_uwrap by done. by apply int_value_delivers.
  - pose proof (bytes_le bs 4 Hl Hb Hn) as Hle; destruct bs as [|a [|b [|c [|d [|]]]]]; try (cbn [length] in Hl; lia).
    match goal with |- context [?m l] => change (m l) with (int_value (s32 (u32 (Z.lor (Z.lor (Z.lor a (Z.shiftl b 8)) (Z.shiftl c 16)) (Z.shiftl d 24)))) l) end.
    pose proof (swrap_in_s32 4 [a; b; c; d] Hn) as Hv. unfold g. rewrite Hle in Hv |- *. change (8 * 4) with 32 in *.
    rewrite swrap_uwrap by done. by apply int_value_delivers.
Qed.

(** *** Compressed strings *)

Lemma loads_block n (k : list Z -> st ld loaded) p : 0 <= n ->
  (forall junk, zl junk = n -> n <= limit -> loads (k junk) p) ->
  loads (zmalloc fill limit n ≫= k) (palloc (alloc_block limit n) p).
Proof.
  intros Hn Hk l refs inp Hr Hb Hi. pose proof (zmalloc_spec (B := B) fill limit l n Hn) as Hz.
  unfold palloc, alloc_block. destruct (Z.leb_spec n limit).
  - destruct Hz as (junk & Hz & Hj). rewrite (bind_done _ _ _ _ _ Hz). by apply Hk.
  - unfold mbind, st_bind. by rewrite Hz.
Qed.

Lemma loads_sds n (k : list Z -> st ld loaded) p : in_u 64 n ->
  (forall junk, zl junk = n -> n < 2 ^ 61 -> loads (k junk) p) ->
  loads (sdsnewlen_noinit fill limit n ≫= k) (palloc (alloc_sds limit n) p).
Proof using Hlim.
  intros Hn Hk l refs inp Hr Hb Hi. pose proof (sdsnewlen_noinit_spec (B := B) fill limit Hlim l n Hn) as Hz.
  unfold palloc. destruct (alloc_sds limit n).
  - destruct Hz as (Hlt & junk & Hz & Hj). rewrite (bind_done _ _ _ _ _ Hz). by apply Hk.
  - unfold mbind, st_bind. by rewrite Hz.
  - unfold mbind, st_bind. by rewrite Hz.
Qed.

Lemma loads_buffer n (k : list Z -> st ld loaded) p : in_u 64 n ->
  (forall junk, zl junk = n -> n < 2 ^ 61 -> loads (k junk) p) ->
  loads ((if is_plain flags then zmalloc fill limit n else sdsnewlen_noinit fill limit n) ≫= k)
    (palloc (if is_plain flags then alloc_block limit n else alloc_sds limit n) p).
Proof using Hlim.
  intros Hn Hk. destruct (is_plain flags); [|by apply loads_sds].
  apply loads_block; [unfold in_u in Hn; lia|]. intros junk Hj Hl. apply Hk; [done|lia].
Qed.

(** The last step of loading: the bytes [val] become the result. *)
Definition hand_over (val : list Z) : st ld loaded :=
  if is_plain flags then mret (LPlain val)
  else if is_sds flags then mret (LSds val)
  else a ← on_heap (Object.createObject sv Object.OBJ_STRING (Object.PSds val 0)); mret (LObj a).

Lemma hand_over_delivers val (l : ld) refs : zl val < 2 ^ 62 -> Object.inv (objs l) refs ->
  exists h v, hand_over val l = Done (mkLd (stream l) h, v) /\ delivers refs (objs l) h v val.
Proof.
  intros Hl Hi. unfold hand_over. destruct (is_plain flags) eqn:Ep; [|destruct (is_sds flags) eqn:Es].
  - exists (objs l). eexists. split; [by destruct l|by cbn [delivers]; split_and!].
  - exists (objs l). eexists. split; [by destruct l|by cbn [delivers]; split_and!].
  - destruct (Object.gives_new refs val (objs l) (Object.mkObj Object.OBJ_STRING Object.OBJ_ENCODING_RAW (Object.initial_lru sv) 1 (Object.PSds val 0)) Hi)
      as (s' & a & He & Hi' & Hk & _ & Hh); [by split|done|done|].
    rewrite (bind_done _ _ _ _ _ (on_heap_done _ _ _ _ He)). eexists _, _. split; [done|]. by split_and!.
Qed.

Lemma decompress_loads c len junk : zl junk = len -> len < 2 ^ 61 -> Forall is_byte c ->
  loads (c' ← lift (mread c 0 (Z.to_nat (u32 (zl c))));
         '(n, out) ← lift (Lzf.lzf_decompress c' (u32 len));
         if n =? 0 then abort else val ← lift (mwrite junk 0 out); hand_over val)
    (decompressed c len).
Proof.
  intros Hj Hl Hb l refs inp Hr Hbi Hi. unfold decompressed.
  assert (0 <= u32 (zl c) <= zl c) as Hu by (pose proof (uwrap_range 32 (zl c)); split; [mlia|apply Z.mod_le; lia]).
  assert (0 <= u32 len <= len) as Hul by (pose proof (uwrap_range 32 len); split; [mlia|apply Z.mod_le; lia]).
  rewrite mread_Some, drop_0, bind_lift by lia. set (c' := take _ c).
  destruct (decide (c' = [])) as [Hn|Hn]; [rewrite Hn; reflexivity|].
  destruct (Lzf.lzf_decompress_total c' (u32 len)) as (n & out & -> & Ho & Hres); [by apply Forall_take|done|lia|].
  rewrite bind_lift. cbn beta iota. destruct (Z.eqb_spec n 0); [done|]. destruct Hres as [|[_ ->]]; [done|].
  assert (mwrite junk 0 out = Some (out ++ drop (length out) junk)) as -> by (rewrite mwrite_Some by lia; by rewrite take_0).
  rewrite bind_lift. set (val := out ++ drop (length out) junk).
  assert (zl val = len) as Hv by (unfold val; rewrite length_app, length_drop; lia).
  destruct (hand_over_delivers val l refs) as (h & v & He & Hd); [lia|done|].
  exists (mkLd (stream l) h), v, val, []. split_and!; [done|done|apply advance_nil, Hr|done|done|done|]. apply take_app_length.
Qed.

Lemma rdbLoadLzfStringObject_loads : loads (rdbLoadLzfStringObject sv fill limit flags) (parse_lzf limit flags).
Proof using Hlim.
  unfold rdbLoadLzfStringObject, parse_lzf. fold (is_plain flags) (is_sds flags).
  eapply loads_bind; [apply rdbLoadLen_follows|done|]. intros inp1 [e1 clen] r1 Hb1 Hp1.
  destruct (parse_len_rest _ _ _ _ Hb1 Hp1) as (_ & Hc & _). destruct (Z.eqb_spec clen RDB_LENERR); [apply loads_none|].
  eapply loads_bind; [apply rdbLoadLen_follows|intros l; cbn beta iota; reflexivity|]. intros inp2 [e2 len] r2 Hb2 Hp2.
  destruct (parse_len_rest _ _ _ _ Hb2 Hp2) as (_ & Hl & _). destruct (Z.eqb_spec len RDB_LENERR); [apply loads_none|].
  apply loads_block; [unfold in_u in Hc; lia|]. intros _ _ Hcl. apply loads_buffer; [done|]. intros junk Hj Hlen.
  eapply loads_ext; [|eapply loads_bind; [apply (follows_read f clen); unfold in_u in Hc; lia|done|]].
  { instantiate (1 := fun x => match x with Some c => decompressed c len | None => pabort end).
    intros inp. unfold pbind, pmap, take_n. by destruct (clen <=? zl inp). }
  intros inp x rest Hb. unfold pmap, take_n. destruct (Z.leb_spec clen (zl inp)); [|done]. intros [= <- <-].
  assert (zl (take (Z.to_nat clen) inp) = clen) as E by (rewrite length_take; unfold in_u in Hc; lia).
  rewrite <- E at 2. apply decompress_loads; [done|done|by apply Forall_take].
Qed.

(** *** Plain strings *)

Definition string_obj (e : Object.oenc) (bs : list Z) : Object.robj :=
  Object.mkObj Object.OBJ_STRING e (Object.initial_lru sv) 1 (Object.PSds bs 0).

(** The encodings of an object of [len] bytes. *)
Definition enc_fits (e : Object.oenc) (len : Z) : Prop :=
  e = Object.OBJ_ENCODING_RAW \/ e = Object.OBJ_ENCODING_EMBSTR /\ len <= Object.OBJ_ENCODING_EMBSTR_SIZE_LIMIT.

Lemma string_obj_gives e bs s refs : enc_fits e (zl bs) -> zl bs < 2 ^ 62 -> Object.inv s refs ->
  Object.inv (Object.hnew s (string_obj e bs)) (Object.give refs (Object.brk s) 1) /\
  Object.keeps s (Object.hnew s (string_obj e bs)) /\ Object.has (Object.hnew s (string_obj e bs)) (Object.brk s) bs.
Proof.
  intros He Hl Hi. split_and!.
  - apply Object.inv_new; [done| |done]. destruct He as [ -> | [ -> He]]; [by split|exact He].
  - apply Object.keeps_new.
  - exists (string_obj e bs). split; [apply Object.hput_eq|]. by destruct He as [ -> | [ -> _]].
Qed.

Definition alloc_object (len : Z) : outcome unit :=
  if is_encode flags && (len <=? Object.OBJ_ENCODING_EMBSTR_SIZE_LIMIT) then Done tt else alloc_sds limit len.

Lemma create_noinit_spec (l : ld) len : in_u 64 len ->
  match alloc_object len with
  | Done _ => len < 2 ^ 61 /\ exists e junk, enc_fits e len /\ zl junk = len /\
      create_noinit sv fill limit (is_encode flags) len l = Done (mkLd (stream l) (Object.hnew (objs l) (string_obj e junk)), Object.brk (objs l))
  | Abort => create_noinit sv fill limit (is_encode flags) len l = Abort
  | Undef => create_noinit sv fill limit (is_encode flags) len l = Undef
  end.
Proof using Hlim.
  intros Hl. unfold alloc_object, create_noinit, Object.createStringObject.
  pose proof (sdsnewlen_noinit_spec (B := B) fill limit Hlim l len Hl) as Hz. unfold sdsnewlen_noinit in Hz.
  destruct (is_encode flags && (len <=? Object.OBJ_ENCODING_EMBSTR_SIZE_LIMIT)) eqn:Ee; cbn [orb].
  - apply andb_true_iff in Ee as [-> Hs]. rewrite Hs. apply Z.leb_le in Hs. unfold Object.OBJ_ENCODING_EMBSTR_SIZE_LIMIT in Hs.
    split; [mlia|]. exists Object.OBJ_ENCODING_EMBSTR, (fill <$> seq 0 (Z.to_nat len)). unfold in_u in Hl. split_and!.
    + by right.
    + rewrite length_fmap, length_seq. lia.
    + unfold Object.createEmbeddedStringObject, Object.init_bytes. rewrite uwrap_small by mlia.
      unfold assert. rewrite bind_ret. unfold on_heap. rewrite bind_lift, take_ge by (rewrite length_fmap, length_seq; lia). done.
  - assert (forall e, e = is_encode flags -> (if e then if len <=? Object.OBJ_ENCODING_EMBSTR_SIZE_LIMIT
        then Object.createEmbeddedStringObject sv fill Sds.SDS_NOINIT len else Object.createRawStringObject sv fill Sds.SDS_NOINIT len
        else Object.createRawStringObject sv fill Sds.SDS_NOINIT len) = Object.createRawStringObject sv fill Sds.SDS_NOINIT len) as Hc.
    { intros e ->. destruct (is_encode flags); [|done]. cbn [andb] in Ee. by rewrite Ee. }
    rewrite (Hc _ eq_refl). clear Hc. unfold Object.createRawStringObject.
    unfold assert in *. revert Hz. destruct (sds_size len <=? limit).
    + rewrite !bind_ret. unfold on_heap, lift, mbind, st_bind.
      destruct (Object.new_sds fill Sds.SDS_NOINIT len) as [j|]; destruct (alloc_sds limit len); try done.
      * intros (Hlt & junk & [= ->] & Hj). split; [done|]. exists Object.OBJ_ENCODING_RAW, junk. split_and!; [by left|done|done].
      * by intros (_ & junk & Hn & _).
    + destruct (alloc_sds limit len); [|done..]. by intros (_ & junk & Hn & _).
Qed.

Lemma fill_object_done r s e (junk bs : list Z) : length bs = length junk ->
  exists s', fill_object (B := B) (Object.brk s) bs (mkLd r (Object.hnew s (string_obj e junk))) = Done (mkLd r s', tt) /\
    Object.heq (Object.hnew s (string_obj e bs)) s'.
Proof.
  intros Hl. unfold fill_object.
  assert (Object.heap (Object.hnew s (string_obj e junk)) (Object.brk s) = Some (string_obj e junk)) as Ho by apply Object.hput_eq.
  rewrite (bind_done _ _ _ _ _ (on_heap_done _ (mkLd r _) _ _ (Object.load_done _ _ _ Ho))). cbn [Object.ptr string_obj].
  rewrite mwrite_all, bind_lift by done. eexists.
  split; [exact (on_heap_done _ (mkLd r _) _ _ (Object.store_done _ _ _ _ Ho))|]. apply Object.heq_new_set.
Qed.

Lemma discard_spec s e junk refs : enc_fits e (zl junk) -> zl junk < 2 ^ 62 -> Object.inv s refs ->
  exists s', Object.decrRefCount (Object.brk s) (Object.hnew s (string_obj e junk)) = Done (s', tt) /\
    Object.inv s' refs /\ Object.keeps s s'.
Proof.
  intros He Hl Hi. destruct (string_obj_gives e junk s refs He Hl Hi) as (Hi' & Hk & _).
  pose proof (Object.inv_nonneg _ _ Hi (Object.brk s)).
  destruct (Object.decr_spec _ _ (Object.brk s) Hi') as (s' & Hd & Hi2 & Hk2 & _); [rewrite Object.give_eq; lia|].
  exists s'. split; [exact Hd|]. split; [|by eapply Object.keeps_trans].
  eapply Object.inv_ext; [|exact Hi2]. intros a. unfold Object.give. destruct (a =? Object.brk s); lia.
Qed.

(** The bytes of a plain string, then the result. *)
Lemma loads_bytes len (k : option (list Z) -> st ld loaded) : 0 <= len < 2 ^ 61 ->
  (forall l, k None l = Done (l, LNull)) ->
  (forall bs, zl bs = len -> loads (k (Some bs)) (pret (bs, len))) ->
  loads (on_stream (rioRead len) ≫= k) (pmap (fun bs => (bs, len)) (take_n len)).
Proof.
  intros Hl Hn Hk. eapply loads_ext; [|apply (loads_read len k (fun bs => bs)); [done|done|]].
  - intros inp. unfold pmap, take_n. destruct (Z.leb_spec len (zl inp)); [|done]. rewrite length_take. do 4 f_equal. lia.
  - intros bs Hbs _. rewrite Hbs. by apply Hk.
Qed.

Lemma loads_empty len m : len = 0 -> loads m (pret ([], len)) -> loads m (pmap (fun bs => (bs, len)) (take_n len)).
Proof.
  intros -> Hm. eapply loads_ext; [|exact Hm]. intros inp. unfold pmap, take_n. by rewrite (proj2 (Z.leb_le 0 _)) by lia.
Qed.

Lemma load_buffer_loads len : in_u 64 len -> is_plain flags || is_sds flags = true ->
  loads (buf ← (if is_plain flags then zmalloc fill limit len else sdsnewlen_noinit fill limit len);
    if negb (len =? 0) then
      x ← on_stream (rioRead len);
      match x with
      | None => mret LNull
      | Some bs => buf ← lift (mwrite buf 0 bs); mret (if is_plain flags then LPlain buf else LSds buf)
      end
    else mret (if is_plain flags then LPlain buf else LSds buf))
    (palloc (alloc_target limit flags len) (pmap (fun bs => (bs, len)) (take_n len))).
Proof using Hlim.
  intros Hl Hps. replace (alloc_target limit flags len) with (if is_plain flags then alloc_block limit len else alloc_sds limit len)
    by (unfold alloc_target; destruct (is_plain flags), (is_sds flags); done).
  apply loads_buffer; [done|]. intros junk Hj Hlt. unfold in_u in Hl.
  assert (forall bs, zl bs = len -> loads (mret (if is_plain flags then LPlain bs else LSds bs)) (pret (bs, len))) as Hdone.
  { intros bs Hbs. eapply loads_value; [exact Hbs|apply firstn_all|]. intros l refs Hi. exists (objs l). eexists.
    split; [by destruct l|]. destruct (is_plain flags) eqn:Ep; cbn [delivers]; by split_and!. }
  destruct (Z.eqb_spec len 0) as [E|Hne]; cbn [negb].
  - apply loads_empty; [done|]. assert (junk = []) as -> by (destruct junk; [done|simpl in Hj; lia]). by apply Hdone.
  - apply loads_bytes; [lia|done|]. intros bs Hbs. rewrite mwrite_all by lia. by apply Hdone.
Qed.

Lemma load_object_loads len : in_u 64 len -> is_plain flags = false -> is_sds flags = false ->
  loads (o ← create_noinit sv fill limit (is_encode flags) len;
    if negb (len =? 0) then
      x ← on_stream (rioRead len);
      match x with
      | None => _ ← on_heap (Object.decrRefCount o); mret LNull
      | Some bs => _ ← fill_object o bs; mret (LObj o)
      end
    else mret (LObj o))
    (palloc (alloc_target limit flags len) (pmap (fun bs => (bs, len)) (take_n len))).
Proof using Hlim.
  intros Hl Ep Es l refs inp Hr Hb Hi. replace (alloc_target limit flags len) with (alloc_object len)
    by (unfold alloc_target, alloc_object; by rewrite Ep, Es).
  pose proof (create_noinit_spec l len Hl) as Hc. unfold palloc. destruct (alloc_object len); [|unfold mbind, st_bind; by rewrite Hc..].
  destruct Hc as (Hlt & e & junk & He & Hj & Hc). unfold in_u in Hl. rewrite (bind_done _ _ _ _ _ Hc).
  set (h1 := Object.hnew (objs l) (string_obj e junk)). unfold pmap, take_n.
  destruct (Z.eqb_spec len 0) as [E|Hne]; cbn [negb].
  { rewrite (proj2 (Z.leb_le len _)) by lia. assert (junk = []) as -> by (destruct junk; [done|simpl in Hj; lia]). subst len.
    destruct (string_obj_gives e [] (objs l) refs He) as (Hi' & Hk & Hh); [done|done|].
    exists (mkLd (stream l) h1), (LObj (Object.brk (objs l))), [], []. rewrite take_0, drop_0.
    split_and!; [done|done|apply advance_nil, Hr|done|cbn [delivers]; by split_and!|done|done]. }
  pose proof (follows_read f len ltac:(lia) (stream l) inp Hr Hb) as Hf. unfold pmap, take_n in Hf.
  destruct (Z.leb_spec len (zl inp)) as [Hle|Hgt].
  - destruct Hf as (r' & used & Hu & Hrd & Ha & Hr'). rewrite (bind_done _ _ _ _ _ (on_stream_done _ (mkLd (stream l) h1) _ _ Hrd)).
    set (bs := take (Z.to_nat len) inp) in *. assert (zl bs = len) as Hbs by (unfold bs; rewrite length_take; lia). cbn [objs].
    destruct (fill_object_done r' (objs l) e junk bs) as (s' & Hfo & Hq); [lia|]. rewrite (bind_done _ _ _ _ _ Hfo).
    rewrite <- Hbs in He. destruct (string_obj_gives e bs (objs l) refs He) as (Hi' & Hk & Hh); [lia|done|].
    exists (mkLd r' s'), (LObj (Object.brk (objs l))), bs, used. split_and!; [done|done|done|done| |done|apply firstn_all].
    cbn [delivers objs]. split_and!; [done|done|by eapply Object.inv_heq|by eapply Object.keeps_heq|].
    destruct Hh as (o & Ho & Hv). exists o. split; [|done]. rewrite <- Ho. symmetry. apply Hq.
  - destruct Hf as (r' & Hrd & _). rewrite (bind_done _ _ _ _ _ (on_stream_done _ (mkLd (stream l) h1) _ _ Hrd)). cbn [objs].
    rewrite <- Hj in He. destruct (discard_spec (objs l) e junk refs He) as (s' & Hd & Hi' & Hk); [lia|done|].
    rewrite (bind_done _ _ _ _ _ (on_heap_done _ (mkLd r' h1) _ _ Hd)). by exists (mkLd r' s').
Qed.

Lemma rdbGenericLoadStringObject_loads : loads (rdbGenericLoadStringObject sv fill limit flags) (parse_string limit flags).
Proof using Hlim.
  unfold rdbGenericLoadStringObject, parse_string. fold (is_plain flags) (is_sds flags) (is_encode flags).
  eapply loads_bind; [apply rdbLoadLen_follows|done|]. intros inp [special len] rest Hb Hp.
  destruct (parse_len_rest _ _ _ _ Hb Hp) as (_ & Hl & _). destruct special.
  - destruct (Z.eqb_spec len 0), (Z.eqb_spec len 1), (Z.eqb_spec len 2); cbn [orb]; try (apply rdbLoadIntegerObject_loads; lia).
    destruct (len =? 3); [apply rdbLoadLzfStringObject_loads|apply loads_abort].
  - destruct (len =? RDB_LENERR); [apply loads_none|]. destruct (is_plain flags || is_sds flags) eqn:Eps.
    + by apply load_buffer_loads.
    + apply orb_false_iff in Eps as [Ep Es]. by apply load_object_loads.
Qed.

End loading.

(** ** What was saved is read back *)

Lemma alloc_fits limit len : 0 <= len -> sds_size len <= limit -> limit < 2 ^ 61 ->
  len < 2 ^ 64 - 18 -> alloc_sds limit len = Done tt /\ alloc_block limit len = Done tt.
Proof.
  intros H0 Hs Hl Hw. pose proof (sds_size_plain len ltac:(lia)). unfold alloc_sds, alloc_block.
  by rewrite (proj2 (Z.leb_gt _ _)), !(proj2 (Z.leb_le _ limit)) by lia.
Qed.

Lemma parse_encoded_int limit flags v rest : enc_int v <> [] ->
  parse_string limit flags (enc_int v ++ rest) = Done (Some ((decimal v, zl (decimal v)), rest)).
Proof.
  intros Hne. assert (forall kind bs, (kind = 0 \/ kind = 1 \/ kind = 2) -> zl bs = int_size kind -> swrap (8 * int_size kind) (le_decode bs) = v ->
    parse_string limit flags ((192 + kind) :: bs ++ rest) = Done (Some ((decimal v, zl (decimal v)), rest))) as Hp.
  { intros kind bs Hk Hl Hv. unfold parse_string, pbind, parse_len.
    rewrite !(proj2 (Z.ltb_ge _ _)), !(proj2 (Z.eqb_neq _ _)) by lia. replace (192 + kind - 192) with kind by lia.
    assert ((kind =? 0) || (kind =? 1) || (kind =? 2) = true) as -> by (by destruct Hk as [ -> | [ -> | -> ]]).
    unfold parse_int, pmap. by rewrite take_n_app, Hv. }
  revert Hne. unfold enc_int. destruct (Z.leb_spec (-128) v), (Z.leb_spec v 127); cbn [andb].
  1: { intros _. apply (Hp 0 [u8 v]); [lia|done|]. cbn [le_decode]. rewrite Z.mul_0_r, Z.add_0_r. change (8 * int_size 0) with 8.
       rewrite swrap_uwrap, swrap_small by (done || mlia). done. }
  all: destruct (Z.leb_spec (-32768) v), (Z.leb_spec v 32767); cbn [andb]; try lia.
  1, 3: intros _; apply (Hp 1 (le_encode 2 v)); [lia|by rewrite length_le_encode|]; rewrite le_decode_encode;
    change (8 * Z.of_nat 2) with 16; change (8 * int_size 1) with 16; change (v mod 2 ^ 16) with (u16 v);
    rewrite swrap_uwrap, swrap_small by (done || mlia); done.
  all: destruct (Z.leb_spec (-2147483648) v), (Z.leb_spec v 2147483647); cbn [andb]; try lia; try done.
  all: intros _; apply (Hp 2 (le_encode 4 v)); [lia|by rewrite length_le_encode|]; rewrite le_decode_encode;
    change (8 * Z.of_nat 4) with 32; change (8 * int_size 2) with 32; change (v mod 2 ^ 32) with (u32 v);
    rewrite swrap_uwrap, swrap_small by (done || mlia); done.
Qed.

Lemma parse_encoded limit flags s bs rest : encodes s bs -> zl s < 2 ^ 32 -> sds_size (zl s) <= limit < 2 ^ 61 ->
  parse_string limit flags (bs ++ rest) = Done (Some ((s, zl s), rest)).
Proof.
  intros He Hs Hlim. destruct (alloc_fits limit (zl s)) as [Hsds Hblk]; [lia|lia|lia|mlia|].
  destruct He as [v -> Hne|c Hc Hcl Hcb Hd|].
  - by apply parse_encoded_int.
  - unfold parse_string, enc_lzf, pbind. cbn [app]. change (parse_len (195 :: ?t)) with (@Done (option (bool * Z * list Z)) (Some ((true, 3), t))).
    cbn beta iota. change ((3 =? 0) || (3 =? 1) || (3 =? 2)) with false. change (3 =? 3) with true. cbn iota.
    unfold parse_lzf, pbind. rewrite <- !app_assoc, parse_enc_len by mlia.
    rewrite (proj2 (Z.eqb_neq _ _)) by mlia. rewrite parse_enc_len by mlia.
    rewrite (proj2 (Z.eqb_neq _ _)) by mlia. unfold palloc.
    assert (alloc_block limit (zl c) = Done tt) as ->.
    { pose proof (sds_size_plain (zl s) ltac:(lia)). unfold alloc_block. by rewrite (proj2 (Z.leb_le _ _)) by lia. }
    assert ((if is_plain flags then alloc_block limit (zl s) else alloc_sds limit (zl s)) = Done tt) as -> by by destruct (is_plain flags).
    rewrite take_n_app by done. unfold decompressed. rewrite !uwrap_small by mlia. rewrite Nat2Z.id, firstn_all, Hd by lia.
    by rewrite (proj2 (Z.eqb_neq _ _)) by lia.
  - unfold parse_string, enc_raw, pbind. rewrite <- app_assoc, parse_enc_len by mlia.
    rewrite (proj2 (Z.eqb_neq _ _)) by mlia. unfold palloc.
    assert (alloc_target limit flags (zl s) = Done tt) as ->.
    { unfold alloc_target. destruct (is_plain flags); [done|]. by destruct (_ && _). }
    unfold pmap. by rewrite take_n_app.
Qed.

Lemma encodes_bytes s bs : Forall is_byte s -> encodes s bs -> Forall is_byte bs.
Proof.
  intros Hs [v _ _|c _ _ Hc _|].
  - apply enc_int_bytes.
  - unfold enc_lzf. apply Forall_cons. split; [done|]. rewrite !Forall_app. split_and!; [apply enc_len_bytes; lia..|done].
  - apply Forall_app. split; [apply enc_len_bytes; lia|done].
Qed.

(** C11: Strings survive the snapshot.  A string object, however it is
    encoded, is saved to any working sink as some bytes (as an integer, LZF
    compressed or verbatim); loading from any source in front of these bytes,
    as an object, an encoded object, an sds or a plain block, hands over
    exactly the string and leaves the source at what follows.  The string is
    below 4 GB and within what the allocator grants. *)
Theorem rdb_string_roundtrip {B1 B2} `{RioWriter B1} `{RioReader B2} f g sv fill htab compression limit flags o s :
  Object.obj_ok o -> Object.value o = Some s -> Forall is_byte s -> zl s < 2 ^ 32 ->
  64 <= limit < 2 ^ 61 -> sds_size (zl s) <= limit ->
  exists bs,
    (forall (r : rio B1) out, writing f r out -> zl out + zl bs < 2 ^ 61 ->
      exists r', rdbSaveStringObject fill htab compression o (Some r) = Done (Some r', zl bs) /\ writing f r' (out ++ bs)) /\
    (forall (l : ld (B := B2)) refs rest, reading g (stream l) (bs ++ rest) -> Forall is_byte rest -> Object.inv (objs l) refs ->
      exists l' v, rdbGenericLoadStringObject sv fill limit flags l = Done (l', v) /\
        reading g (stream l') rest /\ delivers flags refs (objs l) (objs l') v s).
Proof.
  intros Hok Hv Hb Hs Hlim Hsz. destruct (rdbSaveStringObject_emits f fill htab compression o s Hok Hv Hb Hs) as (bs & He & _ & Hw).
  exists bs. split.
  - intros r out Hr Hsp. destruct (Hw r out Hr Hsp) as (r' & Hrun & _ & Hw'). by exists r'.
  - intros l refs rest Hr Hbr Hi. assert (Forall is_byte (bs ++ rest)) as Hba by (apply Forall_app; split; [exact (encodes_bytes s bs Hb He)|done]).
    pose proof (rdbGenericLoadStringObject_loads g sv fill limit Hlim flags l refs (bs ++ rest) Hr Hba Hi) as Hl.
    rewrite (parse_encoded limit flags s bs rest He Hs ltac:(lia)) in Hl.
    destruct Hl as (l' & v & bs' & used & _ & Hrun & _ & Hr' & Hd & Hlen & Ht). exists l', v. split_and!; [done|done|].
    rewrite take_ge in Ht by lia. by subst bs'.
Qed.

Definition sample_object : Object.robj :=
  Object.mkObj Object.OBJ_STRING Object.OBJ_ENCODING_EMBSTR 0 1 (Object.PSds [52; 50] 0).

(** The string 42, from one buffer to another. *)
Lemma rdb_string_roundtrip_witness :
  exists bs,
    (forall (r : rio rioBuffer) out, writing (H := buffer_io (fun _ => 0)) (fun c _ => c) r out -> zl out + zl bs < 2 ^ 61 ->
      exists r', rdbSaveStringObject (H := buffer_io (fun _ => 0)) (fun _ => 0) (fun _ => 0) true sample_object (Some r) = Done (Some r', zl bs) /\
        writing (H := buffer_io (fun _ => 0)) (fun c _ => c) r' (out ++ bs)) /\
    (forall (l : ld (B := rioBuffer)) refs rest, reading (H := buffer_io (fun _ => 0)) (fun c _ => c) (stream l) (bs ++ rest) ->
      Forall is_byte rest -> Object.inv (objs l) refs ->
      exists l' v, rdbGenericLoadStringObject (H := buffer_io (fun _ => 0)) Object.sample_server (fun _ => 0) 1000 RDB_LOAD_ENC l = Done (l', v) /\
        reading (H := buffer_io (fun _ => 0)) (fun c _ => c) (stream l') rest /\ delivers RDB_LOAD_ENC refs (objs l) (objs l') v [52; 50]).
Proof.
  apply (rdb_string_roundtrip (H := buffer_io (fun _ => 0)) (H1 := buffer_io (fun _ => 0)) (fun c _ => c) (fun c _ => c) Object.sample_server (fun _ => 0) (fun _ => 0) true 1000 RDB_LOAD_ENC sample_object [52; 50]).
  - vm_compute. congruence.
  - reflexivity.
  - repeat constructor; vm_compute; congruence.
  - reflexivity.
  - split; [discriminate|reflexivity].
  - vm_compute. congruence.
Defined.

(** ** Malformed input *)

(** Lengths for which the size computation of [sdsnewlen] wraps around, and
    compressed data of no bytes. *)
Definition overlong (len : Z) : bool := 2 ^ 64 - 18 <=? len.

Definition unsafe_input (inp : list Z) : bool :=
  match parse_len inp with
  | Done (Some ((special, len), t)) =>
      if special : bool then
        (len =? 3) &&
        match parse_len t with
        | Done (Some ((_, clen), t)) =>
            (u32 clen =? 0) || match parse_len t with Done (Some ((_, len), _)) => overlong len | _ => false end
        | _ => false
        end
      else overlong len
  | _ => false
  end.

Lemma alloc_sds_safe limit len : overlong len = false -> alloc_sds limit len <> Undef.
Proof. unfold overlong, alloc_sds. intros ->. by case_match. Qed.

Lemma decompressed_safe c len inp : Forall is_byte c -> 0 <= len -> u32 (zl c) <> 0 -> decompressed c len inp <> Undef.
Proof.
  intros Hb Hl Hu. unfold decompressed. assert (0 <= u32 (zl c) <= zl c) by (pose proof (uwrap_range 32 (zl c)); split; [mlia|apply Z.mod_le; lia]).
  destruct (Lzf.lzf_decompress_total (take (Z.to_nat (u32 (zl c))) c) (u32 len)) as (n & out & -> & _).
  - by apply Forall_take.
  - intros Hn. apply (f_equal length) in Hn. rewrite length_take in Hn. simpl in Hn. lia.
  - pose proof (uwrap_range 32 len). mlia.
  - by destruct (n =? 0).
Qed.

Lemma parse_lzf_safe limit flags inp : Forall is_byte inp ->
  match parse_len inp with
  | Done (Some ((_, clen), t)) =>
      (u32 clen =? 0) || match parse_len t with Done (Some ((_, len), _)) => overlong len | _ => false end
  | _ => false
  end = false -> parse_len inp <> Undef -> (forall t, parse_len t <> Undef) -> parse_lzf limit flags inp <> Undef.
Proof.
  intros Hb Hsafe Hu Hnu. unfold parse_lzf, pbind. destruct (parse_len inp) as [[[[e clen] t]|]| |] eqn:E1; try done.
  destruct (parse_len_rest _ _ _ _ Hb E1) as (Hbt & Hc & _). destruct (clen =? RDB_LENERR); [done|].
  apply orb_false_iff in Hsafe as [Hz Ho]. apply Z.eqb_neq in Hz. specialize (Hnu t).
  destruct (parse_len t) as [[[[e2 len] t2]|]| |] eqn:E2; try done.
  destruct (parse_len_rest _ _ _ _ Hbt E2) as (Hbt2 & Hl & _). destruct (len =? RDB_LENERR); [done|].
  unfold palloc, alloc_block. pose proof (alloc_sds_safe limit len Ho). destruct (clen <=? limit); [|done].
  assert ((if is_plain flags then if len <=? limit then Done tt else Abort else alloc_sds limit len) <> Undef) as Ha
    by (destruct (is_plain flags); [by destruct (len <=? limit)|done]).
  destruct (if is_plain flags then _ else _); try done. unfold take_n. destruct (Z.leb_spec clen (zl t2)); [|done].
  unfold in_u in *. apply decompressed_safe; [by apply Forall_take|lia|].
  by replace (zl (take (Z.to_nat clen) t2)) with clen by (rewrite length_take; lia).
Qed.

Lemma parse_len_no_undef inp : parse_len inp <> Undef.
Proof.
  unfold parse_len, pmap, take_n. destruct inp as [|b t]; [done|].
  destruct (b <? 64), (b <? 128), (b =? 128), (b =? 129), (b <? 192); try done;
    match goal with |- context [?n <=? zl t] => by destruct (n <=? zl t) end.
Qed.

Lemma parse_string_safe limit flags inp : Forall is_byte inp -> unsafe_input inp = false -> parse_string limit flags inp <> Undef.
Proof.
  intros Hb. pose proof (parse_len_no_undef inp). unfold unsafe_input, parse_string, pbind.
  destruct (parse_len inp) as [[[[special len] t]|]| |] eqn:E; try done.
  destruct (parse_len_rest _ _ _ _ Hb E) as (Hbt & Hl & _). destruct special.
  - destruct ((len =? 0) || (len =? 1) || (len =? 2)) eqn:Ek.
    { intros _. unfold pmap, parse_int, pmap, take_n. by destruct (int_size len <=? zl t). }
    destruct (len =? 3); [|done]. cbn [andb]. intros Hs. apply parse_lzf_safe; [done|done|apply parse_len_no_undef|apply parse_len_no_undef].
  - intros Ho. destruct (len =? RDB_LENERR); [done|]. unfold palloc, pmap, take_n, alloc_target, alloc_block.
    pose proof (alloc_sds_safe limit len Ho). destruct (is_plain flags).
    + destruct (len <=? limit); [|done]. by destruct (len <=? zl t).
    + destruct (_ && _ && _); [by destruct (len <=? zl t)|]. destruct (alloc_sds limit len); try done. by destruct (len <=? zl t).
Qed.

(** C17: Loading is robust.  Whatever bytes a string is loaded from (a
    truncated or corrupted snapshot included), the loader either stops the
    server on purpose, or returns NULL and leaves every object as it was, or
    hands over a well-formed value; the one exception are the inputs with an
    overlong length or no compressed data. *)
Theorem rdb_load_robust {B} `{RioReader B} f sv fill limit flags (l : ld (B := B)) refs inp :
  64 <= limit < 2 ^ 61 -> reading f (stream l) inp -> Forall is_byte inp -> Object.inv (objs l) refs ->
  unsafe_input inp = false ->
  rdbGenericLoadStringObject sv fill limit flags l = Abort \/
  exists l' v, rdbGenericLoadStringObject sv fill limit flags l = Done (l', v) /\
    (v = LNull /\ Object.inv (objs l') refs /\ Object.keeps (objs l) (objs l') \/
     exists bs rest, reading f (stream l') rest /\ delivers flags refs (objs l) (objs l') v bs).
Proof.
  intros Hlim Hr Hb Hi Hs. pose proof (rdbGenericLoadStringObject_loads f sv fill limit Hlim flags l refs inp Hr Hb Hi) as Hl.
  pose proof (parse_string_safe limit flags inp Hb Hs) as Hsafe.
  destruct (parse_string limit flags inp) as [[[[out len] rest]|]| |]; [| |by left|done]; right.
  - destruct Hl as (l' & v & bs & used & _ & Hrun & _ & Hr' & Hd & _). exists l', v. split; [exact Hrun|right]. by exists bs, rest.
  - destruct Hl as (l' & Hrun & Hi' & Hk). exists l', LNull. split; [exact Hrun|by left].
Qed.

(** C28: The exceptions are real.  A length in the last 17 values before the
    reserved one makes [sdsnewlen] allocate less than its header, and a
    compressed string of no bytes makes the decompressor read outside its
    input: both are undefined behaviour, whatever follows in the stream. *)
Theorem rdb_load_unsafe {B} `{RioReader B} f sv fill limit (l : ld (B := B)) refs len rest :
  64 <= limit < 2 ^ 61 -> Forall is_byte rest -> Object.inv (objs l) refs -> in_u 64 len -> len <> RDB_LENERR ->
  (reading f (stream l) (enc_len len ++ rest) -> overlong len = true -> rdbLoadStringObject sv fill limit l = Undef) /\
  (reading f (stream l) (0xC3 :: enc_len 0 ++ enc_len len ++ rest) -> sds_size len <= limit -> rdbLoadStringObject sv fill limit l = Undef).
Proof.
  intros Hlim Hb Hi Hl Hne. unfold rdbLoadStringObject. unfold in_u in Hl.
  assert (Forall is_byte (enc_len len ++ rest)) as Hb1 by (apply Forall_app; split; [apply enc_len_bytes; lia|done]). split.
  - intros Hr Ho. pose proof (rdbGenericLoadStringObject_loads f sv fill limit Hlim RDB_LOAD_NONE l refs _ Hr Hb1 Hi) as Hrun.
    unfold parse_string, pbind in Hrun. rewrite parse_enc_len in Hrun by done. rewrite (proj2 (Z.eqb_neq _ _)) in Hrun by done.
    unfold palloc, alloc_target in Hrun. change (is_plain RDB_LOAD_NONE) with false in Hrun. change (is_encode RDB_LOAD_NONE) with false in Hrun.
    rewrite andb_false_r in Hrun. unfold alloc_sds, overlong in *. rewrite Ho in Hrun. exact Hrun.
  - intros Hr Hsz. assert (Forall is_byte (0xC3 :: enc_len 0 ++ enc_len len ++ rest)) as Hb2.
    { apply Forall_cons. split; [done|]. apply Forall_app. split; [apply enc_len_bytes; lia|done]. }
    pose proof (rdbGenericLoadStringObject_loads f sv fill limit Hlim RDB_LOAD_NONE l refs _ Hr Hb2 Hi) as Hrun.
    change (parse_string limit RDB_LOAD_NONE (195 :: enc_len 0 ++ enc_len len ++ rest)) with (parse_lzf limit RDB_LOAD_NONE (enc_len 0 ++ enc_len len ++ rest)) in Hrun.
    unfold parse_lzf, pbind in Hrun. rewrite (parse_enc_len 0) in Hrun by done. change (0 =? RDB_LENERR) with false in Hrun. cbn beta iota in Hrun.
    rewrite parse_enc_len in Hrun by done. rewrite (proj2 (Z.eqb_neq _ _)) in Hrun by done.
    unfold palloc, alloc_block in Hrun. rewrite (proj2 (Z.leb_le 0 _)) in Hrun by lia. change (is_plain RDB_LOAD_NONE) with false in Hrun.
    unfold alloc_sds in Hrun. rewrite (proj2 (Z.leb_le (sds_size len) _)) in Hrun by done.
    destruct (2 ^ 64 - 18 <=? len); [exact Hrun|]. change (rest) with ([] ++ rest) in Hrun. by rewrite take_n_app in Hrun.
Qed.

(** A source and a heap to start from. *)
Lemma sample_ld (bs : list Z) : zl bs < 2 ^ 61 ->
  exists (l : ld (B := rioBuffer)) refs, reading (H := buffer_io (fun _ => 0)) (fun c _ => c) (stream l) bs /\ Object.inv (objs l) refs.
Proof.
  intros Hl. assert (exists s, Object.inv s (fun _ => 0)) as [s Hs].
  { destruct (Object.boot_spec Object.sample_server (Z.to_nat Object.OBJ_SHARED_INTEGERS)) as (s & Hs & _).
    exists s. exact (Object.boot_inv _ _ Hs). }
  destruct (Sds.sdsnewlen_rep (fun _ => 0) (Sds.INIT_FROM bs) (zl bs)) as (t & c & _ & Ht & _ & ->); [lia|by intros p [= ->]|].
  rewrite Nat2Z.id, firstn_all in Ht.
  exists (mkLd (rioInitWithBuffer t) s), (fun _ => 0). split; [|exact Hs].
  split; [split; [apply computes_none|done..]|done|]. exists bs, []. split_and!; [exact Ht|cbn; lia|cbn; lia|lia|done].
Qed.

(** A raw string cut short. *)
Lemma rdb_load_robust_witness :
  exists (l : ld (B := rioBuffer)) refs,
    rdbGenericLoadStringObject (H := buffer_io (fun _ => 0)) Object.sample_server (fun _ => 0) 1000 RDB_LOAD_NONE l = Abort \/
    exists l' v, rdbGenericLoadStringObject (H := buffer_io (fun _ => 0)) Object.sample_server (fun _ => 0) 1000 RDB_LOAD_NONE l = Done (l', v) /\
      (v = LNull /\ Object.inv (objs l') refs /\ Object.keeps (objs l) (objs l') \/
       exists bs rest, reading (H := buffer_io (fun _ => 0)) (fun c _ => c) (stream l') rest /\ delivers RDB_LOAD_NONE refs (objs l) (objs l') v bs).
Proof.
  destruct (sample_ld [5; 97; 98] eq_refl) as (l & refs & Hr & Hi). exists l, refs.
  apply (rdb_load_robust (H := buffer_io (fun _ => 0)) (fun c _ => c) Object.sample_server (fun _ => 0) 1000 RDB_LOAD_NONE l refs [5; 97; 98]).
  - split; [discriminate|reflexivity].
  - exact Hr.
  - repeat constructor; vm_compute; congruence.
  - exact Hi.
  - vm_compute. reflexivity.
Defined.

(** Nine bytes that make the loader write outside its allocation. *)
Lemma rdb_load_unsafe_witness :
  exists l : ld (B := rioBuffer),
    reading (H := buffer_io (fun _ => 0)) (fun c _ => c) (stream l) [0x81; 255; 255; 255; 255; 255; 255; 255; 0xF0] /\
    rdbLoadStringObject (H := buffer_io (fun _ => 0)) Object.sample_server (fun _ => 0) 1000 l = Undef.
Proof.
  destruct (sample_ld [0x81; 255; 255; 255; 255; 255; 255; 255; 0xF0] eq_refl) as (l & refs & Hr & Hi). exists l. split; [exact Hr|].
  destruct (rdb_load_unsafe (H := buffer_io (fun _ => 0)) (fun c _ => c) Object.sample_server (fun _ => 0) 1000 l refs (2 ^ 64 - 16) []) as [Hover _].
  - split; [discriminate|reflexivity].
  - constructor.
  - exact Hi.
  - split; [discriminate|reflexivity].
  - discriminate.
  - exact (Hover Hr eq_refl).
Defined.

End RdbLoad.
