(* ===== verification/Dump.v ===== *)
(** Model of the serialised values of the DUMP and RESTORE commands
    ([cluster.c]): a type byte and a value in the snapshot format, the format
    version and a CRC-64 of what comes before, and of the dispatch on object
    types of [rdb.c] it uses.

    A payload that was created verifies and restores the value; a payload
    damaged in at most eight consecutive bytes does not verify. *)

From S2P Require Import Prelude Effects UtilNum Crc Lzf Sds Object Rio Rdb RdbLoad.

#[local] Open Scope Z_scope.

Module Dump.
Import UtilNum Rio Rdb RdbLoad.

Abbreviation RDB_VERSION := 9 (only parsing).
Abbreviation RDB_TYPE_STRING := 0 (only parsing).
Abbreviation RDB_TYPE_SET := 2 (only parsing).
Abbreviation RDB_TYPE_HASH := 4 (only parsing).
Abbreviation RDB_TYPE_ZSET_2 := 5 (only parsing).
Abbreviation RDB_TYPE_MODULE_2 := 7 (only parsing).
Abbreviation RDB_TYPE_SET_INTSET := 11 (only parsing).
Abbreviation RDB_TYPE_ZSET_ZIPLIST := 12 (only parsing).
Abbreviation RDB_TYPE_HASH_ZIPLIST := 13 (only parsing).
Abbreviation RDB_TYPE_LIST_QUICKLIST := 14 (only parsing).
Abbreviation RDB_TYPE_STREAM_LISTPACKS := 15 (only parsing).

Definition rdbIsObjectType (t : Z) : bool :=
  ((t >=? 0) && (t <=? 7)) || ((t >=? 9) && (t <=? 15)).

Section types.
Context {B : Type} `{RioIO B}.

Definition rdbSaveObjectType (o : Object.robj) : st (option (rio B)) Z :=
  match Object.type o, Object.encoding o with
  | Object.OBJ_STRING, _ => rdbSaveType RDB_TYPE_STRING
  | Object.OBJ_LIST, Object.OBJ_ENCODING_QUICKLIST => rdbSaveType RDB_TYPE_LIST_QUICKLIST
  | Object.OBJ_SET, Object.OBJ_ENCODING_INTSET => rdbSaveType RDB_TYPE_SET_INTSET
  | Object.OBJ_SET, Object.OBJ_ENCODING_HT => rdbSaveType RDB_TYPE_SET
  | Object.OBJ_ZSET, Object.OBJ_ENCODING_ZIPLIST => rdbSaveType RDB_TYPE_ZSET_ZIPLIST
  | Object.OBJ_ZSET, Object.OBJ_ENCODING_SKIPLIST => rdbSaveType RDB_TYPE_ZSET_2
  | Object.OBJ_HASH, Object.OBJ_ENCODING_ZIPLIST => rdbSaveType RDB_TYPE_HASH_ZIPLIST
  | Object.OBJ_HASH, Object.OBJ_ENCODING_HT => rdbSaveType RDB_TYPE_HASH
  | Object.OBJ_STREAM, _ => rdbSaveType RDB_TYPE_STREAM_LISTPACKS
  | Object.OBJ_MODULE, _ => rdbSaveType RDB_TYPE_MODULE_2
  | _, _ => abort
  end.

Definition rdbLoadObjectType : st (rio B) Z :=
  type ← rdbLoadType;
  if type =? -1 then mret (-1)
  else if negb (rdbIsObjectType type) then mret (-1)
  else mret type.

(** The branches of the aggregate types are arguments. *)
Definition rdbSaveObject (fill : nat -> Z) (htab : Z -> Z) (rdb_compression : bool)
    (others : Object.robj -> st (option (rio B)) Z) (o : Object.robj) : st (option (rio B)) Z :=
  match Object.type o with
  | Object.OBJ_STRING => or_fail (rdbSaveStringObject fill htab rdb_compression o) (fun n => mret (0 + n))
  | _ => others o
  end.

Definition rdbLoadObject (sv : Object.server) (fill : nat -> Z) (limit : Z)
    (others : Z -> st (ld (B := B)) loaded) (rdbtype : Z) : st (ld (B := B)) loaded :=
  if rdbtype =? RDB_TYPE_STRING then
    v ← rdbLoadEncodedStringObject sv fill limit;
    match v with
    | LObj a => a ← on_heap (Object.tryObjectEncoding sv fill a); mret (LObj a)
    | LNull => mret LNull
    | _ => undef
    end
  else others rdbtype.

End types.

Section payload.
(** [t] is the table of [crc64_init]; [addr] the address of a buffer, of which
    [crc64] looks at the alignment. *)
Context (fill : nat -> Z) (t : list (list Z)) (addr : list Z -> Z).
#[local] Instance payload_io : RioIO rioBuffer := buffer_io fill.

(** Fills [*payload]; [save] is the call of [rdbSaveObject]. *)
Definition createDumpPayload (o : Object.robj) (save : st (option (rio rioBuffer)) Z) : st (option (rio rioBuffer)) unit :=
  s ← lift (Sds.sdsempty fill);
  _ ← put (Some (rioInitWithBuffer s));
  n ← rdbSaveObjectType o; _ ← assert (negb (n =? 0));
  n ← save; _ ← assert (negb (n =? 0));
  payload ← get;
  r ← lift payload;
  p ← lift (Sds.sdscatlen fill (ptr (io r)) [Z.land RDB_VERSION 0xff; Z.land (Z.shiftr RDB_VERSION 8) 0xff] 2);
  len ← lift (Sds.sdslen p);
  bs ← lift (Sds.get_bytes p 0 (Z.to_nat len));
  crc ← lift (Crc.crc64 t 0 (addr bs) bs);
  p ← lift (Sds.sdscatlen fill p (le_encode 8 crc) 8);
  put (Some (set_io (mkBuf p (pos (io r))) r)).

Definition verifyDumpPayload (p : list Z) : option bool :=
  let len := Z.of_nat (length p) in
  if len <? 10 then Some false
  else
    f0 ← rd p (len - 10); f1 ← rd p (len - 10 + 1);
    let rdbver := u16 (Z.lor (Z.shiftl f1 8) f0) in
    if rdbver >? RDB_VERSION then Some false
    else
      bs ← mread p 0 (Z.to_nat (len - 8));
      crc ← Crc.crc64 t 0 (addr bs) bs;
      c ← mread p (len - 10 + 2) 8;
      Some (Sds.memcmp (le_encode 8 crc) c =? 0).

End payload.

(** * Facts *)

(** The checksum of a payload's body. *)
Definition crc_of (bs : list Z) : Z := foldl Crc.rstep 0 bs.
Definition footer (body : list Z) : list Z := le_encode 8 (crc_of body).

Section facts.
Context (t : list (list Z)) (Ht : Crc.table_ok t).

Lemma crc64_of a bs : Forall is_byte bs -> Crc.crc64 t 0 a bs = Some (crc_of bs) /\ in_u 64 (crc_of bs).
Proof using Ht.
  intros Hb. split; [by apply Crc.crcspeed64little_spec|by apply Crc.foldl_rstep_u64].
Qed.

(** Verification looks at the version and at the checksum of the body. *)
Lemma verify_spec addr body v c :
  Forall is_byte (body ++ le_encode 2 v ++ c) -> length c = 8%nat -> in_u 16 v ->
  verifyDumpPayload t addr (body ++ le_encode 2 v ++ c) =
    Some ((v <=? RDB_VERSION) && bool_decide (c = footer (body ++ le_encode 2 v))).
Proof using Ht.
  intros Hb Hc Hv. unfold verifyDumpPayload. set (l := length body).
  assert (length (body ++ le_encode 2 v ++ c) = l + 10)%nat as Hl by (rewrite !length_app, length_le_encode; lia). rewrite Hl.
  rewrite (proj2 (Z.ltb_ge _ _)) by lia. replace (Z.of_nat (l + 10) - 10) with (zl body + Z.of_nat 0) by lia.
  rewrite Lzf.rd_app_r. replace (zl body + Z.of_nat 0 + 1) with (zl body + Z.of_nat 1) by lia. rewrite Lzf.rd_app_r.
  change ((le_encode 2 v ++ c) !! 0%nat) with (Some (v mod 256)). change ((le_encode 2 v ++ c) !! 1%nat) with (Some ((v / 256) mod 256)). bsimpl.
  rewrite Z.lor_comm, lor_shift_add by (done || apply Z.mod_pos_bound; lia). change (2 ^ 8) with 256.
  unfold in_u in Hv. change (2 ^ 16) with 65536 in Hv.
  assert (v mod 256 + (v / 256) mod 256 * 256 = v) as -> by dlia. rewrite uwrap_small by mlia. rewrite Z.gtb_ltb.
  destruct (Z.ltb_spec RDB_VERSION v), (Z.leb_spec v RDB_VERSION); try lia; [done|]. cbn [andb].
  rewrite app_assoc in Hb |- *.
  assert (length (body ++ le_encode 2 v) = l + 2)%nat as Hl2 by (rewrite length_app, length_le_encode; lia).
  rewrite (mread_head _ _ 0 (Z.to_nat (Z.of_nat (l + 10) - 8))) by lia. bsimpl. apply Forall_app in Hb as [Hb1 Hb2].
  destruct (crc64_of (addr (body ++ le_encode 2 v)) (body ++ le_encode 2 v) Hb1) as [-> Hr]. bsimpl.
  pose proof (mread_mid (body ++ le_encode 2 v) c [] (zl body + Z.of_nat 0 + 2) 8) as Hm. rewrite app_nil_r in Hm.
  rewrite Hm by lia. bsimpl. f_equal. fold (footer (body ++ le_encode 2 v)).
  destruct (Z.eqb_spec (Sds.memcmp (footer (body ++ le_encode 2 v)) c) 0) as [E|E].
  - apply Sds.memcmp_eq in E; [|unfold footer; by rewrite length_le_encode].
    symmetry. by apply bool_decide_eq_true_2.
  - rewrite bool_decide_eq_false_2; [done|]. intros ->. by rewrite (proj2 (Sds.memcmp_eq _ _ eq_refl)) in E.
Qed.

(** ** Damage *)

Lemma lxor_same_0 a b : Z.lxor a b = 0 -> a = b.
Proof. apply Z.lxor_eq. Qed.

Lemma rbit_inj x y : in_u 64 x -> in_u 64 y -> Crc.rbit x = Crc.rbit y -> x = y.
Proof.
  intros Hx Hy He. apply lxor_same_0. set (z := Z.lxor x y).
  assert (in_u 64 z) as Hz by (apply lxor_range; [done|exact Hx|exact Hy]).
  assert (Crc.rbit z = 0) as H0 by (unfold z; rewrite Crc.linear_rbit, He; apply Z.lxor_nilpotent).
  clearbody z. unfold Crc.rbit in H0. apply lxor_same_0 in H0. unfold in_u in Hz.
  assert (0 <= Z.shiftr z 1 < 2 ^ 63) as Hs.
  { rewrite Z.shiftr_div_pow2 by done. change (2 ^ 1) with 2. eval_pow. dlia. }
  destruct (Z.testbit z 0) eqn:Hb.
  - rewrite H0 in Hs. exfalso. destruct Hs as [_ Hs]. apply Z.lt_nge in Hs. apply Hs. vm_compute. congruence.
  - rewrite Z.shiftr_div_pow2 in H0 by done. change (2 ^ 1) with 2 in H0. rewrite Z.bit0_odd in Hb.
    rewrite Zodd_mod in Hb. apply Zeq_bool_neq in Hb. dlia.
Qed.

Lemma iter_rbit_inj n : forall x y, in_u 64 x -> in_u 64 y -> Nat.iter n Crc.rbit x = Nat.iter n Crc.rbit y -> x = y.
Proof.
  induction n as [|n IH]; intros x y Hx Hy He; [done|]. cbn [Nat.iter nat_rect] in He. apply IH; [done|done|].
  apply rbit_inj; [by apply Crc.iter_rbit_u64|by apply Crc.iter_rbit_u64|exact He].
Qed.

Lemma rstep_inj x y b : in_u 64 x -> in_u 64 y -> is_byte b -> Crc.rstep x b = Crc.rstep y b -> x = y.
Proof.
  intros Hx Hy Hb. unfold Crc.rstep. generalize 8%nat. intros n He. unfold is_byte in Hb.
  apply iter_rbit_inj in He; [|apply lxor_range; [done|done|mlia]..].
  apply (f_equal (fun z => Z.lxor z b)) in He. by rewrite !Z.lxor_assoc, !Z.lxor_nilpotent, !Z.lxor_0_r in He.
Qed.

Lemma feed_inj bs : Forall is_byte bs -> forall x y, in_u 64 x -> in_u 64 y ->
  foldl Crc.rstep x bs = foldl Crc.rstep y bs -> x = y.
Proof.
  induction 1 as [|b bs Hb Hbs IH]; intros x y Hx Hy He; [done|]. cbn [foldl] in He.
  apply IH in He; [|by apply Crc.rstep_u64|by apply Crc.rstep_u64].
  by apply rstep_inj in He.
Qed.

(** Any difference within eight bytes changes the checksum. *)
Lemma crc_burst pre d d' post :
  Forall is_byte (pre ++ d ++ post) -> Forall is_byte d' -> length d = length d' -> (length d <= 8)%nat -> d <> d' ->
  crc_of (pre ++ d ++ post) <> crc_of (pre ++ d' ++ post).
Proof.
  rewrite !Forall_app. intros (Hpre & Hd & Hpost) Hd' Hl H8 Hne He. apply Hne. unfold crc_of in He. rewrite !foldl_app in He.
  set (c := foldl Crc.rstep 0 pre) in He. assert (in_u 64 c) as Hc by by apply Crc.foldl_rstep_u64.
  apply feed_inj in He; [|done|by apply Crc.foldl_rstep_u64..].
  rewrite !Crc.feed_bytes, <- Hl in He by done.
  assert (forall x, Forall is_byte x -> length x = length d -> in_u 64 (le_decode x)) as Hr.
  { intros x Hx Hlx. pose proof (le_decode_range x Hx) as [H1 H2]. split; [done|].
    eapply Z.lt_le_trans; [exact H2|]. apply Z.pow_le_mono_r; lia. }
  apply iter_rbit_inj in He; [|by apply lxor_range; [done|done|apply Hr]..].
  apply (f_equal (Z.lxor c)) in He. rewrite <- !Z.lxor_assoc, Z.lxor_nilpotent, !Z.lxor_0_l in He.
  rewrite <- (le_encode_decode d), <- (le_encode_decode d') by done. by rewrite He, Hl.
Qed.

(** A payload followed by its checksum has checksum zero. *)
Lemma crc_of_footer body : Forall is_byte body -> crc_of (body ++ footer body) = 0.
Proof.
  intros Hb. pose proof (Crc.foldl_rstep_u64 body 0 ltac:(by vm_compute) Hb) as Hr. fold (crc_of body) in Hr.
  unfold crc_of. rewrite foldl_app, Crc.feed_bytes by apply le_encode_bytes. fold (crc_of body). unfold footer.
  rewrite le_decode_encode, Z.mod_small by exact Hr. rewrite Z.lxor_nilpotent.
  generalize (8 * length (le_encode 8 (crc_of body)))%nat. intros n. induction n as [|n IH]; [done|].
  change (Nat.iter (S n) Crc.rbit 0) with (Crc.rbit (Nat.iter n Crc.rbit 0)). by rewrite IH.
Qed.

Lemma le_encode_2 a b : is_byte a -> is_byte b -> exists v, in_u 16 v /\ le_encode 2 v = [a; b].
Proof.
  intros Ha Hb. exists (le_decode [a; b]). assert (Forall is_byte [a; b]) as Hf by (repeat apply Forall_cons_2; done).
  split; [exact (le_decode_range [a; b] Hf)|exact (le_encode_decode [a; b] Hf)].
Qed.

Lemma verify_total addr p : Forall is_byte p ->
  exists ok, verifyDumpPayload t addr p = Some ok /\ (ok = true -> crc_of p = 0).
Proof using Ht.
  intros Hb. destruct (decide (length p < 10)%nat) as [Hs|Hs].
  { exists false. split; [|done]. unfold verifyDumpPayload. by rewrite (proj2 (Z.ltb_lt _ _)) by lia. }
  pose proof (take_drop (length p - 10) p) as Hp. set (body := take (length p - 10) p) in Hp.
  assert (length (drop (length p - 10) p) = 10%nat) as Hl by (rewrite length_drop; lia).
  destruct (drop (length p - 10) p) as [|a [|b c]]; try done. rewrite <- Hp in Hb |- *.
  apply Forall_app in Hb as [Hb1 Hb2]. pose proof Hb2 as [Ha [Hbb _]%Forall_cons]%Forall_cons.
  destruct (le_encode_2 a b Ha Hbb) as (v & Hv & Hab). change (a :: b :: c) with ([a; b] ++ c) in *. rewrite <- Hab in *.
  rewrite verify_spec; [|by apply Forall_app|by injection Hl|done]. eexists. split; [done|].
  intros [_ ->%bool_decide_eq_true]%andb_true_iff. rewrite app_assoc. apply crc_of_footer.
  apply Forall_app in Hb2 as [Hb2 _]. by apply Forall_app.
Qed.

End facts.

Lemma init_table_ok t : Crc.crc64_init = Some t -> Crc.table_ok t.
Proof. destruct Crc.crc64_init_ok as (t' & Hi & Ht). intros Hi'. rewrite Hi in Hi'. injection Hi' as <-. exact Ht. Qed.

(** C22: Damage is detected.  If a payload verifies, no payload that differs
    from it only within eight consecutive bytes does, wherever they are: in
    the value, the version or the checksum. *)
Theorem dump_damage_detected t addr addr' pre d d' post :
  Crc.crc64_init = Some t ->
  Forall is_byte (pre ++ d ++ post) -> Forall is_byte d' -> length d' = length d -> (length d <= 8)%nat -> d' <> d ->
  verifyDumpPayload t addr (pre ++ d ++ post) = Some true ->
  verifyDumpPayload t addr' (pre ++ d' ++ post) = Some false.
Proof.
  intros Ht%init_table_ok Hb Hd' Hl H8 Hne Hok. destruct (verify_total t Ht addr _ Hb) as (ok & Hok' & Hz).
  rewrite Hok in Hok'. injection Hok' as <-.
  destruct (verify_total t Ht addr' (pre ++ d' ++ post)) as (ok' & Hv & Hz').
  { rewrite !Forall_app in *. naive_solver. }
  destruct ok'; [|done]. exfalso. apply (crc_burst pre d d' post Hb Hd'); [done|done|done|].
  by rewrite Hz, Hz'.
Qed.

(** A one-byte value with version 9 and a wrong bit. *)
Lemma dump_damage_detected_witness :
  exists t c, Crc.crc64_init = Some t /\ verifyDumpPayload t (fun _ => 0) ([0] ++ [5] ++ [9; 0] ++ c) = Some true /\
    verifyDumpPayload t (fun _ => 0) ([0] ++ [4] ++ [9; 0] ++ c) = Some false.
Proof.
  destruct Crc.crc64_init_ok as (t & Hi & Ht). exists t, (footer [0; 5; 9; 0]). split; [exact Hi|].
  assert (Forall is_byte ([0] ++ [5] ++ [9; 0] ++ footer [0; 5; 9; 0])) as Hb.
  { apply Forall_app. split; [repeat constructor; vm_compute; congruence|].
    apply Forall_app. split; [repeat constructor; vm_compute; congruence|].
    apply Forall_app. split; [repeat constructor; vm_compute; congruence|apply le_encode_bytes]. }
  assert (verifyDumpPayload t (fun _ => 0) ([0] ++ [5] ++ [9; 0] ++ footer [0; 5; 9; 0]) = Some true) as Hok.
  { etransitivity; [apply (verify_spec t Ht (fun _ => 0) [0; 5] 9 (footer [0; 5; 9; 0]))|].
    - exact Hb.
    - apply length_le_encode.
    - split; [discriminate|reflexivity].
    - rewrite bool_decide_eq_true_2; reflexivity. }
  split; [exact Hok|].
  apply (dump_damage_detected t (fun _ => 0) (fun _ => 0) [0] [5] [4] ([9; 0] ++ footer [0; 5; 9; 0])).
  - exact Hi.
  - exact Hb.
  - repeat constructor; vm_compute; congruence.
  - reflexivity.
  - vm_compute. repeat constructor.
  - discriminate.
  - exact Hok.
Defined.

(** ** Dumping and restoring *)

Section create.
Context (fill : nat -> Z) (t : list (list Z)) (Ht : Crc.table_ok t) (addr : list Z -> Z).
#[local] Instance create_io : RioIO rioBuffer := buffer_io fill.

(** No checksum is computed while the value is written. *)
Definition no_sum : Z -> list Z -> Z := fun c _ => c.

Lemma rdbSaveType_emits ty : is_byte ty -> emits no_sum (rdbSaveType ty) 1 [ty].
Proof. intros Hty. unfold rdbSaveType. rewrite uwrap_small by done. by apply (emits_write no_sum), byte1. Qed.

Definition body_of (ty : Z) (bs : list Z) : list Z := ([ty] ++ bs) ++ le_encode 2 RDB_VERSION.

Lemma createDumpPayload_spec o save ty n bs :
  emits no_sum (rdbSaveObjectType o) 1 [ty] -> emits no_sum save n bs -> n <> 0 ->
  is_byte ty -> Forall is_byte bs -> zl bs < 2 ^ 60 ->
  exists r free, createDumpPayload fill t addr o save None = Done (Some r, tt) /\
    Sds.rep (ptr (io r)) (body_of ty bs ++ footer (body_of ty bs)) free.
Proof using Ht.
  intros Hty Hsave Hn Hbt Hb Hsz. unfold createDumpPayload, Sds.sdsempty.
  destruct (Sds.sdsnewlen_rep fill (Sds.INIT_FROM []) 0) as (s0 & c & -> & Hs0 & _ & ->); [lia|by intros p [= <-]|].
  rewrite bind_lift, bind_put. destruct Hty as [_ Hty]. destruct Hsave as [_ Hsave].
  destruct (Hty (rioInitWithBuffer s0) []) as (r1 & He1 & _ & Hw1).
  { split; [split; [apply computes_none|done..]|done|by exists []]. }
  { done. }
  rewrite (bind_done _ _ _ _ _ He1). change (negb (1 =? 0)) with true. unfold assert. rewrite bind_ret.
  destruct (Hsave r1 ([] ++ [ty]) Hw1) as (r2 & He2 & _ & Hw2); [cbn [length app]; mlia|].
  rewrite (bind_done _ _ _ _ _ He2). rewrite (proj2 (Z.eqb_neq n 0)) by done. cbn [negb]. rewrite bind_ret, bind_get, bind_lift.
  destruct (wr_io _ _ _ Hw2) as [free2 Hr2].
  destruct (Sds.sdscatlen_rep fill _ _ _ (le_encode 2 RDB_VERSION) 2 Hr2) as (p & free3 & Hp & Hr3); [done|rewrite !length_app; cbn [length app]; mlia|].
  change [Z.land RDB_VERSION 0xff; Z.land (Z.shiftr RDB_VERSION 8) 0xff] with (le_encode 2 RDB_VERSION). rewrite Hp, bind_lift.
  change (take (Z.to_nat 2) (le_encode 2 RDB_VERSION)) with (le_encode 2 RDB_VERSION) in Hr3. change ([] ++ [ty]) with [ty] in Hr3.
  fold (body_of ty bs) in Hr3. rewrite (Sds.sdslen_rep _ _ _ Hr3), bind_lift.
  rewrite (Sds.get_bytes_rep _ _ _ _ _ Hr3), bind_lift by lia. rewrite drop_0, Nat2Z.id, firstn_all.
  assert (Forall is_byte (body_of ty bs)) as Hbb.
  { unfold body_of. rewrite !Forall_app. split_and!; [by apply byte1|done|apply le_encode_bytes]. }
  destruct (crc64_of t Ht (addr (body_of ty bs)) (body_of ty bs) Hbb) as [-> _]. rewrite bind_lift.
  assert (zl (body_of ty bs) < 2 ^ 60 + 3) as Hlb by (unfold body_of; rewrite !length_app; cbn [length le_encode]; lia).
  destruct (Sds.sdscatlen_rep fill _ _ _ (footer (body_of ty bs)) 8 Hr3) as (p' & free4 & Hp' & Hr4);
    [unfold footer; rewrite length_le_encode; lia|mlia|].
  fold (footer (body_of ty bs)). rewrite Hp', bind_lift. eexists _, free4. split; [done|]. cbn [io set_io ptr].
  rewrite take_ge in Hr4 by (unfold footer; rewrite length_le_encode; lia). exact Hr4.
Qed.

End create.

(** Restoring: the type is read back, and the object stands for the string. *)
Section restore.
Context {B : Type} `{RioReader B} (f : Z -> list Z -> Z) (sv : Object.server) (fill : nat -> Z) (limit : Z).
Context (Hlim : 64 <= limit < 2 ^ 61).

Lemma rdbLoadObjectType_reads r ty rest : reading f r (ty :: rest) -> Forall is_byte (ty :: rest) -> rdbIsObjectType ty = true ->
  exists r', rdbLoadObjectType r = Done (r', ty) /\ reading f r' rest.
Proof.
  intros Hr Hb Hty. unfold rdbLoadObjectType, rdbLoadType.
  pose proof (follows_read f 1 ltac:(lia) r (ty :: rest) Hr Hb) as Hf. unfold pmap in Hf.
  change (ty :: rest) with ([ty] ++ rest) in Hf. rewrite take_n_app in Hf by done.
  destruct Hf as (r' & bs & _ & He & _ & Hr'). exists r'. split; [|done].
  rewrite bind_assoc, (bind_done _ _ _ _ _ He). cbn [head]. rewrite bind_lift. apply Forall_cons in Hb as [Hb _]. unfold is_byte in Hb.
  rewrite (proj2 (Z.eqb_neq ty (-1))) by lia. by rewrite Hty.
Qed.

Lemma rdbLoadObject_string others s bs rest (l : ld (B := B)) refs :
  encodes s bs -> Forall is_byte s -> zl s < 2 ^ 32 -> sds_size (zl s) <= limit ->
  reading f (stream l) (bs ++ rest) -> Forall is_byte rest -> Object.inv (objs l) refs ->
  exists l' a, rdbLoadObject sv fill limit others RDB_TYPE_STRING l = Done (l', LObj a) /\ reading f (stream l') rest /\
    Object.inv (objs l') (Object.give refs a 1) /\ Object.keeps (objs l) (objs l') /\ Object.has (objs l') a s.
Proof using Hlim.
  intros He Hb Hs Hsz Hr Hbr Hi. unfold rdbLoadObject. cbn [Z.eqb]. change (RDB_TYPE_STRING =? RDB_TYPE_STRING) with true. cbn iota.
  assert (Forall is_byte (bs ++ rest)) as Hba by (apply Forall_app; split; [exact (encodes_bytes s bs Hb He)|done]).
  pose proof (rdbGenericLoadStringObject_loads f sv fill limit Hlim RDB_LOAD_ENC l refs (bs ++ rest) Hr Hba Hi) as Hl.
  rewrite (parse_encoded limit RDB_LOAD_ENC s bs rest He Hs ltac:(lia)) in Hl.
  destruct Hl as (l' & v & bs' & used & _ & Hrun & _ & Hr' & Hd & Hlen & Ht). rewrite take_ge in Ht by lia. subst bs'.
  unfold rdbLoadEncodedStringObject. rewrite (bind_done _ _ _ _ _ Hrun).
  destruct v as [|b|b|a]; [done|by destruct Hd|by destruct Hd as (_ & Hd & _)|]. destruct Hd as (_ & _ & Hi' & Hk & o & Ho & Hv).
  pose proof (Object.inv_nonneg _ _ Hi a) as Hnn.
  destruct (Object.try_encode sv fill (objs l') _ Hi' a o s Ho) as (h2 & a2 & o2 & He2 & Hi2 & Hk2 & Ho2 & Hv2 & _);
    [rewrite Object.give_eq; lia|done|].
  rewrite (bind_done _ _ _ _ _ (on_heap_done _ _ _ _ He2)). exists (mkLd (stream l') h2), a2. split_and!; [done|done| | |by exists o2].
  - eapply Object.inv_ext; [|exact Hi2]. intros x. unfold Object.give. destruct (x =? a2), (x =? a); lia.
  - by eapply Object.keeps_trans.
Qed.

End restore.

Lemma length_encodes s bs : encodes s bs -> zl bs <= zl s + 20.
Proof.
  intros [v _ _|c _ Hc _ _|].
  - unfold enc_int. repeat case_match; cbn [length]; rewrite ?length_le_encode; lia.
  - unfold enc_lzf. cbn [length]. rewrite !length_app. pose proof (length_enc_len (zl c)). pose proof (length_enc_len (zl s)). lia.
  - unfold enc_raw. rewrite length_app. pose proof (length_enc_len (zl s)). lia.
Qed.

Lemma encodes_nonempty s bs : encodes s bs -> 0 < zl bs.
Proof.
  intros [v _ Hne|c _ Hc _ _|].
  - destruct (enc_int v); [done|cbn [length]; lia].
  - unfold enc_lzf. cbn [length]. lia.
  - unfold enc_raw. rewrite length_app. pose proof (length_enc_len (zl s)). lia.
Qed.

(** C21: DUMP and RESTORE are inverse on strings.  The payload of a string
    object verifies, its type is read back, and loading it creates an object
    for the same string, with one reference and every other object as before. *)
Theorem dump_restore_roundtrip fill htab compression t addr sv limit others others' o s h refs :
  Crc.crc64_init = Some t -> Object.type o = Object.OBJ_STRING -> Object.obj_ok o -> Object.value o = Some s ->
  Forall is_byte s -> zl s < 2 ^ 32 -> 64 <= limit < 2 ^ 61 -> sds_size (zl s) <= limit -> Object.inv h refs ->
  exists r p free, createDumpPayload fill t addr o (rdbSaveObject (H := buffer_io fill) fill htab compression others o) None = Done (Some r, tt) /\
    Sds.rep (ptr (io r)) p free /\ verifyDumpPayload t addr p = Some true /\
    exists r' l a, rdbLoadObjectType (H := buffer_io fill) (rioInitWithBuffer (ptr (io r))) = Done (r', RDB_TYPE_STRING) /\
      rdbLoadObject (H := buffer_io fill) sv fill limit others' RDB_TYPE_STRING (mkLd r' h) = Done (l, LObj a) /\
      Object.inv (objs l) (Object.give refs a 1) /\ Object.keeps h (objs l) /\ Object.has (objs l) a s.
Proof.
  intros Ht%init_table_ok Hty Hok Hv Hb Hs Hlim Hsz Hi.
  destruct (rdbSaveStringObject_emits (H := buffer_io fill) no_sum fill htab compression o s Hok Hv Hb Hs) as (bs & He & Hem).
  pose proof (encodes_bytes s bs Hb He) as Hbb. pose proof (length_encodes s bs He). pose proof (encodes_nonempty s bs He).
  destruct (createDumpPayload_spec fill t Ht addr o (rdbSaveObject (H := buffer_io fill) fill htab compression others o) 0 (zl bs) bs) as (r & free & Hrun & Hrep).
  - unfold rdbSaveObjectType. rewrite Hty. by apply (rdbSaveType_emits fill).
  - unfold rdbSaveObject. rewrite Hty. eapply emits_last; [exact Hem|lia|done].
  - lia.
  - done.
  - done.
  - mlia.
  - exists r, (body_of 0 bs ++ footer (body_of 0 bs)), free. split; [exact Hrun|]. split; [exact Hrep|].
    unfold body_of in *. rewrite <- app_assoc in Hrep |- *.
    assert (Forall is_byte (([0] ++ bs) ++ le_encode 2 RDB_VERSION ++ footer (([0] ++ bs) ++ le_encode 2 RDB_VERSION))) as Hball.
    { rewrite !Forall_app. split_and!; [by apply byte1|done|apply le_encode_bytes|apply le_encode_bytes]. }
    split.
    { rewrite (verify_spec t Ht); [|exact Hball|apply length_le_encode|done]. by rewrite bool_decide_eq_true_2. }
    set (tail_ := le_encode 2 RDB_VERSION ++ _) in *. rewrite <- app_assoc in Hrep, Hball.
    destruct (rdbLoadObjectType_reads (H := buffer_io fill) no_sum (rioInitWithBuffer (ptr (io r))) 0 (bs ++ tail_)) as (r' & Hlt & Hr').
    + split; [split; [apply computes_none|done..]|done|]. exists ([0] ++ bs ++ tail_), free.
      split_and!; [exact Hrep|cbn; lia|cbn; lia| |done]. unfold tail_, footer. rewrite !length_app, !length_le_encode. cbn [length]. mlia.
    + exact Hball.
    + done.
    + destruct (rdbLoadObject_string (H := buffer_io fill) no_sum sv fill limit Hlim others' s bs tail_ (mkLd r' h) refs He Hb Hs Hsz Hr') as (l & a & Hld & _ & Hrest);
        [by apply Forall_app in Hball as [_ [_ ?]%Forall_app]|done|]. exists r', l, a. split; [exact Hlt|]. split; [exact Hld|exact Hrest].
Qed.

(** The string 42. *)
Lemma dump_restore_roundtrip_witness :
  exists t h refs r p free, Crc.crc64_init = Some t /\
    createDumpPayload (fun _ => 0) t (fun _ => 0) sample_object
      (rdbSaveObject (H := buffer_io (fun _ => 0)) (fun _ => 0) (fun _ => 0) true (fun _ => mret 0) sample_object) None = Done (Some r, tt) /\
    Sds.rep (ptr (io r)) p free /\ verifyDumpPayload t (fun _ => 0) p = Some true /\
    exists r' l a, rdbLoadObjectType (H := buffer_io (fun _ => 0)) (rioInitWithBuffer (ptr (io r))) = Done (r', RDB_TYPE_STRING) /\
      rdbLoadObject (H := buffer_io (fun _ => 0)) Object.sample_server (fun _ => 0) 1000 (fun _ => mret LNull) RDB_TYPE_STRING (mkLd r' h) = Done (l, LObj a) /\
      Object.inv (objs l) (Object.give refs a 1) /\ Object.keeps h (objs l) /\ Object.has (objs l) a [52; 50].
Proof.
  destruct Crc.crc64_init_ok as (t & Ht & _). destruct (sample_ld [] eq_refl) as (l0 & refs & _ & Hi).
  destruct (dump_restore_roundtrip (fun _ => 0) (fun _ => 0) true t (fun _ => 0) Object.sample_server 1000 (fun _ => mret 0) (fun _ => mret LNull)
    sample_object [52; 50] (objs l0) refs Ht) as (r & p & free & Hrest).
  - reflexivity.
  - vm_compute. congruence.
  - reflexivity.
  - repeat constructor; vm_compute; congruence.
  - reflexivity.
  - split; [discriminate|reflexivity].
  - vm_compute. congruence.
  - exact Hi.
  - exists t, (objs l0), refs, r, p, free. split; [exact Ht|exact Hrest].
Defined.

End Dump.
