(* ===== verification/Js.v ===== *)
(** The part of JavaScript and of the Node runtime the HTTP application uses:
    strings of UTF-16 code units, the values a JSON body, a query string or a
    stored document can hold, truthiness, conversion to strings, [parseInt],
    [split], [path.join] and base64.

    Numbers are IEEE-754 doubles ([spec_float] of the Standard Library).  The
    runtime's decoders and digests, and the packages the application imports,
    are the operations of the class [Runtime]. *)

From Stdlib Require Import SpecFloat Ascii String.
From S2P Require Import Prelude.

#[local] Open Scope Z_scope.

Module Js.

(** ** Strings *)

Notation jsstr := (list Z).

Fixpoint js (s : string) : jsstr :=
  match s with
  | EmptyString => []
  | String c s => Z.of_N (N_of_ascii c) :: js s
  end.
Arguments js s%_string : simpl never.

Definition startsWith (s p : jsstr) : bool := bool_decide (take (length p) s = p).

(** [s.split(c)] for a separator of one code unit. *)
Fixpoint split (c : Z) (s : jsstr) : list jsstr :=
  match s with
  | [] => [[]]
  | x :: s =>
      if x =? c then [] :: split c s
      else match split c s with
           | [] => [[x]]
           | w :: ws => (x :: w) :: ws
           end
  end.

(** [l.join(sep)]. *)
Fixpoint join (sep : jsstr) (l : list jsstr) : jsstr :=
  match l with
  | [] => []
  | [w] => w
  | w :: l => w ++ sep ++ join sep l
  end.

(** ** Values *)

(** An [ObjectId], by its 24 hexadecimal digits. *)
Notation oid := (list Z).

Inductive value :=
| VUndef
| VNull
| VBool (b : bool)
| VNum (x : spec_float)
| VStr (s : jsstr)
| VArr (l : list value)
| VObj (ps : list (jsstr * value))
| VId (o : oid).

Definition num (n : Z) : spec_float := binary_normalize 53 1024 n 0 false.

Definition truthy (v : value) : bool :=
  match v with
  | VUndef | VNull => false
  | VBool b => b
  | VNum (S754_zero _) | VNum S754_nan => false
  | VNum _ => true
  | VStr s => negb (bool_decide (s = []))
  | VArr _ | VObj _ | VId _ => true
  end.

(** [v || w]. *)
Definition js_or (v w : value) : value := if truthy v then v else w.

(** [v === w] for operands that share no object: objects are compared by
    identity. *)
Definition strict_eq (v w : value) : bool :=
  match v, w with
  | VUndef, VUndef | VNull, VNull => true
  | VBool a, VBool b => Bool.eqb a b
  | VNum x, VNum y => SFeqb x y
  | VStr s, VStr t => bool_decide (s = t)
  | _, _ => false
  end.

(** Property access on an object or array decoded from JSON, for the names of
    no inherited property. *)
Fixpoint lookup_prop (k : jsstr) (ps : list (jsstr * value)) : value :=
  match ps with
  | [] => VUndef
  | (k', v) :: ps => if bool_decide (k = k') then v else lookup_prop k ps
  end.

Definition prop (v : value) (k : jsstr) : value :=
  match v with VObj ps => lookup_prop k ps | _ => VUndef end.

(** A default in a destructuring pattern applies to [undefined] only. *)
Definition default_to (v d : value) : value := match v with VUndef => d | _ => v end.

(** [{...o, k: v}]. *)
Fixpoint set_prop (k : jsstr) (v : value) (ps : list (jsstr * value)) : list (jsstr * value) :=
  match ps with
  | [] => [(k, v)]
  | (k', w) :: ps => if bool_decide (k = k') then (k', v) :: ps else (k', w) :: set_prop k v ps
  end.

(** ** parseInt *)

Definition whitespace : list Z :=
  [9; 10; 11; 12; 13; 32; 160; 5760; 8192; 8193; 8194; 8195; 8196; 8197; 8198; 8199; 8200;
   8201; 8202; 8232; 8233; 8239; 8287; 12288; 65279].

Fixpoint trim_start (s : jsstr) : jsstr :=
  match s with
  | c :: s' => if bool_decide (c ∈ whitespace) then trim_start s' else s
  | [] => []
  end.

Fixpoint digits (s : jsstr) : list Z :=
  match s with
  | c :: s => if (48 <=? c) && (c <=? 57) then c - 48 :: digits s else []
  | [] => []
  end.

(** [parseInt(s, 10)]; an empty run of digits is [NaN], and a minus sign before
    zeros gives -0. *)
Definition parseInt (s : jsstr) : spec_float :=
  let s := trim_start s in
  let '(neg, s) :=
    match s with
    | c :: s' => if c =? 45 then (true, s') else if c =? 43 then (false, s') else (false, s)
    | [] => (false, [])
    end in
  match digits s with
  | [] => S754_nan
  | ds =>
      let x := num (fold_left (fun a d => a * 10 + d) ds 0) in
      if neg then SFopp x else x
  end.

(** ** Paths *)

(** One segment of [normalizeString]; the stack holds the segments kept so far,
    last one first. *)
Definition norm_seg (above : bool) (st : list jsstr) (seg : jsstr) : list jsstr :=
  if bool_decide (seg = []) || bool_decide (seg = js ".") then st
  else if bool_decide (seg = js "..") then
    match st with
    | [] => if above then [seg] else []
    | t :: st' => if bool_decide (t = js "..") then seg :: st else st'
    end
  else seg :: st.

Definition normalizeString (path : jsstr) (above : bool) : jsstr :=
  join (js "/") (reverse (fold_left (norm_seg above) (split 47 path) [])).

Definition normalize (path : jsstr) : jsstr :=
  match path with
  | [] => js "."
  | c :: _ =>
      let isAbsolute := c =? 47 in
      let trailing := bool_decide (last path = Some 47) in
      let p := normalizeString path (negb isAbsolute) in
      if bool_decide (p = []) then
        if isAbsolute then js "/" else if trailing then js "./" else js "."
      else
        let p := if trailing then p ++ js "/" else p in
        if isAbsolute then js "/" ++ p else p
  end.

(** [path.join(a, b)]; empty arguments are left out. *)
Definition path_join (a b : jsstr) : jsstr :=
  match filter (fun p : jsstr => p <> []) [a; b] with
  | [] => js "."
  | ps => normalize (join (js "/") ps)
  end.

(** ** Base64 (RFC 4648) *)

Definition b64_alphabet : jsstr :=
  js "ABCDEFGHIJKLMNOPQRSTUVWXYZabcdefghijklmnopqrstuvwxyz0123456789+/".

Definition b64_char (n : Z) : Z := default 0 (b64_alphabet !! Z.to_nat n).

Fixpoint base64_encode (bs : list Z) : jsstr :=
  match bs with
  | [] => []
  | [a] => [b64_char (a / 4); b64_char (a mod 4 * 16); 61; 61]
  | [a; b] => [b64_char (a / 4); b64_char (a mod 4 * 16 + b / 16); b64_char (b mod 16 * 4); 61]
  | a :: b :: c :: bs =>
      b64_char (a / 4) :: b64_char (a mod 4 * 16 + b / 16) ::
      b64_char (b mod 16 * 4 + c / 64) :: b64_char (c mod 64) :: base64_encode bs
  end.

(** [Buffer.toString('ascii')] drops the high bit of every byte. *)
Definition ascii_string (bs : list Z) : jsstr := map (fun b => Z.land b 127) bs.

(** ** The runtime *)

(** [Buffer.from(s, 'base64')] on a string; [Buffer.from] on an array or
    object ([None]: it throws); the hexadecimal SHA-1 digest of a string; the
    decimal rendering of a number; and [mime.lookup]. *)
Class Runtime := {
  base64_decode : jsstr -> list Z;
  buffer_of : value -> option (list Z);
  sha1_hex : jsstr -> jsstr;
  number_string : spec_float -> jsstr;
  mime_lookup : value -> value }.

(** The decoder inverts the standard encoding. *)
Class RuntimeBase64 `{Runtime} :=
  base64_inverts : forall bs, Forall is_byte bs -> base64_decode (base64_encode bs) = bs.

(** [String(v)]; [None] is the [TypeError] of an object whose own property
    [toString], a value and no function, hides the inherited method.  In an
    array [null] and [undefined] are rendered as the empty string. *)
Fixpoint to_string `{Runtime} (v : value) : option jsstr :=
  match v with
  | VUndef => Some (js "undefined")
  | VNull => Some (js "null")
  | VBool b => Some (if b then js "true" else js "false")
  | VNum x => Some (number_string x)
  | VStr s => Some s
  | VId o => Some o
  | VArr l => join (js ",") <$> mapM (fun v => match v with VUndef | VNull => Some [] | _ => to_string v end) l
  | VObj ps =>
      if existsb (fun p => bool_decide (p.1 = js "toString")) ps then None
      else Some (js "[object Object]")
  end.

(** ** Lemmas *)

Lemma split_cons c s : exists w ws, split c s = w :: ws.
Proof.
  induction s as [|x s (w & ws & IH)]; simpl; [eauto|]. destruct (x =? c); [eauto|]. rewrite IH. eauto.
Qed.

Lemma split_none c s : c ∉ s -> split c s = [s].
Proof.
  induction s as [|x s IH]; simpl; [done|]. intros [Hx Hs]%not_elem_of_cons.
  rewrite (proj2 (Z.eqb_neq x c)) by congruence. by rewrite IH.
Qed.

Lemma split_app c s t : c ∉ s -> split c (s ++ c :: t) = s :: split c t.
Proof.
  induction s as [|x s IH]; simpl; [by rewrite Z.eqb_refl|]. intros [Hx Hs]%not_elem_of_cons.
  rewrite (proj2 (Z.eqb_neq x c)) by congruence. by rewrite IH.
Qed.

(** What [split] returns, joined again, is the string; and no part contains
    the separator. *)
Lemma join_split c s : join [c] (split c s) = s.
Proof.
  induction s as [|x s IH]; simpl; [done|]. destruct (split_cons c s) as (w & ws & Hs).
  rewrite Hs in *. destruct (Z.eqb_spec x c) as [->|].
  - simpl in *. by rewrite IH.
  - destruct ws; simpl in *; by rewrite IH.
Qed.

Lemma startsWith_app p s : startsWith (p ++ s) p = true.
Proof. unfold startsWith. rewrite take_app_length. by apply bool_decide_eq_true_2. Qed.

Lemma startsWith_split p s : startsWith s p = true -> exists t, s = p ++ t.
Proof.
  unfold startsWith. intros Hp%bool_decide_eq_true_1. exists (drop (length p) s).
  rewrite <- Hp at 1. by rewrite take_drop.
Qed.

Lemma ascii_string_id s : Forall (fun b => 0 <= b < 128) s -> ascii_string s = s.
Proof.
  intros Hs. unfold ascii_string. induction Hs as [|b s Hb Hs IH]; simpl; [done|].
  rewrite IH. f_equal. change 127 with (Z.ones 7). rewrite Z.land_ones by lia. apply Z.mod_small. lia.
Qed.

(** ** Joining a plain name to a folder *)

(** What [path.join] puts before a name, for a given folder. *)
Definition path_prefix (folder : jsstr) : jsstr :=
  match folder with
  | [] => []
  | c :: _ =>
      (if c =? 47 then [47] else []) ++
      concat (map (fun seg => seg ++ [47])
                (reverse (fold_left (norm_seg (negb (c =? 47))) (split 47 folder) [])))
  end.

Definition plain_name (name : jsstr) : Prop :=
  47 ∉ name /\ name <> [] /\ name <> js "." /\ name <> js "..".

Lemma split_snoc c s t : c ∉ t -> split c (s ++ c :: t) = split c s ++ [t].
Proof.
  intros Ht. induction s as [|x s IH]; simpl.
  - rewrite Z.eqb_refl, split_none by done. done.
  - rewrite IH. destruct (x =? c); [done|]. by destruct (split_cons c s) as (w & ws & ->).
Qed.

Lemma join_snoc l (t : jsstr) : join [47] (l ++ [t]) = concat (map (fun s => s ++ [47]) l) ++ t.
Proof.
  induction l as [|w l IH]; simpl; [done|]. destruct (l ++ [t]) eqn:Hl; [by destruct l|].
  rewrite IH. by rewrite <- !app_assoc.
Qed.

Lemma norm_seg_plain above st name : plain_name name -> norm_seg above st name = name :: st.
Proof.
  intros (_ & Hn & Hd & Hdd). unfold norm_seg. by rewrite !bool_decide_eq_false_2.
Qed.

Lemma normalizeString_snoc folder name above :
  plain_name name ->
  normalizeString (folder ++ 47 :: name) above =
    concat (map (fun s => s ++ [47]) (reverse (fold_left (norm_seg above) (split 47 folder) []))) ++ name.
Proof.
  intros Hn. unfold normalizeString. rewrite split_snoc by apply Hn. rewrite fold_left_app. cbn [fold_left].
  rewrite norm_seg_plain, reverse_cons by done. apply join_snoc.
Qed.

Lemma last_plain (s name : jsstr) : plain_name name -> last (s ++ name) <> Some 47.
Proof.
  intros (Hs & Hn & _). destruct name as [|x name _] using rev_ind; [done|].
  rewrite app_assoc, last_snoc. intros [= ->]. apply Hs. set_solver.
Qed.

Lemma head_slash c (t : jsstr) : bool_decide (head (c :: t) = Some 47) = (c =? 47).
Proof.
  simpl. destruct (Z.eqb_spec c 47) as [->|Hc]; [by apply bool_decide_eq_true_2|].
  apply bool_decide_eq_false_2. congruence.
Qed.

Lemma normalize_plain (s name : jsstr) above p :
  plain_name name -> normalizeString (s ++ name) above = p ++ name ->
  above = negb (bool_decide (head (s ++ name) = Some 47)) ->
  normalize (s ++ name) = (if above then [] else [47]) ++ p ++ name.
Proof.
  intros Hn Hp Ha. pose proof (last_plain s name Hn) as Hl. destruct Hn as (_ & Hne & _).
  unfold normalize. destruct (s ++ name) as [|c t] eqn:Hs; [by apply app_eq_nil in Hs as [_ ->]|].
  rewrite head_slash in Ha. rewrite <- Ha, Hp, (bool_decide_eq_false_2 (last _ = _)) by done.
  rewrite bool_decide_eq_false_2; [|by intros [_ ->]%app_eq_nil].
  rewrite Ha. by destruct (c =? 47).
Qed.

Lemma path_join_plain folder name :
  plain_name name -> path_join folder name = path_prefix folder ++ name.
Proof.
  intros Hn. pose proof Hn as (Hs & Hne & _). unfold path_join, path_prefix.
  destruct folder as [|c folder].
  - rewrite filter_cons_False, filter_cons_True by (done || auto). simpl.
    change (normalize name) with (normalize ([] ++ name)).
    rewrite (normalize_plain [] name true []); [done|done| |].
    + simpl. unfold normalizeString. rewrite split_none by done. cbn [fold_left].
      by rewrite norm_seg_plain.
    + simpl. destruct name as [|x name]; [done|]. simpl. rewrite bool_decide_eq_false_2; [done|].
      intros [= ->]. apply Hs. set_solver.
  - rewrite !filter_cons_True by done. change (filter _ []) with (@nil jsstr).
    cbn [join]. change (js "/") with [47].
    replace ((c :: folder) ++ [47] ++ name) with (((c :: folder) ++ [47]) ++ name) by by rewrite <- app_assoc.
    rewrite (normalize_plain _ name (negb (c =? 47))
      (concat (map (fun s => s ++ [47])
         (reverse (fold_left (norm_seg (negb (c =? 47))) (split 47 (c :: folder)) []))))); [|done| |].
    + rewrite app_assoc. by destruct (c =? 47).
    + rewrite <- app_assoc. apply (normalizeString_snoc (c :: folder) name). done.
    + cbn [app]. by rewrite head_slash.
Qed.

(** ** A base64 decoder *)

(** The decoder of RFC 4648 on padded input, to instantiate the runtime. *)
Definition b64_index (c : Z) : option Z :=
  if (65 <=? c) && (c <=? 90) then Some (c - 65)
  else if (97 <=? c) && (c <=? 122) then Some (c - 71)
  else if (48 <=? c) && (c <=? 57) then Some (c + 4)
  else if c =? 43 then Some 62
  else if c =? 47 then Some 63
  else None.

Fixpoint rfc4648_decode (s : jsstr) : list Z :=
  match s with
  | a :: b :: c :: d :: s =>
      match b64_index a, b64_index b with
      | Some x, Some y =>
          match b64_index c, b64_index d with
          | Some z, Some t =>
              x * 4 + y / 16 :: y mod 16 * 16 + z / 4 :: z mod 4 * 64 + t :: rfc4648_decode s
          | Some z, None => [x * 4 + y / 16; y mod 16 * 16 + z / 4]
          | None, _ => [x * 4 + y / 16]
          end
      | _, _ => []
      end
  | _ => []
  end.

Lemma b64_index_char n : 0 <= n < 64 -> b64_index (b64_char n) = Some n.
Proof.
  intros Hn. assert (forallb (fun i => bool_decide (b64_index (b64_char (Z.of_nat i)) = Some (Z.of_nat i))) (seq 0 64) = true)
    as Hall by by vm_compute.
  rewrite forallb_forall in Hall. specialize (Hall (Z.to_nat n)). rewrite Z2Nat.id in Hall by lia.
  apply (bool_decide_eq_true_1 _), Hall, in_seq. lia.
Qed.

Lemma b64_char_plain n : b64_char n <> 32.
Proof.
  unfold b64_char. destruct (b64_alphabet !! Z.to_nat n) as [c|] eqn:Hc; simpl; [|done].
  assert (Forall (fun c => c <> 32) b64_alphabet) as Hf by (by apply (bool_decide_unpack _); vm_compute).
  by apply (Forall_lookup_1 _ _ _ _ Hf Hc).
Qed.

Lemma threes_ind (P : list Z -> Prop) :
  P [] -> (forall a, P [a]) -> (forall a b, P [a; b]) ->
  (forall a b c bs, P bs -> P (a :: b :: c :: bs)) -> forall bs, P bs.
Proof.
  intros H0 H1 H2 H3 bs. enough (forall n bs, (length bs <= n)%nat -> P bs) as Hn by (by eapply Hn).
  clear bs. induction n as [|n IH]; intros [|a [|b [|c bs]]] Hl; simpl in Hl; auto; [lia..|].
  apply H3, IH. lia.
Qed.

Lemma base64_encode_plain bs : 32 ∉ base64_encode bs.
Proof.
  induction bs as [|a|a b|a b c bs IH] using threes_ind; cbn [base64_encode];
    rewrite ?not_elem_of_cons; split_and?; try apply b64_char_plain || apply not_elem_of_nil || done.
  all: apply not_eq_sym; apply b64_char_plain.
Qed.

Lemma rfc4648_decode_encode bs : Forall is_byte bs -> rfc4648_decode (base64_encode bs) = bs.
Proof.
  unfold is_byte. induction bs as [|a|a b|a b c bs IH] using threes_ind; cbn [base64_encode rfc4648_decode];
    rewrite ?Forall_cons; intros Hb; [done|..]; destruct_and?.
  - rewrite !b64_index_char by dlia. change (b64_index 61) with (@None Z). cbv iota. f_equal. dlia.
  - rewrite !b64_index_char by dlia. change (b64_index 61) with (@None Z). cbv iota. f_equal; [dlia|f_equal; dlia].
  - rewrite !b64_index_char by dlia. cbv iota. rewrite IH by done. f_equal; [dlia|f_equal; [dlia|f_equal; dlia]].
Qed.

(** A runtime with that decoder and stand-ins for the rest. *)
Definition sample_runtime : Runtime := {|
  base64_decode := rfc4648_decode;
  buffer_of := fun _ => None;
  sha1_hex := fun s => js "#" ++ s;
  number_string := fun _ => js "0";
  mime_lookup := fun _ => VStr (js "text/plain") |}.

Lemma sample_runtime_base64 : RuntimeBase64 (H := sample_runtime).
Proof. intros bs Hb. by apply rfc4648_decode_encode. Qed.

End Js.
