(* ===== verification/FilesApp.v ===== *)
(** The HTTP application: the controllers, the route table and the worker of
    the repository's JavaScript part, as programs over the services they await.

    A handler is a tree of calls to the services (Redis, MongoDB, the file
    system, the job queue, the id generators); every call may fail, and what
    it returns is decided by the service.  JavaScript's ways of leaving a
    block, falling through, [return] and [throw], are the three completions of
    the monad [M]; [return res.status(..).json(..)] is [respond].  Messages on
    the console are left out. *)

From Stdlib Require Import SpecFloat.
From S2P Require Import Prelude Js.

#[local] Open Scope Z_scope.

Module App.
Import Js.

(** ** Services *)

Inductive coll := Users | Files.

(** A stored document: its [_id] and the other fields. *)
Record doc := mkDoc { doc_id : oid; doc_fields : list (jsstr * value) }.

Definition doc_value (d : doc) : value := VObj ((js "_id", VId (doc_id d)) :: doc_fields d).
Definition field (d : doc) (k : jsstr) : value := prop (doc_value d) k.

Notation query := (list (jsstr * value)).

Inductive op :=
| RedisGet (key : jsstr)
| RedisSet (key val : jsstr) (ex : Z)
| RedisDel (key : jsstr)
| RedisAlive
| DbAlive
| DbHandle
| FindOne (c : coll) (q : query)
| InsertOne (c : coll) (id : option oid) (fields : list (jsstr * value))
| UpdateOne (c : coll) (q : query) (set : list (jsstr * value))
| Aggregate (c : coll) (q : query) (skip limit : spec_float)
| CountDocuments (c : coll)
| ObjectIdOf (v : value)
| NewObjectId
| Uuidv4
| WriteFile (path : jsstr) (data : list Z)
| ExistsSync (path : jsstr)
| QueueAdd (userId fileId : oid)
| ImageThumbnail (source : value) (size : Z).

(** What a call resolves to: the key's value or [null], the number of keys
    deleted, whether [dbClient.db] is set, the document found, the inserted
    id, ... *)
Definition reply (o : op) : Type :=
  match o with
  | RedisGet _ => option jsstr
  | RedisSet _ _ _ => unit
  | RedisDel _ => Z
  | RedisAlive | DbAlive | DbHandle => bool
  | FindOne _ _ => option doc
  | InsertOne _ _ _ => oid
  | UpdateOne _ _ _ => unit
  | Aggregate _ _ _ _ => list doc
  | CountDocuments _ => Z
  | ObjectIdOf _ | NewObjectId => oid
  | Uuidv4 => jsstr
  | WriteFile _ _ => unit
  | ExistsSync _ => bool
  | QueueAdd _ _ => unit
  | ImageThumbnail _ _ => list Z
  end.

Inductive result (A : Type) := Ok (a : A) | Err.
Arguments Ok {A} a.
Arguments Err {A}.

(** ** Programs *)

Inductive prog (A : Type) :=
| Ret (a : A)
| Call (o : op) (k : result (reply o) -> prog A).
Arguments Ret {A} a.
Arguments Call {A} o k.

Fixpoint pbind {A B} (f : A -> prog B) (p : prog A) : prog B :=
  match p with
  | Ret a => f a
  | Call o k => Call o (fun r => pbind f (k r))
  end.

Inductive exn := ServiceError | TypeError | ReferenceError | JsError (msg : jsstr).

(** [res.json(v)], or a file whose stream is piped to the response, with its
    content type, before the response is ended. *)
Inductive payload := Json (v : value) | Stream (content_type : value) (path : jsstr).
Record response := mkRes { status : Z; payload_of : payload }.

Inductive completion (A : Type) := Normal (a : A) | Return (r : response) | Throw (e : exn).
Arguments Normal {A} a.
Arguments Return {A} r.
Arguments Throw {A} e.

Definition M (A : Type) : Type := prog (completion A).

#[export] Instance M_ret : MRet M := fun A a => Ret (Normal a).
#[export] Instance M_bind : MBind M := fun A B f m =>
  pbind (fun c => match c with
                  | Normal a => f a
                  | Return r => Ret (Return r)
                  | Throw e => Ret (Throw e)
                  end) m.

Definition throw {A} (e : exn) : M A := Ret (Throw e).
Definition try_catch {A} (m h : M A) : M A :=
  pbind (fun c => match c with Throw _ => h | _ => Ret c end) m.

(** [await] of a service call: a rejected promise throws. *)
Definition call (o : op) : M (reply o) :=
  Call o (fun r => Ret (match r with Ok a => Normal a | Err => Throw ServiceError end)).

(** [return res.status(s).json(v)]. *)
Definition respond {A} (s : Z) (v : value) : M A := Ret (Return (mkRes s (Json v))).
Definition error {A} (s : Z) (msg : jsstr) : M A := respond s (VObj [(js "error", VStr msg)]).

Definition lift_string (s : option jsstr) : M jsstr :=
  match s with Some s => mret s | None => throw TypeError end.

(** [dbClient.db.collection(c)]: a [TypeError] before the connection is made,
    when [db] is [null]. *)
Definition collection : M unit :=
  b ← call DbHandle; if (b : bool) then mret tt else throw TypeError.

(** ** Requests *)

(** [headers], [body], [params.id], [query]; [req.user] is set by no
    middleware of [server.js]. *)
Record request := mkReq {
  authorization : option jsstr;
  x_token : option jsstr;
  body : value;
  params_id : jsstr;
  req_query : list (jsstr * value);
  req_user : value }.

Definition from_server (req : request) : Prop := req_user req = VUndef.

(** [if (!s)] on a header or a reply: absent or empty. *)
Definition given (s : option jsstr) : option jsstr :=
  match s with Some (_ :: _) => s | _ => None end.

Definition auth_key (token : jsstr) : jsstr := js "auth_" ++ token.
Definition UNAUTHORIZED : jsstr := js "Unauthorized".
Definition INTERNAL : jsstr := js "Internal Server Error".

(** ** utils/db.js, utils/redis.js *)

(** The clients' flags: [connect] sets [db] and [isConnected] together, and the
    events of the Redis connection set its flag. *)
Record db_client := mkDbClient { db_isConnected : bool; db_isSet : bool }.
Definition db_constructor : db_client := mkDbClient false false.
Definition db_connect (ok : bool) (c : db_client) : db_client := if ok then mkDbClient true true else c.

Inductive redis_event := RedisError | RedisConnect.
Definition redis_constructor : bool := false.
Definition redis_on (e : redis_event) (isConnected : bool) : bool :=
  match e with RedisError => false | RedisConnect => true end.

(** A client that says it is alive has its database handle. *)
Lemma db_alive_set oks : let c := fold_left (fun c ok => db_connect ok c) oks db_constructor in
  db_isConnected c = db_isSet c.
Proof.
  cbv zeta. enough (forall c, db_isConnected c = db_isSet c ->
    let c' := fold_left (fun c ok => db_connect ok c) oks c in db_isConnected c' = db_isSet c') as He by by apply He.
  induction oks as [|[] oks IH]; intros c Hc; [done|by apply IH..].
Qed.

Definition nb (c : coll) : M Z :=
  alive ← call DbAlive;
  if negb alive then throw (JsError (js "Not connected to MongoDB"))
  else _ ← collection; call (CountDocuments c).
Definition nbUsers : M Z := nb Users.
Definition nbFiles : M Z := nb Files.

Definition redis_get (key : jsstr) : M (option jsstr) := call (RedisGet key).
Definition redis_set (key val : jsstr) (duration : Z) : M unit := call (RedisSet key val duration).
Definition redis_del (key : jsstr) : M bool := n ← call (RedisDel key); mret (n >? 0).

(** ** AppController *)

Definition getStatus (req : request) : M unit :=
  try_catch
    (isRedisAlive ← call RedisAlive;
     isDBAlive ← call DbAlive;
     if (isRedisAlive : bool) && (isDBAlive : bool) then
       respond 200 (VObj [(js "redis", VBool isRedisAlive); (js "db", VBool isDBAlive)])
     else error 500 (js "Internal server error"))
    (error 500 (js "Internal server error")).

Definition getStats (req : request) : M unit :=
  try_catch
    (alive ← call DbAlive;
     if (alive : bool) then
       usersCount ← nbUsers;
       filesCount ← nbFiles;
       respond 200 (VObj [(js "users", VNum (num usersCount)); (js "files", VNum (num filesCount))])
     else error 500 (js "Internal server error"))
    (error 500 (js "Internal server error")).

Section controllers.
Context `{Runtime}.

(** [crypto.createHash('sha1').update(v).digest('hex')]: [update] takes
    strings only among the values of a JSON body. *)
Definition hash_password (v : value) : M jsstr :=
  match v with VStr s => mret (sha1_hex s) | _ => throw TypeError end.

(** ** UsersController *)

Definition postNew (req : request) : M unit :=
  try_catch
    (let email := prop (body req) (js "email") in
     let password := prop (body req) (js "password") in
     if negb (truthy email) && negb (truthy password) then error 400 (js "Missing email and Missing password")
     else if negb (truthy email) then error 400 (js "Missing email")
     else if negb (truthy password) then error 400 (js "Missing password")
     else
       _ ← collection;
       existingUser ← call (FindOne Users [(js "email", email)]);
       match existingUser with
       | Some _ => error 400 (js "Already exist")
       | None =>
           hashedPassword ← hash_password password;
           _ ← collection;
           id ← call (InsertOne Users None [(js "email", email); (js "password", VStr hashedPassword)]);
           respond 201 (VObj [(js "id", VId id); (js "email", email)])
       end)
    (error 500 INTERNAL).

(** The lookup of the session's user; [None] is a missing user. *)
Definition session_user (userId : jsstr) : M (option doc) :=
  objectIdUserId ← call (ObjectIdOf (VStr userId));
  _ ← collection;
  call (FindOne Users [(js "_id", VId objectIdUserId)]).

Definition getMe (req : request) : M unit :=
  match given (x_token req) with
  | None => error 401 UNAUTHORIZED
  | Some token =>
      try_catch
        (userId ← redis_get (auth_key token);
         match given userId with
         | None => error 401 UNAUTHORIZED
         | Some userId =>
             user ← session_user userId;
             match user with
             | None => error 401 UNAUTHORIZED
             | Some user =>
                 respond 200 (VObj [(js "id", VId (doc_id user)); (js "email", field user (js "email"))])
             end
         end)
        (error 500 INTERNAL)
  end.

(** ** AuthController *)

(** [authHeader.split(' ')[1]], decoded and split at the colons; the pattern
    [[email, password]] takes the first two parts. *)
Definition credentials (authHeader : jsstr) : option jsstr * option jsstr :=
  let base64Credentials := default [] (split 32 authHeader !! 1%nat) in
  let credentials := ascii_string (base64_decode base64Credentials) in
  let parts := split 58 credentials in
  (parts !! 0%nat, parts !! 1%nat).

Definition getConnect (req : request) : M unit :=
  match given (authorization req) with
  | None => error 401 UNAUTHORIZED
  | Some authHeader =>
      if negb (startsWith authHeader (js "Basic ")) then error 401 UNAUTHORIZED
      else
        let '(email, password) := credentials authHeader in
        match given email, given password with
        | Some email, Some password =>
            try_catch
              (let hashedPassword := sha1_hex password in
               _ ← collection;
               user ← call (FindOne Users [(js "email", VStr email)]);
               match user with
               | None => error 401 UNAUTHORIZED
               | Some user =>
                   if negb (strict_eq (field user (js "password")) (VStr hashedPassword))
                   then error 401 UNAUTHORIZED
                   else
                     token ← call Uuidv4;
                     let key := auth_key token in
                     _ ← collection;
                     userId ← call (InsertOne Users None
                                [(js "email", VStr email); (js "password", VStr hashedPassword)]);
                     _ ← redis_set key userId (24 * 60 * 60);
                     respond 200 (VObj [(js "token", VStr token)])
               end)
              (error 500 INTERNAL)
        | _, _ => error 401 UNAUTHORIZED
        end
  end.

Definition getDisconnect (req : request) : M unit :=
  match given (x_token req) with
  | None => error 401 UNAUTHORIZED
  | Some token =>
      try_catch
        (let key := auth_key token in
         userId ← redis_get key;
         match given userId with
         | None => error 401 UNAUTHORIZED
         | Some _ => _ ← redis_del key; respond 204 VUndef
         end)
        (error 500 INTERNAL)
  end.

(** ** FilesController *)

(** The block "Retrieve user based on token" every handler below opens with. *)
Definition retrieveUser (token : jsstr) : M doc :=
  try_catch
    (userId ← redis_get (auth_key token);
     match given userId with
     | None => error 401 UNAUTHORIZED
     | Some userId =>
         user ← session_user userId;
         match user with
         | None => error 401 UNAUTHORIZED
         | Some user => mret user
         end
     end)
    (error 500 INTERNAL).

Definition with_user (req : request) (k : doc -> M unit) : M unit :=
  match given (x_token req) with
  | None => error 401 UNAUTHORIZED
  | Some token => user ← retrieveUser token; k user
  end.

(** [FOLDER_PATH] is an environment variable with a default. *)
Context (FOLDER_PATH : jsstr).

(** [Buffer.from(data, 'base64')]. *)
Definition buffer_from (data : value) : M (list Z) :=
  match data with
  | VStr s => mret (base64_decode s)
  | v => match buffer_of v with Some b => mret b | None => throw TypeError end
  end.

Definition is_type (type : value) (s : jsstr) : bool := strict_eq type (VStr s).

(** The check of [parentId]. *)
Definition check_parent (parentId : value) : M unit :=
  if negb (strict_eq parentId (VNum (num 0))) then
    parentFile ← try_catch
      (_ ← collection;
       id ← call (ObjectIdOf parentId);
       call (FindOne Files [(js "_id", VId id)]))
      (error 500 INTERNAL);
    match parentFile with
    | None => error 400 (js "Parent not found")
    | Some parentFile =>
        if negb (is_type (field parentFile (js "type")) (js "folder"))
        then error 400 (js "Parent is not a folder") else mret tt
    end
  else mret tt.

Definition file_path (fileId : oid) : jsstr := path_join FOLDER_PATH (fileId ++ js ".dat").

(** The last block: store the folder or the file. *)
Definition store_upload (user : doc) (name type parentId isPublic data : value) : M unit :=
  try_catch
    (if is_type type (js "folder") then
       let newFolder := [(js "userId", VId (doc_id user)); (js "name", name); (js "type", type);
                         (js "isPublic", isPublic); (js "parentId", parentId)] in
       _ ← collection;
       id ← call (InsertOne Files None newFolder);
       respond 201 (VObj (newFolder ++ [(js "_id", VId id)]))
     else
       fileData ← buffer_from data;
       fileId ← call NewObjectId;
       let localPath := file_path fileId in
       _ ← call (WriteFile localPath fileData);
       let newFile := [(js "userId", VId (doc_id user)); (js "name", name); (js "type", type);
                       (js "isPublic", isPublic); (js "parentId", parentId);
                       (js "localPath", VStr localPath)] in
       _ ← collection;
       _ ← call (InsertOne Files (Some fileId) newFile);
       Call (QueueAdd (doc_id user) fileId) (fun _ =>
         respond 201 (VObj ((js "_id", VId fileId) :: newFile))))
    (error 500 INTERNAL).

Definition postUpload (req : request) : M unit :=
  with_user req (fun user =>
    let name := prop (body req) (js "name") in
    let type := prop (body req) (js "type") in
    let parentId := default_to (prop (body req) (js "parentId")) (VNum (num 0)) in
    let isPublic := default_to (prop (body req) (js "isPublic")) (VBool false) in
    let data := prop (body req) (js "data") in
    if negb (truthy name) then error 400 (js "Missing name")
    else if negb (truthy type) ||
            negb (existsb (is_type type) [js "folder"; js "file"; js "image"])
    then error 400 (js "Missing type")
    else if negb (truthy data) && negb (is_type type (js "folder")) then error 400 (js "Missing data")
    else _ ← check_parent parentId; store_upload user name type parentId isPublic data).

Definition getShow (req : request) : M unit :=
  with_user req (fun user =>
    file ← try_catch
      (_ ← collection;
       id ← call (ObjectIdOf (VStr (params_id req)));
       call (FindOne Files [(js "_id", VId id)]))
      (error 500 INTERNAL);
    match file with
    | None => error 404 (js "Not found")
    | Some file =>
        if negb (strict_eq (field file (js "userId")) (VStr (doc_id user)))
        then error 404 (js "Not found")
        else respond 200 (doc_value file)
    end).

Definition getIndex (req : request) : M unit :=
  with_user req (fun user =>
    let parentId := js_or (lookup_prop (js "parentId") (req_query req)) (VStr (js "0")) in
    pageString ← lift_string (to_string (lookup_prop (js "page") (req_query req)));
    let page := parseInt pageString in
    let page := if truthy (VNum page) then page else num 0 in
    let limit := num 20 in
    let skip := SFmul 53 1024 page limit in
    files ← try_catch
      (_ ← collection;
       call (Aggregate Files [(js "userId", VStr (doc_id user)); (js "parentId", parentId)] skip limit))
      (error 500 INTERNAL);
    respond 200 (VArr (map doc_value files))).

(** [putPublish] and [putUnpublish] are the same text but for the value. *)
Definition setPublic (isPublic : bool) (req : request) : M unit :=
  with_user req (fun user =>
    file ← try_catch
      (_ ← collection;
       id ← call (ObjectIdOf (VStr (params_id req)));
       call (FindOne Files [(js "_id", VId id); (js "userId", VStr (doc_id user))]))
      (error 500 INTERNAL);
    match file with
    | None => error 404 (js "Not found")
    | Some file =>
        _ ← try_catch
          (_ ← collection;
           id ← call (ObjectIdOf (VStr (params_id req)));
           call (UpdateOne Files [(js "_id", VId id)] [(js "isPublic", VBool isPublic)]))
          (error 500 INTERNAL);
        respond 200 (VObj (set_prop (js "isPublic") (VBool isPublic)
                             ((js "_id", VId (doc_id file)) :: doc_fields file)))
    end).
Definition putPublish : request -> M unit := setPublic true.
Definition putUnpublish : request -> M unit := setPublic false.

(** [fs.existsSync(v)] is false on what is not a path. *)
Definition exists_path (v : value) : M bool :=
  match v with VStr p => call (ExistsSync p) | _ => mret false end.

Definition getFile (req : request) : M unit :=
  try_catch
    (_ ← collection;
     id ← call (ObjectIdOf (VStr (params_id req)));
     file ← call (FindOne Files [(js "_id", VId id)]);
     match file with
     | None => error 404 (js "Not found")
     | Some file =>
         if negb (truthy (field file (js "isPublic"))) &&
            (negb (truthy (req_user req)) ||
             negb (strict_eq (prop (req_user req) (js "id")) (field file (js "userId"))))
         then error 404 (js "Not found")
         else if is_type (field file (js "type")) (js "folder")
         then error 400 (js "A folder doesn't have content")
         else
           let filePath := field file (js "localPath") in
           present ← exists_path filePath;
           if negb present then error 404 (js "Not found")
           else
             base ← lift_string (to_string filePath);
             size ← lift_string (to_string (lookup_prop (js "size") (req_query req)));
             let resizedFilePath := base ++ js "_" ++ size in
             present ← call (ExistsSync resizedFilePath);
             if negb present then error 404 (js "Not found")
             else Ret (Return (mkRes 200 (Stream (mime_lookup (field file (js "name"))) resizedFilePath)))
     end)
    (error 500 INTERNAL).

(** ** routes/index.js *)

Inductive method := GET | POST | PUT.

Definition routes : list (method * jsstr * (request -> M unit)) :=
  [(GET, js "/status", getStatus);
   (GET, js "/stats", getStats);
   (POST, js "/users", postNew);
   (GET, js "/connect", getConnect);
   (GET, js "/disconnect", getDisconnect);
   (GET, js "/users/me", getMe);
   (POST, js "/files", postUpload);
   (GET, js "/files/:id", getShow);
   (GET, js "/files", getIndex);
   (PUT, js "/files/:id/publish", putPublish);
   (PUT, js "/files/:id/unpublish", putUnpublish);
   (GET, js "/files/:id/data", getFile)].

(** ** worker.js *)

Fixpoint thumbnails (localPath : value) (sizes : list (Z * jsstr)) : M unit :=
  match sizes with
  | [] => mret tt
  | (size, name) :: sizes =>
      thumbnail ← call (ImageThumbnail localPath size);
      base ← lift_string (to_string localPath);
      _ ← call (WriteFile (base ++ js "_" ++ name) thumbnail);
      thumbnails localPath sizes
  end.

(** The processor of the queue.  [send] of its last line is declared nowhere. *)
Definition process (data : value) : M unit :=
  if negb (truthy (prop data (js "fileId"))) then throw (JsError (js "Missing fileId"))
  else if negb (truthy (prop data (js "userId"))) then throw (JsError (js "Missing userId"))
  else
    _ ← collection;
    id ← call (ObjectIdOf (prop data (js "fileId")));
    file ← call (FindOne Files [(js "_id", VId id); (js "userId", prop data (js "userId"))]);
    match file with
    | None => throw (JsError (js "File not found"))
    | Some file =>
        _ ← thumbnails (field file (js "localPath")) [(500, js "500"); (250, js "250"); (100, js "100")];
        throw ReferenceError
    end.

(** The data of a queued job as the worker gets it: the queue stores jobs as
    JSON, in which an [ObjectId] is its hexadecimal string. *)
Definition job_data (userId fileId : oid) : value :=
  VObj [(js "userId", VStr userId); (js "fileId", VStr fileId)].

End controllers.
End App.
