(* ===== verification/AppTrace.v ===== *)
(** What the handlers of the HTTP application do, whatever the services reply:
    properties of their traces of service calls.

    A trace lists the calls of one request with their results, failures
    included; the theorems hold for every trace a handler can produce, so for
    every behaviour of Redis, MongoDB, the file system and the queue. *)

From Stdlib Require Import SpecFloat.
From S2P Require Import Prelude Js FilesApp.

#[local] Open Scope Z_scope.

Module AppTrace.
Import Js App.

Inductive event := Ev (o : op) (r : result (reply o)).

(** [traces p tr a]: the program can make the calls of [tr] and end with
    [a]. *)
Fixpoint traces {A} (p : prog A) (tr : list event) (a : A) : Prop :=
  match p with
  | Ret b => tr = [] /\ a = b
  | Call o k => exists r tr', tr = Ev o r :: tr' /\ traces (k r) tr' a
  end.

(** Every trace of a program satisfies [Q]. *)
Fixpoint wp {A} (p : prog A) (Q : list event -> A -> Prop) : Prop :=
  match p with
  | Ret a => Q [] a
  | Call o k => forall r, wp (k r) (fun tr a => Q (Ev o r :: tr) a)
  end.

Lemma wp_sound {A} (p : prog A) : forall Q tr a, wp p Q -> traces p tr a -> Q tr a.
Proof.
  induction p as [b|o k IH]; intros Q tr a; cbn [wp traces].
  - by intros HQ [-> ->].
  - intros HQ (r & tr' & -> & Ht). exact (IH r _ tr' a (HQ r) Ht).
Qed.

Lemma wp_mono {A} (p : prog A) : forall Q Q' : list event -> A -> Prop,
  (forall tr a, Q tr a -> Q' tr a) -> wp p Q -> wp p Q'.
Proof.
  induction p as [b|o k IH]; intros Q Q' HQ; cbn [wp]; [apply HQ|].
  intros Hw r. apply (IH r (fun tr a => Q (Ev o r :: tr) a)); [intros tr a; apply HQ|apply Hw].
Qed.

Lemma wp_true {A} (p : prog A) (Q : list event -> A -> Prop) : (forall tr a, Q tr a) -> wp p Q.
Proof. revert Q. induction p as [b|o k IH]; intros Q HQ; cbn [wp]; [done|]. intros r. by apply IH. Qed.

Lemma wp_pbind {A B} (f : A -> prog B) (p : prog A) : forall Q,
  wp p (fun tr a => wp (f a) (fun tr' b => Q (tr ++ tr') b)) -> wp (pbind f p) Q.
Proof. induction p as [b|o k IH]; intros Q; cbn [wp pbind]; [done|]. intros Hw r. by apply IH. Qed.

(** A program always has a trace: the services decide which. *)
Lemma traces_exist {A} (p : prog A) : exists tr a, traces p tr a.
Proof.
  induction p as [a|o k IH]; cbn [traces]; [by exists [], a|].
  destruct (IH Err) as (tr & a & Ht). by exists (Ev o Err :: tr), a, Err, tr.
Qed.

(** ** Symbolic execution *)

Ltac unfold_handlers :=
  unfold getStatus, getStats, postNew, getMe, getConnect, getDisconnect, postUpload, getShow, getIndex,
    putPublish, putUnpublish, setPublic, getFile, process, with_user, retrieveUser, session_user,
    store_upload, check_parent, nbUsers, nbFiles, nb, redis_get, redis_set, redis_del, exists_path,
    hash_password, buffer_from, lift_string, collection, error, respond, throw, call.

Ltac run1 :=
  cbn [wp pbind mbind M_bind mret M_ret try_catch call lift_string throw thumbnails app].

(** Split on what the next step of the program depends on. *)
Ltac split_head p :=
  lazymatch p with
  | pbind _ ?q => split_head q
  | mbind _ ?q => split_head q
  | try_catch ?q _ => split_head q
  | lift_string ?x => split_head x
  | match ?x with _ => _ end => split_head x
  | _ => destruct p eqn:?
  end.

Ltac explore :=
  repeat first
    [ progress run1
    | match goal with
      | |- forall r : result _, _ => intros [?|]
      | |- wp ?p _ => split_head p
      end ].

(** ** Events *)

(** A failed call; the promise of the queue is not awaited. *)
Definition failed (e : event) : bool :=
  match e with
  | Ev (QueueAdd _ _) _ => false
  | Ev o r => match r with Ok _ => false | Err => true end
  end.

(** The calls that change a service. *)
Definition effectful (e : event) : bool :=
  match e with
  | Ev (RedisSet _ _ _) _ | Ev (RedisDel _) _ | Ev (InsertOne _ _ _) _ | Ev (UpdateOne _ _ _) _
  | Ev (WriteFile _ _) _ | Ev (QueueAdd _ _) _ => true
  | _ => false
  end.

(** A change made for the user [u]: the files inserted and queued are theirs. *)
Definition on_behalf (u : doc) (e : event) : bool :=
  match e with
  | Ev (InsertOne c _ fields) _ =>
      match c, lookup_prop (js "userId") fields with
      | Files, VId o => bool_decide (o = doc_id u)
      | _, _ => false
      end
  | Ev (QueueAdd o _) _ => bool_decide (o = doc_id u)
  | _ => true
  end.

Definition succeeds (c : completion unit) : bool :=
  match c with Return r => status r <? 400 | _ => false end.

(** The trace opens with the lookup of the session of [token], which yields
    the user [u]. *)
Definition logged_in (token : jsstr) (u : doc) (tr : list event) : Prop :=
  exists uid id rest, uid <> [] /\
    tr = Ev (RedisGet (auth_key token)) (Ok (Some uid)) :: Ev (ObjectIdOf (VStr uid)) (Ok id) ::
         Ev DbHandle (Ok true) :: Ev (FindOne Users [(js "_id", VId id)]) (Ok (Some u)) :: rest.

Definition bad_page `{Runtime} (req : request) : Prop :=
  to_string (lookup_prop (js "page") (req_query req)) = None.

Section theorems.
Context `{Runtime}.
Context (FOLDER_PATH : jsstr).

(** The routes that act for a logged-in user. *)
Definition for_users : list jsstr :=
  [js "/users/me"; js "/files"; js "/files/:id"; js "/files/:id/publish"; js "/files/:id/unpublish"].

Definition answered (m : method) (p : jsstr) (req : request) (tr : list event) (c : completion unit) : Prop :=
  match c with
  | Return r => existsb failed tr = true -> status r = 500
  | Throw e => m = GET /\ p = js "/files" /\ e = TypeError /\ bad_page req /\ existsb failed tr = false
  | Normal _ => False
  end.

Lemma routes_answered :
  Forall (fun '(m, p, h) => forall req, wp (h req) (answered m p req)) (routes FOLDER_PATH).
Proof.
  repeat constructor; intros req; unfold_handlers; explore;
    unfold answered, bad_page; cbn [existsb failed orb status];
    first [discriminate|reflexivity|intros _; reflexivity|done].
Qed.

(** C16: Every request is answered, whatever fails.  For every route, every
    request and every sequence of service replies the handler ends in exactly
    one response, and the response is a 500 if any awaited call failed.  The
    one exception is a listing of files whose [page] parameter is an object
    with a [toString] key, or an array that holds one: the exception escapes
    the handler. *)
Theorem requests_answered m p h req tr c :
  (m, p, h) ∈ routes FOLDER_PATH -> traces (h req) tr c -> answered m p req tr c.
Proof.
  intros Hin Ht. pose proof routes_answered as Hr. rewrite Forall_forall in Hr.
  specialize (Hr _ Hin). cbn in Hr. exact (wp_sound _ _ _ _ (Hr req) Ht).
Qed.

Definition only_for_user (req : request) (tr : list event) (c : completion unit) : Prop :=
  succeeds c = true \/ existsb effectful tr = true ->
  exists token u, x_token req = Some token /\ token <> [] /\ logged_in token u tr /\
    forallb (on_behalf u) tr = true.

Lemma given_Some s t : given s = Some t -> s = Some t /\ t <> [].
Proof. destruct s as [[|c s]|]; simpl; [done| |done]. by intros [= <-]. Qed.

Lemma routes_only_for_user :
  Forall (fun '(m, p, h) => bool_decide (p ∈ for_users) = true -> forall req, wp (h req) (only_for_user req)) (routes FOLDER_PATH).
Proof.
  repeat constructor; intros Hp req; try (by vm_compute in Hp);
    clear Hp; unfold_handlers; explore; unfold only_for_user;
    cbn [succeeds status existsb effectful orb]; intros Hs; try (by destruct Hs).
  all: repeat match goal with Hg : given _ = Some _ |- _ => apply given_Some in Hg as [Hg ?] end.
  all: subst; eexists _, _; split_and!; [done|done| |].
  all: try (by eexists _, _, _).
  all: cbn [forallb on_behalf lookup_prop andb]; try done.
  all: rewrite !bool_decide_eq_true_2 by done; done.
Qed.

(** C2: Nothing is done or shown without a session.  On every route of
    [for_users] (/users/me and those under /files but the download), a
    response other than an error, or any change to a service
    (insertion, update, file, job, key), happens only in a trace that opens
    with the session of the request's own token being found in Redis and its
    user in MongoDB; and what is inserted or queued belongs to that user. *)
Theorem sessions_required m p h req tr c :
  (m, p, h) ∈ routes FOLDER_PATH -> p ∈ for_users -> traces (h req) tr c ->
  succeeds c = true \/ existsb effectful tr = true ->
  exists token u, x_token req = Some token /\ token <> [] /\ logged_in token u tr /\
    forallb (on_behalf u) tr = true.
Proof.
  intros Hin Hp Ht. pose proof routes_only_for_user as Hr. rewrite Forall_forall in Hr.
  specialize (Hr _ Hin (bool_decide_eq_true_2 _ Hp) req). exact (wp_sound _ _ _ _ Hr Ht).
Qed.

(** What a file response was based on. *)
Definition served_public (req : request) (tr : list event) (r : response) : Prop :=
  exists id f path size,
    Ev (FindOne Files [(js "_id", VId id)]) (Ok (Some f)) ∈ tr /\
    truthy (field f (js "isPublic")) = true /\ field f (js "type") <> VStr (js "folder") /\
    field f (js "localPath") = VStr path /\
    to_string (lookup_prop (js "size") (req_query req)) = Some size /\
    r = mkRes 200 (Stream (mime_lookup (field f (js "name"))) (path ++ js "_" ++ size)) /\
    Ev (ExistsSync (path ++ js "_" ++ size)) (Ok true) ∈ tr.

Lemma getFile_wp req :
  from_server req ->
  wp (getFile req) (fun tr c => match c with
    | Return r => status r = 200 -> served_public req tr r
    | _ => True end).
Proof.
  intros Hu. unfold from_server in Hu. unfold_handlers; explore; cbn [status]; try done; intros _.
  rewrite Hu in *. cbn [truthy negb orb] in *. rewrite andb_true_r in *.
  repeat match goal with Hn : negb _ = false |- _ => apply negb_false_iff in Hn end. simplify_eq/=.
  match goal with Hp : field ?f _ = VStr ?p, Hs : to_string _ = Some ?z |- _ => eexists _, f, p, z end.
  split_and!; try done; [do 2 right; left| |do 4 right; left].
  intros Hf. match goal with Ht : is_type _ _ = false |- _ => rewrite Hf in Ht; unfold is_type in Ht end.
  cbn [strict_eq] in *. by rewrite bool_decide_eq_true_2 in *.
Qed.

(** C14: Private files are not served.  The data route streams a file only if
    its document is public and no folder, and what it streams is the file
    [localPath_size], found to exist, for the [size] of the query: no request
    of a client, logged in or not, reads a private file.  A document without
    [isPublic] counts as private, so the last test of test/getFile.test.js,
    which stubs such a document and expects 200, gets 404. *)
Theorem getFile_public req tr r :
  from_server req -> traces (getFile req) tr (Return r) -> status r = 200 ->
  served_public req tr r.
Proof. intros Hu Ht. exact (wp_sound _ _ _ _ (getFile_wp req Hu) Ht). Qed.

End theorems.

(** ** Examples *)

Section examples.
#[local] Existing Instance sample_runtime.

Definition sample_user : doc := mkDoc (js "u1") [(js "email", VStr (js "a@b"))].

(** The upload of a folder by a logged-in user, and its trace. *)
Definition sample_upload : request :=
  mkReq None (Some (js "t1")) (VObj [(js "name", VStr (js "docs")); (js "type", VStr (js "folder"))]) [] [] VUndef.
Definition sample_folder : list (jsstr * value) :=
  [(js "userId", VId (js "u1")); (js "name", VStr (js "docs")); (js "type", VStr (js "folder"));
   (js "isPublic", VBool false); (js "parentId", VNum (num 0))].
Definition sample_trace : list event :=
  [Ev (RedisGet (auth_key (js "t1"))) (Ok (Some (js "u1"))); Ev (ObjectIdOf (VStr (js "u1"))) (Ok (js "u1"));
   Ev DbHandle (Ok true); Ev (FindOne Users [(js "_id", VId (js "u1"))]) (Ok (Some sample_user));
   Ev DbHandle (Ok true); Ev (InsertOne Files None sample_folder) (Ok (js "f1"))].

Ltac run_trace := repeat (eexists _, _; split; [reflexivity|]); split; reflexivity.

Lemma requests_answered_witness :
  exists r, traces (getStats sample_upload) [Ev DbAlive Err] (Return r) /\ status r = 500.
Proof.
  eexists. assert (traces (getStats sample_upload) [Ev DbAlive Err] (Return _)) as Ht by run_trace.
  split; [exact Ht|].
  refine (requests_answered [] GET (js "/stats") getStats sample_upload [Ev DbAlive Err] (Return _) _ Ht eq_refl).
  right. left.
Defined.

Lemma sessions_required_witness :
  exists token u, x_token sample_upload = Some token /\ logged_in token u sample_trace.
Proof.
  destruct (sessions_required [] POST (js "/files") (postUpload []) sample_upload sample_trace
    (Return (mkRes 201 (Json (VObj (sample_folder ++ [(js "_id", VId (js "f1"))]))))))
    as (token & u & Hx & _ & Hl & _); [do 6 right; left|right; left|run_trace|left; reflexivity|].
  by exists token, u.
Defined.

(** A public text file and its reduced copy. *)
Definition sample_file : doc :=
  mkDoc (js "f2") [(js "userId", VId (js "u1")); (js "name", VStr (js "x.txt")); (js "type", VStr (js "file"));
                   (js "isPublic", VBool true); (js "localPath", VStr (js "/d/f2.dat"))].
Definition sample_download : request :=
  mkReq None None (VObj []) (js "f2") [(js "size", VStr (js "100"))] VUndef.

Lemma getFile_public_witness :
  exists tr r, traces (getFile sample_download) tr (Return r) /\ served_public sample_download tr r.
Proof.
  set (tr := [Ev DbHandle (Ok true); Ev (ObjectIdOf (VStr (js "f2"))) (Ok (js "f2"));
    Ev (FindOne Files [(js "_id", VId (js "f2"))]) (Ok (Some sample_file));
    Ev (ExistsSync (js "/d/f2.dat")) (Ok true); Ev (ExistsSync (js "/d/f2.dat_100")) (Ok true)]).
  set (r := mkRes 200 (Stream (VStr (js "text/plain")) (js "/d/f2.dat_100"))).
  assert (traces (getFile sample_download) tr (Return r)) as Ht by run_trace.
  exists tr, r. split; [exact Ht|]. exact (getFile_public sample_download tr r eq_refl Ht eq_refl).
Defined.

End examples.
End AppTrace.
