(* ===== verification/AppSystem.v ===== *)
(** The HTTP application as a concurrent system.

    Requests and queue jobs are tasks that interleave at every service call,
    as the event loop of the server and the worker process interleave them.
    The services are a parameter: the class [Services] gives what they show
    (documents, keys, files on disk, queued jobs, ids issued) and the class
    [Documented] what their documentation promises of each call, failures
    included.  Invariants of all reachable states follow by induction on the
    steps. *)

From Stdlib Require Import SpecFloat.
From S2P Require Import Prelude Js FilesApp AppTrace.

#[local] Open Scope Z_scope.

Module AppSystem.
Import Js App AppTrace.

(** ** What the services show *)

Record view := mkView {
  v_users : list doc;
  v_files : list doc;
  v_cache : gmap jsstr jsstr;
  v_disk : gmap jsstr (list Z);
  v_jobs : list (oid * oid);
  v_issued : gset oid }.

Definition v_docs (v : view) (c : coll) : list doc :=
  match c with Users => v_users v | Files => v_files v end.
Definition set_docs (v : view) (c : coll) (l : list doc) : view :=
  match c with
  | Users => mkView l (v_files v) (v_cache v) (v_disk v) (v_jobs v) (v_issued v)
  | Files => mkView (v_users v) l (v_cache v) (v_disk v) (v_jobs v) (v_issued v)
  end.
Definition set_cache (v : view) (m : gmap jsstr jsstr) : view :=
  mkView (v_users v) (v_files v) m (v_disk v) (v_jobs v) (v_issued v).
Definition set_disk (v : view) (m : gmap jsstr (list Z)) : view :=
  mkView (v_users v) (v_files v) (v_cache v) m (v_jobs v) (v_issued v).
Definition set_jobs (v : view) (l : list (oid * oid)) : view :=
  mkView (v_users v) (v_files v) (v_cache v) (v_disk v) l (v_issued v).
Definition set_issued (v : view) (s : gset oid) : view :=
  mkView (v_users v) (v_files v) (v_cache v) (v_disk v) (v_jobs v) s.

Definition hex_digit (c : Z) : bool := (48 <=? c) && (c <=? 57) || (97 <=? c) && (c <=? 102).
Definition oid_ok (o : oid) : Prop := length o = 24%nat /\ forallb hex_digit o = true.

(** The documented effect of every call.  A failed change may or may not have
    happened. *)
Definition contract (matches : query -> doc -> bool) (v v' : view) (o : op) : result (reply o) -> Prop :=
  match o with
  | RedisGet k => fun r => v' = v /\ (forall x, r = Ok x -> x = v_cache v !! k)
  | RedisSet k x _ => fun r =>
      v' = set_cache v (<[k := x]> (v_cache v)) \/ r = Err /\ v' = v
  | RedisDel k => fun r =>
      v' = set_cache v (delete k (v_cache v)) \/ r = Err /\ v' = v
  | RedisAlive | DbAlive | DbHandle => fun _ => v' = v
  | FindOne c q => fun r => v' = v /\
      match r with
      | Ok (Some d) => d ∈ v_docs v c /\ matches q d = true
      | Ok None => Forall (fun d => matches q d = false) (v_docs v c)
      | Err => True
      end
  | InsertOne c id fields => fun r =>
      r = Err /\ v' = v \/
      exists o, (r = Ok o \/ r = Err) /\ o ∉ doc_id <$> v_docs v c /\
        match id with
        | Some i => o = i /\ v' = set_docs v c (v_docs v c ++ [mkDoc o fields])
        | None => oid_ok o /\ o ∉ v_issued v /\
            v' = set_issued (set_docs v c (v_docs v c ++ [mkDoc o fields])) ({[o]} ∪ v_issued v)
        end
  | UpdateOne c q set => fun r =>
      v' = v \/
      exists l1 d l2, v_docs v c = l1 ++ d :: l2 /\ matches q d = true /\
        v' = set_docs v c (l1 ++ mkDoc (doc_id d) (foldr (fun p => set_prop p.1 p.2) (doc_fields d) set) :: l2)
  | Aggregate c q _ _ => fun r => v' = v /\
      match r with
      | Ok l => Forall (fun d => d ∈ v_docs v c /\ matches q d = true) l
      | Err => True
      end
  | CountDocuments c => fun r => v' = v /\ (forall n, r = Ok n -> n = Z.of_nat (length (v_docs v c)))
  | ObjectIdOf x => fun r => exists s, v_issued v ⊆ s /\ v' = set_issued v s /\
      (forall o, x = VStr o -> o ∈ v_issued v -> r = Ok o)
  | NewObjectId => fun r =>
      match r with
      | Ok o => oid_ok o /\ o ∉ v_issued v /\ v' = set_issued v ({[o]} ∪ v_issued v)
      | Err => v' = v
      end
  | Uuidv4 => fun r => v' = v /\ (forall t, r = Ok t -> t <> [])
  | WriteFile p data => fun r =>
      v' = set_disk v (<[p := data]> (v_disk v)) \/
      r = Err /\ (v' = v \/ exists x, v' = set_disk v (<[p := x]> (v_disk v)))
  | ExistsSync p => fun _ => v' = v
  | QueueAdd u f => fun _ => v' = v \/ v' = set_jobs v (v_jobs v ++ [(u, f)])
  | ImageThumbnail _ _ => fun _ => v' = v
  end.

Class Services (W : Type) := {
  view_of : W -> view;
  matches : query -> doc -> bool;
  exec : W -> forall o : op, result (reply o) -> W -> Prop }.

(** A query on several fields matches if each field does.  A string or an id
    matches a field equal to it or an array that contains it. *)
Definition scalar (x : value) : bool := match x with VStr _ | VId _ => true | _ => false end.
Definition plain_key (k : jsstr) : bool := negb (existsb (fun c => (c =? 46) || (c =? 36)) k).

Class Documented (W : Type) `{Services W} := {
  exec_total : forall w o, exists r w', exec w o r w';
  exec_contract : forall w o r w', exec w o r w' -> contract matches (view_of w) (view_of w') o r;
  matches_and : forall p q d, q <> [] -> matches (p :: q) d = matches [p] d && matches q d;
  matches_scalar : forall k x d, plain_key k = true -> scalar x = true ->
    matches [(k, x)] d = true <-> field d k = x \/ exists l, field d k = VArr l /\ x ∈ l }.

(** ** The system *)

Inductive source := Request (m : method) (p : jsstr) (req : request) | Job (userId fileId : oid).

Record task := mkTask { t_source : source; t_trace : list event; t_prog : M unit }.

Section system.
Context {W : Type} `{Documented W} `{Runtime}.
Context (FOLDER_PATH : jsstr).

Inductive step : W * list task -> W * list task -> Prop :=
| step_request w ts m p h req :
    (m, p, h) ∈ routes FOLDER_PATH -> from_server req ->
    step (w, ts) (w, ts ++ [mkTask (Request m p req) [] (h req)])
| step_job w ts u f :
    (u, f) ∈ v_jobs (view_of w) ->
    step (w, ts) (w, ts ++ [mkTask (Job u f) [] (process (job_data u f))])
| step_call w ts i src tr o k r w' :
    ts !! i = Some (mkTask src tr (Call o k)) -> exec w o r w' ->
    step (w, ts) (w', <[i := mkTask src (tr ++ [Ev o r]) (k r)]> ts)
| step_expire w ts w' m :
    m ⊆ v_cache (view_of w) -> view_of w' = set_cache (view_of w) m ->
    step (w, ts) (w', ts).

(** A fresh deployment: no file stored, no job queued. *)
Definition fresh_start (s : W * list task) : Prop :=
  v_files (view_of s.1) = [] /\ v_jobs (view_of s.1) = [] /\ s.2 = [].

Inductive reachable : W * list task -> Prop :=
| reach_start s : fresh_start s -> reachable s
| reach_step s s' : reachable s -> step s s' -> reachable s'.

(** ** Programs under an invariant of the services *)

Section invariant.
(** [I] is kept by the calls [allowed] selects, and every reply then satisfies
    [fact]. *)
Context (I : view -> Prop) (allowed : op -> bool) (fact : forall o, result (reply o) -> Prop).
Context (Q : source -> list event -> completion unit -> Prop).

Fixpoint safe {A} (p : prog A) (P : list event -> A -> Prop) : Prop :=
  match p with
  | Ret a => P [] a
  | Call o k => allowed o = true /\
      (forall r, fact o r -> safe (k r) (fun tr a => P (Ev o r :: tr) a))
  end.

Hypothesis keeps : forall v v' o r,
  I v -> allowed o = true -> contract matches v v' o r -> I v' /\ fact o r.
Hypothesis start : forall v, v_files v = [] -> v_jobs v = [] -> I v.
Hypothesis expire : forall v m, I v -> I (set_cache v m).
Hypothesis routes_safe :
  Forall (fun '(m, p, h) => forall req, from_server req -> safe (h req) (Q (Request m p req))) (routes FOLDER_PATH).
Hypothesis jobs_safe : forall u f, safe (process (job_data u f)) (Q (Job u f)).

Definition task_safe (t : task) : Prop :=
  safe (t_prog t) (fun tr c => Q (t_source t) (t_trace t ++ tr) c).

Lemma safe_ext {A} (p : prog A) : forall P P' : list event -> A -> Prop,
  (forall tr a, P tr a -> P' tr a) -> safe p P -> safe p P'.
Proof.
  induction p as [b|o k IH]; intros P P' HP; cbn [safe]; [apply HP|].
  intros [Ha Hk]. split; [done|]. intros r Hr.
  apply (IH r (fun tr a => P (Ev o r :: tr) a)); [intros tr a; apply HP|by apply Hk].
Qed.

Lemma reachable_safe s : reachable s -> I (view_of s.1) /\ Forall task_safe s.2.
Proof using All.
  induction 1 as [[w ts] (Hf & Hj & Ht)|s s' _ IH Hs].
  - simpl in *. subst. split; [by apply start|done].
  - destruct Hs as [w ts m p h req Hin Hreq|w ts u f Hj|w ts i src tr o k r w' Hi Hx|w ts w' m Hm Hv];
      simpl in *; destruct IH as [HI Hts].
    + split; [done|]. apply Forall_app. split; [done|]. apply Forall_singleton. unfold task_safe. simpl.
      rewrite Forall_forall in routes_safe. exact (routes_safe _ Hin req Hreq).
    + split; [done|]. apply Forall_app. split; [done|]. by apply Forall_singleton, jobs_safe.
    + pose proof (Forall_lookup_1 _ _ _ _ Hts Hi) as [Ha Hk].
      destruct (keeps _ _ o r HI Ha (exec_contract _ _ _ _ Hx)) as [HI' Hfact]. split; [done|].
      apply Forall_insert; [done|]. unfold task_safe. simpl.
      eapply safe_ext; [|by apply Hk]. intros tr' c. cbn [t_trace t_source]. by rewrite <- app_assoc.
    + rewrite Hv. split; [by apply expire|done].
Qed.

(** What holds of every finished task. *)
Lemma finished_safe s t c : reachable s -> t ∈ s.2 -> t_prog t = Ret c -> Q (t_source t) (t_trace t) c.
Proof using All.
  intros Hr Ht Hc. destruct (reachable_safe s Hr) as [_ Hts]. rewrite Forall_forall in Hts.
  specialize (Hts t Ht). unfold task_safe in Hts. rewrite Hc in Hts. cbn [safe] in Hts.
  by rewrite app_nil_r in Hts.
Qed.

End invariant.

Lemma wp_safe {A} (p : prog A) : forall P, wp p P -> safe (fun _ => true) (fun _ _ => True) p P.
Proof. induction p as [a|o k IH]; intros P; cbn [wp safe]; [done|]. intros Hp. split; [done|]. intros r _. by apply IH. Qed.

(** A property of all the traces of a handler holds of its finished tasks. *)
Lemma finished_traces (Q : source -> list event -> completion unit -> Prop) s t c :
  Forall (fun '(m, p, h) => forall req, from_server req -> wp (h req) (Q (Request m p req))) (routes FOLDER_PATH) ->
  (forall u f, wp (process (job_data u f)) (Q (Job u f))) ->
  reachable s -> t ∈ s.2 -> t_prog t = Ret c -> Q (t_source t) (t_trace t) c.
Proof using All.
  intros Hr Hj. apply (finished_safe (fun _ => True) (fun _ => true) (fun _ _ => True)); try done.
  - eapply Forall_impl; [exact Hr|]. intros [[m p] h] Hh req Hreq. by apply wp_safe, Hh.
  - intros u f. by apply wp_safe.
Qed.

End system.
End AppSystem.
