(* ===== verification/AppMemory.v ===== *)
(** Services in memory, to show that what [Documented] asks of the services can
    hold and to run the handlers on examples. *)

From Stdlib Require Import SpecFloat.
From S2P Require Import Prelude Js FilesApp AppTrace AppSystem.

#[local] Open Scope Z_scope.

Module AppMemory.
Import Js App AppTrace AppSystem.

(** ** Queries *)

Definition eq_scalar (x y : value) : bool :=
  match x, y with
  | VStr s, VStr t => bool_decide (s = t)
  | VId s, VId t => bool_decide (s = t)
  | _, _ => false
  end.

Definition match_field (d : doc) (p : jsstr * value) : bool :=
  eq_scalar p.2 (field d p.1) ||
  match field d p.1 with VArr l => existsb (eq_scalar p.2) l | _ => false end.

Definition mem_matches (q : query) (d : doc) : bool := forallb (match_field d) q.

(** ** Ids *)

Definition hex_char (n : Z) : Z := if n <? 10 then 48 + n else 87 + n.
Definition hex_id (n : nat) : oid :=
  map (fun i => hex_char (Z.of_nat n / 16 ^ Z.of_nat i mod 16)) (reverse (seq 0 24)).

Definition id_free (v : view) (o : oid) : bool :=
  (length o =? 24)%nat && forallb hex_digit o && negb (bool_decide (o ∈ v_issued v)).

(** The first free id among enough candidates. *)
Definition fresh_id (v : view) : option oid :=
  head (List.filter (id_free v) (map hex_id (seq 0 (S (base.size (v_issued v)))))).

(** ** Calls *)

Definition insert (v : view) (c : coll) (o : oid) (fields : list (jsstr * value)) : option view :=
  if bool_decide (o ∈ doc_id <$> v_docs v c) then None
  else Some (set_docs v c (v_docs v c ++ [mkDoc o fields])).

Definition mem_step (v : view) (o : op) : result (reply o) * view :=
  match o return result (reply o) * view with
  | RedisGet k => (Ok (v_cache v !! k), v)
  | RedisSet k x _ => (Ok tt, set_cache v (<[k := x]> (v_cache v)))
  | RedisDel k =>
      (Ok (if bool_decide (is_Some (v_cache v !! k)) then 1 else 0), set_cache v (delete k (v_cache v)))
  | RedisAlive | DbAlive | DbHandle => (Ok true, v)
  | FindOne c q => (Ok (head (List.filter (mem_matches q) (v_docs v c))), v)
  | InsertOne c (Some i) fields =>
      match insert v c i fields with Some v' => (Ok i, v') | None => (Err, v) end
  | InsertOne c None fields =>
      match fresh_id v with
      | Some i =>
          match insert v c i fields with
          | Some v' => (Ok i, set_issued v' ({[i]} ∪ v_issued v))
          | None => (Err, v)
          end
      | None => (Err, v)
      end
  | UpdateOne _ _ _ => (Err, v)
  | Aggregate c q _ _ => (Ok (List.filter (mem_matches q) (v_docs v c)), v)
  | CountDocuments c => (Ok (Z.of_nat (length (v_docs v c))), v)
  | ObjectIdOf x => (match x with VStr o => Ok o | _ => Err end, v)
  | NewObjectId =>
      match fresh_id v with
      | Some i => (Ok i, set_issued v ({[i]} ∪ v_issued v))
      | None => (Err, v)
      end
  | Uuidv4 => (Ok (js "0f5c"), v)
  | WriteFile p data => (Ok tt, set_disk v (<[p := data]> (v_disk v)))
  | ExistsSync p => (Ok (bool_decide (is_Some (v_disk v !! p))), v)
  | QueueAdd u f => (Ok tt, set_jobs v (v_jobs v ++ [(u, f)]))
  | ImageThumbnail _ _ => (Ok [], v)
  end.

#[export] Instance memory : Services view := {|
  view_of v := v;
  matches := mem_matches;
  exec v o r v' := mem_step v o = (r, v') |}.

Lemma fresh_id_Some v o : fresh_id v = Some o -> oid_ok o /\ o ∉ v_issued v.
Proof.
  unfold fresh_id. intros Hh. assert (In o (List.filter (id_free v) (map hex_id (seq 0 (S (base.size (v_issued v)))))))
    as [_ Hf]%filter_In.
  { destruct (List.filter _ _); [done|]. injection Hh as ->. by left. }
  unfold id_free in Hf. rewrite !andb_true_iff, negb_true_iff in Hf.
  destruct Hf as [[Hl Hx] Hi]. split; [split; [by apply Nat.eqb_eq|done]|by apply (bool_decide_eq_false_1 _)].
Qed.

Lemma insert_Some v c o fields v' :
  insert v c o fields = Some v' ->
  o ∉ doc_id <$> v_docs v c /\ v' = set_docs v c (v_docs v c ++ [mkDoc o fields]).
Proof. unfold insert. case_bool_decide; [done|]. by intros [= <-]. Qed.

Lemma head_filter_Some (f : doc -> bool) l d : head (List.filter f l) = Some d -> d ∈ l /\ f d = true.
Proof.
  intros Hh. rewrite list_elem_of_In. apply filter_In. destruct (List.filter f l); [done|].
  injection Hh as ->. by left.
Qed.

Lemma head_filter_None (f : doc -> bool) l : head (List.filter f l) = None -> Forall (fun d => f d = false) l.
Proof.
  induction l as [|d l IH]; simpl; [done|]. destruct (f d) eqn:Hd; simpl; [done|]. intros Hl.
  constructor; auto.
Qed.

Lemma mem_contract v o r v' : mem_step v o = (r, v') -> contract mem_matches v v' o r.
Proof.
  destruct o as [| | | | | |c q|c [i|] fs| | | |x| | | | | |]; cbn [mem_step contract]; intros Hs;
    try (injection Hs as <- <-); try done; try (split; [done|]; by intros ? [= <-]); try (by left).
  - split; [done|]. destruct (head _) eqn:Hh; [by apply head_filter_Some|by apply head_filter_None].
  - destruct (insert v c i fs) as [v1|] eqn:Hi; injection Hs as <- <-; [|by left].
    apply insert_Some in Hi as [Hn ->]. right. exists i. by split_and!; [left|..].
  - destruct (fresh_id v) as [i|] eqn:Hf; [|injection Hs as <- <-; by left].
    destruct (insert v c i fs) as [v1|] eqn:Hi; injection Hs as <- <-; [|by left].
    apply insert_Some in Hi as [Hn ->]. apply fresh_id_Some in Hf as [Hok Hni].
    right. exists i. by split_and!; [left|..].
  - split; [done|]. apply Forall_forall. intros d. rewrite list_elem_of_In, filter_In, list_elem_of_In. done.
  - exists (v_issued v). split_and!; [done|by destruct v|]. by intros o ->.
  - destruct (fresh_id v) as [i|] eqn:Hf; injection Hs as <- <-; [|done].
    by apply fresh_id_Some in Hf as [Hok Hni].
  - by right.
Qed.

Lemma eq_scalar_eq x y : scalar x = true -> eq_scalar x y = true <-> y = x.
Proof.
  intros Hs. destruct x; try done; destruct y; simpl; try done; rewrite bool_decide_eq_true; split;
    [intros ->|intros [= ->]|intros ->|intros [= ->]]; done.
Qed.

#[export] Instance memory_documented : Documented view.
Proof.
  constructor.
  - intros v o. exists (mem_step v o).1, (mem_step v o).2. simpl. by destruct (mem_step v o).
  - intros v o r v'. apply mem_contract.
  - intros p q d _. simpl. by rewrite andb_true_r.
  - intros k x d _ Hx. simpl. rewrite andb_true_r. unfold match_field. simpl.
    rewrite orb_true_iff, eq_scalar_eq by done. split; (intros [Hf|Hf]; [by left|right]).
    + destruct (field d k) as [| | | | |l| |]; try done. exists l. split; [done|].
      apply existsb_exists in Hf as (y & Hin & Hy). apply eq_scalar_eq in Hy as ->; [|done]. by apply list_elem_of_In.
    + destruct Hf as (l & -> & Hin). apply existsb_exists. exists x. split; [by apply list_elem_of_In|].
      by apply eq_scalar_eq.
Qed.

(** ** Running a task to its end *)

Fixpoint mem_run {A} (v : view) (p : prog A) : view * list event * A :=
  match p with
  | Ret a => (v, [], a)
  | Call o k =>
      let '(r, v) := mem_step v o in
      let '(v, tr, a) := mem_run v (k r) in (v, Ev o r :: tr, a)
  end.

Lemma mem_run_traces {A} (p : prog A) : forall v, traces p (mem_run v p).1.2 (mem_run v p).2.
Proof.
  induction p as [a|o k IH]; intros v; cbn [mem_run traces]; [done|].
  destruct (mem_step v o) as [r v1]. specialize (IH r v1). destruct (mem_run v1 (k r)) as [[v2 tr] a].
  by exists r, tr.
Qed.

Section run.
Context `{Runtime} (FOLDER_PATH : jsstr).

Lemma reach_run p : forall v ts src tr,
  reachable FOLDER_PATH (v, ts ++ [mkTask src tr p]) ->
  reachable FOLDER_PATH ((mem_run v p).1.1, ts ++ [mkTask src (tr ++ (mem_run v p).1.2) (Ret (mem_run v p).2)]).
Proof.
  induction p as [c|o k IH]; intros v ts src tr Hr; cbn [mem_run]; [by rewrite app_nil_r|].
  destruct (mem_step v o) as [r v1] eqn:Hs. specialize (IH r v1 ts src (tr ++ [Ev o r])).
  destruct (mem_run v1 (k r)) as [[v2 tr2] c]. cbn [fst snd] in *. rewrite <- app_assoc in IH. apply IH.
  eapply reach_step; [exact Hr|].
  replace (ts ++ [mkTask src (tr ++ [Ev o r]) (k r)])
    with (<[length ts := mkTask src (tr ++ [Ev o r]) (k r)]> (ts ++ [mkTask src tr (Call o k)])).
  - apply step_call; [by rewrite list_lookup_middle|done].
  - rewrite insert_app_r_alt, Nat.sub_diag by lia. done.
Qed.

(** Requests served one after another. *)
Definition serve (s : view * list task) (m : method) (p : jsstr) (h : request -> M unit) (req : request)
  : view * list task :=
  let '(v, tr, c) := mem_run s.1 (h req) in (v, s.2 ++ [mkTask (Request m p req) tr (Ret c)]).

Lemma serve_reachable s m p h req :
  reachable FOLDER_PATH s -> (m, p, h) ∈ routes FOLDER_PATH -> from_server req ->
  reachable FOLDER_PATH (serve s m p h req).
Proof.
  destruct s as [v ts]. intros Hr Hin Hreq. unfold serve.
  pose proof (reach_run (h req) v ts (Request m p req) []) as Hrun. cbn [fst snd].
  destruct (mem_run v (h req)) as [[v' tr] c]. apply Hrun. by eapply reach_step; [|apply step_request].
Qed.
End run.

(** ** A user who uploads a file and asks for it *)

Section sample.
#[local] Existing Instance sample_runtime.

Definition folder : jsstr := js "/tmp/files_manager".
Definition user_id : oid := hex_id 171.
Definition start_view : view :=
  mkView [mkDoc user_id [(js "email", VStr (js "a@b.c")); (js "password", VStr (sha1_hex (js "pw")))]]
    [] {[ auth_key (js "t1") := user_id ]} ∅ [] {[ user_id ]}.

(** The text "hi" in base64. *)
Definition upload_request : request :=
  mkReq None (Some (js "t1"))
    (VObj [(js "name", VStr (js "hi.txt")); (js "type", VStr (js "file")); (js "data", VStr (js "aGk="))])
    [] [] VUndef.
Definition show_request : request := mkReq None (Some (js "t1")) (VObj []) (hex_id 0) [] VUndef.

Definition after_upload : view * list task :=
  serve (start_view, []) POST (js "/files") (postUpload folder) upload_request.
Definition after_show : view * list task := serve after_upload GET (js "/files/:id") getShow show_request.

Lemma after_show_reachable : reachable folder after_show.
Proof.
  unfold after_show, after_upload. apply serve_reachable; [|do 7 right; left|done].
  apply serve_reachable; [|do 6 right; left|done]. apply reach_start. by split_and!.
Qed.

End sample.
End AppMemory.
