(* ===== verification/AppFiles.v ===== *)
(** The stored files of the HTTP application over all reachable states: who
    can see them, and that an upload is kept. *)

From Stdlib Require Import SpecFloat.
From S2P Require Import Prelude Js FilesApp AppTrace AppSystem AppMemory.

#[local] Open Scope Z_scope.

Module AppFiles.
Import Js App AppTrace AppSystem AppMemory.

Lemma lookup_set_prop k k' v ps :
  lookup_prop k (set_prop k' v ps) = if bool_decide (k = k') then v else lookup_prop k ps.
Proof.
  induction ps as [|[k0 w] ps IH]; cbn [set_prop lookup_prop]; [done|].
  destruct (decide (k' = k0)) as [->|H0].
  - rewrite (bool_decide_eq_true_2 (k0 = k0)) by done. cbn [lookup_prop]. by case_bool_decide.
  - rewrite (bool_decide_eq_false_2 (k' = k0)) by done. cbn [lookup_prop]. rewrite IH.
    destruct (decide (k = k')) as [->|H1]; [by rewrite (bool_decide_eq_false_2 (k' = k0)), bool_decide_eq_true_2|].
    by rewrite (bool_decide_eq_false_2 (k = k')).
Qed.

Lemma field_plain d k : k <> js "_id" -> field d k = lookup_prop k (doc_fields d).
Proof. intros Hk. unfold field, doc_value. cbn [prop lookup_prop]. by rewrite bool_decide_eq_false_2. Qed.

(** ** Owners are ids *)

Definition has_owner (d : doc) : Prop := exists o, field d (js "userId") = VId o.
Definition owners_are_ids (v : view) : Prop := Forall has_owner (v_files v).

(** Insertions name an owner by id, updates set [isPublic] only. *)
Definition files_op (o : op) : bool :=
  match o with
  | InsertOne Files _ fields => match lookup_prop (js "userId") fields with VId _ => true | _ => false end
  | UpdateOne _ _ set => forallb (fun p => bool_decide (p.1 = js "isPublic")) set
  | _ => true
  end.

Section files.
Context {W : Type} `{SV : Services W} {DOC : Documented W} `{Runtime}.
Context (FOLDER_PATH : jsstr).

Definition owner_fact (o : op) : result (reply o) -> Prop :=
  match o with
  | FindOne Files q => fun r =>
      match r with Ok (Some d) => matches q d = true /\ has_owner d | _ => True end
  | Aggregate Files q _ _ => fun r =>
      match r with Ok l => Forall (fun d => matches q d = true /\ has_owner d) l | Err => True end
  | _ => fun _ => True
  end.

Lemma update_keeps_field set d k :
  forallb (fun p => bool_decide (p.1 = js "isPublic")) set = true -> k <> js "isPublic" ->
  field (mkDoc (doc_id d) (foldr (fun p => set_prop p.1 p.2) (doc_fields d) set)) k = field d k.
Proof.
  intros Hs Hk. unfold field, doc_value. cbn [prop lookup_prop doc_id doc_fields].
  case_bool_decide; [done|]. induction set as [|[k' x] set IH]; [done|].
  cbn [forallb fst foldr snd] in *. apply andb_true_iff in Hs as [Hs%bool_decide_eq_true_1 Hss].
  rewrite lookup_set_prop, bool_decide_eq_false_2 by congruence. by apply IH.
Qed.

(** How a call can change the stored files. *)
Lemma contract_files v v' o r :
  contract matches v v' o r ->
  v_files v' = v_files v \/
  (exists id fields o', o = InsertOne Files id fields /\ v_files v' = v_files v ++ [mkDoc o' fields]) \/
  (exists q set l1 d l2, o = UpdateOne Files q set /\ v_files v = l1 ++ d :: l2 /\
     v_files v' = l1 ++ mkDoc (doc_id d) (foldr (fun p => set_prop p.1 p.2) (doc_fields d) set) :: l2).
Proof.
  intros Hc. destruct o; cbn [contract] in Hc;
    try (left; clear -Hc; naive_solver).
  - destruct Hc as [[_ ->]|(o & _ & _ & Hc)]; [by left|].
    destruct c; [left; destruct id; destruct_and?; by subst|].
    right; left. exists id, fields, o. destruct id; destruct_and?; by subst.
  - destruct Hc as [->|(l1 & d & l2 & Hd & _ & ->)]; [by left|]. destruct c; [by left|].
    right; right. by eexists _, _, l1, d, l2.
  - left. destruct r; destruct_and?; by subst.
Qed.

Lemma owners_kept v v' o r :
  owners_are_ids v -> files_op o = true -> contract matches v v' o r -> owners_are_ids v' /\ owner_fact o r.
Proof.
  unfold owners_are_ids. intros Hv Ho Hc. split.
  - destruct (contract_files v v' o r Hc)
      as [->|[(id & fs & o' & -> & ->)|(q & set & l1 & d & l2 & -> & Hd & ->)]]; [done|..].
    + apply Forall_app. split; [done|]. apply Forall_singleton. cbn [files_op] in Ho.
      destruct (lookup_prop (js "userId") fs) as [| | | | | | |o] eqn:Hl; try done. exists o.
      by rewrite field_plain.
    + rewrite Hd in Hv. apply Forall_app in Hv as [H1' [Hd' H2']%Forall_cons]. apply Forall_app. split; [done|].
      constructor; [|done]. destruct Hd' as [o Ho']. exists o. by rewrite update_keeps_field.
  - destruct o as [| | | | | |[] q|[]| |[] q| | | | | | | |]; cbn [owner_fact]; try done.
    + destruct Hc as [_ Hc]. destruct r as [[d|]|]; try done. destruct Hc as [Hin Hm].
      rewrite Forall_forall in Hv. by split; [|apply Hv].
    + destruct Hc as [_ Hc]. destruct r as [l|]; [|done]. rewrite Forall_forall in Hv.
      eapply Forall_impl; [exact Hc|]. intros d [Hin Hm]. by split; [|apply Hv].
Qed.

(** ** The string of an id is no id *)

Lemma owner_string_differs d o : has_owner d -> matches [(js "userId", VStr o)] d = false.
Proof using DOC.
  intros [o' Ho]. apply not_true_is_false. intros Hm.
  apply matches_scalar in Hm as [Hf|(l & Hf & _)]; [congruence..|done|done].
Qed.

Lemma owner_query_differs d x o : has_owner d -> matches [x; (js "userId", VStr o)] d = false.
Proof using DOC. intros Hd. rewrite matches_and by done. by rewrite (owner_string_differs d o Hd), andb_false_r. Qed.

Lemma owner_index_empty l x o :
  Forall (fun d => matches [(js "userId", VStr o); x] d = true /\ has_owner d) l -> l = [].
Proof using DOC.
  intros [|d l' [Hm Hd] _]; [done|]. rewrite matches_and, (owner_string_differs d o Hd) in Hm; done.
Qed.

Definition single_routes : list jsstr := [js "/files/:id"; js "/files/:id/publish"; js "/files/:id/unpublish"].

(** What a finished task has not done. *)
Definition hidden (src : source) (tr : list event) (c : completion unit) : Prop :=
  match src with
  | Request m p req =>
      (bool_decide (p ∈ single_routes) = true -> succeeds c = false) /\
      (m = GET -> bool_decide (p = js "/files") = true -> succeeds c = true ->
       c = Return (mkRes 200 (Json (VArr []))))
  | Job _ _ => (exists e, c = Throw e) /\ existsb effectful tr = false
  end.

Ltac explore_safe_with tac :=
  repeat first
    [ solve [tac]
    | progress (cbn [safe pbind mbind M_bind mret M_ret try_catch call lift_string throw thumbnails app files_op owner_fact forallb andb fst])
    | match goal with
      | |- _ /\ (forall r : result _, _) => split; [done|intros [?|] ?]
      | |- safe _ _ ?p _ => split_head p
      end ].
Ltac explore_safe := explore_safe_with fail.

(** A file found by the text of its owner's id contradicts the owner's type. *)
Ltac no_owner :=
  cbv beta iota in *;
  match goal with
  | Hf : matches [_; (_, VStr _)] ?d = true /\ has_owner ?d |- _ =>
      destruct Hf as [Hf Ho]; rewrite (owner_query_differs d _ _ Ho) in Hf; discriminate
  | Hf : _ /\ has_owner ?d, He : negb (strict_eq (field ?d _) _) = false |- _ =>
      destruct Hf as [_ [o Ho]]; rewrite Ho in He; discriminate
  | Hl : Forall _ ?l |- _ =>
      apply owner_index_empty in Hl; subst l; done
  end.

Lemma routes_hidden :
  Forall (fun '(m, p, h) => forall req, from_server req ->
    safe files_op owner_fact (h req) (hidden (Request m p req))) (routes FOLDER_PATH).
Proof using DOC.
  unfold routes. repeat first [apply Forall_nil_2|apply Forall_cons_2].
  all: intros req _; unfold_handlers; explore_safe.
  all: cbn [hidden succeeds status Z.ltb Z.compare Pos.compare Pos.compare_cont].
  all: split; [first [intros _; reflexivity|intros Hp; vm_compute in Hp; discriminate Hp|intros _; no_owner]|].
  all: intros Hm Hp Hs; first [discriminate Hs|discriminate Hm|vm_compute in Hp; discriminate Hp|no_owner].
Qed.

Lemma jobs_hidden u f : safe files_op owner_fact (process (job_data u f)) (hidden (Job u f)).
Proof using DOC.
  unfold_handlers. change (prop (job_data u f) (js "userId")) with (VStr u).
  change (prop (job_data u f) (js "fileId")) with (VStr f). explore_safe_with no_owner; cbn [hidden].
  all: split; [by eexists|done].
Qed.

(** C12: No stored file is ever shown, listed, published or given a thumbnail.
    In every interleaving of requests and jobs from a fresh deployment, a
    request for one file, its publication or its withdrawal never succeeds, a
    listing that succeeds is empty, and every job ends in an exception before
    it has written anything: the owner is stored as an [ObjectId] and looked
    up as a string, which never match. *)
Theorem files_unreachable s t c :
  reachable FOLDER_PATH s -> t ∈ s.2 -> t_prog t = Ret c -> hidden (t_source t) (t_trace t) c.
Proof using DOC.
  apply (finished_safe FOLDER_PATH owners_are_ids files_op owner_fact hidden owners_kept).
  - intros v Hf _. unfold owners_are_ids. by rewrite Hf.
  - done.
  - apply routes_hidden.
  - apply jobs_hidden.
Qed.

End files.

(** The user uploads a file, is answered 201, and is told it does not exist. *)
Lemma files_unreachable_witness :
  exists up show c c', after_show.2 = [up; show] /\ t_prog up = Ret c /\ succeeds c = true /\
    t_source show = Request GET (js "/files/:id") show_request /\
    t_prog show = Ret c' /\ succeeds c' = false.
Proof.
  assert (exists up show c c', after_show.2 = [up; show] /\ t_prog up = Ret c /\ succeeds c = true /\
    t_source show = Request GET (js "/files/:id") show_request /\ t_prog show = Ret c')
    as (up & show & c & c' & Hts & Hp & Hc & Hs & Hp').
  { eexists _, _, _, _. split; [vm_compute; reflexivity|]. by split_and!. }
  pose proof (files_unreachable (H := sample_runtime) folder after_show show c' after_show_reachable) as Hh.
  rewrite Hs, Hts in Hh. destruct (Hh ltac:(right; left) Hp') as [Hsucc _].
  exists up, show, c, c'. split_and!; try assumption. apply Hsucc. vm_compute. reflexivity.
Defined.

End AppFiles.
