(* ===== verification/AppUpload.v ===== *)
(** Uploads are kept: what a successful upload has written stays on disk and in
    the files collection, whatever other requests and jobs do afterwards or in
    between. *)

From Stdlib Require Import SpecFloat.
From S2P Require Import Prelude Js FilesApp AppTrace AppSystem AppMemory AppFiles.

#[local] Open Scope Z_scope.

Module AppUpload.
Import Js App AppTrace AppSystem AppMemory AppFiles.

(** ** File names *)

Definition ends_dat (p : jsstr) : Prop := exists q, p = q ++ js ".dat".

Lemma not_ends_dat q name : length name = 4%nat -> name <> js ".dat" -> ~ ends_dat (q ++ name).
Proof. intros Hl Hn [q' Hq]. by apply app_inj_2 in Hq as [_ ?]. Qed.

Section names.
Context (FOLDER_PATH : jsstr).

Lemma oid_plain o : oid_ok o -> plain_name (o ++ js ".dat").
Proof.
  intros [Hl Hh]. rewrite forallb_forall in Hh.
  assert (forall n, (length n < 24)%nat -> o ++ js ".dat" <> n) as Hlen.
  { intros n Hn Heq. apply (f_equal length) in Heq. rewrite length_app in Heq. lia. }
  split_and!; [|apply Hlen; compute; lia..]. rewrite not_elem_of_app. split; [|by apply (bool_decide_unpack _); vm_compute].
  intros Hin%list_elem_of_In%Hh. done.
Qed.

Lemma file_path_eq o : oid_ok o -> file_path FOLDER_PATH o = path_prefix FOLDER_PATH ++ o ++ js ".dat".
Proof. intros Ho. by apply path_join_plain, oid_plain. Qed.

Lemma file_path_dat o : oid_ok o -> ends_dat (file_path FOLDER_PATH o).
Proof. intros Ho. exists (path_prefix FOLDER_PATH ++ o). by rewrite file_path_eq, app_assoc. Qed.

(** Distinct ids name distinct files. *)
Lemma file_path_inj o o' : oid_ok o -> oid_ok o' -> file_path FOLDER_PATH o = file_path FOLDER_PATH o' -> o = o'.
Proof. intros Ho Ho'. rewrite !file_path_eq by done. by intros ?%app_inv_head%app_inv_tail. Qed.

End names.

(** ** Ownership of a fresh id *)

(** The id a task has generated and not yet used to write its file. *)
Definition next_own (own : option oid) (o : op) : result (reply o) -> option oid :=
  match o with
  | NewObjectId => fun r => match r with Ok id => Some id | Err => own end
  | WriteFile _ _ => fun _ => None
  | _ => fun _ => own
  end.

Definition next_event (own : option oid) (e : event) : option oid :=
  match e with Ev o r => next_own own o r end.
Definition own_after (tr : list event) : option oid := fold_left next_event tr None.
Definition t_own (t : task) : option oid := own_after (t_trace t).

Section upload.
Context {W : Type} `{SV : Services W} {DOC : Documented W} `{Runtime}.
Context (FOLDER_PATH : jsstr).
Notation file_path := (file_path FOLDER_PATH).

(** A program that writes [.dat] files only under an id it owns. *)
Definition may_write (own : option oid) (o : op) : Prop :=
  match o with
  | WriteFile p _ => (exists id, own = Some id /\ p = file_path id) \/ ~ ends_dat p
  | o => files_op o = true
  end.

Fixpoint disciplined {A} (own : option oid) (p : prog A) : Prop :=
  match p with
  | Ret _ => True
  | Call o k => may_write own o /\ (forall r, disciplined (next_own own o r) (k r))
  end.

Ltac explore_disciplined :=
  repeat first
    [ progress (cbn [disciplined pbind mbind M_bind mret M_ret try_catch call lift_string throw thumbnails app may_write files_op
                     next_own forallb andb fst])
    | match goal with
      | |- _ /\ (forall r : result _, _) => split; [|intros [?|]]
      | |- disciplined _ ?p => split_head p
      end ].

Lemma routes_disciplined :
  Forall (fun '(m, p, h) => forall req, disciplined None (h req)) (routes FOLDER_PATH).
Proof.
  unfold routes. repeat first [apply Forall_nil_2|apply Forall_cons_2].
  all: intros req; unfold_handlers; explore_disciplined; try done.
  all: left; eauto.
Qed.

Lemma thumbnail_name_dat base name : length name = 3%nat -> ~ ends_dat (base ++ js "_" ++ name).
Proof.
  intros Hl. apply not_ends_dat; [by rewrite length_app, Hl|]. destruct name; done.
Qed.

Lemma jobs_disciplined data : disciplined None (process data).
Proof.
  unfold_handlers; explore_disciplined; try done.
  all: right; by apply thumbnail_name_dat.
Qed.

(** ** What stays *)

(** The document of an insertion is there, its [isPublic] aside. *)
Definition stored (v : view) (o : oid) (fields : list (jsstr * value)) : Prop :=
  exists d, d ∈ v_files v /\ doc_id d = o /\
    (forall k, k <> js "isPublic" -> field d k = field (mkDoc o fields) k).

Definition kept (v : view) (e : event) : Prop :=
  match e with Ev o r =>
    match o return result (reply o) -> Prop with
    | WriteFile p data => fun r => ends_dat p ->
        (exists id, oid_ok id /\ id ∈ v_issued v /\ p = file_path id) /\
        (r = Ok tt -> v_disk v !! p = Some data)
    | InsertOne Files id fields => fun r =>
        match r with Ok o => stored v o fields /\ (forall i, id = Some i -> o = i) | Err => True end
    | NewObjectId => fun r => match r with Ok id => oid_ok id | Err => True end
    | _ => fun _ => True
    end r
  end.

Definition writes (p : jsstr) (e : event) : Prop :=
  match e with Ev (WriteFile q _) _ => q = p | _ => False end.

(** The invariant of a state. *)
Record uploads_ok (v : view) (ts : list task) : Prop := mkUploads {
  up_disciplined : Forall (fun t => disciplined (t_own t) (t_prog t)) ts;
  up_kept : forall i t e, ts !! i = Some t -> e ∈ t_trace t -> kept v e;
  up_owned : forall i t id, ts !! i = Some t -> t_own t = Some id ->
    oid_ok id /\ id ∈ v_issued v /\
    (forall j t' e, ts !! j = Some t' -> e ∈ t_trace t' -> ~ writes (file_path id) e);
  up_unique : forall i j ti tj id, ts !! i = Some ti -> ts !! j = Some tj ->
    t_own ti = Some id -> t_own tj = Some id -> i = j }.

Lemma contract_issued v v' o r : contract matches v v' o r -> v_issued v ⊆ v_issued v'.
Proof.
  clear DOC. intros Hc. destruct o; cbn [contract] in Hc; try (clear -Hc; naive_solver set_solver).
  - destruct Hc as [[_ ->]|(o & _ & _ & Hc)]; [done|]. destruct id, c; destruct_and?; subst; simpl; set_solver.
  - destruct Hc as [->|(l1 & d & l2 & _ & _ & ->)]; [done|]. by destruct c.
  - destruct r; destruct_and?; subst; simpl; set_solver.
Qed.

(** The disk changes at the path written only. *)
Lemma contract_disk v v' o r p :
  contract matches v v' o r -> ~ writes p (Ev o r) -> v_disk v' !! p = v_disk v !! p.
Proof.
  clear DOC. intros Hc Hp. destruct o; cbn [contract writes] in *; try (clear -Hc; naive_solver).
  - destruct Hc as [[_ ->]|(o & _ & _ & Hc)]; [done|]. destruct id, c; destruct_and?; by subst.
  - destruct Hc as [->|(l1 & d & l2 & _ & _ & ->)]; [done|]. by destruct c.
  - destruct r; destruct_and?; by subst.
  - destruct Hc as [->|[_ [->|[x ->]]]]; [|done|]; simpl; by rewrite lookup_insert_ne.
Qed.

Lemma stored_kept v v' o r id fields :
  files_op o = true -> contract matches v v' o r -> stored v id fields -> stored v' id fields.
Proof.
  clear DOC. intros Ho Hc (d & Hin & Hid & Hf).
  destruct (contract_files v v' o r Hc)
    as [Hv'|[(id' & fs & o' & -> & Hv')|(q & set & l1 & d0 & l2 & -> & Hd & Hv')]].
  - exists d. by rewrite Hv'.
  - exists d. rewrite Hv'. split_and!; [set_solver|done..].
  - rewrite Hd in Hin. apply elem_of_app in Hin as [Hin|[->|Hin]%elem_of_cons].
    2: { eexists. split_and!; [rewrite Hv'; apply elem_of_app; right; by left|done|].
      intros k Hk. rewrite update_keeps_field by done. by apply Hf. }
    all: exists d; split_and!; [rewrite Hv'; set_solver|done..].
Qed.

(** An id is owned after a call because it was before, the call being no
    write, or because the call has just issued it. *)
Lemma next_own_Some v v' own o r id :
  contract matches v v' o r -> next_own own o r = Some id ->
  (forall p, ~ writes p (Ev o r)) /\
  (own = Some id \/ oid_ok id /\ id ∉ v_issued v /\ id ∈ v_issued v').
Proof.
  clear DOC. intros Hc Hn. destruct o; cbn [next_own writes] in *; try done; try (split; [auto|by left]).
  split; [auto|]. destruct r as [id'|]; [|by left]. injection Hn as ->. right. cbn [contract] in Hc.
  destruct Hc as (? & ? & ->). split_and!; [done..|simpl; set_solver].
Qed.

(** A write to a [.dat] file is under the id its task owns. *)
Lemma may_write_own own o r p :
  may_write own o -> writes p (Ev o r) -> ends_dat p -> exists id, own = Some id /\ p = file_path id.
Proof. intros Hm Hw Hp. destruct o; try done. cbn [writes may_write] in *. subst. by destruct Hm. Qed.

Lemma may_write_files own o : may_write own o -> files_op o = true.
Proof. by destruct o. Qed.

Lemma kept_stable v v' own o r e :
  may_write own o -> contract matches v v' o r ->
  (forall id, own = Some id -> ~ writes (file_path id) e) -> kept v e -> kept v' e.
Proof.
  intros Hm Hc Hown He. pose proof (contract_issued v v' o r Hc) as Hi.
  destruct e as [o0 r0]. destruct o0 as [| | | | | | |c id fs| | | | | | |p data| | |]; try done.
  - destruct c; [done|]. cbn [kept] in *. destruct r0; [|done].
    destruct He as [He Hid]. split; [|done]. eapply stored_kept; [by eapply may_write_files|done..].
  - cbn [kept] in *. intros Hp. destruct (He Hp) as [(id & Hid & Hin & ->) Hd]. split.
    { exists id. split_and!; [done|by apply Hi|done]. }
    intros Hr. rewrite (contract_disk v v' o r); [by apply Hd|done|]. intros Hw.
    destruct (may_write_own own o r _ Hm Hw Hp) as (id' & Ho & Heq).
    apply (Hown id' Ho). by cbn [writes].
Qed.

Lemma kept_new v v' own o r :
  may_write own o -> contract matches v v' o r ->
  (forall id, own = Some id -> oid_ok id /\ id ∈ v_issued v) -> kept v' (Ev o r).
Proof.
  intros Hm Hc Hown. pose proof (contract_issued v v' o r Hc) as Hi.
  destruct o as [| | | | | | |c id fs| | | | | | |p data| | |]; try done.
  2: { cbn [kept contract] in *. by destruct r; destruct_and?. }
  - destruct c; [done|]. cbn [kept]. destruct r as [o|]; [|done].
    destruct Hc as [[? _]|(o' & Hr & _ & Hc)]; [done|]. assert (o' = o) as -> by (clear -Hr; naive_solver).
    split; [|intros i ->; by destruct Hc]. exists (mkDoc o fs). split_and!; [|done|done].
    destruct id; destruct_and?; subst; simpl; apply elem_of_app; right; by left.
  - cbn [kept]. intros Hp. destruct (may_write_own own _ r p Hm eq_refl Hp) as (id & Ho & ->).
    destruct (Hown id Ho) as [Hid Hin]. split; [exists id; split_and!; [done|by apply Hi|done]|].
    intros ->. destruct Hc as [->|[? _]]; [|done]. simpl. by rewrite lookup_insert_eq.
Qed.

(** ** The invariant is kept *)

Lemma t_own_snoc src tr o r (p p' : M unit) :
  t_own (mkTask src (tr ++ [Ev o r]) p) = next_own (t_own (mkTask src tr p')) o r.
Proof. unfold t_own, own_after. cbn [t_trace]. by rewrite fold_left_app. Qed.

Section call.
Context (v v' : view) (ts : list task) (i : nat) (src : source) (tr : list event) (o : op)
  (k : result (reply o) -> M unit) (r : result (reply o)).
Hypothesis Hok : uploads_ok v ts.
Hypothesis Hi : ts !! i = Some (mkTask src tr (Call o k)).
Hypothesis Hc : contract matches v v' o r.
Notation old := (mkTask src tr (Call o k)).
Notation new := (mkTask src (tr ++ [Ev o r]) (k r)).

Lemma call_disciplined : may_write (t_own old) o /\ disciplined (t_own new) (k r).
Proof using Hok Hi.
  destruct (Forall_lookup_1 _ _ _ _ (up_disciplined _ _ Hok) Hi) as [Hm Hk].
  split; [done|]. rewrite (t_own_snoc src tr o r _ (Call o k)). apply Hk.
Qed.

(** The events of the new state. *)
Lemma call_events j t e :
  <[i := new]> ts !! j = Some t -> e ∈ t_trace t ->
  e = Ev o r \/ exists j' t', ts !! j' = Some t' /\ e ∈ t_trace t'.
Proof using Hi.
  intros [(<- & <- & _)|[_ Hj]]%list_lookup_insert_Some He; [|eauto].
  apply elem_of_app in He as [He|He%list_elem_of_singleton]; [|by left]. right. by exists i, old.
Qed.

Lemma call_not_written id j t :
  ts !! j = Some t -> t_own t = Some id -> (j = i -> forall p, ~ writes p (Ev o r)) ->
  forall j' t' e, <[i := new]> ts !! j' = Some t' -> e ∈ t_trace t' -> ~ writes (file_path id) e.
Proof using Hok Hi.
  intros Hj Hown Hne j' t' e Hj' He Hw. destruct (up_owned _ _ Hok j t id Hj Hown) as (Hid & _ & Hold).
  destruct (call_events j' t' e Hj' He) as [->|(j2 & t2 & H2 & He2)]; [|by eapply Hold].
  destruct (may_write_own _ _ _ _ (proj1 call_disciplined) Hw (file_path_dat _ _ Hid)) as (id' & Ho' & Heq).
  destruct (up_owned _ _ Hok i old id' Hi Ho') as (Hid' & _ & _).
  apply (file_path_inj FOLDER_PATH id id' Hid Hid') in Heq as <-.
  apply (Hne (up_unique _ _ Hok j i t old id Hj Hi Hown Ho') _ Hw).
Qed.

Lemma call_owned j t id :
  <[i := new]> ts !! j = Some t -> t_own t = Some id ->
  oid_ok id /\ id ∈ v_issued v' /\
  (forall j' t' e, <[i := new]> ts !! j' = Some t' -> e ∈ t_trace t' -> ~ writes (file_path id) e).
Proof using Hok Hi Hc.
  pose proof (contract_issued v v' o r Hc) as Hsub.
  intros [(<- & <- & _)|[Hij Hj]]%list_lookup_insert_Some Hown.
  - rewrite (t_own_snoc src tr o r _ (Call o k)) in Hown.
    destruct (next_own_Some v v' _ o r id Hc Hown) as [Hnw [Ho|(Hid & Hni & Hin)]].
    + destruct (up_owned _ _ Hok i old id Hi Ho) as (Hid & Hin & _). split_and!; [done|by apply Hsub|].
      eapply call_not_written; [exact Hi|done|]. by intros _.
    + split_and!; [done..|]. intros j' t' e Hj' He Hw.
      destruct (call_events j' t' e Hj' He) as [->|(j2 & t2 & H2 & He2)]; [by eapply Hnw|].
      pose proof (up_kept _ _ Hok j2 t2 e H2 He2) as Hk. destruct e as [o0 r0].
      destruct o0; try done. cbn [writes kept] in *. subst.
      destruct (Hk (file_path_dat _ _ Hid)) as [(id' & Hid' & Hin' & Heq) _].
      apply (file_path_inj FOLDER_PATH id id' Hid Hid') in Heq as <-. done.
  - destruct (up_owned _ _ Hok j t id Hj Hown) as (Hid & Hin & _). split_and!; [done|by apply Hsub|].
    eapply call_not_written; [exact Hj|done|]. congruence.
Qed.

Lemma call_keeps : uploads_ok v' (<[i := new]> ts).
Proof using Hok Hi Hc.
  destruct call_disciplined as [Hm Hd].
  constructor.
  - apply Forall_insert; [apply Hok|done].
  - intros j t e Hj He. destruct (call_events j t e Hj He) as [->|(j' & t' & Hj' & He')].
    + eapply kept_new; [done..|]. intros id Ho. by destruct (up_owned _ _ Hok i old id Hi Ho) as (? & ? & _).
    + eapply kept_stable; [done..| |by eapply (up_kept _ _ Hok)].
      intros id Ho. destruct (up_owned _ _ Hok i old id Hi Ho) as (_ & _ & Hn). by eapply Hn.
  - apply call_owned.
  - intros j1 j2 t1 t2 id H1 H2 Ho1 Ho2.
    assert (forall j t, i <> j -> ts !! j = Some t -> t_own t = Some id -> t_own new = Some id -> False) as Hno.
    { intros j t Hij Hj Ho Hn. rewrite (t_own_snoc src tr o r _ (Call o k)) in Hn.
      destruct (up_owned _ _ Hok j t id Hj Ho) as (_ & Hin & _).
      destruct (next_own_Some v v' _ o r id Hc Hn) as [_ [Ho'|(_ & Hni & _)]]; [|done].
      apply Hij. by eapply (up_unique _ _ Hok). }
    apply list_lookup_insert_Some in H1 as [(<- & <- & _)|[Hi1 H1]];
      apply list_lookup_insert_Some in H2 as [(<- & <- & _)|[Hi2 H2]]; try done.
    + by destruct (Hno j2 t2).
    + by destruct (Hno j1 t1).
    + by eapply (up_unique _ _ Hok).
Qed.
End call.

Lemma arrive_keeps v ts src p :
  uploads_ok v ts -> disciplined None p -> uploads_ok v (ts ++ [mkTask src [] p]).
Proof.
  intros Hok Hp.
  assert (forall j t, (ts ++ [mkTask src [] p]) !! j = Some t -> ts !! j = Some t \/ t = mkTask src [] p) as Hj.
  { intros j t [Hj|[_ Hj]]%lookup_app_Some; [by left|]. right. by apply list_lookup_singleton_Some in Hj as [_ <-]. }
  constructor.
  - apply Forall_app. split; [apply Hok|]. by apply Forall_singleton.
  - intros j t e [Ht| ->]%Hj He; [by eapply (up_kept _ _ Hok)|]. by apply elem_of_nil in He.
  - intros j t id [Ht| ->]%Hj Ho; [|done]. destruct (up_owned _ _ Hok j t id Ht Ho) as (? & ? & Hn).
    split_and!; [done..|]. intros j' t' e [Ht'| ->]%Hj He; [by eapply Hn|]. by apply elem_of_nil in He.
  - intros j1 j2 t1 t2 id [H1| ->]%Hj [H2| ->]%Hj Ho1 Ho2; try done. by eapply (up_unique _ _ Hok).
Qed.

Lemma kept_expire v m e : kept v e -> kept (set_cache v m) e.
Proof. by destruct e as [[] r]. Qed.

Lemma reachable_uploads s : reachable FOLDER_PATH s -> uploads_ok (view_of s.1) s.2.
Proof using DOC.
  induction 1 as [[w ts] (_ & _ & Ht)|s s' _ IH Hs].
  - simpl in *. subst. by constructor.
  - destruct Hs as [w ts m p h req Hin _|w ts u f Hj|w ts i src tr o k r w' Hi Hx|w ts w' m Hm Hv]; simpl in *.
    + apply arrive_keeps; [done|]. pose proof routes_disciplined as Hr. rewrite Forall_forall in Hr.
      apply (Hr _ Hin).
    + apply arrive_keeps; [done|]. apply jobs_disciplined.
    + eapply call_keeps; [done..|]. by apply exec_contract.
    + rewrite Hv. destruct IH as [Hd Hk Ho Hu]. constructor; [done| |done|done].
      intros i t e Hi He. by apply kept_expire, (Hk i t).
Qed.

(** ** Successful uploads *)

(** What a successful upload of a file has done. *)
Definition uploaded (req : request) (tr : list event) (c : completion unit) : Prop :=
  forall r, c = Return r -> status r = 201 -> is_type (prop (body req) (js "type")) (js "folder") = false ->
  exists id o data fields,
    r = mkRes 201 (Json (VObj ((js "_id", VId id) :: fields))) /\
    Ev NewObjectId (Ok id) ∈ tr /\ Ev (WriteFile (file_path id) data) (Ok tt) ∈ tr /\
    Ev (InsertOne Files (Some id) fields) (Ok o) ∈ tr /\
    (forall s, prop (body req) (js "data") = VStr s -> data = base64_decode s) /\
    lookup_prop (js "localPath") fields = VStr (file_path id) /\
    Forall (fun k => lookup_prop k fields = prop (body req) k) [js "name"; js "type"].

Lemma postUpload_uploaded req : wp (postUpload FOLDER_PATH req) (uploaded req).
Proof.
  unfold_handlers; explore; intros r [= <-]; cbn [status]; intros Hs Hf; try discriminate Hs.
  all: try congruence.
  all: repeat match goal with u : reply (WriteFile _ _) |- _ => destruct u end.
  all: eexists _, _, _, _; split_and!; [reflexivity| | | | |reflexivity|].
  all: try (repeat first [apply list_elem_of_here|apply list_elem_of_further]).
  all: try (intros ? Hs'; congruence).
  all: repeat first [apply Forall_nil_2|apply Forall_cons_2]; reflexivity.
Qed.

Definition upload_source (Q : request -> list event -> completion unit -> Prop) (src : source)
    (tr : list event) (c : completion unit) : Prop :=
  match src with
  | Request POST p req => p = js "/files" -> Q req tr c
  | _ => True
  end.

Lemma uploads_uploaded s t c :
  reachable FOLDER_PATH s -> t ∈ s.2 -> t_prog t = Ret c ->
  upload_source uploaded (t_source t) (t_trace t) c.
Proof using DOC.
  apply finished_traces; [|intros u f; by apply wp_true].
  unfold routes. repeat first [apply Forall_nil_2|apply Forall_cons_2]; intros req _.
  all: try solve [apply wp_true; intros tr a; first [exact I|intros Hp; vm_compute in Hp; discriminate Hp]].
  eapply wp_mono; [|apply postUpload_uploaded]. intros tr a Hu _. exact Hu.
Qed.

(** C3: A successful upload is kept.  In every reachable state, for every
    upload of a file or image that was answered 201, the disk holds at the
    path of the answered document exactly the bytes decoded from the request,
    and the files collection holds the document, with its name, type, owner
    and path: no other upload, publication or job, before or after, replaces
    or removes them. *)
Theorem uploads_kept s t req r :
  reachable FOLDER_PATH s -> t ∈ s.2 -> t_source t = Request POST (js "/files") req ->
  t_prog t = Ret (Return r) -> status r = 201 ->
  is_type (prop (body req) (js "type")) (js "folder") = false ->
  exists id data fields,
    r = mkRes 201 (Json (VObj ((js "_id", VId id) :: fields))) /\
    (forall b, prop (body req) (js "data") = VStr b -> data = base64_decode b) /\
    v_disk (view_of s.1) !! file_path id = Some data /\
    stored (view_of s.1) id fields /\
    lookup_prop (js "localPath") fields = VStr (file_path id) /\
    Forall (fun k => lookup_prop k fields = prop (body req) k) [js "name"; js "type"].
Proof using DOC.
  intros Hr Ht Hsrc Hp Hst Hty. pose proof (uploads_uploaded s t _ Hr Ht Hp) as Hu.
  rewrite Hsrc in Hu. destruct (Hu eq_refl r eq_refl Hst Hty) as 
    (id & o & data & fields & -> & Hn & Hw & Hi & Hd & Hl & Hf).
  pose proof (reachable_uploads s Hr) as Hok. apply list_elem_of_lookup_1 in Ht as [i Ht].
  pose proof (up_kept _ _ Hok i t _ Ht Hw) as Kw. pose proof (up_kept _ _ Hok i t _ Ht Hi) as [Hs Ho].
  rewrite (Ho id eq_refl) in Hs. exists id, data, fields. split_and!; try done.
  apply Kw; [|done]. apply file_path_dat. exact (up_kept _ _ Hok i t _ Ht Hn).
Qed.

End upload.

(** The upload of [AppMemory], still on disk after the next request. *)
Lemma uploads_kept_witness :
  exists id, v_disk after_show.1 !! file_path folder id = Some [104; 105] /\
    lookup_prop (js "name") (doc_fields (default (mkDoc [] []) (head (v_files after_show.1)))) = VStr (js "hi.txt").
Proof.
  assert (exists up show, after_show.2 = [up; show] /\ t_source up = Request POST (js "/files") upload_request /\
    exists r, t_prog up = Ret (Return r) /\ status r = 201) as (up & show & Hts & Hsrc & r & Hp & Hst).
  { eexists _, _. split; [vm_compute; reflexivity|]. split; [reflexivity|]. eexists. split; reflexivity. }
  destruct (uploads_kept (H := sample_runtime) folder after_show up upload_request r)
    as (id & data & fields & _ & Hd & Hdisk & _).
  - exact after_show_reachable.
  - rewrite Hts. left.
  - exact Hsrc.
  - exact Hp.
  - exact Hst.
  - vm_compute. reflexivity.
  - exists id. split; [|vm_compute; reflexivity]. rewrite (Hd (js "aGk=") eq_refl) in Hdisk. exact Hdisk.
Defined.

End AppUpload.
