(* ===== verification/AppSession.v ===== *)
(** Logging in, being recognised and logging out: what a session does when no
    service fails, and what the login makes of the credentials. *)

From Stdlib Require Import SpecFloat.
From S2P Require Import Prelude Js FilesApp AppTrace AppSystem AppMemory.

#[local] Open Scope Z_scope.

Module AppSession.
Import Js App AppTrace AppSystem AppMemory.

Definition is_ascii (s : jsstr) : Prop := Forall (fun c => 0 <= c < 128) s.

(** The header of a client that logs in with [email] and [password]. *)
Definition basic (email password : jsstr) : jsstr :=
  js "Basic " ++ base64_encode (email ++ 58 :: password).

Definition connect_request (email password : jsstr) : request :=
  mkReq (Some (basic email password)) None (VObj []) [] [] VUndef.
Definition token_request (token : jsstr) : request :=
  mkReq None (Some token) (VObj []) [] [] VUndef.

Section session.
Context {W : Type} `{SV : Services W} {DOC : Documented W} `{RT : Runtime} {B64 : RuntimeBase64}.

(** ** Credentials *)

Lemma is_ascii_bytes s : is_ascii s -> Forall is_byte s.
Proof. intros Hs. eapply Forall_impl; [exact Hs|]. unfold is_byte. intros c Hc. lia. Qed.

(** The address is what precedes the first colon, the password what is
    between the first two. *)
Lemma credentials_basic email password :
  is_ascii email -> is_ascii password -> 58 ∉ email ->
  credentials (basic email password) = (Some email, split 58 password !! 0%nat).
Proof using B64.
  intros He Hp Hc. unfold credentials, basic.
  change (js "Basic " ++ base64_encode (email ++ 58 :: password))
    with (js "Basic" ++ 32 :: base64_encode (email ++ 58 :: password)).
  rewrite split_app by (by apply (bool_decide_unpack _); vm_compute).
  rewrite (split_none 32) by apply base64_encode_plain.
  change (default [] ([js "Basic"; base64_encode (email ++ 58 :: password)] !! 1%nat))
    with (base64_encode (email ++ 58 :: password)).
  assert (is_ascii (email ++ 58 :: password)) as Ha.
  { apply Forall_app. split; [done|]. constructor; [lia|done]. }
  rewrite base64_inverts, ascii_string_id, split_app by (done || by apply is_ascii_bytes). done.
Qed.

Lemma basic_startsWith email password : startsWith (basic email password) (js "Basic ") = true.
Proof. apply startsWith_app. Qed.

Lemma given_basic email password : given (Some (basic email password)) = Some (basic email password).
Proof. done. Qed.

(** C32: Passwords end at a colon.  A login with the password [p:q] is the same
    program as a login with the password [p]: whoever registered a password
    with a colon cannot log in with it. *)
Theorem colon_cuts_password email p q :
  is_ascii email -> is_ascii p -> is_ascii q -> 58 ∉ email -> 58 ∉ p ->
  getConnect (connect_request email (p ++ 58 :: q)) = getConnect (connect_request email p).
Proof using B64.
  intros He Hp Hq Hce Hcp. unfold getConnect, connect_request. cbn [authorization].
  rewrite !given_basic, !basic_startsWith. cbn [negb].
  assert (is_ascii (p ++ 58 :: q)) as Hpq.
  { apply Forall_app. split; [done|]. constructor; [lia|done]. }
  rewrite !credentials_basic, split_app, (split_none 58 p) by done. done.
Qed.

(** ** Runs without failures *)

Fixpoint runs {A} (w : W) (p : prog A) (a : A) (w' : W) : Prop :=
  match p with
  | Ret b => a = b /\ w' = w
  | Call o k => exists x w1, exec w o (Ok x) w1 /\ runs w1 (k (Ok x)) a w'
  end.

(** The client of MongoDB is connected. *)
Definition connected : Prop := forall w b w', exec w DbHandle (Ok b) w' -> b = true.

(** Every account of this address has this password, and there is one. *)
Definition registered (v : view) (email password : jsstr) : Prop :=
  Forall (fun d => matches [(js "email", VStr email)] d = true ->
                   field d (js "password") = VStr (sha1_hex password)) (v_users v) /\
  Exists (fun d => matches [(js "email", VStr email)] d = true) (v_users v).

Hypothesis db : connected.

Ltac run_step Hr x w Hx :=
  destruct Hr as (x & w & Hx & Hr);
  try (assert (x = true) as -> by exact (db _ _ _ Hx));
  apply exec_contract in Hx; cbn [contract v_docs] in Hx;
  cbn [runs pbind mbind M_bind mret M_ret try_catch given] in Hr.

Lemma connect_runs w email password c w' :
  is_ascii email -> is_ascii password -> email <> [] -> password <> [] -> 58 ∉ email -> 58 ∉ password ->
  registered (view_of w) email password ->
  runs w (getConnect (connect_request email password)) c w' ->
  exists token id, c = Return (mkRes 200 (Json (VObj [(js "token", VStr token)]))) /\ token <> [] /\
    oid_ok id /\ id ∉ doc_id <$> v_users (view_of w) /\
    v_users (view_of w') = v_users (view_of w) ++
      [mkDoc id [(js "email", VStr email); (js "password", VStr (sha1_hex password))]] /\
    v_cache (view_of w') !! auth_key token = Some id /\ id ∈ v_issued (view_of w').
Proof using db DOC B64.
  intros Ha Hpa Hne Hpn Hce Hcp [Hall Hex]. unfold getConnect, connect_request. cbn [authorization].
  rewrite given_basic, basic_startsWith, credentials_basic, split_none by done. cbn [negb lookup list_lookup].
  destruct email as [|e0 email]; [done|]. destruct password as [|p0 password]; [done|]. cbn [given].
  set (email' := e0 :: email) in *. set (password' := p0 :: password) in *.
  unfold_handlers. cbn [runs pbind mbind M_bind mret M_ret try_catch].
  intros Hr. run_step Hr b w1 Hv1. run_step Hr u w2 Hu. rewrite Hv1 in Hu. destruct Hu as [Hv2 Hu].
  destruct u as [u|].
  2: { rewrite Exists_exists in Hex. destruct Hex as (d & Hin & Hd). rewrite Forall_forall in Hu.
       rewrite (Hu d Hin) in Hd. done. }
  destruct Hu as [Hin Hm]. rewrite Forall_forall in Hall. rewrite (Hall u Hin Hm) in Hr. cbn [strict_eq] in Hr.
  rewrite bool_decide_eq_true_2 in Hr by done. cbn [negb pbind runs] in Hr.
  run_step Hr token w3 Htok. run_step Hr b w4 Hv4. run_step Hr uid w5 Hid. run_step Hr x w6 Hset.
  destruct Hr as [-> ->]. destruct Htok as [Hv3 Htok]. rewrite Hv4, Hv3, Hv2 in Hid.
  destruct Hid as [[? _]|(o & Ho & Hni & Hok & Hnu & Hv5)]; [done|].
  assert (o = uid) as -> by (destruct Ho as [[=]|]; congruence).
  destruct Hset as [Hset|[? _]]; [|done]. exists token, uid. rewrite Hset, Hv5.
  split_and!; [done|by apply Htok|done..| |].
  - cbn [set_cache v_cache]. by rewrite lookup_insert_eq.
  - simpl. set_solver.
Qed.

(** A query by id finds the document of that id. *)
Lemma matches_id d o : matches [(js "_id", VId o)] d = true <-> doc_id d = o.
Proof using DOC.
  rewrite matches_scalar by done. change (field d (js "_id")) with (VId (doc_id d)).
  split; [|by intros ->; left]. by intros [[= ->]|(l & ? & _)].
Qed.

Lemma me_runs w token d c w' :
  token <> [] -> v_cache (view_of w) !! auth_key token = Some (doc_id d) ->
  doc_id d <> [] -> doc_id d ∈ v_issued (view_of w) -> d ∈ v_users (view_of w) ->
  (forall d', d' ∈ v_users (view_of w) -> doc_id d' = doc_id d -> d' = d) ->
  runs w (getMe (token_request token)) c w' ->
  c = Return (mkRes 200 (Json (VObj [(js "id", VId (doc_id d)); (js "email", field d (js "email"))]))).
Proof using db DOC.
  intros Ht Hc Hne His Hin Huniq. unfold getMe, token_request. cbn [x_token].
  destruct token as [|t0 token]; [done|]. cbn [given]. set (tk := t0 :: token) in *.
  unfold_handlers. cbn [runs pbind mbind M_bind mret M_ret try_catch]. intros Hr.
  run_step Hr uid w1 H1. destruct H1 as [Hv1 H1]. rewrite (H1 _ eq_refl), Hc in Hr.
  destruct (doc_id d) as [|i0 i] eqn:Hi; [done|]. cbn [given pbind runs] in Hr. rewrite <- Hi in *.
  run_step Hr o w2 H2. destruct H2 as (iss & _ & Hv2 & H2). rewrite Hv1 in *.
  injection (H2 _ eq_refl His) as ->. run_step Hr b w3 Hv3. run_step Hr u w4 H4. destruct H4 as [_ H4].
  rewrite Hv3, Hv2 in H4. cbn [v_users set_issued] in H4. destruct u as [u|].
  2: { rewrite Forall_forall in H4. specialize (H4 d Hin). by rewrite (proj2 (matches_id d _)) in H4. }
  destruct H4 as [Hu Hm%matches_id]. rewrite (Huniq u Hu Hm) in Hr. by destruct Hr as [-> _].
Qed.

Lemma me_gone w token c w' :
  v_cache (view_of w) !! auth_key token = None ->
  runs w (getMe (token_request token)) c w' -> c = Return (mkRes 401 (Json (VObj [(js "error", VStr UNAUTHORIZED)]))).
Proof using DOC.
  intros Hc. unfold getMe, token_request. cbn [x_token]. destruct token as [|t0 token]; cbn [given].
  { unfold_handlers. cbn [runs]. by intros [-> _]. }
  unfold_handlers. cbn [runs pbind mbind M_bind mret M_ret try_catch]. intros (u & w1 & [_ H1]%exec_contract & Hr).
  rewrite (H1 _ eq_refl), Hc in Hr. by destruct Hr as [-> _].
Qed.

Lemma disconnect_runs w token uid c w' :
  token <> [] -> uid <> [] -> v_cache (view_of w) !! auth_key token = Some uid ->
  runs w (getDisconnect (token_request token)) c w' ->
  c = Return (mkRes 204 (Json VUndef)) /\ v_cache (view_of w') !! auth_key token = None.
Proof using DOC.
  intros Ht Hu Hc. unfold getDisconnect, token_request. cbn [x_token].
  destruct token as [|t0 token]; [done|]. cbn [given]. set (tk := t0 :: token) in *.
  unfold_handlers. cbn [runs pbind mbind M_bind mret M_ret try_catch]. intros (x & w1 & [Hv1 H1]%exec_contract & Hr).
  rewrite (H1 _ eq_refl), Hc in Hr. destruct uid as [|i0 uid]; [done|]. cbn [given pbind runs] in Hr.
  destruct Hr as (n & w2 & H2%exec_contract & -> & ->). split; [done|]. cbn [contract] in H2.
  destruct H2 as [->|[? _]]; [|done]. rewrite Hv1. cbn [set_cache v_cache]. apply lookup_delete_eq.
Qed.


End session.

(** ** Examples *)

Section examples.
#[local] Existing Instance sample_runtime.
#[local] Existing Instance sample_runtime_base64.

Definition ok_event (e : event) : bool := match e with Ev _ (Ok _) => true | Ev _ Err => false end.

Lemma mem_runs {A} (p : prog A) : forall v,
  forallb ok_event (mem_run v p).1.2 = true -> runs v p (mem_run v p).2 (mem_run v p).1.1.
Proof.
  induction p as [a|o k IH]; intros v; cbn [mem_run runs]; [done|].
  destruct (mem_step v o) as [r v1] eqn:Hs. specialize (IH r v1).
  destruct (mem_run v1 (k r)) as [[v2 tr] a]. cbn [fst snd forallb ok_event] in *.
  destruct r as [x|]; [|done]. intros Hf. exists x, v1. split; [exact Hs|by apply IH].
Qed.

Lemma memory_connected : connected (W := view).
Proof. intros v b v'. cbn. by intros [= <- _]. Qed.

Lemma colon_cuts_password_witness :
  getConnect (connect_request (js "a@b.c") (js "pw:x")) = getConnect (connect_request (js "a@b.c") (js "pw")).
Proof.
  apply (colon_cuts_password (js "a@b.c") (js "pw") (js "x")); apply (bool_decide_unpack _); vm_compute; exact I.
Defined.

Definition sample_login : M unit := getConnect (connect_request (js "a@b.c") (js "pw")).

Lemma sample_login_runs : runs start_view sample_login (mem_run start_view sample_login).2 (mem_run start_view sample_login).1.1.
Proof. apply mem_runs. vm_compute. reflexivity. Qed.

Lemma sample_registered : registered start_view (js "a@b.c") (js "pw").
Proof. split; [by repeat constructor|]. left. vm_compute. reflexivity. Qed.


End examples.
End AppSession.
